(* ===== verification/_CoqProject ===== *)
-Q . S2P
Prelude.v
GoTime.v
Types.v
Externals.v
World.v
Keeper.v
Queues.v
ValSets.v
Valset.v
ValsetProofs.v
FeePool.v
FeePoolProofs.v
Invariants.v
Fees.v
FeesProofs.v
KeyAssignment.v
Lifecycle.v
LifecycleProofs.v
Downtime.v
DowntimeProofs.v
Equivocation.v
GrpcQuery.v
GrpcQueryProofs.v
LivenessProofs.v
Rotation.v
RotationProofs.v
ConsumerWorld.v
Demo.v
Consumer.v
ConsumerQuery.v
AppModules.v
ConsumerGenesis.v
ConsumerDowntimeProofs.v
Ante.v
AnteProofs.v
ConsumerValset.v
ConsumerRun.v
ConsumerRestart.v
ConsumerStart.v
Protocol.v
Launch.v
Msgs.v
Genesis.v
MsgServer.v
Provider.v
PhaseProofs.v
GenesisProofs.v
GenesisStart.v
GenesisRoundTrip.v
Restart.v
SystemProofs.v
EquivocationProofs.v
Scene.v
ProtocolWitnesses.v
ProviderWitnesses.v
EquivocationWitnesses.v
AnteWitnesses.v
GenesisWitnesses.v
ConsumerWitnesses.v
QueryWitnesses.v
