(* ===== verification/Prelude.v ===== *)
(** Verification of VAAS, Validator-as-a-Service: the provider and consumer
    modules (src/x/vaas) that let a provider chain's validators run other chains.

    ** The program

    The provider keeps a registry of consumer chains. Each moves through a
    lifecycle (registered, initialized, launched, possibly paused, stopped,
    deleted); every epoch the provider recomputes the validator set of each
    launched consumer and sends it over IBC v2 as a packet, a diff or a whole
    snapshot. A consumer applies what it accepts at the end of its block, tracks
    the blocks its validators miss, and reports windows with too many misses
    back. The provider prices an accusation at once, holds it behind a challenge
    window, and slashes when nobody disproves it; double voting is punished on
    proof, a light-client attack is submitted to the client and pauses the
    consumer.
    Consumers pay from prepaid fee pools whose depositors hold shares.
    Validators may use another consensus key per consumer and may rotate their
    provider key. A consumer restricts transactions by an ante chain.

    ** The model

    A keeper method is an action of the monad [M W A] below: it reads the block
    context, threads the store [W], and ends in a value, an error or a panic,
    always with the store it leaves, because in Go the writes made before an
    error stay unless a cached context drops them ([cached]). A method that only
    reads is a function of the store, used through [gets]. Collections are
    stdpp maps; iteration is in key order ([iterate]). Consumer ids are [N],
    heights, amounts and instants [Z], the latter in nanoseconds since the year
    1; 64-bit arithmetic that can wrap is written with [wrap64] or a modulus.
    Everything outside the repository is a parameter: decimals ([LegacyDec]),
    keys ([Keys]), the provider's other keepers ([Externals]), the consumer's
    ([ConsumerExternals]), the SDK's decorators; what is relied on of them is
    stated by law classes ([BankLaws], [PayoutLaws], [SlashingLaws],
    [LegacyDecLaws], [KeyLaws], [PacketLog], [SdkLaws], [GenesisLaws],
    [ConsumerLaws], [QueryLaws]), all
    instantiated in [Demo] and the witness files.

    ** The files

    - [Prelude]: results, the monad, its loop, preservation and total-run rules
      and tactics, ordered iteration, sums, 64-bit integers.
    - [GoTime]: time.Time, and the store's encoding of it
      (timeToBytes, bytesToTime of provider/keeper/keeper.go).
    - [Types], [ValSets]: x/vaas/types (wire.go, utils.go, params.go,
      shared_params.go) and the enumerations and parameters of provider/types;
      validator sets as maps, which specify both modules.
    - [Externals], [ConsumerExternals] in [ConsumerWorld]: the interfaces.
    - [World], [Keeper]: the provider's store and its accessors
      (provider/keeper/keeper.go, permissionless.go, debt.go, params.go).
    - [Queues]: the three time queues behind one interface.
    - [Valset], [ValsetProofs]: validator_set_update.go, relay.go.
    - [FeePool], [FeePoolProofs]: fee_pool_shares.go; [Invariants]: invariants.go.
    - [Fees], [FeesProofs]: fees.go.
    - [KeyAssignment]: key_assignment.go, with its proofs.
    - [Lifecycle], [LifecycleProofs]: consumer_lifecycle.go.
    - [Downtime], [DowntimeProofs]: downtime.go, downtime_slash.go,
      downtime_challenge.go.
    - [Equivocation], [EquivocationProofs]: consumer_equivocation.go.
    - [Rotation], [RotationProofs]: cons_pubkey_rotation.go, its hook and its
      ante check.
    - [Msgs], [MsgServer]: provider/types/msg.go, keeper/msg_server.go.
    - [Provider]: module.go, ibc_module.go, hooks.go, send_restriction.go, and
      one step of the provider chain; [PhaseProofs] and [SystemProofs] prove the
      invariants of all its steps.
    - [Genesis]: provider/types/genesis.go and keeper/genesis.go;
      [GenesisProofs] runs the import, [GenesisStart] shows the states it can
      start in, [GenesisRoundTrip] and [Restart] the contract of a state-export
      restart.
    - [ConsumerWorld], [Consumer]: the consumer module (keeper/*.go, module.go,
      ibc_module.go); [ConsumerValset] and [ConsumerDowntimeProofs] its proofs;
      [ConsumerRun] the invariant of everything it does.
    - [ConsumerGenesis]: consumer/types/genesis.go and keeper/genesis.go;
      [ConsumerStart] the states it starts in, [ConsumerRestart] its restart.
    - [GrpcQuery], [GrpcQueryProofs]: provider/keeper/grpc_query.go;
      [LivenessProofs]: the liveness sweep does what that query announces;
      [ConsumerQuery]: grpc_query.go, provider_info.go and grpc_staking_query.go
      of consumer/keeper, and the staking keeper of its validators.go.
    - [AppModules]: the modules x/vaas/no_valupdates_*, app/ibcshim, and
      app/consumer/export.go.
    - [Ante], [AnteProofs]: consumer/ante and app/consumer/ante_handler.go.
    - [Protocol]: both modules and a lossy network between them; [Launch]: how a
      launch sets it up.
    - [Demo], [Scene] and the [*Witnesses] files: a concrete instance of every
      interface, a small history on it, and the theorems applied there.

    ** The theorems

    - Replication: a step relation over provider, consumer and network refines
      the specification that a consumer which processed the last packet holds
      the set the provider stored; diffs only ever meet the state they were
      computed against; diff, snapshot and accumulation are correct as
      operations on sets; no accepted packet empties the set; packets of other
      clients and stale ones change nothing; a failed send keeps its queue.
    - The consumer's life: a valid genesis starts a running consumer, the one a
      launch makes on the set the provider stored; nothing it sees stops its
      block hooks or empties its set, but for an accepted packet with a window so
      large that its bitmap length overflows; exporting and importing is a fixed
      point.
    - Lifecycle: every run moves phases along the documented edges, with the
      spawn queue in agreement; pausing, resuming, deleting have exactly their
      documented effects (a resume sends the set of that moment, a deletion
      touches no record of another consumer); a silent consumer is stopped exactly when the liveness
      query says so; the time queues hand out what is due, in order.
    - Money: the share ledger adds up through every step, which is what the
      registered invariant asks of it beside balances; draws, quotes and sweeps
      are exact; distribution, pool by pool, and withdrawal never touch escrowed
      fees.
    - Accusations: a height is accepted once, across pruning and (but for one
      identity) rotation; slashes are capped; a challenge disproves an accusation
      against the signing validator itself and cancels all or nothing;
      infractions are punished once; attacks are contained. A consumer reports
      exactly the windows and blocks its validators missed, in a bounded queue.
    - Keys: assignment and its pruning keep both maps in agreement, leak no
      reverse entry and leave no two validators on one address; a replaced address
      lasts until its pruning; rotation carries everything along where the
      validator has a key of its own.
    - Provider genesis: a valid genesis starts a chain in the states the invariants
      assume; exporting and importing is a fixed point on the exportable states
      (the conditions are spelled out in [exportable], and not all reachable
      states meet them), rebuilds the queues, and hands CometBFT and the
      consumers consistent sets; some exports fail their own validation.
    - Queries: the paged list of fee-pool claims holds every single claim once
      and fits the pool; the key queries are inverse to each other; a consumer
      serves the historical infos of exactly the blocks none since dropped.
    - Admission: the consumer's ante chain decides one declarative policy, and
      relayer and governance traffic is never locked out.

    ** Bounds and fuel

    Loops over collections are structural. [prune_historical] counts down from
    the height, as the code's loop does; [blank] strips one byte at least per
    round, with the length as fuel. [walk_claims] asks for a page per unit of
    fuel, and as much fuel as there are share records (and one at least) is
    enough. The loops of [Queues] recurse on the list of due buckets.

    ** Not modelled

    Failures of the key-value store, events, logs, telemetry and gas; protobuf
    and JSON coding (a field holding encoded data appears as what it decodes
    to); the panic of [math.Int] above 256 bits. Whole components left out, with
    the reason, are listed in the manifest: command line (input and output),
    the construction of the applications, generated code, test utilities. *)
From Stdlib Require Export ZArith Lia.
From stdpp Require Export base gmap strings sorting option list.

#[export] Set Warnings "-clear-no-such-hyp".

Create HintDb vaas discriminated.

Declare Scope vaas_scope.
Delimit Scope vaas_scope with vaas.
#[global] Open Scope Z_scope.

(** ** Results

    A Go call either returns normally, returns a non-nil [error], or panics.
    [Err] carries the sentinel the code wraps; the formatted message is not
    modelled. *)
Inductive error :=
  | ErrUnknownConsumerId | ErrConsumerKeyInUse | ErrCannotAssignDefaultKeyAssignment
  | ErrInvalidConsumerClient | ErrNoUnbondingTime | ErrUnauthorized | ErrInvalidPhase
  | ErrInvalidConsumerMetadata | ErrInvalidConsumerInitializationParameters
  | ErrNoOwnerAddress | ErrInvalidNewOwnerAddress | ErrInvalidMsgUpdateConsumer
  | ErrDuplicateChainId | ErrPoolEmpty | ErrInvalidFundDenom | ErrDepositTooSmall
  | ErrSubShareWithdraw | ErrNoSharesForDepositor | ErrDepositBelowMinimum
  | ErrFeePoolLocked | ErrDowntimeChallengeFailed | ErrConsumerClientNotActive
  | ErrForkEvidenceStillVerifiable | ErrProviderChainId | ErrUnsolicitedFeePoolDeposit
  | ErrInvalidPacketData | ErrInvalidConsumerState | ErrInvalidProviderClient
  | ErrEmptyValidatorSet | ErrInvalidSigner | ErrInvalidRequest
  | ErrInvalidDoubleVotingEvidence | ErrInvalidMisbehaviour
  | ErrConsumerInDebt | ErrInvalidFeeDenom | ErrInsufficientFee | ErrTxDecode
  | ErrValidatorTombstoned   (* x/slashing's, the one external error told apart *)
  | ErrExternal   (* an error returned by a keeper outside the repository *)
  | ErrOther (what : string).

#[global] Instance error_eq_dec : EqDecision error.
Proof. solve_decision. Defined.

Inductive result (A : Type) :=
  | Ok (a : A)
  | Err (e : error)
  | Panic.
Arguments Ok {_} _.
Arguments Err {_} _.
Arguments Panic {_}.

Definition is_ok {A} (r : result A) : bool :=
  match r with Ok _ => true | _ => false end.

(** ** Block context

    What [sdk.Context] supplies: block time (nanoseconds since year 1, see
    [GoTime]), block height and the chain's own id. *)
Record Ctx := mkCtx {
  BlockTime : Z;
  BlockHeight : Z;
  ChainID : string;
}.

(** ** The keeper monad

    A keeper method reads the context and threads the store. The store is
    returned on every outcome, because in Go the writes made before an error
    stay in the context unless the caller discards it; [cached] is
    [ctx.CacheContext] followed by [writeFn] on success only. *)
Definition M (W A : Type) : Type := Ctx → W → result A * W.

#[global] Instance M_ret {W} : MRet (M W) := λ A a _ w, (Ok a, w).
#[global] Instance M_bind {W} : MBind (M W) := λ A B f m c w,
  match m c w with
  | (Ok a, w') => f a c w'
  | (Err e, w') => (Err e, w')
  | (Panic, w') => (Panic, w')
  end.
#[global] Instance M_fmap {W} : FMap (M W) := λ A B f m, m ≫= λ a, mret (f a).

Section monad.
Context {W : Type}.

Definition raise {A} (e : error) : M W A := λ _ w, (Err e, w).
Definition panic {A} : M W A := λ _ w, (Panic, w).
Definition gets {A} (f : W → A) : M W A := λ _ w, (Ok (f w), w).
Definition asks {A} (f : Ctx → A) : M W A := λ c w, (Ok (f c), w).
Definition modify (f : W → W) : M W unit := λ _ w, (Ok tt, f w).
Definition when (b : bool) (m : M W unit) : M W unit := if b then m else mret tt.
(** [if x != nil { f( *x ) }] *)
Definition if_some {A} (o : option A) (f : A → M W unit) : M W unit :=
  match o with Some a => f a | None => mret tt end.

(** [if cond { return err }] *)
Definition guard_err (b : bool) (e : error) : M W unit := if b then mret tt else raise e.

(** [x, err := f(); if err != nil { return wrap }] for a pure [f]. *)
Definition of_option {A} (o : option A) (e : error) : M W A :=
  match o with Some a => mret a | None => raise e end.

(** [x, err := f(); if err != nil { panic }] for a pure [f]. *)
Definition or_panic {A} (o : option A) : M W A :=
  match o with Some a => mret a | None => panic end.

(** Runs [m] and hands its error to the caller as a value: [err := m()]. *)
Definition try {A} (m : M W A) : M W (error + A) := λ c w,
  match m c w with
  | (Ok a, w') => (Ok (inr a), w')
  | (Err e, w') => (Ok (inl e), w')
  | (Panic, w') => (Panic, w')
  end.

(** Replaces the error of [m]: [errorsmod.Wrapf(e, ..., err)]. *)
Definition wrap_err {A} (e : error) (m : M W A) : M W A := λ c w,
  match m c w with
  | (Err _, w') => (Err e, w')
  | r => r
  end.

(** Turns an error of [m] into a panic. *)
Definition must {A} (m : M W A) : M W A := λ c w,
  match m c w with
  | (Err _, w') => (Panic, w')
  | r => r
  end.

(** [cachedCtx, writeFn := ctx.CacheContext()], writing only on success. *)
Definition cached {A} (m : M W A) : M W A := λ c w,
  match m c w with
  | (Ok a, w') => (Ok a, w')
  | (Err e, _) => (Err e, w)
  | (Panic, w') => (Panic, w')
  end.

(** [for _, x := range l { f(x) }], leaving on the first error. *)
Fixpoint for_each {A} (l : list A) (f : A → M W unit) : M W unit :=
  match l with
  | [] => mret tt
  | x :: l' => f x ≫= λ _, for_each l' f
  end.

(** A loop that accumulates a value. *)
Fixpoint fold_each {A B} (l : list A) (f : B → A → M W B) (b : B) : M W B :=
  match l with
  | [] => mret b
  | x :: l' => f b x ≫= λ b', fold_each l' f b'
  end.

Fixpoint map_each {A B} (f : A → M W B) (l : list A) : M W (list B) :=
  match l with
  | [] => mret []
  | x :: l' => y ← f x; ys ← map_each f l'; mret (y :: ys)
  end.

(** ** Running equations *)
Lemma bind_run {A B} (m : M W A) (f : A → M W B) c w :
  (m ≫= f) c w = match m c w with
                 | (Ok a, w') => f a c w'
                 | (Err e, w') => (Err e, w')
                 | (Panic, w') => (Panic, w')
                 end.
Proof. reflexivity. Qed.

Lemma bind_Ok {A B} (m : M W A) (f : A → M W B) c w b w' :
  (m ≫= f) c w = (Ok b, w') ↔ ∃ a w1, m c w = (Ok a, w1) ∧ f a c w1 = (Ok b, w').
Proof.
  rewrite bind_run. destruct (m c w) as [[a|e|] w1]; naive_solver.
Qed.

Lemma bind_Err {A B} (m : M W A) (f : A → M W B) c w e w' :
  (m ≫= f) c w = (Err e, w') ↔
  m c w = (Err e, w') ∨ ∃ a w1, m c w = (Ok a, w1) ∧ f a c w1 = (Err e, w').
Proof.
  rewrite bind_run. destruct (m c w) as [[a|e'|] w1]; naive_solver.
Qed.

Lemma ret_Ok {A} (a b : A) c (w w' : W) : (mret a : M W A) c w = (Ok b, w') ↔ a = b ∧ w = w'.
Proof. unfold mret, M_ret. naive_solver. Qed.

Lemma gets_Ok {A} (f : W → A) c w b w' : gets f c w = (Ok b, w') ↔ f w = b ∧ w = w'.
Proof. unfold gets. naive_solver. Qed.

Lemma asks_Ok {A} (f : Ctx → A) c (w w' : W) b : asks f c w = (Ok b, w') ↔ f c = b ∧ w = w'.
Proof. unfold asks. naive_solver. Qed.

Lemma modify_Ok (f : W → W) c w u w' : modify f c w = (Ok u, w') ↔ w' = f w.
Proof. unfold modify. destruct u. naive_solver. Qed.

Lemma raise_Ok {A} e c (w : W) (a : A) w' : raise e c w = (Ok a, w') ↔ False.
Proof. unfold raise. naive_solver. Qed.

Lemma panic_Ok {A} c (w : W) (a : A) w' : panic c w = (Ok a, w') ↔ False.
Proof. unfold panic. naive_solver. Qed.

Lemma guard_err_Ok b e c (w : W) u w' : guard_err b e c w = (Ok u, w') ↔ b = true ∧ w = w'.
Proof. unfold guard_err. destruct u, b; unfold mret, M_ret, raise; naive_solver. Qed.

Lemma of_option_Ok {A} (o : option A) e c (w : W) a w' :
  of_option o e c w = (Ok a, w') ↔ o = Some a ∧ w = w'.
Proof. destruct o; unfold of_option, mret, M_ret, raise; naive_solver. Qed.

Lemma or_panic_Ok {A} (o : option A) c (w : W) a w' :
  or_panic o c w = (Ok a, w') ↔ o = Some a ∧ w = w'.
Proof. destruct o; unfold or_panic, mret, M_ret, panic; naive_solver. Qed.

Lemma wrap_err_Ok {A} e (m : M W A) c w a w' :
  wrap_err e m c w = (Ok a, w') ↔ m c w = (Ok a, w').
Proof. unfold wrap_err. destruct (m c w) as [[] ?]; naive_solver. Qed.

Lemma must_Ok {A} (m : M W A) c w a w' : must m c w = (Ok a, w') ↔ m c w = (Ok a, w').
Proof. unfold must. destruct (m c w) as [[] ?]; naive_solver. Qed.

Lemma cached_Ok {A} (m : M W A) c w a w' : cached m c w = (Ok a, w') ↔ m c w = (Ok a, w').
Proof. unfold cached. destruct (m c w) as [[] ?]; naive_solver. Qed.

Lemma cached_Err {A} (m : M W A) c w e w' : cached m c w = (Err e, w') → w' = w.
Proof. unfold cached. destruct (m c w) as [[] ?]; naive_solver. Qed.

Lemma for_each_app_Ok {A} (f : A → M W unit) l1 l2 c w u w' :
  for_each (l1 ++ l2) f c w = (Ok u, w') ↔
  ∃ w1, for_each l1 f c w = (Ok tt, w1) ∧ for_each l2 f c w1 = (Ok u, w').
Proof.
  revert w. induction l1 as [|x l1 IH]; intros w; cbn [app for_each].
  - unfold mret, M_ret. naive_solver.
  - rewrite bind_run, bind_run. destruct (f x c w) as [[[]|e|] w1]; [by rewrite IH|naive_solver..].
Qed.

Lemma for_each_modify {A} (f : A → W → W) l c w :
  for_each l (λ x, modify (f x)) c w = (Ok tt, foldl (λ w x, f x w) w l).
Proof. revert w. induction l as [|x l IH]; intros w; [done|]. cbn [for_each foldl].
  rewrite bind_run. cbn [modify]. apply IH.
Qed.

(** Loop rules: an invariant over the elements already handled. *)
Lemma fold_each_Ok_ind {A B} (I : list A → B → W → Prop) (f : B → A → M W B) c l b w b' w' :
  I [] b w →
  (∀ dn x rest b w b' w', l = dn ++ x :: rest → I dn b w → f b x c w = (Ok b', w') →
     I (dn ++ [x]) b' w') →
  fold_each l f b c w = (Ok b', w') → I l b' w'.
Proof.
  intros H0 Hstep.
  enough (∀ rest dn b w, l = dn ++ rest → I dn b w →
    fold_each rest f b c w = (Ok b', w') → I l b' w') as Hgo by (by apply (Hgo l [])).
  clear b w H0. induction rest as [|x rest IH]; intros dn b w Hl HI; cbn [fold_each].
  - intros [<- <-]%ret_Ok. by rewrite Hl, app_nil_r.
  - intros (b1 & w1 & E1 & E2)%bind_Ok. apply (IH (dn ++ [x]) b1 w1); [|by eapply Hstep|done].
    by rewrite <-app_assoc.
Qed.

(** A loop whose every pass succeeds. *)
Lemma for_each_runs {A} (I : list A → W → Prop) (f : A → M W unit) c l w :
  I [] w →
  (∀ dn x rest w, l = dn ++ x :: rest → I dn w → ∃ w', f x c w = (Ok tt, w') ∧ I (dn ++ [x]) w') →
  ∃ w', for_each l f c w = (Ok tt, w') ∧ I l w'.
Proof.
  intros H0 Hstep.
  enough (∀ rest dn w, l = dn ++ rest → I dn w → ∃ w', for_each rest f c w = (Ok tt, w') ∧ I l w') as Hgo
    by (by apply (Hgo l [])).
  clear w H0. induction rest as [|x rest IH]; intros dn w Hl HI; cbn [for_each].
  - exists w. split; [done|]. by rewrite Hl, app_nil_r.
  - destruct (Hstep dn x rest w Hl HI) as (w1 & E1 & HI1). rewrite bind_run, E1.
    apply (IH (dn ++ [x])); [|done]. by rewrite <-app_assoc.
Qed.

Lemma for_each_Ok_ind {A} (I : list A → W → Prop) (f : A → M W unit) c l w u w' :
  I [] w →
  (∀ dn x rest w w', l = dn ++ x :: rest → I dn w → f x c w = (Ok tt, w') → I (dn ++ [x]) w') →
  for_each l f c w = (Ok u, w') → I l w'.
Proof.
  intros H0 Hstep.
  enough (∀ rest dn w, l = dn ++ rest → I dn w →
    for_each rest f c w = (Ok u, w') → I l w') as Hgo by (by apply (Hgo l [])).
  clear w H0. induction rest as [|x rest IH]; intros dn w Hl HI; cbn [for_each].
  - intros [_ <-]%ret_Ok. by rewrite Hl, app_nil_r.
  - intros ([] & w1 & E1 & E2)%bind_Ok. apply (IH (dn ++ [x]) w1); [|by eapply Hstep|done].
    by rewrite <-app_assoc.
Qed.
End monad.

(** ** Preservation

    [preserves P m]: every run of [m], whatever its outcome, keeps [P]. A
    frame fact ("[m] does not touch the phase map") is the instance
    [P := λ w, phase w = ph]. *)
Definition preserves {W A} (P : W → Prop) (m : M W A) : Prop :=
  ∀ c w, P w → P (snd (m c w)).

Lemma preserves_run {W A} (P : W → Prop) (m : M W A) c w r w' :
  preserves P m → P w → m c w = (r, w') → P w'.
Proof. intros Hm Hw E. specialize (Hm c w Hw). by rewrite E in Hm. Qed.

(** The loop rule for an invariant that mentions the block context. *)
Lemma for_each_keeps {W A} (P : W → Prop) (l : list A) (f : A → M W unit) c w :
  P w → (∀ x w, x ∈ l → P w → P (f x c w).2) → P (for_each l f c w).2.
Proof.
  revert w. induction l as [|x l IH]; intros w Hw Hf; [done|]. cbn [for_each]. rewrite bind_run.
  pose proof (Hf x w ltac:(set_solver) Hw) as H1.
  destruct (f x c w) as [[[]|e|] w1]; [|done..]. apply IH; [done|set_solver].
Qed.

Section preserves.
Context {W : Type} (P : W → Prop).

Lemma preserves_ret {A} (a : A) : preserves P (mret a).
Proof. by intros c w H. Qed.
Lemma preserves_bind {A B} (m : M W A) (f : A → M W B) :
  preserves P m → (∀ a, preserves P (f a)) → preserves P (m ≫= f).
Proof.
  intros Hm Hf c w H. rewrite bind_run. specialize (Hm c w H).
  destruct (m c w) as [[a|e|] w']; simpl in *; [by apply Hf|done..].
Qed.
Lemma preserves_raise {A} e : preserves P (raise e : M W A).
Proof. by intros c w H. Qed.
Lemma preserves_panic {A} : preserves P (panic : M W A).
Proof. by intros c w H. Qed.
Lemma preserves_gets {A} (f : W → A) : preserves P (gets f).
Proof. by intros c w H. Qed.
Lemma preserves_asks {A} (f : Ctx → A) : preserves P (asks f : M W A).
Proof. by intros c w H. Qed.
Lemma preserves_modify (f : W → W) : (∀ w, P w → P (f w)) → preserves P (modify f).
Proof. by intros Hf c w H; apply Hf. Qed.
Lemma preserves_when b m : preserves P m → preserves P (when b m).
Proof. destruct b; [done|]. intros _. apply preserves_ret. Qed.
Lemma preserves_guard_err b e : preserves P (guard_err b e).
Proof. by destruct b; intros c w H. Qed.
Lemma preserves_of_option {A} (o : option A) e : preserves P (of_option o e).
Proof. by destruct o; intros c w H. Qed.
Lemma preserves_or_panic {A} (o : option A) : preserves P (or_panic o).
Proof. by destruct o; intros c w H. Qed.
Lemma preserves_try {A} (m : M W A) : preserves P m → preserves P (try m).
Proof.
  intros Hm c w H. specialize (Hm c w H). unfold try.
  by destruct (m c w) as [[] ?].
Qed.
Lemma preserves_wrap_err {A} e (m : M W A) : preserves P m → preserves P (wrap_err e m).
Proof.
  intros Hm c w H. specialize (Hm c w H). unfold wrap_err.
  by destruct (m c w) as [[] ?].
Qed.
Lemma preserves_must {A} (m : M W A) : preserves P m → preserves P (must m).
Proof.
  intros Hm c w H. specialize (Hm c w H). unfold must.
  by destruct (m c w) as [[] ?].
Qed.
Lemma preserves_cached {A} (m : M W A) : preserves P m → preserves P (cached m).
Proof.
  intros Hm c w H. specialize (Hm c w H). unfold cached.
  by destruct (m c w) as [[] ?].
Qed.
Lemma preserves_for_each {A} (l : list A) (f : A → M W unit) :
  (∀ x, preserves P (f x)) → preserves P (for_each l f).
Proof.
  intros Hf. induction l as [|x l IH]; [apply preserves_ret|].
  apply preserves_bind; auto.
Qed.
Lemma preserves_fold_each {A B} (l : list A) (f : B → A → M W B) b :
  (∀ b x, preserves P (f b x)) → preserves P (fold_each l f b).
Proof.
  intros Hf. revert b. induction l as [|x l IH]; intros b; [apply preserves_ret|].
  apply preserves_bind; auto.
Qed.
Lemma preserves_map_each {A B} (f : A → M W B) (l : list A) :
  (∀ x, preserves P (f x)) → preserves P (map_each f l).
Proof.
  intros Hf. induction l as [|x l IH]; [apply preserves_ret|].
  apply preserves_bind; [done|]. intros y.
  apply preserves_bind; [done|]. intros ys. apply preserves_ret.
Qed.
End preserves.

(** Walks a keeper method and discharges its preservation goal: the structure
    of the method by the lemmas above, a call by a lemma registered in [vaas] or
    else by its definition, and a write that cannot touch what [P] reads by
    computation. What remains are the writes [P] depends on. *)
Ltac head_of t := lazymatch t with ?f _ => head_of f | _ => t end.
Ltac pres_step :=
  lazymatch goal with
  | |- preserves _ (mbind _ _) => apply preserves_bind; [|intros ?]
  | |- preserves _ (match ?x with _ => _ end) => destruct x
  | |- preserves _ (for_each _ _) => apply preserves_for_each; intros ?
  | |- preserves _ (fold_each _ _ _) => apply preserves_fold_each; intros ? ?
  | |- preserves _ (map_each _ _) => apply preserves_map_each; intros ?
  | |- preserves _ (try _) => apply preserves_try
  | |- preserves _ (wrap_err _ _) => apply preserves_wrap_err
  | |- preserves _ (must _) => apply preserves_must
  | |- preserves _ (cached _) => apply preserves_cached
  | |- preserves _ (when _ _) => apply preserves_when
  | |- preserves _ (guard_err _ _) => apply preserves_guard_err
  | |- preserves _ (of_option _ _) => apply preserves_of_option
  | |- preserves _ (or_panic _) => apply preserves_or_panic
  | |- preserves _ (raise _) => apply preserves_raise
  | |- preserves _ panic => apply preserves_panic
  | |- preserves _ (gets _) => apply preserves_gets
  | |- preserves _ (asks _) => apply preserves_asks
  | |- preserves _ (mret _) => apply preserves_ret
  | |- preserves _ (modify _) => apply preserves_modify; let HP := fresh in intros ? HP; exact HP
  | |- preserves _ (let _ := _ in _) => cbv zeta
  end.
Ltac pres_unfold :=
  lazymatch goal with
  | |- preserves _ (modify _) => fail
  | |- preserves _ ?m => let h := head_of m in unfold h
  end.
Ltac pres1 := first [solve [auto 2 with vaas nocore] | pres_step | pres_unfold].
Ltac pres := repeat pres1.

(** ** Total runs

    [runs m c w Q]: the run of [m] returns, without error or panic, and [Q]
    holds of what it returns and leaves. *)
Definition runs {W A} (m : M W A) (c : Ctx) (w : W) (Q : A → W → Prop) : Prop :=
  ∃ a w', m c w = (Ok a, w') ∧ Q a w'.

Section runs.
Context {W : Type}.
Implicit Types (c : Ctx) (w : W).

Lemma runs_ret {A} (a : A) c w (Q : A → W → Prop) : Q a w → runs (mret a) c w Q.
Proof. by exists a, w. Qed.
Lemma runs_bind {A B} (m : M W A) (f : A → M W B) c w (Q : B → W → Prop) :
  runs m c w (λ a w', runs (f a) c w' Q) → runs (m ≫= f) c w Q.
Proof. intros (a & w1 & E & b & w2 & E2 & HQ). exists b, w2. by rewrite bind_run, E. Qed.
Lemma runs_fmap {A B} (f : A → B) (m : M W A) c w (Q : B → W → Prop) :
  runs m c w (λ a, Q (f a)) → runs (f <$> m) c w Q.
Proof. intros (a & w1 & E & HQ). exists (f a), w1. split; [|done]. unfold fmap, M_fmap. by rewrite bind_run, E. Qed.
Lemma runs_gets {A} (f : W → A) c w (Q : A → W → Prop) : Q (f w) w → runs (gets f) c w Q.
Proof. by eexists _, _. Qed.
Lemma runs_asks {A} (f : Ctx → A) c w (Q : A → W → Prop) : Q (f c) w → runs (asks f) c w Q.
Proof. by eexists _, _. Qed.
Lemma runs_modify (f : W → W) c w (Q : unit → W → Prop) : Q tt (f w) → runs (modify f) c w Q.
Proof. by eexists _, _. Qed.
Lemma runs_or_panic {A} (o : option A) c w a (Q : A → W → Prop) : o = Some a → Q a w → runs (or_panic o) c w Q.
Proof. intros ->. apply runs_ret. Qed.
Lemma runs_when b (m : M W unit) c w (Q : unit → W → Prop) :
  (b = true → runs m c w Q) → (b = false → Q tt w) → runs (when b m) c w Q.
Proof. destruct b; intros Ht Hf; [by apply Ht|by apply runs_ret, Hf]. Qed.
Lemma runs_try {A} (m : M W A) c w (Q : error + A → W → Prop) :
  runs m c w (λ a, Q (inr a)) → runs (try m) c w Q.
Proof. intros (a & w1 & E & HQ). exists (inr a), w1. unfold try. by rewrite E. Qed.
Lemma runs_for_each {A} (P : W → Prop) (f : A → M W unit) l c w (Q : unit → W → Prop) :
  P w → (∀ x w, x ∈ l → P w → runs (f x) c w (λ _, P)) → (∀ w, P w → Q tt w) → runs (for_each l f) c w Q.
Proof.
  intros HP Hf HQ. destruct (for_each_runs (λ _, P) f c l w HP) as (w' & E & HP').
  { intros dn x rest v -> Hv. destruct (Hf x v ltac:(set_solver) Hv) as ([] & v' & E & Hv'). by exists v'. }
  exists tt, w'. auto.
Qed.
Lemma runs_mono {A} (m : M W A) c w (P Q : A → W → Prop) :
  (∀ a w', P a w' → Q a w') → runs m c w P → runs m c w Q.
Proof. intros HPQ (a & w' & E & HP). exists a, w'. auto. Qed.
Lemma runs_fold_each {A B} (P : W → Prop) (f : B → A → M W B) l b c w (Q : B → W → Prop) :
  P w → (∀ b x w, x ∈ l → P w → runs (f b x) c w (λ _, P)) → (∀ b w, P w → Q b w) → runs (fold_each l f b) c w Q.
Proof.
  revert b w. induction l as [|x l IH]; intros b w HP Hf HQ; cbn [fold_each]; [by apply runs_ret, HQ|].
  apply runs_bind. eapply runs_mono; [|apply Hf; [by left|done]].
  intros b' w' HP'. apply IH; [done| |done]. intros b2 y v Hy. apply Hf. by right.
Qed.
End runs.
Ltac runs_step :=
  lazymatch goal with
  | |- runs (mret _) _ _ _ => apply runs_ret
  | |- runs (mbind _ _) _ _ _ => apply runs_bind
  | |- runs (fmap _ _) _ _ _ => apply runs_fmap
  | |- runs (gets _) _ _ _ => apply runs_gets
  | |- runs (asks _) _ _ _ => apply runs_asks
  | |- runs (modify _) _ _ _ => apply runs_modify
  | |- runs (try _) _ _ _ => apply runs_try
  | |- runs (let _ := _ in _) _ _ _ => cbv zeta
  end.

(** ** Runs without a panic

    [answers P m]: from a store with [P], [m] ends in a value or an error, and
    leaves [P] either way. *)
Definition answers {W A} (P : W → Prop) (m : M W A) : Prop :=
  ∀ c w, P w → (m c w).1 ≠ Panic ∧ P (m c w).2.

Section answers.
Context {W : Type} (P : W → Prop).
Lemma answers_ret {A} (a : A) : answers P (mret a : M W A).
Proof. by intros c w. Qed.
Lemma answers_raise {A} e : answers P (raise e : M W A).
Proof. by intros c w. Qed.
Lemma answers_bind {A B} (m : M W A) (f : A → M W B) :
  answers P m → (∀ a, answers P (f a)) → answers P (m ≫= f).
Proof.
  intros Hm Hf c w Hw. rewrite bind_run. destruct (Hm c w Hw) as [Hp Hw']. destruct (m c w) as [[a|e|] w']; cbn in *; [|by split|done].
  by apply Hf.
Qed.
Lemma answers_gets {A} (f : W → A) : answers P (gets f).
Proof. by intros c w. Qed.
Lemma answers_asks {A} (f : Ctx → A) : answers P (asks f : M W A).
Proof. by intros c w. Qed.
Lemma answers_modify (f : W → W) : (∀ w, P w → P (f w)) → answers P (modify f).
Proof. intros Hf c w Hw. split; [done|by apply Hf]. Qed.
Lemma answers_guard_err b e : answers P (guard_err b e : M W unit).
Proof. by destruct b. Qed.
Lemma answers_of_option {A} (o : option A) e : answers P (of_option o e : M W A).
Proof. by destruct o. Qed.
Lemma answers_read {A} (f : W → option A) :
  (∀ w, P w → is_Some (f w)) → answers P (o ← gets f; or_panic o).
Proof. intros Hf c w Hw. rewrite bind_run. cbn [gets]. by destruct (Hf w Hw) as [a ->]. Qed.
Lemma answers_try {A} (m : M W A) c w : answers P m → P w → runs (try m) c w (λ _, P).
Proof.
  intros Hm Hw. destruct (Hm c w Hw) as [Hp Hw']. unfold runs, try. destruct (m c w) as [[a|e|] w']; cbn in *; [by eexists _, _..|done].
Qed.
End answers.
Ltac answer :=
  repeat lazymatch goal with
  | |- answers _ (mret _) => apply answers_ret
  | |- answers _ (raise _) => apply answers_raise
  | |- answers _ (gets _) => apply answers_gets
  | |- answers _ (asks _) => apply answers_asks
  | |- answers _ (modify _) => apply answers_modify; intros ? ?
  | |- answers _ (guard_err _ _) => apply answers_guard_err
  | |- answers _ (of_option _ _) => apply answers_of_option
  | |- answers _ (mbind _ _) => apply answers_bind; [|intros ?]
  | |- answers _ (match ?x with _ => _ end) => destruct x
  end.

(** A step that only reads: it hands over a value, or the whole run stops there
    with nothing written. *)
Lemma ro_bind {W A B} (m : M W A) (f : A → M W B) c w r w' :
  (m ≫= f) c w = (r, w') → preserves (λ v, v = w) m →
  (∃ a, m c w = (Ok a, w) ∧ f a c w = (r, w')) ∨ (w' = w ∧ is_ok r = false).
Proof.
  rewrite bind_run. intros E P. specialize (P c w eq_refl).
  destruct (m c w) as [[a|e|] w1]; cbn in P; subst w1; [left; eauto|right; by injection E as <- <-..].
Qed.
Ltac ro_step E a Ea :=
  apply ro_bind in E as [(a & Ea & E)|[-> E]]; [|left; by split|by pres].

(** Splits on the first condition of the goal, leaving the context alone. *)
Ltac case_goal :=
  match goal with |- context [if ?b then _ else _] => destruct b eqn:? end.

(** Inverts a successful run into the runs of its steps. *)
Ltac run_inv1 H :=
  lazymatch type of H with
  | mbind _ _ _ _ = (Ok _, _) => apply bind_Ok in H as (? & ? & ? & H)
  | mret _ _ _ = (Ok _, _) => apply ret_Ok in H as [? ?]
  | gets _ _ _ = (Ok _, _) => apply gets_Ok in H as [? ?]
  | asks _ _ _ = (Ok _, _) => apply asks_Ok in H as [? ?]
  | modify _ _ _ = (Ok _, _) => apply modify_Ok in H
  | raise _ _ _ = (Ok _, _) => by apply raise_Ok in H
  | panic _ _ = (Ok _, _) => by apply panic_Ok in H
  | guard_err _ _ _ _ = (Ok _, _) => apply guard_err_Ok in H as [? ?]
  | of_option _ _ _ _ = (Ok _, _) => apply of_option_Ok in H as [? ?]
  | or_panic _ _ _ = (Ok _, _) => apply or_panic_Ok in H as [? ?]
  | wrap_err _ _ _ _ = (Ok _, _) => apply wrap_err_Ok in H
  | must _ _ _ = (Ok _, _) => apply must_Ok in H
  | cached _ _ _ = (Ok _, _) => apply cached_Ok in H
  end.
Ltac run_inv :=
  repeat match goal with
  | H : _ _ _ = (Ok _, _) |- _ => progress run_inv1 H; simplify_eq
  | H : _ _ _ _ = (Ok _, _) |- _ => progress run_inv1 H; simplify_eq
  | H : _ _ _ _ _ = (Ok _, _) |- _ => progress run_inv1 H; simplify_eq
  end.

(** ** Ordered stores

    A [collections.Map] is a finite map iterated in ascending key order. *)
Class KeyOrd (K : Type) := {
  key_le : K → K → Prop;
  #[global] key_le_dec :: RelDecision key_le;
  #[global] key_le_total :: Total key_le;
  #[global] key_le_trans :: Transitive key_le;
  #[global] key_le_antisymm :: AntiSymm (=) key_le;
}.

#[global] Program Instance KeyOrd_Z : KeyOrd Z := {| key_le := Z.le |}.
#[global] Program Instance KeyOrd_N : KeyOrd N := {| key_le := N.le |}.
#[global] Program Instance KeyOrd_string : KeyOrd string := {| key_le := String.le |}.

Section pair_order.
Context {A B : Type} `{EqDecision A, KeyOrd A, KeyOrd B}.
Definition pair_le (x y : A * B) : Prop :=
  if decide (x.1 = y.1) then key_le x.2 y.2 else key_le x.1 y.1.
#[global] Instance pair_le_dec : RelDecision pair_le.
Proof. intros x y. unfold pair_le. destruct (decide (x.1 = y.1)); apply _. Defined.
#[local] Instance pair_le_total : Total pair_le.
Proof.
  intros [a b] [a' b']. unfold pair_le; simpl.
  repeat case_decide; try congruence; apply total; apply _.
Qed.
#[local] Instance pair_le_trans : Transitive pair_le.
Proof.
  intros [a b] [a' b'] [a'' b'']. unfold pair_le; simpl.
  repeat case_decide; subst; intros; try congruence; try by etrans.
  exfalso. assert (a' = a'') by (by apply (anti_symm key_le)). congruence.
Qed.
#[local] Instance pair_le_antisymm : AntiSymm (=) pair_le.
Proof.
  intros [a b] [a' b']. unfold pair_le; simpl.
  intros H1 H2. assert (a = a') as <-.
  { repeat case_decide; try congruence. by apply (anti_symm key_le). }
  repeat case_decide; try congruence. f_equal. by apply (anti_symm key_le).
Qed.
#[global] Instance KeyOrd_prod : KeyOrd (A * B) := {| key_le := pair_le |}.
End pair_order.

Section iterate.
Context {K : Type} `{Countable K, !KeyOrd K} {V : Type}.
Implicit Types m : gmap K V.

Definition entry_le (x y : K * V) : Prop := key_le x.1 y.1.
#[global] Instance entry_le_dec : RelDecision entry_le.
Proof. intros x y. unfold entry_le. apply _. Defined.
#[local] Instance entry_le_total : Total entry_le.
Proof. intros x y. unfold entry_le. apply total, _. Qed.
#[local] Instance entry_le_trans : Transitive entry_le.
Proof. intros x y z. unfold entry_le. apply transitivity. Qed.

(** [Map.Iterate(ctx, nil)] read to its end. *)
Definition iterate m : list (K * V) := merge_sort entry_le (map_to_list m).

Lemma iterate_perm m : iterate m ≡ₚ map_to_list m.
Proof. apply merge_sort_Permutation. Qed.
Lemma iterate_sorted m : StronglySorted entry_le (iterate m).
Proof. apply StronglySorted_merge_sort; apply _. Qed.
Lemma elem_of_iterate m k v : (k, v) ∈ iterate m ↔ m !! k = Some v.
Proof. rewrite iterate_perm. apply elem_of_map_to_list. Qed.
Lemma NoDup_fst_iterate m : NoDup (iterate m).*1.
Proof. rewrite iterate_perm. apply NoDup_fst_map_to_list. Qed.
Lemma NoDup_iterate m : NoDup (iterate m).
Proof. eapply NoDup_fmap_1, NoDup_fst_iterate. Qed.
Lemma iterate_empty : iterate (∅ : gmap K V) = [].
Proof. apply Permutation_nil. symmetry. rewrite iterate_perm. by rewrite map_to_list_empty. Qed.
Lemma iterate_nil m : iterate m = [] → m = ∅.
Proof.
  intros E. apply map_to_list_empty_iff. apply Permutation_nil_r.
  by rewrite <-iterate_perm, E.
Qed.
Lemma elem_of_iterate_values m v : v ∈ (iterate m).*2 ↔ ∃ k, m !! k = Some v.
Proof.
  rewrite list_elem_of_fmap. split.
  - intros ([k v'] & -> & Hin%elem_of_iterate). eauto.
  - intros (k & Hk). exists (k, v). by rewrite elem_of_iterate.
Qed.
End iterate.

(** A map is iterated in the one key-sorted order of its entries. *)
Lemma sorted_entries_unique {K} `{KeyOrd K} {V} (l1 l2 : list (K * V)) :
  StronglySorted entry_le l1 → StronglySorted entry_le l2 → NoDup l1.*1 →
  l1 ≡ₚ l2 → l1 = l2.
Proof.
  revert l2. induction l1 as [|x l1 IH]; intros l2 S1 S2 N P.
  { by apply Permutation_nil in P. }
  destruct l2 as [|y l2]; [by apply Permutation_nil_r in P|].
  apply StronglySorted_inv in S1 as [S1 F1]. apply StronglySorted_inv in S2 as [S2 F2].
  rewrite Forall_forall in F1, F2.
  assert (x = y) as ->.
  { assert (x ∈ y :: l2) as Hx by (rewrite <-P; set_solver).
    assert (y ∈ x :: l1) as Hy by (rewrite P; set_solver).
    apply elem_of_cons in Hx as [->|Hx]; [done|]. apply elem_of_cons in Hy as [->|Hy]; [done|].
    pose proof (F1 _ Hy) as L1. pose proof (F2 _ Hx) as L2. unfold entry_le in L1, L2.
    assert (x.1 = y.1) as E by (by apply (anti_symm key_le)).
    apply NoDup_cons in N as [N _]. destruct N. apply list_elem_of_fmap. by exists y. }
  f_equal. apply IH; try done; [by apply NoDup_cons in N as [_ N]|by eapply Permutation_cons_inv].
Qed.

Lemma iterate_unique {K} `{Countable K, !KeyOrd K} {V} (m : gmap K V) (l : list (K * V)) :
  StronglySorted entry_le l → NoDup l.*1 → (∀ k v, (k, v) ∈ l ↔ m !! k = Some v) →
  iterate m = l.
Proof.
  intros S N E. symmetry. apply sorted_entries_unique; [done|apply iterate_sorted|done|].
  apply NoDup_Permutation; [by eapply NoDup_fmap_1|apply NoDup_iterate|].
  intros [k v]. by rewrite E, elem_of_iterate.
Qed.

(** [Map.Clear(ctx, range)]: drops every entry whose key the range selects. *)
Definition clear_where {K} `{Countable K} {V} (sel : K → bool) (m : gmap K V) : gmap K V :=
  filter (λ kv, sel kv.1 = false) m.

Lemma clear_where_lookup {K} `{Countable K} {V} (sel : K → bool) (m : gmap K V) k :
  clear_where sel m !! k = if sel k then None else m !! k.
Proof.
  unfold clear_where. destruct (sel k) eqn:E.
  - apply map_lookup_filter_None. right. intros v _. simpl. congruence.
  - destruct (m !! k) as [v|] eqn:Hk.
    + by apply map_lookup_filter_Some.
    + apply map_lookup_filter_None. by left.
Qed.

(** Deleting keys one at a time. *)
Lemma foldl_delete_lookup {A B} `{Countable A} (l : list A) (m : gmap A B) k :
  foldl (λ m k, delete k m) m l !! k = if decide (k ∈ l) then None else m !! k.
Proof.
  revert m. induction l as [|x l IH]; intros m; cbn [foldl].
  { by rewrite decide_False by set_solver. }
  rewrite IH. destruct (decide (k = x)) as [->|Hne].
  - rewrite lookup_delete_eq, (decide_True (P := x ∈ x :: l)) by set_solver. by case_decide.
  - rewrite lookup_delete_ne by done. repeat case_decide; set_solver.
Qed.

(** Deleting every iterated key a range selects is [Map.Clear] of that range. *)
Lemma delete_selected {A B} `{Countable A, !KeyOrd A} (sel : A → bool) (m : gmap A B) :
  foldl (λ m k, delete k m) m (filter (λ kv, sel kv.1 = true) (iterate m)).*1 = clear_where sel m.
Proof.
  apply map_eq. intros k. rewrite foldl_delete_lookup, clear_where_lookup.
  case_decide as Hin.
  - apply list_elem_of_fmap in Hin as ([k' v] & -> & [Hs _]%list_elem_of_filter). cbn in *. by rewrite Hs.
  - destruct (sel k) eqn:Hs; [|done]. destruct (m !! k) as [v|] eqn:E; [|done]. destruct Hin.
    apply list_elem_of_fmap. exists (k, v). split; [done|]. apply list_elem_of_filter.
    split; [done|by apply elem_of_iterate].
Qed.

(** [bytes.Compare(a, b) < 0] is the strict part of the string order. *)
Lemma string_ltb_false a b : String.ltb b a = false ↔ String.le a b.
Proof.
  unfold String.le, String.ltb, String.leb. rewrite (String.compare_antisym b a).
  destruct (String.compare a b); cbn; naive_solver.
Qed.

(** ** Filtering *)
Lemma list_filter_all {A} (P : A → Prop) `{∀ x, Decision (P x)} (l : list A) :
  (∀ x, x ∈ l → P x) → filter P l = l.
Proof.
  induction l as [|x l IH]; intros Hl; [done|].
  rewrite filter_cons_True by set_solver. by rewrite IH by set_solver.
Qed.
Lemma list_filter_none {A} (P : A → Prop) `{∀ x, Decision (P x)} (l : list A) :
  (∀ x, x ∈ l → ¬ P x) → filter P l = [].
Proof.
  induction l as [|x l IH]; intros Hl; [done|].
  rewrite filter_cons_False by set_solver. by rewrite IH by set_solver.
Qed.

(** Counting through a renaming of the elements. *)
Lemma length_filter_fmap {A B} (f : A → B) (P : B → Prop) (Q : A → Prop)
    `{∀ x, Decision (P x), ∀ x, Decision (Q x)} (l : list A) :
  (∀ x, x ∈ l → P (f x) ↔ Q x) → length (filter P (f <$> l)) = length (filter Q l).
Proof.
  induction l as [|x l IH]; intros HPQ; [done|]. rewrite fmap_cons.
  specialize (IH ltac:(intros y Hy; apply HPQ; by right)). pose proof (HPQ x ltac:(by left)) as Hx.
  destruct (decide (Q x)).
  - rewrite (filter_cons_True Q), filter_cons_True by naive_solver. cbn. by rewrite IH.
  - rewrite (filter_cons_False Q), filter_cons_False by naive_solver. exact IH.
Qed.

Lemma StronglySorted_filter {A} (R : relation A) (P : A → Prop) `{∀ x, Decision (P x)} (l : list A) :
  StronglySorted R l → StronglySorted R (filter P l).
Proof.
  induction 1 as [|x l Hs IH Hx]; [constructor|]. rewrite filter_cons. case_decide; [|done].
  constructor; [done|]. rewrite Forall_forall in *. intros y [_ Hy]%list_elem_of_filter. by apply Hx.
Qed.

(** ** Sums over lists and maps *)
Definition sumZ {A} (f : A → Z) (l : list A) : Z := foldr (λ a s, f a + s) 0 l.

Lemma sumZ_app {A} (f : A → Z) l1 l2 : sumZ f (l1 ++ l2) = sumZ f l1 + sumZ f l2.
Proof. induction l1; simpl; lia. Qed.
#[global] Instance sumZ_perm {A} (f : A → Z) : Proper ((≡ₚ) ==> (=)) (sumZ f).
Proof. induction 1; simpl; lia. Qed.
Lemma sumZ_nonneg {A} (f : A → Z) l : (∀ x, x ∈ l → 0 ≤ f x) → 0 ≤ sumZ f l.
Proof.
  induction l as [|x l IH]; intros Hf; simpl; [lia|].
  pose proof (Hf x ltac:(set_solver)). specialize (IH ltac:(set_solver)). lia.
Qed.
Lemma sumZ_le {A} (f g : A → Z) l : (∀ x, x ∈ l → f x ≤ g x) → sumZ f l ≤ sumZ g l.
Proof.
  induction l as [|x l IH]; intros Hf; simpl; [lia|].
  pose proof (Hf x ltac:(set_solver)). specialize (IH ltac:(set_solver)). lia.
Qed.
Lemma sumZ_ext {A} (f g : A → Z) l : (∀ x, x ∈ l → f x = g x) → sumZ f l = sumZ g l.
Proof.
  induction l as [|x l IH]; intros Hf; simpl; [lia|].
  rewrite (Hf x) by set_solver. rewrite IH by set_solver. lia.
Qed.
Lemma sumZ_const {A} (k : Z) (l : list A) : sumZ (λ _, k) l = k * Z.of_nat (length l).
Proof. induction l; simpl; lia. Qed.
Lemma sumZ_mul_r {A} (f : A → Z) k l : sumZ (λ x, f x * k) l = sumZ f l * k.
Proof. induction l; simpl; lia. Qed.
Lemma sumZ_elem_le {A} (f : A → Z) l x :
  (∀ y, y ∈ l → 0 ≤ f y) → x ∈ l → f x ≤ sumZ f l.
Proof.
  induction l as [|y l IH]; intros Hf; simpl; [set_solver|].
  intros [->|Hx]%elem_of_cons.
  - pose proof (sumZ_nonneg f l ltac:(set_solver)). lia.
  - pose proof (Hf y ltac:(set_solver)). specialize (IH ltac:(set_solver) Hx). lia.
Qed.

Section map_sum.
Context {K : Type} `{Countable K} {V : Type}.
Definition map_sum (f : K → V → Z) (m : gmap K V) : Z :=
  sumZ (λ kv, f kv.1 kv.2) (map_to_list m).
Lemma map_sum_empty f : map_sum f ∅ = 0.
Proof. unfold map_sum. by rewrite map_to_list_empty. Qed.
Lemma map_sum_insert_None f m k v :
  m !! k = None → map_sum f (<[k:=v]> m) = f k v + map_sum f m.
Proof. intros Hk. unfold map_sum. by rewrite map_to_list_insert. Qed.
Lemma map_sum_delete f m k v :
  m !! k = Some v → map_sum f m = f k v + map_sum f (delete k m).
Proof.
  intros Hk. rewrite <-(insert_delete_id m k v) at 1 by done.
  by rewrite map_sum_insert_None by apply lookup_delete_eq.
Qed.
Lemma map_sum_insert f m k v :
  map_sum f (<[k:=v]> m) = f k v + map_sum f (delete k m).
Proof.
  rewrite <-insert_delete_eq. by rewrite map_sum_insert_None by apply lookup_delete_eq.
Qed.
Lemma map_sum_nonneg f m : (∀ k v, m !! k = Some v → 0 ≤ f k v) → 0 ≤ map_sum f m.
Proof.
  intros Hf. apply sumZ_nonneg. intros [k v] Hin%elem_of_map_to_list. by apply Hf.
Qed.
Lemma map_sum_ext f g m :
  (∀ k v, m !! k = Some v → f k v = g k v) → map_sum f m = map_sum g m.
Proof.
  intros Hf. apply sumZ_ext. intros [k v] Hin%elem_of_map_to_list. by apply Hf.
Qed.
Lemma map_sum_elem_le f m k v :
  (∀ k v, m !! k = Some v → 0 ≤ f k v) → m !! k = Some v → f k v ≤ map_sum f m.
Proof.
  intros Hf Hk. rewrite (map_sum_delete f m k v Hk).
  enough (0 ≤ map_sum f (delete k m)) by lia.
  apply map_sum_nonneg. intros k' v' [_ Hk']%lookup_delete_Some. by apply Hf.
Qed.
Lemma map_sum_filter_if f (sel : K → bool) m :
  map_sum (λ k v, if sel k then f k v else 0) m = map_sum f (clear_where (negb ∘ sel) m).
Proof.
  induction m as [|k v m Hk IH] using map_ind.
  - unfold clear_where. by rewrite map_filter_empty, !map_sum_empty.
  - rewrite map_sum_insert_None by done. rewrite IH. unfold clear_where.
    destruct (sel k) eqn:E.
    + rewrite map_filter_insert_True by (simpl; by rewrite E).
      rewrite map_sum_insert_None; [lia|]. apply map_lookup_filter_None. by left.
    + rewrite map_filter_insert_False by (simpl; by rewrite E).
      rewrite delete_id by done. lia.
Qed.
End map_sum.

(** ** Machine integers *)
Definition int64_min : Z := - 2 ^ 63.
Definition int64_max : Z := 2 ^ 63 - 1.
Definition wrap64 (z : Z) : Z := (z + 2 ^ 63) mod 2 ^ 64 - 2 ^ 63.
Definition in_int64 (z : Z) : Prop := int64_min ≤ z ≤ int64_max.

Lemma wrap64_id z : in_int64 z → wrap64 z = z.
Proof.
  unfold in_int64, wrap64, int64_min, int64_max. intros H.
  rewrite Z.mod_small; lia.
Qed.
Lemma wrap64_range z : in_int64 (wrap64 z).
Proof.
  unfold in_int64, wrap64, int64_min, int64_max.
  pose proof (Z.mod_pos_bound (z + 2 ^ 63) (2 ^ 64) ltac:(lia)). lia.
Qed.

(** What a non-empty field carries. *)
Definition nonempty (s : string) : option string := if String.eqb s "" then None else Some s.

(** ** Optional writes to a map, one per entry of a list *)
Definition put_opt {K V} `{Countable K} (k : K) (o : option V) (m : gmap K V) : gmap K V :=
  match o with Some v => <[k := v]> m | None => m end.
Definition append_opt {T} `{Countable T} (id : N) (o : option T) (q : gmap T (list N)) : gmap T (list N) :=
  match o with Some ts => <[ts := default [] (q !! ts) ++ [id]]> q | None => q end.

Section puts.
Context {A K V : Type} `{Countable K} (key : A → K) (f : A → option V).
Definition puts (l : list A) (m : gmap K V) : gmap K V := foldl (λ m x, put_opt (key x) (f x) m) m l.

Lemma puts_snoc l x m : puts (l ++ [x]) m = put_opt (key x) (f x) (puts l m).
Proof. unfold puts. by rewrite foldl_app. Qed.
Lemma puts_other l m k : k ∉ key <$> l → puts l m !! k = m !! k.
Proof.
  induction l as [|x l IH] using rev_ind; [done|]. rewrite fmap_app, elem_of_app. intros Hk.
  rewrite puts_snoc. unfold put_opt. destruct (f x); [rewrite lookup_insert_ne by set_solver|]; apply IH; tauto.
Qed.
Lemma puts_lookup l m x :
  NoDup (key <$> l) → x ∈ l → puts l m !! key x = match f x with Some v => Some v | None => m !! key x end.
Proof.
  induction l as [|y l IH] using rev_ind; [set_solver|]. rewrite fmap_app, NoDup_app.
  intros (Hl & Hy & _) [Hx| ->%list_elem_of_singleton]%elem_of_app; rewrite puts_snoc; unfold put_opt.
  - assert (key y ≠ key x) by (intros E; apply (Hy (key x)); [by apply list_elem_of_fmap_2|rewrite <-E; by left]).
    destruct (f y); [rewrite lookup_insert_ne by done|]; by apply IH.
  - destruct (f y); [by rewrite lookup_insert_eq|]. apply puts_other.
    intros Hin. apply (Hy _ Hin). by left.
Qed.
(** From the empty map, the entries are exactly those the list writes. *)
Lemma puts_empty l k v :
  NoDup (key <$> l) → puts l ∅ !! k = Some v ↔ ∃ x, x ∈ l ∧ key x = k ∧ f x = Some v.
Proof.
  intros Hl. split.
  - intros E. destruct (decide (k ∈ key <$> l)) as [(x & -> & Hx)%list_elem_of_fmap|Hk];
      [|rewrite puts_other in E by done; by rewrite lookup_empty in E].
    exists x. split_and!; [done|done|]. rewrite puts_lookup in E by done. destruct (f x); [done|by rewrite lookup_empty in E].
  - intros (x & Hx & <- & E). by rewrite puts_lookup, E.
Qed.
End puts.

(** A map is rebuilt from the list of its entries. *)
Lemma puts_iterate {A K V} `{Countable K, !KeyOrd K} (key : A → K) (f : A → option V) (g : K * V → A) (m : gmap K V) :
  (∀ kv, kv ∈ iterate m → key (g kv) = kv.1 ∧ f (g kv) = Some kv.2) → puts key f (g <$> iterate m) ∅ = m.
Proof.
  intros Hg. apply map_eq. intros k. apply option_eq. intros v. rewrite puts_empty.
  - split.
    + intros (x & (kv & -> & Hin)%list_elem_of_fmap & Ek & Ev). destruct (Hg kv Hin) as [E1 E2].
      destruct kv as [k' v']. apply elem_of_iterate in Hin. cbn in *. congruence.
    + intros Hin%elem_of_iterate. destruct (Hg _ Hin) as [E1 E2]. exists (g (k, v)).
      split_and!; [by apply list_elem_of_fmap_2|done|done].
  - rewrite <-list_fmap_compose. erewrite list_fmap_ext; [apply NoDup_fst_iterate|].
    intros i kv E. apply list_elem_of_lookup_2 in E. by destruct (Hg kv E).
Qed.

(** The buckets a list of appends leaves. *)
Lemma appends_lookup {A T} `{Countable T} (id : A → N) (due : A → option T) l (q : gmap T (list N)) ts :
  default [] (foldl (λ q x, append_opt (id x) (due x) q) q l !! ts)
  = default [] (q !! ts) ++ (id <$> filter (λ x, due x = Some ts) l).
Proof.
  induction l as [|x l IH] using rev_ind; [by rewrite app_nil_r|].
  rewrite foldl_app, filter_app, fmap_app. cbn [foldl]. unfold append_opt at 1.
  destruct (due x) as [ts'|] eqn:E.
  - destruct (decide (ts' = ts)) as [->|Hne].
    + rewrite lookup_insert_eq, filter_cons_True by done. cbn. by rewrite IH, <-app_assoc.
    + rewrite lookup_insert_ne, filter_cons_False by congruence. cbn. by rewrite app_nil_r.
  - rewrite filter_cons_False by congruence. cbn. by rewrite app_nil_r.
Qed.

(** A loop of writes to one collection. *)
Lemma foldl_proj {A W B} (s : W → B) (step : W → A → W) (g : B → A → B) (l : list A) (w : W) :
  (∀ w x, s (step w x) = g (s w) x) → s (foldl step w l) = foldl g (s w) l.
Proof. intros Hs. revert w. induction l as [|x l IH]; intros w; [done|]. cbn. by rewrite IH, Hs. Qed.

Lemma foldl_keep {A W B} (s : W → B) (step : W → A → W) (l : list A) (w : W) :
  (∀ w x, s (step w x) = s w) → s (foldl step w l) = s w.
Proof. intros Hs. revert w. induction l as [|x l IH]; intros w; [done|]. cbn. by rewrite IH, Hs. Qed.

(** A loop that only writes entries of one map. *)
Lemma writes_run {W A K V} `{Countable K} (upd : (gmap K V → gmap K V) → W → W) (key : A → K) (f : A → V)
    (step : A → W → W) l c w :
  (∀ x w, step x w = upd (insert (key x) (f x)) w) → (∀ w, upd (λ m, m) w = w) →
  (∀ g h w, upd g (upd h w) = upd (λ m, g (h m)) w) →
  for_each l (λ x, modify (step x)) c w = (Ok tt, upd (puts key (λ x, Some (f x)) l) w).
Proof.
  intros Hs Hid Hcomp. rewrite for_each_modify. f_equal. revert w.
  induction l as [|x l IH]; intros w; [by rewrite Hid|]. cbn [foldl]. by rewrite IH, Hs, Hcomp.
Qed.
