(* ===== verification/GoTime.v ===== *)
(** Instants and durations as the modules use them, and the binary form that
    keys the provider's time queues ([timeToBytes], [bytesToTime] in
    x/vaas/provider/keeper/keeper.go): encoding round trip and the agreement of
    the stored byte order with the order of instants. *)
From S2P Require Import Prelude.

(** An instant: nanoseconds since January 1 of year 1, UTC, so that Go's zero
    [time.Time{}] is 0. A [time.Duration] is a number of nanoseconds. *)
Abbreviation Time := Z.
Abbreviation Duration := Z.

Definition nanosPerSecond : Z := 1000000000.
Definition Second : Duration := nanosPerSecond.
Definition Hour : Duration := 3600 * Second.
Definition Day : Duration := 24 * Hour.

(** Seconds from year 1 to the Unix epoch (package time). *)
Definition unixToInternal : Z := (1969 * 365 + 1969 / 4 - 1969 / 100 + 1969 / 400) * 86400.

Definition time_IsZero (t : Time) : bool := t =? 0.
Definition time_After (t u : Time) : bool := u <? t.
Definition time_Before (t u : Time) : bool := t <? u.
Definition time_Add (t : Time) (d : Duration) : Time := t + d.

(** [Time.Sub] saturates at the ends of [Duration]. *)
Definition time_Sub (t u : Time) : Duration :=
  Z.max int64_min (Z.min int64_max (t - u)).

Definition time_Unix (t : Time) : Z := t / nanosPerSecond - unixToInternal.
Definition time_UnixNano (t : Time) : Z := wrap64 (t - unixToInternal * nanosPerSecond).

(** ** Big-endian bytes *)
Fixpoint be_bytes (n : nat) (z : Z) : list Z :=
  match n with
  | O => []
  | S n' => (z / 256 ^ Z.of_nat n') mod 256 :: be_bytes n' z
  end.

Fixpoint be_value (bz : list Z) : Z :=
  match bz with
  | [] => 0
  | b :: bz' => b * 256 ^ Z.of_nat (length bz') + be_value bz'
  end.

(** Byte-wise (store key) order. *)
Fixpoint bytes_ltb (x y : list Z) : bool :=
  match x, y with
  | [], [] => false
  | [], _ :: _ => true
  | _ :: _, [] => false
  | a :: x', b :: y' => if a =? b then bytes_ltb x' y' else a <? b
  end.

Definition timeBinaryVersionV1 : Z := 1.
Definition timeBinaryVersionV2 : Z := 2.

(** [Time.MarshalBinary] of a UTC instant: version, 8 bytes of seconds, 4 bytes
    of nanoseconds, and the zone offset -1 that stands for UTC. *)
Definition timeToBytes (t : Time) : list Z :=
  timeBinaryVersionV1
    :: be_bytes 8 (t / nanosPerSecond)
    ++ be_bytes 4 (t mod nanosPerSecond)
    ++ [255; 255].

(** [Time.UnmarshalBinary]: the instant it denotes, [None] for its errors. *)
Definition bytesToTime (bz : list Z) : option Time :=
  match bz with
  | [] => None
  | version :: rest =>
      let wantLen := if version =? timeBinaryVersionV2 then 15%nat else 14%nat in
      if negb ((version =? timeBinaryVersionV1) || (version =? timeBinaryVersionV2)) then None
      else if negb (Nat.eqb (length rest) wantLen) then None
      else
        let sec := wrap64 (be_value (take 8 rest)) in
        let nsec := be_value (take 4 (drop 8 rest)) in
        Some (sec * nanosPerSecond + nsec)
  end.

(** The instants whose seconds fit the 63 bits a stored non-negative count has. *)
Definition storable_time (t : Time) : Prop := 0 ≤ t < 2 ^ 63 * nanosPerSecond.

Lemma be_bytes_length n z : length (be_bytes n z) = n.
Proof. induction n; simpl; congruence. Qed.

Lemma be_value_be_bytes n z : be_value (be_bytes n z) = z mod 256 ^ Z.of_nat n.
Proof.
  induction n as [|n IH]; [simpl; by rewrite Z.mod_1_r|].
  cbn [be_bytes be_value]. rewrite be_bytes_length, IH.
  replace (Z.of_nat (S n)) with (Z.of_nat n + 1) by lia.
  rewrite Z.pow_add_r, Z.pow_1_r by lia.
  rewrite (Z.rem_mul_r z (256 ^ Z.of_nat n) 256) by lia. lia.
Qed.

Lemma be_value_small n z : 0 ≤ z < 256 ^ Z.of_nat n → be_value (be_bytes n z) = z.
Proof. intros. rewrite be_value_be_bytes. by apply Z.mod_small. Qed.

Lemma be_bytes_bound n z b : b ∈ be_bytes n z → 0 ≤ b < 256.
Proof.
  induction n as [|n IH]; simpl; [set_solver|].
  intros [->|]%elem_of_cons; [|auto]. apply Z.mod_pos_bound. lia.
Qed.

Lemma be_value_bound bz :
  (∀ b, b ∈ bz → 0 ≤ b < 256) → 0 ≤ be_value bz < 256 ^ Z.of_nat (length bz).
Proof.
  induction bz as [|b bz IH]; intros Hb; cbn [be_value length]; [lia|].
  specialize (IH ltac:(set_solver)). pose proof (Hb b ltac:(set_solver)).
  replace (Z.of_nat (S (length bz))) with (Z.of_nat (length bz) + 1) by lia.
  rewrite Z.pow_add_r, Z.pow_1_r by lia. nia.
Qed.

(** On strings of one length, byte order is the order of the numbers. *)
Lemma bytes_ltb_be_value x y :
  length x = length y →
  (∀ b, b ∈ x → 0 ≤ b < 256) → (∀ b, b ∈ y → 0 ≤ b < 256) →
  bytes_ltb x y = (be_value x <? be_value y).
Proof.
  revert y. induction x as [|a x IH]; intros [|b y]; try done.
  intros [= Hlen] Hx Hy. cbn [bytes_ltb be_value].
  pose proof (be_value_bound x ltac:(set_solver)).
  pose proof (be_value_bound y ltac:(set_solver)).
  rewrite Hlen in *. destruct (Z.eqb_spec a b) as [->|Hab].
  - rewrite IH by set_solver. destruct (Z.ltb_spec (be_value x) (be_value y)); symmetry;
      [apply Z.ltb_lt|apply Z.ltb_ge]; lia.
  - destruct (Z.ltb_spec a b); symmetry; [apply Z.ltb_lt|apply Z.ltb_ge]; nia.
Qed.

Lemma bytes_ltb_app x1 y1 x2 y2 :
  length x1 = length y1 →
  bytes_ltb (x1 ++ x2) (y1 ++ y2) =
  if decide (x1 = y1) then bytes_ltb x2 y2 else bytes_ltb x1 y1.
Proof.
  revert y1. induction x1 as [|a x1 IH]; intros [|b y1]; try done.
  intros [= Hlen]. cbn [app bytes_ltb]. rewrite IH by done.
  destruct (Z.eqb_spec a b); repeat case_decide; congruence.
Qed.

(** Decoding an encoded time gives the time back. *)
Lemma timeToBytes_roundtrip t : storable_time t → bytesToTime (timeToBytes t) = Some t.
Proof.
  unfold storable_time, nanosPerSecond. intros Ht.
  set (s := t / 1000000000). set (n := t mod 1000000000).
  assert (0 ≤ s < 2 ^ 63) by (subst s; split; [apply Z.div_pos|apply Z.div_lt_upper_bound]; lia).
  assert (0 ≤ n < 1000000000) by (apply Z.mod_pos_bound; lia).
  unfold timeToBytes, nanosPerSecond. fold s n.
  unfold bytesToTime. cbn [Z.eqb orb negb timeBinaryVersionV1 timeBinaryVersionV2 Pos.eqb].
  rewrite !length_app, !be_bytes_length. cbn [length Nat.add Nat.eqb negb].
  rewrite take_app_length' by (by rewrite be_bytes_length).
  rewrite drop_app_length' by (by rewrite be_bytes_length).
  rewrite take_app_length' by (by rewrite be_bytes_length).
  rewrite !be_value_small by lia. rewrite wrap64_id by (unfold in_int64, int64_min, int64_max; lia).
  f_equal. unfold nanosPerSecond. subst s n.
  pose proof (Z.div_mod t 1000000000). lia.
Qed.

(** Two instants of 2024, half a second and a second into the same minute. *)
Lemma timeToBytes_roundtrip_witness :
  bytesToTime (timeToBytes 63840000000500000000) = Some 63840000000500000000.
Proof. apply (timeToBytes_roundtrip 63840000000500000000). vm_compute. by split. Defined.

(** The byte order of encoded times, by which the store iterates its time queues, is
    the order of the times. *)
Lemma timeToBytes_order t u :
  storable_time t → storable_time u →
  bytes_ltb (timeToBytes t) (timeToBytes u) = time_Before t u.
Proof.
  unfold storable_time, time_Before. intros Ht Hu. unfold timeToBytes.
  assert (∀ v, 0 ≤ v < 2 ^ 63 * nanosPerSecond →
    0 ≤ v / nanosPerSecond < 2 ^ 63 ∧ 0 ≤ v mod nanosPerSecond < nanosPerSecond ∧
    v = nanosPerSecond * (v / nanosPerSecond) + v mod nanosPerSecond) as Hv.
  { unfold nanosPerSecond. intros v Hv. split_and!; try (apply Z.mod_pos_bound; lia).
    - apply Z.div_pos; lia. - apply Z.div_lt_upper_bound; lia. - apply Z.div_mod; lia. }
  destruct (Hv t Ht) as (Hs & Hn & Et). destruct (Hv u Hu) as (Hs' & Hn' & Eu).
  revert Hs Hn Et Hs' Hn' Eu.
  generalize (t / nanosPerSecond) (t mod nanosPerSecond) (u / nanosPerSecond) (u mod nanosPerSecond).
  intros s n s' n' Hs Hn Et Hs' Hn' Eu. unfold nanosPerSecond in *.
  cbn [bytes_ltb]. rewrite Z.eqb_refl.
  rewrite bytes_ltb_app by (by rewrite !be_bytes_length).
  rewrite bytes_ltb_app by (by rewrite !be_bytes_length).
  change (bytes_ltb [255; 255] [255; 255]) with false.
  rewrite !bytes_ltb_be_value, !be_value_small by
    (rewrite ?be_bytes_length; done || lia || apply be_bytes_bound).
  assert (∀ k x y, 0 ≤ x < 256 ^ Z.of_nat k → 0 ≤ y < 256 ^ Z.of_nat k →
    be_bytes k x = be_bytes k y → x = y) as Hinj.
  { intros k x y Hx Hy E. by rewrite <-(be_value_small k x), <-(be_value_small k y), E. }
  destruct (decide (be_bytes 8 s = be_bytes 8 s')) as [E|E].
  - apply Hinj in E as <-; [|simpl; lia..].
    destruct (decide (be_bytes 4 n = be_bytes 4 n')) as [E|E].
    + apply Hinj in E as <-; [|simpl; lia..]. simpl. symmetry. apply Z.ltb_ge. lia.
    + destruct (Z.ltb_spec n n'); symmetry; [apply Z.ltb_lt|apply Z.ltb_ge]; lia.
  - assert (s ≠ s') by congruence.
    destruct (Z.ltb_spec s s'); symmetry; [apply Z.ltb_lt|apply Z.ltb_ge]; lia.
Qed.

Lemma timeToBytes_order_witness :
  bytes_ltb (timeToBytes 63840000000500000000) (timeToBytes 63840000001000000000) = true.
Proof.
  rewrite (timeToBytes_order 63840000000500000000 63840000001000000000);
    [reflexivity|vm_compute; by split..].
Defined.

(** A saturated difference still orders correctly against any duration. *)
Lemma time_Sub_gt t u d : in_int64 d → d < int64_max → d < time_Sub t u ↔ d < t - u.
Proof. unfold time_Sub, in_int64, int64_min, int64_max. lia. Qed.

Lemma time_Sub_le t u d : in_int64 d → d < int64_max → time_Sub t u ≤ d ↔ t - u ≤ d.
Proof. unfold time_Sub, in_int64, int64_min, int64_max. lia. Qed.
