(* ===== verification/Types.v ===== *)
(** The shared data of both modules: x/vaas/types (wire packets, the missed
    block bitmap, validator-update accumulation, parameter checks) and the
    enumerations and parameter sets of x/vaas/provider/types, with the
    interfaces of the decimal and key libraries they use. *)
From S2P Require Import Prelude GoTime.

(** ** Library interfaces *)

(** cosmossdk.io/math [LegacyDec]: fixed-point decimals, with the nil value a
    decoded packet can hold. [math.Int] is [Z]; its [Quo] truncates
    ([Z.quot]). *)
Class LegacyDec := {
  dec : Type;
  dec_IsNil : dec → bool;
  dec_LT : dec → dec → bool;
  dec_Equal : dec → dec → bool;
  dec_Sub : dec → dec → dec;
  dec_Mul : dec → dec → dec;
  dec_Quo : dec → dec → dec;
  dec_MulInt64 : dec → Z → dec;
  dec_QuoInt64 : dec → Z → dec;
  dec_Ceil : dec → dec;
  dec_TruncateInt : dec → Z;
  dec_RoundInt : dec → Z;
  dec_NewDec : Z → dec;
  dec_NewDecFromStr : string → option dec;
}.

Section dec_derived.
Context `{LegacyDec}.
Definition dec_Zero : dec := dec_NewDec 0.
Definition dec_One : dec := dec_NewDec 1.
Definition dec_IsPositive (d : dec) : bool := dec_LT dec_Zero d.
Definition dec_IsNegative (d : dec) : bool := dec_LT d dec_Zero.
Definition dec_IsZero (d : dec) : bool := dec_Equal d dec_Zero.
Definition dec_GT (a b : dec) : bool := dec_LT b a.
Definition dec_GTE (a b : dec) : bool := negb (dec_LT a b).
Definition dec_LTE (a b : dec) : bool := negb (dec_LT b a).
End dec_derived.

(** The behaviour of decimals the modules rely on. *)
Class LegacyDecLaws `{LegacyDec} : Prop := {
  dec_LT_irrefl d : dec_LT d d = false;
  (* 0 < d < 1 and 0 < w: ceil(d * w) is between 1 and w *)
  dec_ceil_fraction d w :
    dec_IsPositive d = true → dec_LT d dec_One = true → 0 < w →
    1 ≤ dec_TruncateInt (dec_Ceil (dec_MulInt64 d w)) ≤ w;
  (* 0 < d < 1 and 0 < w: trunc(d * w) is between 0 and w - 1 *)
  dec_trunc_fraction d w :
    dec_IsPositive d = true → dec_LT d dec_One = true → 0 < w →
    0 ≤ dec_TruncateInt (dec_MulInt64 d w) < w;
}.

(** CometBFT and SDK key handling. A public key is named by the string its
    [String] method renders, which is what the modules compare keys by. *)
Abbreviation PubKey := string.
Class Keys := {
  PubKeyFromProto : PubKey → option unit;   (* type and length are supported *)
  SdkPubKey : Type;
  FromCmtProtoPublicKey : PubKey → option SdkPubKey;
  GetConsAddress : SdkPubKey → string;
}.

Definition TMCryptoPublicKeyToConsAddr `{Keys} (k : PubKey) : option string :=
  match FromCmtProtoPublicKey k with
  | None => None
  | Some sdkK => Some (GetConsAddress sdkK)
  end.
Arguments TMCryptoPublicKeyToConsAddr : simpl never.

(** ** Validator updates *)
Record ValidatorUpdate := mkUpdate { PubKey_ : PubKey; Power : Z }.

#[global] Instance ValidatorUpdate_eq_dec : EqDecision ValidatorUpdate.
Proof. solve_decision. Defined.

Record DowntimeParams `{LegacyDec} := mkDowntimeParams {
  dp_SignedBlocksWindow : Z;
  dp_MinSignedPerWindow : dec;
}.
Arguments mkDowntimeParams {_} _ _.

Record ValidatorSetChangePacketData `{LegacyDec} := mkVSC {
  ValidatorUpdates : list ValidatorUpdate;
  ValsetUpdateId : N;
  ConsumerInDebt : bool;
  IsSnapshot : bool;
  VSC_DowntimeParams : option DowntimeParams;
}.
Arguments mkVSC {_} _ _ _ _ _.

Inductive Infraction := INFRACTION_UNSPECIFIED | INFRACTION_DOUBLE_SIGN | INFRACTION_DOWNTIME.
#[global] Instance Infraction_eq_dec : EqDecision Infraction.
Proof. solve_decision. Defined.

(** The two ends of an IBC packet (keys.go), and a payload, its value as the
    module's JSON decoder reads it. *)
Definition ProviderAppID : string := "vaasprovider".
Definition ConsumerAppID : string := "vaasconsumer".
Record Payload (A : Type) := mkPayload { SourcePort : string; DestinationPort : string; Value : option A }.
Arguments mkPayload {_} _ _ _.
Arguments SourcePort {_} _.
Arguments DestinationPort {_} _.
Arguments Value {_} _.

(** ** The missed-block bitmap (x/vaas/types/utils.go) *)
Module Bitmap.
(** A byte is an integer in [0, 256). *)
Abbreviation t := (list Z).

Definition BitmapIsSet (bitmap : t) (i : Z) : bool :=
  let byteIdx := Z.quot i 8 in
  if (i <? 0) || (Z.of_nat (length bitmap) <=? byteIdx) then false
  else negb (Z.land (nth (Z.to_nat byteIdx) bitmap 0) (Z.shiftl 1 (Z.rem i 8)) =? 0).

(** [None] is the run-time panic on an index outside the slice. *)
Definition BitmapSet (bitmap : t) (i : Z) : option t :=
  let byteIdx := Z.quot i 8 in
  if (i <? 0) || (Z.of_nat (length bitmap) <=? byteIdx) then None
  else Some (<[Z.to_nat byteIdx :=
                 Z.lor (nth (Z.to_nat byteIdx) bitmap 0) (Z.shiftl 1 (Z.rem i 8))]> bitmap).

(** [make([]byte, n)]. *)
Definition zeros (n : Z) : t := replicate (Z.to_nat n) 0.

(** Set bits among the indices [from, to). *)
Definition countMissedBits (bitmap : t) (from to : Z) : Z :=
  Z.of_nat (length (filter (λ i, BitmapIsSet bitmap i = true) (seqZ from (to - from)))).

Lemma BitmapSet_nil i : BitmapSet [] i = None.
Proof.
  unfold BitmapSet. destruct (Z.ltb_spec i 0); [done|]. pose proof (Z.quot_pos i 8 ltac:(lia) ltac:(lia)).
  cbn [length orb]. by rewrite (proj2 (Z.leb_le _ _)) by lia.
Qed.
Lemma zeros_length n : 0 ≤ n → Z.of_nat (length (zeros n)) = n.
Proof. intros. unfold zeros. rewrite length_replicate. lia. Qed.

Lemma shiftl_1_testbit n k : 0 ≤ n → 0 ≤ k → Z.testbit (Z.shiftl 1 n) k = (k =? n).
Proof.
  intros Hn Hk. rewrite Z.shiftl_spec by done.
  destruct (Z.eqb_spec k n) as [->|Hne]; [by rewrite Z.sub_diag|].
  destruct (Z.ltb_spec (k - n) 0); [by rewrite Z.testbit_neg_r|].
  apply Z.bits_above_log2; simpl; lia.
Qed.

Lemma land_bit a n : 0 ≤ n → (Z.land a (Z.shiftl 1 n) =? 0) = negb (Z.testbit a n).
Proof.
  intros Hn. destruct (Z.testbit a n) eqn:E; simpl.
  - apply Z.eqb_neq. intros H0. apply (f_equal (λ z, Z.testbit z n)) in H0.
    rewrite Z.land_spec, shiftl_1_testbit, Z.eqb_refl, E, Z.bits_0 in H0 by lia. done.
  - apply Z.eqb_eq, Z.bits_inj'. intros k Hk.
    rewrite Z.land_spec, shiftl_1_testbit, Z.bits_0 by lia.
    destruct (Z.eqb_spec k n) as [->|]; [by rewrite E|by rewrite andb_false_r].
Qed.

(** Bit [i] lives at bit [i mod 8] of byte [i / 8]. *)
Lemma BitmapIsSet_testbit bm i :
  0 ≤ i → i / 8 < Z.of_nat (length bm) →
  BitmapIsSet bm i = Z.testbit (nth (Z.to_nat (i / 8)) bm 0) (i mod 8).
Proof.
  intros Hi Hlen. unfold BitmapIsSet.
  rewrite Z.quot_div_nonneg, Z.rem_mod_nonneg by lia.
  rewrite (proj2 (Z.ltb_ge i 0)), (proj2 (Z.leb_gt _ _)) by lia. simpl.
  rewrite land_bit, negb_involutive by (apply Z.mod_pos_bound; lia). done.
Qed.

Lemma BitmapIsSet_out bm i :
  i < 0 ∨ Z.of_nat (length bm) ≤ i / 8 → BitmapIsSet bm i = false.
Proof.
  intros H. unfold BitmapIsSet. destruct (Z.ltb_spec i 0); [done|].
  rewrite Z.quot_div_nonneg by lia. by rewrite (proj2 (Z.leb_le _ _)) by lia.
Qed.

Lemma BitmapSet_Some bm i :
  0 ≤ i → i / 8 < Z.of_nat (length bm) →
  ∃ bm', BitmapSet bm i = Some bm' ∧ length bm' = length bm.
Proof.
  intros Hi Hlen. unfold BitmapSet. rewrite Z.quot_div_nonneg by lia.
  rewrite (proj2 (Z.ltb_ge i 0)), (proj2 (Z.leb_gt _ _)) by lia. simpl.
  eexists; split; [done|]. by rewrite length_insert.
Qed.

Lemma nth_insert (l : list Z) (i j : nat) x :
  (i < length l)%nat → nth j (<[i:=x]> l) 0 = if decide (i = j) then x else nth j l 0.
Proof.
  revert i j. induction l as [|y l IH]; intros [|i] [|j] Hi; simpl in *; try done; try lia.
  rewrite IH by lia. repeat case_decide; congruence.
Qed.

Lemma BitmapSet_IsSet bm i bm' j :
  BitmapSet bm i = Some bm' → BitmapIsSet bm' j = if decide (j = i) then true else BitmapIsSet bm j.
Proof.
  unfold BitmapSet. destruct (Z.ltb_spec i 0); [done|]. rewrite Z.quot_div_nonneg by lia.
  destruct (Z.leb_spec (Z.of_nat (length bm)) (i / 8)) as [|Hlen]; [done|]. cbn [orb]. intros [= <-].
  pose proof (Z.div_pos i 8 ltac:(lia) ltac:(lia)). rewrite Z.rem_mod_nonneg by lia.
  pose proof (Z.mod_pos_bound i 8 ltac:(lia)).
  destruct (decide (0 ≤ j ∧ j / 8 < Z.of_nat (length bm))) as [[Hj Hlj]|Hout].
  2: { rewrite !BitmapIsSet_out by (rewrite ?length_insert; lia). rewrite decide_False; [done|]. intros ->. lia. }
  pose proof (Z.div_pos j 8 ltac:(lia) ltac:(lia)). pose proof (Z.mod_pos_bound j 8 ltac:(lia)).
  rewrite !BitmapIsSet_testbit by (rewrite ?length_insert; lia). rewrite nth_insert by lia.
  destruct (decide (Z.to_nat (i / 8) = Z.to_nat (j / 8))) as [E|E].
  - assert (i / 8 = j / 8) as E' by lia. rewrite Z.lor_spec, shiftl_1_testbit, E' by lia.
    destruct (decide (j = i)) as [->|Hne]; [by rewrite Z.eqb_refl, orb_true_r|].
    rewrite (proj2 (Z.eqb_neq _ _)), orb_false_r; [done|].
    intros Em. apply Hne. rewrite (Z.div_mod i 8), (Z.div_mod j 8) by lia. congruence.
  - rewrite decide_False; [done|]. intros ->. done.
Qed.

Lemma nth_repeat_0 n k : nth k (replicate n 0) 0 = 0.
Proof. revert k. induction n; intros [|k]; simpl; auto. Qed.

Lemma zeros_unset n i : BitmapIsSet (zeros n) i = false.
Proof.
  unfold BitmapIsSet. destruct (_ || _); [done|].
  unfold zeros. by rewrite nth_repeat_0, Z.land_0_l.
Qed.

(** Zero bytes behind a bitmap change no bit. *)
Lemma app_zeros_IsSet bm n i : BitmapIsSet (bm ++ zeros n) i = BitmapIsSet bm i.
Proof.
  destruct (decide (0 ≤ i)); [|by rewrite !BitmapIsSet_out by lia].
  destruct (decide (i / 8 < Z.of_nat (length bm))).
  - rewrite !BitmapIsSet_testbit by (rewrite ?length_app; lia). rewrite app_nth1; [done|].
    pose proof (Z.div_pos i 8 ltac:(lia) ltac:(lia)). lia.
  - rewrite (BitmapIsSet_out bm) by lia.
    destruct (decide (i / 8 < Z.of_nat (length (bm ++ zeros n)))); [|by rewrite BitmapIsSet_out by lia].
    rewrite BitmapIsSet_testbit by lia. rewrite app_nth2 by (pose proof (Z.div_pos i 8 ltac:(lia) ltac:(lia)); lia).
    unfold zeros. by rewrite nth_repeat_0, Z.bits_0.
Qed.
End Bitmap.

(** ** Downtime evidence (x/vaas/types/wire.go) *)
Record EvidencePacketData `{LegacyDec} := mkEvidence {
  ValidatorAddr : string;
  WindowEndHeight : Z;
  Infraction_ : Infraction;
  WindowStartHeight : Z;
  MissedBlocksBitmap : Bitmap.t;
  SignedBlocksWindow : Z;
  MinSignedPerWindow : dec;
}.
Arguments mkEvidence {_} _ _ _ _ _ _ _.

Section wire.
Context `{LegacyDec} `{Keys}.

Definition NewValidatorSetChangePacketData (valUpdates : list ValidatorUpdate) (valUpdateID : N)
  : ValidatorSetChangePacketData := mkVSC valUpdates valUpdateID false false None.

Definition ValidatorSetChangePacketData_Validate (vsc : ValidatorSetChangePacketData)
  : result unit :=
  if (ValsetUpdateId vsc =? 0)%N then Err ErrInvalidPacketData
  else
    let ok (u : ValidatorUpdate) :=
      match PubKeyFromProto (PubKey_ u) with
      | None => false
      | Some _ => negb (Power u <? 0)
      end in
    if forallb ok (ValidatorUpdates vsc) then Ok tt else Err ErrInvalidPacketData.

Definition MaxMissed (p : DowntimeParams) : Z :=
  wrap64 (dp_SignedBlocksWindow p -
    dec_TruncateInt (dec_Ceil (dec_MulInt64 (dp_MinSignedPerWindow p) (dp_SignedBlocksWindow p)))).

Definition NewEvidencePacketData (validatorAddr : string) (windowStart : Z) (bitmap : Bitmap.t)
    (span window : Z) (minSigned : dec) : EvidencePacketData :=
  mkEvidence validatorAddr (wrap64 (windowStart + span - 1)) INFRACTION_DOWNTIME
    windowStart bitmap window minSigned.

Definition Span (e : EvidencePacketData) : Z :=
  wrap64 (WindowEndHeight e - WindowStartHeight e + 1).

Definition MissedCount (e : EvidencePacketData) : Z :=
  Bitmap.countMissedBits (MissedBlocksBitmap e) 0 (Span e).

Definition Evidence_MaxMissed (e : EvidencePacketData) : Z :=
  MaxMissed (mkDowntimeParams (SignedBlocksWindow e) (MinSignedPerWindow e)).

Definition EvidencePacketData_Validate (e : EvidencePacketData) : result unit :=
  if String.eqb (ValidatorAddr e) "" then Err ErrInvalidPacketData else
  if WindowEndHeight e <=? 0 then Err ErrInvalidPacketData else
  if negb (bool_decide (Infraction_ e = INFRACTION_DOWNTIME))
  then Err (ErrOther "only DOWNTIME infractions can be sent as evidence packets") else
  if WindowStartHeight e <=? 0 then Err ErrInvalidPacketData else
  if WindowEndHeight e <? WindowStartHeight e then Err ErrInvalidPacketData else
  if SignedBlocksWindow e <=? 0 then Err ErrInvalidPacketData else
  if SignedBlocksWindow e <? Span e then Err ErrInvalidPacketData else
  if negb (Z.of_nat (length (MissedBlocksBitmap e)) =? Z.quot (wrap64 (Span e + 7)) 8)
  then Err ErrInvalidPacketData else
  if dec_IsNil (MinSignedPerWindow e) then Err ErrInvalidPacketData else
  if dec_LTE (MinSignedPerWindow e) dec_Zero || dec_GTE (MinSignedPerWindow e) dec_One
  then Err ErrInvalidPacketData else
  if MissedCount e <=? 0 then Err ErrInvalidPacketData else
  Ok tt.

(** *** Accumulating validator updates (x/vaas/types/utils.go) *)
Definition update_map (l : list ValidatorUpdate) (m : gmap PubKey ValidatorUpdate)
  : gmap PubKey ValidatorUpdate := foldl (λ m u, <[PubKey_ u := u]> m) m l.

(** [sort.Slice]'s order: power descending, then key string descending. *)
Definition update_le (x y : ValidatorUpdate) : Prop :=
  if decide (Power x = Power y) then String.le (PubKey_ y) (PubKey_ x) else Power y < Power x.
#[global] Instance update_le_dec : RelDecision update_le.
Proof. intros x y. unfold update_le. destruct (decide (Power x = Power y)); apply _. Defined.

Definition AccumulateChanges (currentChanges newChanges : list ValidatorUpdate)
  : list ValidatorUpdate :=
  let m := update_map newChanges (update_map currentChanges ∅) in
  merge_sort update_le (map_to_list m).*2.

(** *** Parameter checks (x/vaas/types/shared_params.go) *)
Definition ValidateDuration (d : Duration) : bool := 0 <? d.
Definition ValidatePositiveInt64 (n : Z) : bool := 0 <? n.
Definition ValidateVAASTimeoutPeriod (d maxTimeoutDelta : Duration) : bool :=
  (0 <? d) && negb (maxTimeoutDelta <? d).
Definition ValidateStringFractionNonZero (str : string) : bool :=
  match dec_NewDecFromStr str with
  | None => false
  | Some d => negb (dec_IsNegative d) && negb (dec_GTE d dec_One) && negb (dec_IsZero d)
  end.
Definition ValidateFraction (d : dec) : bool :=
  negb (dec_IsNil d) && negb (dec_IsNegative d) && negb (dec_IsPositive (dec_Sub d (dec_NewDec 1))).
Definition CalculateTrustPeriod (unbondingPeriod : Duration) (fraction : string) : option Duration :=
  match dec_NewDecFromStr fraction with
  | None => None
  | Some trustDec => Some (dec_TruncateInt (dec_MulInt64 trustDec unbondingPeriod))
  end.
End wire.

(** ** Provider enumerations and parameters (x/vaas/provider/types) *)
Inductive ConsumerPhase :=
  | CONSUMER_PHASE_UNSPECIFIED
  | CONSUMER_PHASE_REGISTERED
  | CONSUMER_PHASE_INITIALIZED
  | CONSUMER_PHASE_LAUNCHED
  | CONSUMER_PHASE_STOPPED
  | CONSUMER_PHASE_DELETED
  | CONSUMER_PHASE_PAUSED.
#[global] Instance ConsumerPhase_eq_dec : EqDecision ConsumerPhase.
Proof. solve_decision. Defined.

Definition Prelaunched (p : ConsumerPhase) : bool :=
  bool_decide (p = CONSUMER_PHASE_REGISTERED) || bool_decide (p = CONSUMER_PHASE_INITIALIZED).

Inductive PauseReason :=
  | PAUSE_REASON_UNSPECIFIED
  | PAUSE_REASON_DOWNTIME_CHALLENGE
  | PAUSE_REASON_LIGHT_CLIENT_ATTACK.
#[global] Instance PauseReason_eq_dec : EqDecision PauseReason.
Proof. solve_decision. Defined.

Record Coin := mkCoin { Denom : string; Amount : Z }.
#[global] Instance Coin_eq_dec : EqDecision Coin.
Proof. solve_decision. Defined.

(** A validator as a chain's set stores it (provider.proto). *)
Record ConsensusValidator := mkConsensusValidator {
  ProviderConsAddr : string;
  cv_Power : Z;
  PublicKey : PubKey;
  JoinHeight : Z;
}.
#[global] Instance ConsensusValidator_eq_dec : EqDecision ConsensusValidator.
Proof. solve_decision. Defined.

Record SlashJailParameters `{LegacyDec} := mkSlashJail {
  SlashFraction : dec;
  JailDuration : Duration;
  Tombstone : bool;
}.
Arguments mkSlashJail {_} _ _ _.

Record InfractionParameters `{LegacyDec} := mkInfractionParams {
  DoubleSign : option SlashJailParameters;
  Downtime : option SlashJailParameters;
  DowntimeGracePeriod : Duration;
  ip_SignedBlocksWindow : Z;
  ip_MinSignedPerWindow : dec;
  DowntimeChallengeWindow : Duration;
  DowntimeEvidenceMaxAge : Duration;
}.
Arguments mkInfractionParams {_} _ _ _ _ _ _ _.

Record Params := mkParams {
  TrustingPeriodFraction : string;
  LivenessGraceFraction : string;
  VaasTimeoutPeriod : Duration;
  BlocksPerEpoch : Z;
  FeesPerBlockAmount : Z;
  MinDepositBlocks : Z;
  MaxPauseDuration : Duration;
}.

Record ConsumerInitializationParameters := mkInitParams {
  InitialRevision : Z;
  InitialRevisionHeight : Z;
  SpawnTime : Time;
  ci_UnbondingPeriod : Duration;
  ci_VaasTimeoutPeriod : Duration;
  HistoricalEntries : Z;
  SafeModeThreshold : Duration;
}.

Section params.
Context `{LegacyDec}.

(** channeltypesv2.MaxTimeoutDelta: 24h. *)
Definition MaxTimeoutDelta : Duration := 24 * Hour.

Definition DefaultConsumerUnbondingPeriod : Duration := 21 * Day - 24 * Hour.

Definition SlashJailParameters_Validate (sjp : SlashJailParameters) : bool :=
  ValidateFraction (SlashFraction sjp) && negb (JailDuration sjp <? 0).

Definition InfractionParameters_Validate (ip : InfractionParameters) : bool :=
  match DoubleSign ip with
  | None => false
  | Some ds =>
      SlashJailParameters_Validate ds && dec_IsPositive (SlashFraction ds) &&
      match Downtime ip with
      | None => false
      | Some dt =>
          SlashJailParameters_Validate dt
          && negb (DowntimeGracePeriod ip <? 0)
          && ValidatePositiveInt64 (ip_SignedBlocksWindow ip)
          && negb (dec_IsNil (ip_MinSignedPerWindow ip)
                   || negb (dec_IsPositive (ip_MinSignedPerWindow ip))
                   || negb (dec_LT (ip_MinSignedPerWindow ip) dec_One))
          && ValidateDuration (DowntimeChallengeWindow ip)
          && ValidateDuration (DowntimeEvidenceMaxAge ip)
          && negb (DowntimeChallengeWindow ip <? DowntimeEvidenceMaxAge ip)
      end
  end.

Definition ChallengeableInterval (ip : InfractionParameters) : Duration :=
  wrap64 (DowntimeEvidenceMaxAge ip + DowntimeChallengeWindow ip).

Definition ValidateInfractionParamsAgainst (ip : InfractionParameters) (fraction : string) : bool :=
  match dec_NewDecFromStr fraction with
  | None => false
  | Some frac =>
      let trusting := dec_TruncateInt (dec_MulInt64 frac DefaultConsumerUnbondingPeriod) in
      negb (trusting <=? wrap64 (DowntimeEvidenceMaxAge ip + DowntimeChallengeWindow ip))
  end.

Definition Params_Validate (p : Params) : bool :=
  ValidateStringFractionNonZero (TrustingPeriodFraction p)
  && ValidateVAASTimeoutPeriod (VaasTimeoutPeriod p) MaxTimeoutDelta
  && ValidatePositiveInt64 (BlocksPerEpoch p)
  && (0 <? FeesPerBlockAmount p)
  && ValidateStringFractionNonZero (LivenessGraceFraction p)
  && ValidateDuration (MaxPauseDuration p).
End params.
