(* ===== verification/Externals.v ===== *)
(** The keepers and libraries outside the repository that the provider calls
    (staking, slashing, bank, distribution, IBC, the photon module, address
    derivation), as one interface [Externals], and the laws of the bank and
    distribution keepers the fee pool relies on, as [BankLaws]. Nothing here is
    defined; [Demo] gives one concrete instance for the witnesses. *)
From S2P Require Import Prelude GoTime Types.

(** The view of a staking validator the modules read. [GetConsAddr] and
    [CmtConsPublicKey] can fail on an undecodable consensus key. *)
Record Validator := mkValidator {
  OperatorAddress : string;
  GetConsAddr : option string;
  CmtConsPublicKey : option PubKey;
  IsUnbonded : bool;
  IsJailed : bool;
}.

Inductive ClientStatus := Active | Frozen | Expired | Unknown | Unauthorized.
#[global] Instance ClientStatus_eq_dec : EqDecision ClientStatus.
Proof. solve_decision. Defined.

(** A 07-tendermint client state, as far as it is read. *)
Record TmClientState := mkTmClientState {
  cs_ChainId : string;
  cs_TrustingPeriod : Duration;
  cs_MaxClockDrift : Duration;
}.

(** One signature slot of a commit, and a decoded commit. *)
Inductive BlockIDFlag := BlockIDFlagAbsent | BlockIDFlagCommit | BlockIDFlagNil | BlockIDFlagOther.
#[global] Instance BlockIDFlag_eq_dec : EqDecision BlockIDFlag.
Proof. solve_decision. Defined.
Record CommitSig := mkCommitSig {
  sig_Flag : BlockIDFlag;
  sig_ValidatorAddress : string;
  sig_Signature : string;
}.
Record Commit := mkCommit {
  commit_Height : Z;
  commit_Signatures : list CommitSig;
  commit_Rest : string;
}.
(** A light-client header: the fields the downtime challenge reads, and the
    whole message for the light client. *)
Record TmHeader := mkTmHeader {
  hdr_ChainID : string;
  hdr_Height : Z;
  hdr_LastCommitHash : string;
  hdr_Rest : string;
}.

(** A CometBFT vote, and the double-voting evidence two of them make. *)
Record Vote := mkVote {
  vote_Height : Z;
  vote_Round : Z;
  vote_Type : Z;
  vote_BlockID : string;
  vote_ValidatorAddress : string;
  vote_Signature : string;
  vote_Rest : string;
}.
Record DuplicateVoteEvidence := mkDuplicateVote { VoteA : Vote; VoteB : Vote }.
(** A validator of a CometBFT set, and the light block of an IBC header: the
    header's hashes, its commit and its validator set. *)
Record CmtValidator := mkCmtValidator { val_Address : string; val_PubKey : string }.
Record LightHeader := mkLightHeader {
  lh_ChainID : string;
  ValidatorsHash : string;
  NextValidatorsHash : string;
  ConsensusHash : string;
  AppHash : string;
  LastResultsHash : string;
}.
Record LightCommit := mkLightCommit {
  lc_Round : Z;
  lc_Signatures : list CommitSig;
  lc_Rest : string;
}.
Record LightBlock := mkLightBlock {
  lb_Header : LightHeader;
  lb_Commit : LightCommit;
  lb_ValidatorSet : list CmtValidator;
}.
(** A light-client misbehaviour: its client, and per header the chain id, the
    revision number and height, the encoded signed header and validator set. *)
Record MisbehaviourHeader := mkMisbehaviourHeader {
  mh_ChainID : string;
  mh_Height : N * Z;
  mh_SignedHeader : string;
  mh_ValidatorSet : string;
}.
Record Misbehaviour := mkMisbehaviour {
  mb_ClientId : string;
  Header1 : MisbehaviourHeader;
  Header2 : MisbehaviourHeader;
}.
(** The header a double-voting message brings: chain id, height, encoded
    validator set if it has one, and the rest of the message. *)
Record InfractionHeader := mkInfractionHeader {
  ih_ChainID : string;
  ih_Height : Z;
  ih_ValidatorSet : option string;
  ih_Rest : string;
}.

Class Externals := {
  #[global] ext_dec :: LegacyDec;
  #[global] ext_keys :: Keys;

  (* wiring fixed at application construction *)
  authority : string;
  feeDenom : string;

  (* address derivation and parsing *)
  NewModuleAddress : string → string;
  AccAddressFromBech32 : string → option string;
  ValAddressFromBech32 : string → option string;
  EqualFold : string → string → bool;
  AddressCodec_StringToBytes : string → option string;
  AccAddressString : string → string;

  (* cosmossdk.io/math and the SDK's coins *)
  NewIntFromString : string → option Z;
  ValidateDenom : string → bool;
  Coin_Validate : Coin → bool;
  Coins_Validate : list Coin → bool;
  Coins_Add : list Coin → Coin → list Coin;

  (* x/staking and x/slashing *)
  staking : Type;
  GetBondedValidatorsByPower : staking → option (list Validator);
  MaxValidators : staking → option Z;
  UnbondingTime : staking → option Duration;
  GetLastValidatorPower : staking → string → option Z;
  GetValidator : staking → string → option Validator;
  GetValidatorByConsAddr : staking → string → option Validator;
  (* addresses of the keys rotated to in this block; None for a key that does
     not decode *)
  GetBlockConsPubKeyRotationHistory : staking → option (list (option string));
  IsTombstoned : staking → string → bool;
  PowerReduction : staking → Z;
  (* what slashing every unbonding delegation, and every redelegation, of the
     operator at fraction 1 from height 0 would take, one amount each *)
  SlashableUndelegations : staking → string → option (list Z);
  SlashableRedelegations : staking → string → option (list Z);
  SlashWithInfractionReason :
    staking → string → Z → Z → dec → Infraction → option staking;
  (* x/slashing's state is counted with x/staking's; none of the three fails
     with ErrValidatorTombstoned *)
  Jail : staking → string → option staking;
  JailUntil : staking → string → Time → option staking;
  Tombstone_ : staking → string → option staking;

  (* x/bank, x/distribution and x/photon *)
  bank : Type;
  GetBalance : bank → string → string → Z;
  GetAllBalances : bank → string → list Coin;
  (* a failing call may leave the writes it made before failing *)
  InputOutputCoins : bank → string * list Coin → list (string * list Coin) → bool * bank;
  SendCoinsFromAccountToModule : bank → string → string → list Coin → option bank;
  SendCoinsFromModuleToAccount : bank → string → string → list Coin → option bank;
  FundCommunityPool : bank → list Coin → string → option bank;
  DistributeFromFeePool : bank → list Coin → string → option bank;
  ConversionRate : bank → option dec;

  (* ibc-go *)
  ibc : Type;
  GetClientState : ibc → string → option (option TmClientState);
  GetClientStatus : ibc → string → ClientStatus;
  GetClientCounterparty : ibc → string → option string;
  ConsensusHeights : ibc → string → list Z;
  ConsensusTimestamp : ibc → string → Z → option Time;
  VerifyClientMessage : ibc → string → TmHeader → bool;
  (* success flag and the resulting state: client, timeout, signer, payload *)
  SendPacket : ibc → string → Z → string → ValidatorSetChangePacketData → bool * ibc;
  ParseChainID : string → Z;
  SelfConsensusAvailable : staking → ibc → Z → bool;
  (* the 07-tendermint module on a misbehaviour, and 02-client's update with it *)
  CheckForMisbehaviour : ibc → string → Misbehaviour → bool;
  VerifyMisbehaviour : ibc → string → Misbehaviour → bool;
  UpdateClient : ibc → string → Misbehaviour → option ibc;

  (* CometBFT commits and ed25519 *)
  CommitFromProto : string → option Commit;
  CommitHash : Commit → string;
  Ed25519Address : string → string;
  VoteSignBytes : Commit → string → nat → string;
  VerifySignature : string → string → string → bool;
  (* a vote's and a commit signature's sign bytes, and keys of any type *)
  VoteBytes : string → Vote → string;
  LightVoteSignBytes : LightCommit → string → nat → string;
  PubKeyAddress : string → string;
  PubKeyVerify : string → string → string → bool;
  FromCmtPubKey : string → option string;
  (* decoding, and ValidatorSet.GetByAddress with the index it finds *)
  SignedHeaderFromProto : string → option (LightHeader * LightCommit);
  ValidatorSetFromProto : string → option (list CmtValidator);
  DuplicateVoteEvidenceFromProto : string → option DuplicateVoteEvidence;
  GetByAddress : list CmtValidator → string → option (nat * CmtValidator);
  (* stateless checks of the messages' parts *)
  DuplicateVoteEvidence_ValidateBasic : DuplicateVoteEvidence → bool;
  InfractionHeader_ValidateBasic : InfractionHeader → bool;
  Misbehaviour_ValidateBasic : Misbehaviour → bool;
  Vote_Verify : string → string → Vote → bool;
}.

(** ** Coins *)
Definition AmountOf (coins : list Coin) (denom : string) : Z :=
  sumZ (λ c, if decide (Denom c = denom) then Amount c else 0) coins.

(** [sdk.NewCoins(coin)] drops a zero coin. *)
Definition NewCoins (c : Coin) : list Coin := if Amount c =? 0 then [] else [c].

(** [sdk.Coins.IsZero]: every amount is zero. *)
Definition Coins_IsZero (coins : list Coin) : bool := forallb (λ c, Amount c =? 0) coins.

Lemma AmountOf_NewCoins c d :
  AmountOf (NewCoins c) d = if decide (Denom c = d) then Amount c else 0.
Proof.
  unfold NewCoins, AmountOf. destruct (Z.eqb_spec (Amount c) 0); simpl; case_decide; lia.
Qed.

Section bank_laws.
Context `{Externals}.

Definition received (outs : list (string * list Coin)) (addr denom : string) : Z :=
  sumZ (λ o, if decide (o.1 = addr) then AmountOf o.2 denom else 0) outs.

(** [coins] moved from [from] to [to], nothing else changed. *)
Definition moved (b b' : bank) (from to : string) (coins : list Coin) : Prop :=
  ∀ a d, GetBalance b' a d = GetBalance b a d
    - (if decide (a = from) then AmountOf coins d else 0)
    + (if decide (a = to) then AmountOf coins d else 0).

(** What x/bank and x/distribution document of their transfers. *)
Class BankLaws : Prop := {
  bank_nonneg b a d : 0 ≤ GetBalance b a d;
  io_balance b from ins outs b' :
    InputOutputCoins b (from, ins) outs = (true, b') →
    ∀ a d, GetBalance b' a d = GetBalance b a d
      - (if decide (a = from) then AmountOf ins d else 0) + received outs a d;
  acc_to_module_balance b from m coins b' :
    SendCoinsFromAccountToModule b from m coins = Some b' →
    moved b b' from (NewModuleAddress m) coins;
  module_to_acc_balance b m to coins b' :
    SendCoinsFromModuleToAccount b m to coins = Some b' →
    moved b b' (NewModuleAddress m) to coins;
  fund_pool_balance b coins from b' :
    FundCommunityPool b coins from = Some b' →
    moved b b' from (NewModuleAddress "distribution") coins;
  from_pool_balance b coins to b' :
    DistributeFromFeePool b coins to = Some b' →
    moved b b' (NewModuleAddress "distribution") to coins;
}.

(** When the transfers of the fee pool succeed: module addresses are the
    hashes of distinct names, an account with enough spendable balance can pay
    a module, and a module can pay any account that is not itself a module
    account (those are the blocked ones). *)
Class PayoutLaws : Prop := {
  module_address_inj m m' : NewModuleAddress m = NewModuleAddress m' → m = m';
  drain_ok b from m c :
    0 < Amount c ≤ GetBalance b from (Denom c) →
    is_Some (SendCoinsFromAccountToModule b from m [c]);
  payout_ok b m to c :
    (∀ m', to ≠ NewModuleAddress m') →
    0 < Amount c ≤ GetBalance b (NewModuleAddress m) (Denom c) →
    is_Some (SendCoinsFromModuleToAccount b m to [c]);
  fund_ok b c from :
    0 < Amount c ≤ GetBalance b from (Denom c) →
    is_Some (FundCommunityPool b [c] from);
}.
End bank_laws.

(** What x/slashing documents: the punishing calls leave the validators' keys
    alone, and a tombstone marks the address it is put on. *)
Class SlashingLaws `{Externals} : Prop := {
  slash_keeps_keys s a h p f i s' addr :
    SlashWithInfractionReason s a h p f i = Some s' →
    (GetConsAddr <$> GetValidatorByConsAddr s' addr) = (GetConsAddr <$> GetValidatorByConsAddr s addr);
  jail_keeps_keys s a s' addr :
    Jail s a = Some s' →
    (GetConsAddr <$> GetValidatorByConsAddr s' addr) = (GetConsAddr <$> GetValidatorByConsAddr s addr);
  tombstone_marks s a s' : Tombstone_ s a = Some s' → IsTombstoned s' a = true;
}.

(** What the IBC v2 channel keeper documents of [SendPacket]: a success commits
    the packet on the client it was sent over, a failure commits nothing. *)
Class PacketLog `{Externals} := {
  sent_packets : ibc → string → list ValidatorSetChangePacketData;
  log_sent i client timeout signer p i' :
    SendPacket i client timeout signer p = (true, i') →
    sent_packets i' client = sent_packets i client ++ [p];
  log_failed i client timeout signer p i' :
    SendPacket i client timeout signer p = (false, i') →
    sent_packets i' client = sent_packets i client;
  log_other i client timeout signer p ok i' other :
    other ≠ client → SendPacket i client timeout signer p = (ok, i') →
    sent_packets i' other = sent_packets i other;
}.
