(* ===== verification/World.v ===== *)
(** The provider keeper's store, one record per group of collections of
    x/vaas/provider/keeper (keeper.go, provider/types/keys.go), the world the
    keeper methods act on (that store plus the states of the external keepers),
    and one setter per collection. A collection keyed by a marshalled time is
    keyed here by the time itself: [GoTime.timeToBytes_order] is why the two
    iterate in the same order. *)
From S2P Require Import Prelude GoTime Types Externals.

Record WithheldFeeRecord := mkWithheldFeeRecord {
  wf_ConsumerId : N;
  wf_ProviderConsAddr : string;
  wf_Amount : Coin;
  wf_ExpiresAt : Time;
}.

Record PendingDowntimeSlash := mkPendingDowntimeSlash {
  ps_ConsumerId : N;
  ps_ProviderConsAddr : string;
  ps_ConsumerConsAddr : string;
  ps_WindowStartHeight : Z;
  ps_Span : Z;
  ps_MissedCount : Z;
  ps_MissedBlocksBitmap : list Z;
  ps_SlashTokens : Z;
  ps_MaturesAt : Time;
}.

Record AcceptedDowntimeWindow := mkAcceptedDowntimeWindow {
  aw_WindowStart : Z;
  aw_AcceptedAt : Time;
}.

(** The provider's part of a consumer genesis: client parameters, the initial
    validator updates and the consumer parameters it seeds. *)
Record ConsumerGenesisState `{Externals} := mkConsumerGenesis {
  cg_ChainId : string;
  cg_LatestHeight : Z;
  cg_TrustingPeriod : Duration;
  cg_UnbondingPeriod : Duration;
  cg_InitialValSet : list ValidatorUpdate;
  cg_VaasTimeoutPeriod : Duration;
  cg_HistoricalEntries : Z;
  cg_ConsumerUnbondingPeriod : Duration;
  cg_SafeModeThreshold : Duration;
  cg_SignedBlocksWindow : Z;
  cg_MinSignedPerWindow : dec;
  cg_OwnerAddress : string;
}.
Arguments mkConsumerGenesis {_} _ _ _ _ _ _ _ _ _ _ _ _.

Record PreviousDowntimeParams `{Externals} := mkPreviousDowntimeParams {
  pd_Params : DowntimeParams;
  pd_ChangedAt : Time;
}.
Arguments mkPreviousDowntimeParams {_} _ _.

Record LifecycleStore `{Externals} := mkLifecycleStore {
  ConsumerIdSeq : N;
  ConsumerPhases : gmap N ConsumerPhase;
  ConsumerChainId : gmap N string;
  ConsumerOwnerAddress : gmap N string;
  ConsumerMetadata : gmap N (string * string * string);
  ConsumerInitParams : gmap N ConsumerInitializationParameters;
  ConsumerGenesis : gmap N ConsumerGenesisState;
  InitChainHeight : gmap N N;
  EquivocationEvidenceMinHeight : gmap N Z;
  ConsumerRemovalTime : gmap N Time;
  ConsumerPauseExpirationTime : gmap N Time;
  ConsumerPauseReason : gmap N PauseReason;
  ConsumerPausedAt : gmap N Time;
  ConsumerLastAckTime : gmap N Time;
  SpawnTimeToConsumerIds : gmap Time (list N);
  RemovalTimeToConsumerIds : gmap Time (list N);
  PauseExpirationTimeToConsumerIds : gmap Time (list N);
}.
Arguments mkLifecycleStore {_} _ _ _ _ _ _ _ _ _ _ _ _ _ _ _ _ _.

Record VscStore `{Externals} := mkVscStore {
  ValidatorSetUpdateId : N;
  PendingVSCPackets : gmap N (list ValidatorSetChangePacketData);
  ConsumerValidators : gmap (N * string) ConsensusValidator;
  LastProviderConsensusVals : gmap string ConsensusValidator;
  ConsumerHighestSentVscId : gmap N N;
  ConsumerHighestAckedVscId : gmap N N;
  ConsumerClients : gmap N string;
}.
Arguments mkVscStore {_} _ _ _ _ _ _ _.

Record KeyStore := mkKeyStore {
  ValidatorConsumerPubKey : gmap (N * string) PubKey;
  ValidatorByConsumerAddr : gmap (N * string) string;
  ConsumerAddrsToPrune : gmap (N * Time) (list string);
}.

Record FeeStore := mkFeeStore {
  ConsumerDebt : gmap N bool;
  ConsumerFeesPerBlockOverride : gmap N Z;
  ConsumerFeePoolShares : gmap (N * string * string) Z;
  ConsumerFeePoolTotalShares : gmap (N * string) Z;
  FeePoolAddressToConsumerId : gmap string N;
  EpochShareRecords : gmap (N * Z) Z;
  WithheldFeeRecords : gmap (N * string) WithheldFeeRecord;
}.

Record DowntimeStore `{Externals} := mkDowntimeStore {
  EpochDowntime : gmap (N * string) bool;
  PendingDowntimeSlashes : gmap (N * string * Z) PendingDowntimeSlash;
  AcceptedDowntimeWindows : gmap (N * string * Z) AcceptedDowntimeWindow;
  DowntimeWindowFloors : gmap (N * string) Z;
  PunishedEquivocations : gset (string * string * Z);
  PreviousDowntimeParams_ : option PreviousDowntimeParams;
  Params_ : option Params;
  InfractionParams_ : option InfractionParameters;
}.
Arguments mkDowntimeStore {_} _ _ _ _ _ _ _ _.

Record World `{Externals} := mkWorld {
  w_lc : LifecycleStore;
  w_vs : VscStore;
  w_ks : KeyStore;
  w_fs : FeeStore;
  w_ds : DowntimeStore;
  w_staking : staking;
  w_bank : bank;
  w_ibc : ibc;
}.
Arguments mkWorld {_} _ _ _ _ _ _ _ _.

(** A method of the provider keeper. *)
Abbreviation K := (M World).

Section setters.
Context `{X : Externals}.

Definition set_staking (v : staking) (w : World) : World := mkWorld (w_lc w) (w_vs w) (w_ks w) (w_fs w) (w_ds w) v (w_bank w) (w_ibc w).
Definition set_bank (v : bank) (w : World) : World := mkWorld (w_lc w) (w_vs w) (w_ks w) (w_fs w) (w_ds w) (w_staking w) v (w_ibc w).
Definition set_ibc (v : ibc) (w : World) : World := mkWorld (w_lc w) (w_vs w) (w_ks w) (w_fs w) (w_ds w) (w_staking w) (w_bank w) v.

Definition upd_ConsumerIdSeq (f : N → N) (w : World) : World :=
  let s := w_lc w in
  mkWorld (mkLifecycleStore (f (ConsumerIdSeq s)) (ConsumerPhases s) (ConsumerChainId s) (ConsumerOwnerAddress s) (ConsumerMetadata s) (ConsumerInitParams s) (ConsumerGenesis s) (InitChainHeight s) (EquivocationEvidenceMinHeight s) (ConsumerRemovalTime s) (ConsumerPauseExpirationTime s) (ConsumerPauseReason s) (ConsumerPausedAt s) (ConsumerLastAckTime s) (SpawnTimeToConsumerIds s) (RemovalTimeToConsumerIds s) (PauseExpirationTimeToConsumerIds s)) (w_vs w) (w_ks w) (w_fs w) (w_ds w) (w_staking w) (w_bank w) (w_ibc w).
Definition upd_ConsumerPhases (f : gmap N ConsumerPhase → gmap N ConsumerPhase) (w : World) : World :=
  let s := w_lc w in
  mkWorld (mkLifecycleStore (ConsumerIdSeq s) (f (ConsumerPhases s)) (ConsumerChainId s) (ConsumerOwnerAddress s) (ConsumerMetadata s) (ConsumerInitParams s) (ConsumerGenesis s) (InitChainHeight s) (EquivocationEvidenceMinHeight s) (ConsumerRemovalTime s) (ConsumerPauseExpirationTime s) (ConsumerPauseReason s) (ConsumerPausedAt s) (ConsumerLastAckTime s) (SpawnTimeToConsumerIds s) (RemovalTimeToConsumerIds s) (PauseExpirationTimeToConsumerIds s)) (w_vs w) (w_ks w) (w_fs w) (w_ds w) (w_staking w) (w_bank w) (w_ibc w).
Definition upd_ConsumerChainId (f : gmap N string → gmap N string) (w : World) : World :=
  let s := w_lc w in
  mkWorld (mkLifecycleStore (ConsumerIdSeq s) (ConsumerPhases s) (f (ConsumerChainId s)) (ConsumerOwnerAddress s) (ConsumerMetadata s) (ConsumerInitParams s) (ConsumerGenesis s) (InitChainHeight s) (EquivocationEvidenceMinHeight s) (ConsumerRemovalTime s) (ConsumerPauseExpirationTime s) (ConsumerPauseReason s) (ConsumerPausedAt s) (ConsumerLastAckTime s) (SpawnTimeToConsumerIds s) (RemovalTimeToConsumerIds s) (PauseExpirationTimeToConsumerIds s)) (w_vs w) (w_ks w) (w_fs w) (w_ds w) (w_staking w) (w_bank w) (w_ibc w).
Definition upd_ConsumerOwnerAddress (f : gmap N string → gmap N string) (w : World) : World :=
  let s := w_lc w in
  mkWorld (mkLifecycleStore (ConsumerIdSeq s) (ConsumerPhases s) (ConsumerChainId s) (f (ConsumerOwnerAddress s)) (ConsumerMetadata s) (ConsumerInitParams s) (ConsumerGenesis s) (InitChainHeight s) (EquivocationEvidenceMinHeight s) (ConsumerRemovalTime s) (ConsumerPauseExpirationTime s) (ConsumerPauseReason s) (ConsumerPausedAt s) (ConsumerLastAckTime s) (SpawnTimeToConsumerIds s) (RemovalTimeToConsumerIds s) (PauseExpirationTimeToConsumerIds s)) (w_vs w) (w_ks w) (w_fs w) (w_ds w) (w_staking w) (w_bank w) (w_ibc w).
Definition upd_ConsumerMetadata (f : gmap N (string * string * string) → gmap N (string * string * string)) (w : World) : World :=
  let s := w_lc w in
  mkWorld (mkLifecycleStore (ConsumerIdSeq s) (ConsumerPhases s) (ConsumerChainId s) (ConsumerOwnerAddress s) (f (ConsumerMetadata s)) (ConsumerInitParams s) (ConsumerGenesis s) (InitChainHeight s) (EquivocationEvidenceMinHeight s) (ConsumerRemovalTime s) (ConsumerPauseExpirationTime s) (ConsumerPauseReason s) (ConsumerPausedAt s) (ConsumerLastAckTime s) (SpawnTimeToConsumerIds s) (RemovalTimeToConsumerIds s) (PauseExpirationTimeToConsumerIds s)) (w_vs w) (w_ks w) (w_fs w) (w_ds w) (w_staking w) (w_bank w) (w_ibc w).
Definition upd_ConsumerInitParams (f : gmap N ConsumerInitializationParameters → gmap N ConsumerInitializationParameters) (w : World) : World :=
  let s := w_lc w in
  mkWorld (mkLifecycleStore (ConsumerIdSeq s) (ConsumerPhases s) (ConsumerChainId s) (ConsumerOwnerAddress s) (ConsumerMetadata s) (f (ConsumerInitParams s)) (ConsumerGenesis s) (InitChainHeight s) (EquivocationEvidenceMinHeight s) (ConsumerRemovalTime s) (ConsumerPauseExpirationTime s) (ConsumerPauseReason s) (ConsumerPausedAt s) (ConsumerLastAckTime s) (SpawnTimeToConsumerIds s) (RemovalTimeToConsumerIds s) (PauseExpirationTimeToConsumerIds s)) (w_vs w) (w_ks w) (w_fs w) (w_ds w) (w_staking w) (w_bank w) (w_ibc w).
Definition upd_ConsumerGenesis (f : gmap N ConsumerGenesisState → gmap N ConsumerGenesisState) (w : World) : World :=
  let s := w_lc w in
  mkWorld (mkLifecycleStore (ConsumerIdSeq s) (ConsumerPhases s) (ConsumerChainId s) (ConsumerOwnerAddress s) (ConsumerMetadata s) (ConsumerInitParams s) (f (ConsumerGenesis s)) (InitChainHeight s) (EquivocationEvidenceMinHeight s) (ConsumerRemovalTime s) (ConsumerPauseExpirationTime s) (ConsumerPauseReason s) (ConsumerPausedAt s) (ConsumerLastAckTime s) (SpawnTimeToConsumerIds s) (RemovalTimeToConsumerIds s) (PauseExpirationTimeToConsumerIds s)) (w_vs w) (w_ks w) (w_fs w) (w_ds w) (w_staking w) (w_bank w) (w_ibc w).
Definition upd_InitChainHeight (f : gmap N N → gmap N N) (w : World) : World :=
  let s := w_lc w in
  mkWorld (mkLifecycleStore (ConsumerIdSeq s) (ConsumerPhases s) (ConsumerChainId s) (ConsumerOwnerAddress s) (ConsumerMetadata s) (ConsumerInitParams s) (ConsumerGenesis s) (f (InitChainHeight s)) (EquivocationEvidenceMinHeight s) (ConsumerRemovalTime s) (ConsumerPauseExpirationTime s) (ConsumerPauseReason s) (ConsumerPausedAt s) (ConsumerLastAckTime s) (SpawnTimeToConsumerIds s) (RemovalTimeToConsumerIds s) (PauseExpirationTimeToConsumerIds s)) (w_vs w) (w_ks w) (w_fs w) (w_ds w) (w_staking w) (w_bank w) (w_ibc w).
Definition upd_EquivocationEvidenceMinHeight (f : gmap N Z → gmap N Z) (w : World) : World :=
  let s := w_lc w in
  mkWorld (mkLifecycleStore (ConsumerIdSeq s) (ConsumerPhases s) (ConsumerChainId s) (ConsumerOwnerAddress s) (ConsumerMetadata s) (ConsumerInitParams s) (ConsumerGenesis s) (InitChainHeight s) (f (EquivocationEvidenceMinHeight s)) (ConsumerRemovalTime s) (ConsumerPauseExpirationTime s) (ConsumerPauseReason s) (ConsumerPausedAt s) (ConsumerLastAckTime s) (SpawnTimeToConsumerIds s) (RemovalTimeToConsumerIds s) (PauseExpirationTimeToConsumerIds s)) (w_vs w) (w_ks w) (w_fs w) (w_ds w) (w_staking w) (w_bank w) (w_ibc w).
Definition upd_ConsumerRemovalTime (f : gmap N Time → gmap N Time) (w : World) : World :=
  let s := w_lc w in
  mkWorld (mkLifecycleStore (ConsumerIdSeq s) (ConsumerPhases s) (ConsumerChainId s) (ConsumerOwnerAddress s) (ConsumerMetadata s) (ConsumerInitParams s) (ConsumerGenesis s) (InitChainHeight s) (EquivocationEvidenceMinHeight s) (f (ConsumerRemovalTime s)) (ConsumerPauseExpirationTime s) (ConsumerPauseReason s) (ConsumerPausedAt s) (ConsumerLastAckTime s) (SpawnTimeToConsumerIds s) (RemovalTimeToConsumerIds s) (PauseExpirationTimeToConsumerIds s)) (w_vs w) (w_ks w) (w_fs w) (w_ds w) (w_staking w) (w_bank w) (w_ibc w).
Definition upd_ConsumerPauseExpirationTime (f : gmap N Time → gmap N Time) (w : World) : World :=
  let s := w_lc w in
  mkWorld (mkLifecycleStore (ConsumerIdSeq s) (ConsumerPhases s) (ConsumerChainId s) (ConsumerOwnerAddress s) (ConsumerMetadata s) (ConsumerInitParams s) (ConsumerGenesis s) (InitChainHeight s) (EquivocationEvidenceMinHeight s) (ConsumerRemovalTime s) (f (ConsumerPauseExpirationTime s)) (ConsumerPauseReason s) (ConsumerPausedAt s) (ConsumerLastAckTime s) (SpawnTimeToConsumerIds s) (RemovalTimeToConsumerIds s) (PauseExpirationTimeToConsumerIds s)) (w_vs w) (w_ks w) (w_fs w) (w_ds w) (w_staking w) (w_bank w) (w_ibc w).
Definition upd_ConsumerPauseReason (f : gmap N PauseReason → gmap N PauseReason) (w : World) : World :=
  let s := w_lc w in
  mkWorld (mkLifecycleStore (ConsumerIdSeq s) (ConsumerPhases s) (ConsumerChainId s) (ConsumerOwnerAddress s) (ConsumerMetadata s) (ConsumerInitParams s) (ConsumerGenesis s) (InitChainHeight s) (EquivocationEvidenceMinHeight s) (ConsumerRemovalTime s) (ConsumerPauseExpirationTime s) (f (ConsumerPauseReason s)) (ConsumerPausedAt s) (ConsumerLastAckTime s) (SpawnTimeToConsumerIds s) (RemovalTimeToConsumerIds s) (PauseExpirationTimeToConsumerIds s)) (w_vs w) (w_ks w) (w_fs w) (w_ds w) (w_staking w) (w_bank w) (w_ibc w).
Definition upd_ConsumerPausedAt (f : gmap N Time → gmap N Time) (w : World) : World :=
  let s := w_lc w in
  mkWorld (mkLifecycleStore (ConsumerIdSeq s) (ConsumerPhases s) (ConsumerChainId s) (ConsumerOwnerAddress s) (ConsumerMetadata s) (ConsumerInitParams s) (ConsumerGenesis s) (InitChainHeight s) (EquivocationEvidenceMinHeight s) (ConsumerRemovalTime s) (ConsumerPauseExpirationTime s) (ConsumerPauseReason s) (f (ConsumerPausedAt s)) (ConsumerLastAckTime s) (SpawnTimeToConsumerIds s) (RemovalTimeToConsumerIds s) (PauseExpirationTimeToConsumerIds s)) (w_vs w) (w_ks w) (w_fs w) (w_ds w) (w_staking w) (w_bank w) (w_ibc w).
Definition upd_ConsumerLastAckTime (f : gmap N Time → gmap N Time) (w : World) : World :=
  let s := w_lc w in
  mkWorld (mkLifecycleStore (ConsumerIdSeq s) (ConsumerPhases s) (ConsumerChainId s) (ConsumerOwnerAddress s) (ConsumerMetadata s) (ConsumerInitParams s) (ConsumerGenesis s) (InitChainHeight s) (EquivocationEvidenceMinHeight s) (ConsumerRemovalTime s) (ConsumerPauseExpirationTime s) (ConsumerPauseReason s) (ConsumerPausedAt s) (f (ConsumerLastAckTime s)) (SpawnTimeToConsumerIds s) (RemovalTimeToConsumerIds s) (PauseExpirationTimeToConsumerIds s)) (w_vs w) (w_ks w) (w_fs w) (w_ds w) (w_staking w) (w_bank w) (w_ibc w).
Definition upd_SpawnTimeToConsumerIds (f : gmap Time (list N) → gmap Time (list N)) (w : World) : World :=
  let s := w_lc w in
  mkWorld (mkLifecycleStore (ConsumerIdSeq s) (ConsumerPhases s) (ConsumerChainId s) (ConsumerOwnerAddress s) (ConsumerMetadata s) (ConsumerInitParams s) (ConsumerGenesis s) (InitChainHeight s) (EquivocationEvidenceMinHeight s) (ConsumerRemovalTime s) (ConsumerPauseExpirationTime s) (ConsumerPauseReason s) (ConsumerPausedAt s) (ConsumerLastAckTime s) (f (SpawnTimeToConsumerIds s)) (RemovalTimeToConsumerIds s) (PauseExpirationTimeToConsumerIds s)) (w_vs w) (w_ks w) (w_fs w) (w_ds w) (w_staking w) (w_bank w) (w_ibc w).
Definition upd_RemovalTimeToConsumerIds (f : gmap Time (list N) → gmap Time (list N)) (w : World) : World :=
  let s := w_lc w in
  mkWorld (mkLifecycleStore (ConsumerIdSeq s) (ConsumerPhases s) (ConsumerChainId s) (ConsumerOwnerAddress s) (ConsumerMetadata s) (ConsumerInitParams s) (ConsumerGenesis s) (InitChainHeight s) (EquivocationEvidenceMinHeight s) (ConsumerRemovalTime s) (ConsumerPauseExpirationTime s) (ConsumerPauseReason s) (ConsumerPausedAt s) (ConsumerLastAckTime s) (SpawnTimeToConsumerIds s) (f (RemovalTimeToConsumerIds s)) (PauseExpirationTimeToConsumerIds s)) (w_vs w) (w_ks w) (w_fs w) (w_ds w) (w_staking w) (w_bank w) (w_ibc w).
Definition upd_PauseExpirationTimeToConsumerIds (f : gmap Time (list N) → gmap Time (list N)) (w : World) : World :=
  let s := w_lc w in
  mkWorld (mkLifecycleStore (ConsumerIdSeq s) (ConsumerPhases s) (ConsumerChainId s) (ConsumerOwnerAddress s) (ConsumerMetadata s) (ConsumerInitParams s) (ConsumerGenesis s) (InitChainHeight s) (EquivocationEvidenceMinHeight s) (ConsumerRemovalTime s) (ConsumerPauseExpirationTime s) (ConsumerPauseReason s) (ConsumerPausedAt s) (ConsumerLastAckTime s) (SpawnTimeToConsumerIds s) (RemovalTimeToConsumerIds s) (f (PauseExpirationTimeToConsumerIds s))) (w_vs w) (w_ks w) (w_fs w) (w_ds w) (w_staking w) (w_bank w) (w_ibc w).

Definition upd_ValidatorSetUpdateId (f : N → N) (w : World) : World :=
  let s := w_vs w in
  mkWorld (w_lc w) (mkVscStore (f (ValidatorSetUpdateId s)) (PendingVSCPackets s) (ConsumerValidators s) (LastProviderConsensusVals s) (ConsumerHighestSentVscId s) (ConsumerHighestAckedVscId s) (ConsumerClients s)) (w_ks w) (w_fs w) (w_ds w) (w_staking w) (w_bank w) (w_ibc w).
Definition upd_PendingVSCPackets (f : gmap N (list ValidatorSetChangePacketData) → gmap N (list ValidatorSetChangePacketData)) (w : World) : World :=
  let s := w_vs w in
  mkWorld (w_lc w) (mkVscStore (ValidatorSetUpdateId s) (f (PendingVSCPackets s)) (ConsumerValidators s) (LastProviderConsensusVals s) (ConsumerHighestSentVscId s) (ConsumerHighestAckedVscId s) (ConsumerClients s)) (w_ks w) (w_fs w) (w_ds w) (w_staking w) (w_bank w) (w_ibc w).
Definition upd_ConsumerValidators (f : gmap (N * string) ConsensusValidator → gmap (N * string) ConsensusValidator) (w : World) : World :=
  let s := w_vs w in
  mkWorld (w_lc w) (mkVscStore (ValidatorSetUpdateId s) (PendingVSCPackets s) (f (ConsumerValidators s)) (LastProviderConsensusVals s) (ConsumerHighestSentVscId s) (ConsumerHighestAckedVscId s) (ConsumerClients s)) (w_ks w) (w_fs w) (w_ds w) (w_staking w) (w_bank w) (w_ibc w).
Definition upd_LastProviderConsensusVals (f : gmap string ConsensusValidator → gmap string ConsensusValidator) (w : World) : World :=
  let s := w_vs w in
  mkWorld (w_lc w) (mkVscStore (ValidatorSetUpdateId s) (PendingVSCPackets s) (ConsumerValidators s) (f (LastProviderConsensusVals s)) (ConsumerHighestSentVscId s) (ConsumerHighestAckedVscId s) (ConsumerClients s)) (w_ks w) (w_fs w) (w_ds w) (w_staking w) (w_bank w) (w_ibc w).
Definition upd_ConsumerHighestSentVscId (f : gmap N N → gmap N N) (w : World) : World :=
  let s := w_vs w in
  mkWorld (w_lc w) (mkVscStore (ValidatorSetUpdateId s) (PendingVSCPackets s) (ConsumerValidators s) (LastProviderConsensusVals s) (f (ConsumerHighestSentVscId s)) (ConsumerHighestAckedVscId s) (ConsumerClients s)) (w_ks w) (w_fs w) (w_ds w) (w_staking w) (w_bank w) (w_ibc w).
Definition upd_ConsumerHighestAckedVscId (f : gmap N N → gmap N N) (w : World) : World :=
  let s := w_vs w in
  mkWorld (w_lc w) (mkVscStore (ValidatorSetUpdateId s) (PendingVSCPackets s) (ConsumerValidators s) (LastProviderConsensusVals s) (ConsumerHighestSentVscId s) (f (ConsumerHighestAckedVscId s)) (ConsumerClients s)) (w_ks w) (w_fs w) (w_ds w) (w_staking w) (w_bank w) (w_ibc w).
Definition upd_ConsumerClients (f : gmap N string → gmap N string) (w : World) : World :=
  let s := w_vs w in
  mkWorld (w_lc w) (mkVscStore (ValidatorSetUpdateId s) (PendingVSCPackets s) (ConsumerValidators s) (LastProviderConsensusVals s) (ConsumerHighestSentVscId s) (ConsumerHighestAckedVscId s) (f (ConsumerClients s))) (w_ks w) (w_fs w) (w_ds w) (w_staking w) (w_bank w) (w_ibc w).

Definition upd_ValidatorConsumerPubKey (f : gmap (N * string) PubKey → gmap (N * string) PubKey) (w : World) : World :=
  let s := w_ks w in
  mkWorld (w_lc w) (w_vs w) (mkKeyStore (f (ValidatorConsumerPubKey s)) (ValidatorByConsumerAddr s) (ConsumerAddrsToPrune s)) (w_fs w) (w_ds w) (w_staking w) (w_bank w) (w_ibc w).
Definition upd_ValidatorByConsumerAddr (f : gmap (N * string) string → gmap (N * string) string) (w : World) : World :=
  let s := w_ks w in
  mkWorld (w_lc w) (w_vs w) (mkKeyStore (ValidatorConsumerPubKey s) (f (ValidatorByConsumerAddr s)) (ConsumerAddrsToPrune s)) (w_fs w) (w_ds w) (w_staking w) (w_bank w) (w_ibc w).
Definition upd_ConsumerAddrsToPrune (f : gmap (N * Time) (list string) → gmap (N * Time) (list string)) (w : World) : World :=
  let s := w_ks w in
  mkWorld (w_lc w) (w_vs w) (mkKeyStore (ValidatorConsumerPubKey s) (ValidatorByConsumerAddr s) (f (ConsumerAddrsToPrune s))) (w_fs w) (w_ds w) (w_staking w) (w_bank w) (w_ibc w).

Definition upd_ConsumerDebt (f : gmap N bool → gmap N bool) (w : World) : World :=
  let s := w_fs w in
  mkWorld (w_lc w) (w_vs w) (w_ks w) (mkFeeStore (f (ConsumerDebt s)) (ConsumerFeesPerBlockOverride s) (ConsumerFeePoolShares s) (ConsumerFeePoolTotalShares s) (FeePoolAddressToConsumerId s) (EpochShareRecords s) (WithheldFeeRecords s)) (w_ds w) (w_staking w) (w_bank w) (w_ibc w).
Definition upd_ConsumerFeesPerBlockOverride (f : gmap N Z → gmap N Z) (w : World) : World :=
  let s := w_fs w in
  mkWorld (w_lc w) (w_vs w) (w_ks w) (mkFeeStore (ConsumerDebt s) (f (ConsumerFeesPerBlockOverride s)) (ConsumerFeePoolShares s) (ConsumerFeePoolTotalShares s) (FeePoolAddressToConsumerId s) (EpochShareRecords s) (WithheldFeeRecords s)) (w_ds w) (w_staking w) (w_bank w) (w_ibc w).
Definition upd_ConsumerFeePoolShares (f : gmap (N * string * string) Z → gmap (N * string * string) Z) (w : World) : World :=
  let s := w_fs w in
  mkWorld (w_lc w) (w_vs w) (w_ks w) (mkFeeStore (ConsumerDebt s) (ConsumerFeesPerBlockOverride s) (f (ConsumerFeePoolShares s)) (ConsumerFeePoolTotalShares s) (FeePoolAddressToConsumerId s) (EpochShareRecords s) (WithheldFeeRecords s)) (w_ds w) (w_staking w) (w_bank w) (w_ibc w).
Definition upd_ConsumerFeePoolTotalShares (f : gmap (N * string) Z → gmap (N * string) Z) (w : World) : World :=
  let s := w_fs w in
  mkWorld (w_lc w) (w_vs w) (w_ks w) (mkFeeStore (ConsumerDebt s) (ConsumerFeesPerBlockOverride s) (ConsumerFeePoolShares s) (f (ConsumerFeePoolTotalShares s)) (FeePoolAddressToConsumerId s) (EpochShareRecords s) (WithheldFeeRecords s)) (w_ds w) (w_staking w) (w_bank w) (w_ibc w).
Definition upd_FeePoolAddressToConsumerId (f : gmap string N → gmap string N) (w : World) : World :=
  let s := w_fs w in
  mkWorld (w_lc w) (w_vs w) (w_ks w) (mkFeeStore (ConsumerDebt s) (ConsumerFeesPerBlockOverride s) (ConsumerFeePoolShares s) (ConsumerFeePoolTotalShares s) (f (FeePoolAddressToConsumerId s)) (EpochShareRecords s) (WithheldFeeRecords s)) (w_ds w) (w_staking w) (w_bank w) (w_ibc w).
Definition upd_EpochShareRecords (f : gmap (N * Z) Z → gmap (N * Z) Z) (w : World) : World :=
  let s := w_fs w in
  mkWorld (w_lc w) (w_vs w) (w_ks w) (mkFeeStore (ConsumerDebt s) (ConsumerFeesPerBlockOverride s) (ConsumerFeePoolShares s) (ConsumerFeePoolTotalShares s) (FeePoolAddressToConsumerId s) (f (EpochShareRecords s)) (WithheldFeeRecords s)) (w_ds w) (w_staking w) (w_bank w) (w_ibc w).
Definition upd_WithheldFeeRecords (f : gmap (N * string) WithheldFeeRecord → gmap (N * string) WithheldFeeRecord) (w : World) : World :=
  let s := w_fs w in
  mkWorld (w_lc w) (w_vs w) (w_ks w) (mkFeeStore (ConsumerDebt s) (ConsumerFeesPerBlockOverride s) (ConsumerFeePoolShares s) (ConsumerFeePoolTotalShares s) (FeePoolAddressToConsumerId s) (EpochShareRecords s) (f (WithheldFeeRecords s))) (w_ds w) (w_staking w) (w_bank w) (w_ibc w).

Definition upd_EpochDowntime (f : gmap (N * string) bool → gmap (N * string) bool) (w : World) : World :=
  let s := w_ds w in
  mkWorld (w_lc w) (w_vs w) (w_ks w) (w_fs w) (mkDowntimeStore (f (EpochDowntime s)) (PendingDowntimeSlashes s) (AcceptedDowntimeWindows s) (DowntimeWindowFloors s) (PunishedEquivocations s) (PreviousDowntimeParams_ s) (Params_ s) (InfractionParams_ s)) (w_staking w) (w_bank w) (w_ibc w).
Definition upd_PendingDowntimeSlashes (f : gmap (N * string * Z) PendingDowntimeSlash → gmap (N * string * Z) PendingDowntimeSlash) (w : World) : World :=
  let s := w_ds w in
  mkWorld (w_lc w) (w_vs w) (w_ks w) (w_fs w) (mkDowntimeStore (EpochDowntime s) (f (PendingDowntimeSlashes s)) (AcceptedDowntimeWindows s) (DowntimeWindowFloors s) (PunishedEquivocations s) (PreviousDowntimeParams_ s) (Params_ s) (InfractionParams_ s)) (w_staking w) (w_bank w) (w_ibc w).
Definition upd_AcceptedDowntimeWindows (f : gmap (N * string * Z) AcceptedDowntimeWindow → gmap (N * string * Z) AcceptedDowntimeWindow) (w : World) : World :=
  let s := w_ds w in
  mkWorld (w_lc w) (w_vs w) (w_ks w) (w_fs w) (mkDowntimeStore (EpochDowntime s) (PendingDowntimeSlashes s) (f (AcceptedDowntimeWindows s)) (DowntimeWindowFloors s) (PunishedEquivocations s) (PreviousDowntimeParams_ s) (Params_ s) (InfractionParams_ s)) (w_staking w) (w_bank w) (w_ibc w).
Definition upd_DowntimeWindowFloors (f : gmap (N * string) Z → gmap (N * string) Z) (w : World) : World :=
  let s := w_ds w in
  mkWorld (w_lc w) (w_vs w) (w_ks w) (w_fs w) (mkDowntimeStore (EpochDowntime s) (PendingDowntimeSlashes s) (AcceptedDowntimeWindows s) (f (DowntimeWindowFloors s)) (PunishedEquivocations s) (PreviousDowntimeParams_ s) (Params_ s) (InfractionParams_ s)) (w_staking w) (w_bank w) (w_ibc w).
Definition upd_PunishedEquivocations (f : gset (string * string * Z) → gset (string * string * Z)) (w : World) : World :=
  let s := w_ds w in
  mkWorld (w_lc w) (w_vs w) (w_ks w) (w_fs w) (mkDowntimeStore (EpochDowntime s) (PendingDowntimeSlashes s) (AcceptedDowntimeWindows s) (DowntimeWindowFloors s) (f (PunishedEquivocations s)) (PreviousDowntimeParams_ s) (Params_ s) (InfractionParams_ s)) (w_staking w) (w_bank w) (w_ibc w).
Definition upd_PreviousDowntimeParams_ (f : option PreviousDowntimeParams → option PreviousDowntimeParams) (w : World) : World :=
  let s := w_ds w in
  mkWorld (w_lc w) (w_vs w) (w_ks w) (w_fs w) (mkDowntimeStore (EpochDowntime s) (PendingDowntimeSlashes s) (AcceptedDowntimeWindows s) (DowntimeWindowFloors s) (PunishedEquivocations s) (f (PreviousDowntimeParams_ s)) (Params_ s) (InfractionParams_ s)) (w_staking w) (w_bank w) (w_ibc w).
Definition upd_Params_ (f : option Params → option Params) (w : World) : World :=
  let s := w_ds w in
  mkWorld (w_lc w) (w_vs w) (w_ks w) (w_fs w) (mkDowntimeStore (EpochDowntime s) (PendingDowntimeSlashes s) (AcceptedDowntimeWindows s) (DowntimeWindowFloors s) (PunishedEquivocations s) (PreviousDowntimeParams_ s) (f (Params_ s)) (InfractionParams_ s)) (w_staking w) (w_bank w) (w_ibc w).
Definition upd_InfractionParams_ (f : option InfractionParameters → option InfractionParameters) (w : World) : World :=
  let s := w_ds w in
  mkWorld (w_lc w) (w_vs w) (w_ks w) (w_fs w) (mkDowntimeStore (EpochDowntime s) (PendingDowntimeSlashes s) (AcceptedDowntimeWindows s) (DowntimeWindowFloors s) (PunishedEquivocations s) (PreviousDowntimeParams_ s) (Params_ s) (f (InfractionParams_ s))) (w_staking w) (w_bank w) (w_ibc w).

End setters.

(** Short names for reading a collection of a world. *)
Section getters.
Context `{X : Externals}.
Definition s_ConsumerIdSeq (w : World) : N := ConsumerIdSeq (w_lc w).
Definition s_ConsumerPhases (w : World) : gmap N ConsumerPhase := ConsumerPhases (w_lc w).
Definition s_ConsumerChainId (w : World) : gmap N string := ConsumerChainId (w_lc w).
Definition s_ConsumerOwnerAddress (w : World) : gmap N string := ConsumerOwnerAddress (w_lc w).
Definition s_ConsumerMetadata (w : World) : gmap N (string * string * string) := ConsumerMetadata (w_lc w).
Definition s_ConsumerInitParams (w : World) : gmap N ConsumerInitializationParameters := ConsumerInitParams (w_lc w).
Definition s_ConsumerGenesis (w : World) : gmap N ConsumerGenesisState := ConsumerGenesis (w_lc w).
Definition s_InitChainHeight (w : World) : gmap N N := InitChainHeight (w_lc w).
Definition s_EquivocationEvidenceMinHeight (w : World) : gmap N Z := EquivocationEvidenceMinHeight (w_lc w).
Definition s_ConsumerRemovalTime (w : World) : gmap N Time := ConsumerRemovalTime (w_lc w).
Definition s_ConsumerPauseExpirationTime (w : World) : gmap N Time := ConsumerPauseExpirationTime (w_lc w).
Definition s_ConsumerPauseReason (w : World) : gmap N PauseReason := ConsumerPauseReason (w_lc w).
Definition s_ConsumerPausedAt (w : World) : gmap N Time := ConsumerPausedAt (w_lc w).
Definition s_ConsumerLastAckTime (w : World) : gmap N Time := ConsumerLastAckTime (w_lc w).
Definition s_SpawnTimeToConsumerIds (w : World) : gmap Time (list N) := SpawnTimeToConsumerIds (w_lc w).
Definition s_RemovalTimeToConsumerIds (w : World) : gmap Time (list N) := RemovalTimeToConsumerIds (w_lc w).
Definition s_PauseExpirationTimeToConsumerIds (w : World) : gmap Time (list N) := PauseExpirationTimeToConsumerIds (w_lc w).
Definition s_ValidatorSetUpdateId (w : World) : N := ValidatorSetUpdateId (w_vs w).
Definition s_PendingVSCPackets (w : World) : gmap N (list ValidatorSetChangePacketData) := PendingVSCPackets (w_vs w).
Definition s_ConsumerValidators (w : World) : gmap (N * string) ConsensusValidator := ConsumerValidators (w_vs w).
Definition s_LastProviderConsensusVals (w : World) : gmap string ConsensusValidator := LastProviderConsensusVals (w_vs w).
Definition s_ConsumerHighestSentVscId (w : World) : gmap N N := ConsumerHighestSentVscId (w_vs w).
Definition s_ConsumerHighestAckedVscId (w : World) : gmap N N := ConsumerHighestAckedVscId (w_vs w).
Definition s_ConsumerClients (w : World) : gmap N string := ConsumerClients (w_vs w).
Definition s_ValidatorConsumerPubKey (w : World) : gmap (N * string) PubKey := ValidatorConsumerPubKey (w_ks w).
Definition s_ValidatorByConsumerAddr (w : World) : gmap (N * string) string := ValidatorByConsumerAddr (w_ks w).
Definition s_ConsumerAddrsToPrune (w : World) : gmap (N * Time) (list string) := ConsumerAddrsToPrune (w_ks w).
Definition s_ConsumerDebt (w : World) : gmap N bool := ConsumerDebt (w_fs w).
Definition s_ConsumerFeesPerBlockOverride (w : World) : gmap N Z := ConsumerFeesPerBlockOverride (w_fs w).
Definition s_ConsumerFeePoolShares (w : World) : gmap (N * string * string) Z := ConsumerFeePoolShares (w_fs w).
Definition s_ConsumerFeePoolTotalShares (w : World) : gmap (N * string) Z := ConsumerFeePoolTotalShares (w_fs w).
Definition s_FeePoolAddressToConsumerId (w : World) : gmap string N := FeePoolAddressToConsumerId (w_fs w).
Definition s_EpochShareRecords (w : World) : gmap (N * Z) Z := EpochShareRecords (w_fs w).
Definition s_WithheldFeeRecords (w : World) : gmap (N * string) WithheldFeeRecord := WithheldFeeRecords (w_fs w).
Definition s_EpochDowntime (w : World) : gmap (N * string) bool := EpochDowntime (w_ds w).
Definition s_PendingDowntimeSlashes (w : World) : gmap (N * string * Z) PendingDowntimeSlash := PendingDowntimeSlashes (w_ds w).
Definition s_AcceptedDowntimeWindows (w : World) : gmap (N * string * Z) AcceptedDowntimeWindow := AcceptedDowntimeWindows (w_ds w).
Definition s_DowntimeWindowFloors (w : World) : gmap (N * string) Z := DowntimeWindowFloors (w_ds w).
Definition s_PunishedEquivocations (w : World) : gset (string * string * Z) := PunishedEquivocations (w_ds w).
Definition s_PreviousDowntimeParams_ (w : World) : option PreviousDowntimeParams := PreviousDowntimeParams_ (w_ds w).
Definition s_Params_ (w : World) : option Params := Params_ (w_ds w).
Definition s_InfractionParams_ (w : World) : option InfractionParameters := InfractionParams_ (w_ds w).
End getters.
