(* ===== verification/Keeper.v ===== *)
(** The collection accessors of the provider keeper (keeper/keeper.go,
    keeper/permissionless.go, keeper/debt.go, keeper/params.go): one definition
    per method. A method that only reads the store is a function of the world,
    used through [gets]; the others are in the keeper monad. Failures of the
    key-value store itself are not modelled, so the error returns and panics
    that only wrap them do not appear. *)
From S2P Require Import Prelude GoTime Types Externals World.

Section keeper.
Context `{X : Externals}.

Definition IsAuthority (addr : string) : bool := EqualFold addr authority.
Definition GetFeeDenom : string := feeDenom.

(** *** Consumer genesis and init heights *)
Definition SetConsumerGenesis (consumerId : N) (gen : ConsumerGenesisState) : K unit :=
  modify (upd_ConsumerGenesis (insert consumerId gen)).
Definition GetConsumerGenesis (consumerId : N) (w : World) : option ConsumerGenesisState :=
  s_ConsumerGenesis w !! consumerId.
Definition DeleteConsumerGenesis (consumerId : N) : K unit :=
  modify (upd_ConsumerGenesis (delete consumerId)).

Definition u64_succ (n : N) : N := ((n + 1) mod 2 ^ 64)%N.

Definition SetValidatorSetUpdateId (valUpdateID : N) : K unit :=
  modify (upd_ValidatorSetUpdateId (λ _, valUpdateID)).
Definition GetValidatorSetUpdateId (w : World) : N := s_ValidatorSetUpdateId w.
Definition IncrementValidatorSetUpdateId : K unit :=
  validatorSetUpdateId ← gets GetValidatorSetUpdateId;
  SetValidatorSetUpdateId (u64_succ validatorSetUpdateId).

Definition SetInitChainHeight (consumerId : N) (height : N) : K unit :=
  modify (upd_InitChainHeight (insert consumerId height)).
Definition GetInitChainHeight (consumerId : N) (w : World) : option N :=
  s_InitChainHeight w !! consumerId.
Definition DeleteInitChainHeight (consumerId : N) : K unit :=
  modify (upd_InitChainHeight (delete consumerId)).

(** *** Pending packets *)
Definition GetPendingVSCPackets (consumerId : N) (w : World) : list ValidatorSetChangePacketData :=
  default [] (s_PendingVSCPackets w !! consumerId).
Definition AppendPendingVSCPackets (consumerId : N)
    (newPackets : list ValidatorSetChangePacketData) : K unit :=
  old ← gets (GetPendingVSCPackets consumerId);
  modify (upd_PendingVSCPackets (insert consumerId (old ++ newPackets))).
Definition DeletePendingVSCPackets (consumerId : N) : K unit :=
  modify (upd_PendingVSCPackets (delete consumerId)).

(** *** Clients: an indexed map whose unique index forbids two consumers to
    hold one client id; a conflicting [Set] panics. *)
Definition GetClientIdToConsumerId (clientId : string) (w : World) : option N :=
  head (filter (λ kv, kv.2 = clientId) (iterate (s_ConsumerClients w))).*1.
Definition SetConsumerClientId (consumerId : N) (clientId : string) : K unit :=
  holder ← gets (GetClientIdToConsumerId clientId);
  match holder with
  | Some other =>
      if decide (other = consumerId) then modify (upd_ConsumerClients (insert consumerId clientId))
      else panic
  | None => modify (upd_ConsumerClients (insert consumerId clientId))
  end.
Definition GetConsumerClientId (consumerId : N) (w : World) : option string :=
  s_ConsumerClients w !! consumerId.
Definition DeleteConsumerClientId (consumerId : N) : K unit :=
  modify (upd_ConsumerClients (delete consumerId)).

(** *** Chain ids, owners, metadata, initialization parameters, phases *)
Definition GetConsumerId (w : World) : option N :=
  if (s_ConsumerIdSeq w =? 0)%N then None else Some (s_ConsumerIdSeq w).
Definition FetchAndIncrementConsumerId : K N :=
  consumerId ← gets s_ConsumerIdSeq;
  modify (upd_ConsumerIdSeq (λ _, u64_succ consumerId));;
  mret consumerId.

Definition GetConsumerChainId (consumerId : N) (w : World) : option string :=
  s_ConsumerChainId w !! consumerId.
Definition ChainIdInUse (chainId : string) (w : World) : bool :=
  existsb (String.eqb chainId) (iterate (s_ConsumerChainId w)).*2.
Definition SetConsumerChainId (consumerId : N) (chainId : string) : K unit :=
  modify (upd_ConsumerChainId (insert consumerId chainId)).
Definition DeleteConsumerChainId (consumerId : N) : K unit :=
  modify (upd_ConsumerChainId (delete consumerId)).

Definition GetConsumerOwnerAddress (consumerId : N) (w : World) : option string :=
  s_ConsumerOwnerAddress w !! consumerId.
Definition SetConsumerOwnerAddress (consumerId : N) (owner : string) : K unit :=
  modify (upd_ConsumerOwnerAddress (insert consumerId owner)).
Definition DeleteConsumerOwnerAddress (consumerId : N) : K unit :=
  modify (upd_ConsumerOwnerAddress (delete consumerId)).

Definition GetConsumerMetadata (consumerId : N) (w : World) : option (string * string * string) :=
  s_ConsumerMetadata w !! consumerId.
Definition SetConsumerMetadata (consumerId : N) (metadata : string * string * string) : K unit :=
  modify (upd_ConsumerMetadata (insert consumerId metadata)).
Definition DeleteConsumerMetadata (consumerId : N) : K unit :=
  modify (upd_ConsumerMetadata (delete consumerId)).

Definition GetConsumerPhase (consumerId : N) (w : World) : ConsumerPhase :=
  default CONSUMER_PHASE_UNSPECIFIED (s_ConsumerPhases w !! consumerId).
Definition SetConsumerPhase (consumerId : N) (phase : ConsumerPhase) : K unit :=
  modify (upd_ConsumerPhases (insert consumerId phase)).
Definition IsConsumerPrelaunched (consumerId : N) (w : World) : bool :=
  Prelaunched (GetConsumerPhase consumerId w).
Definition IsConsumerActive (consumerId : N) (w : World) : bool :=
  let phase := GetConsumerPhase consumerId w in
  bool_decide (phase = CONSUMER_PHASE_REGISTERED)
  || bool_decide (phase = CONSUMER_PHASE_INITIALIZED)
  || bool_decide (phase = CONSUMER_PHASE_LAUNCHED)
  || bool_decide (phase = CONSUMER_PHASE_PAUSED).

(** types/msg.go: the revision of the initial height is the chain id's. *)
Definition ValidateInitialHeight (revisionNumber : Z) (chainID : string) : bool :=
  revisionNumber =? ParseChainID chainID.
Definition GetConsumerInitializationParameters (consumerId : N) (w : World)
  : option ConsumerInitializationParameters := s_ConsumerInitParams w !! consumerId.
Definition SetConsumerInitializationParameters (consumerId : N)
    (parameters : ConsumerInitializationParameters) : K unit :=
  phase ← gets (GetConsumerPhase consumerId);
  (if decide (phase = CONSUMER_PHASE_DELETED) then mret tt
   else
     chainId ← (o ← gets (GetConsumerChainId consumerId);
                of_option o (ErrOther "failed to get consumer chain ID"));
     guard_err (ValidateInitialHeight (InitialRevision parameters) chainId)
       (ErrOther "invalid initial height"));;
  modify (upd_ConsumerInitParams (insert consumerId parameters)).
Definition DeleteConsumerInitializationParameters (consumerId : N) : K unit :=
  modify (upd_ConsumerInitParams (delete consumerId)).

Definition ValidateConsumerChainIdFree (chainId : string) : K unit :=
  self ← asks ChainID;
  guard_err (negb (String.eqb chainId self)) ErrProviderChainId;;
  inUse ← gets (ChainIdInUse chainId);
  guard_err (negb inUse) ErrDuplicateChainId.

(** *** Enumerating consumers *)
Definition GetAllConsumerIds (w : World) : list N :=
  match GetConsumerId w with
  | None => []
  | Some latestConsumerId => N.of_nat <$> seq 0 (N.to_nat latestConsumerId)
  end.
Definition GetAllActiveConsumerIds (w : World) : list N :=
  filter (λ id, IsConsumerActive id w = true) (GetAllConsumerIds w).
Definition GetAllLaunchedConsumerIds (w : World) : list N :=
  filter (λ id, GetConsumerPhase id w = CONSUMER_PHASE_LAUNCHED) (GetAllConsumerIds w).

Definition CreateProviderConsensusValidator (val : Validator) (w : World)
  : option ConsensusValidator :=
  consAddr ← GetConsAddr val;
  pubKey ← CmtConsPublicKey val;
  valAddr ← ValAddressFromBech32 (OperatorAddress val);
  power ← GetLastValidatorPower (w_staking w) valAddr;
  Some (mkConsensusValidator consAddr power pubKey 0).

(** *** Equivocation heights, removal, acknowledgement and pause times *)
Definition SetEquivocationEvidenceMinHeight (consumerId : N) (height : Z) : K unit :=
  modify (upd_EquivocationEvidenceMinHeight (insert consumerId height)).
Definition GetEquivocationEvidenceMinHeight (consumerId : N) (w : World) : Z :=
  default 0 (s_EquivocationEvidenceMinHeight w !! consumerId).
Definition DeleteEquivocationEvidenceMinHeight (consumerId : N) : K unit :=
  modify (upd_EquivocationEvidenceMinHeight (delete consumerId)).

Definition SetConsumerRemovalTime (consumerId : N) (removalTime : Time) : K unit :=
  modify (upd_ConsumerRemovalTime (insert consumerId removalTime)).
Definition GetConsumerRemovalTime (consumerId : N) (w : World) : option Time :=
  s_ConsumerRemovalTime w !! consumerId.
Definition DeleteConsumerRemovalTime (consumerId : N) : K unit :=
  modify (upd_ConsumerRemovalTime (delete consumerId)).

Definition SetConsumerLastAckTime (consumerId : N) (t : Time) : K unit :=
  modify (upd_ConsumerLastAckTime (insert consumerId t)).
Definition GetConsumerLastAckTime (consumerId : N) : K Time :=
  now ← asks BlockTime;
  gets (λ w, default now (s_ConsumerLastAckTime w !! consumerId)).
Definition DeleteConsumerLastAckTime (consumerId : N) : K unit :=
  modify (upd_ConsumerLastAckTime (delete consumerId)).

Definition SetConsumerHighestSentVscId (consumerId vscId : N) : K unit :=
  modify (upd_ConsumerHighestSentVscId (insert consumerId vscId)).
Definition GetConsumerHighestSentVscId (consumerId : N) (w : World) : N :=
  default 0%N (s_ConsumerHighestSentVscId w !! consumerId).
Definition DeleteConsumerHighestSentVscId (consumerId : N) : K unit :=
  modify (upd_ConsumerHighestSentVscId (delete consumerId)).
Definition SetConsumerHighestAckedVscId (consumerId vscId : N) : K unit :=
  modify (upd_ConsumerHighestAckedVscId (insert consumerId vscId)).
Definition GetConsumerHighestAckedVscId (consumerId : N) (w : World) : N :=
  default 0%N (s_ConsumerHighestAckedVscId w !! consumerId).
Definition DeleteConsumerHighestAckedVscId (consumerId : N) : K unit :=
  modify (upd_ConsumerHighestAckedVscId (delete consumerId)).

Definition SetConsumerPauseExpirationTime (consumerId : N) (expirationTime : Time) : K unit :=
  modify (upd_ConsumerPauseExpirationTime (insert consumerId expirationTime)).
Definition GetConsumerPauseExpirationTime (consumerId : N) (w : World) : option Time :=
  s_ConsumerPauseExpirationTime w !! consumerId.
Definition DeleteConsumerPauseExpirationTime (consumerId : N) : K unit :=
  modify (upd_ConsumerPauseExpirationTime (delete consumerId)).
Definition SetConsumerPauseReason (consumerId : N) (reason : PauseReason) : K unit :=
  modify (upd_ConsumerPauseReason (insert consumerId reason)).
Definition GetConsumerPauseReason (consumerId : N) (w : World) : PauseReason :=
  default PAUSE_REASON_UNSPECIFIED (s_ConsumerPauseReason w !! consumerId).
Definition DeleteConsumerPauseReason (consumerId : N) : K unit :=
  modify (upd_ConsumerPauseReason (delete consumerId)).
Definition SetConsumerPausedAt (consumerId : N) (pausedAt : Time) : K unit :=
  modify (upd_ConsumerPausedAt (insert consumerId pausedAt)).
Definition GetConsumerPausedAt (consumerId : N) (w : World) : option Time :=
  s_ConsumerPausedAt w !! consumerId.
Definition DeleteConsumerPausedAt (consumerId : N) : K unit :=
  modify (upd_ConsumerPausedAt (delete consumerId)).

(** *** Key-assignment stores *)
Definition GetValidatorConsumerPubKey (consumerId : N) (providerAddr : string) (w : World)
  : option PubKey := s_ValidatorConsumerPubKey w !! (consumerId, providerAddr).
Definition SetValidatorConsumerPubKey (consumerId : N) (providerAddr : string)
    (consumerKey : PubKey) : K unit :=
  modify (upd_ValidatorConsumerPubKey (insert (consumerId, providerAddr) consumerKey)).
Definition DeleteValidatorConsumerPubKey (consumerId : N) (providerAddr : string) : K unit :=
  modify (upd_ValidatorConsumerPubKey (delete (consumerId, providerAddr))).
Definition in_consumer {A} (consumerId : option N) (key : N * A) : bool :=
  match consumerId with None => true | Some id => (key.1 =? id)%N end.
Definition GetAllValidatorConsumerPubKeys (consumerId : option N) (w : World)
  : list (N * string * PubKey) :=
  filter (λ kv, in_consumer consumerId kv.1 = true) (iterate (s_ValidatorConsumerPubKey w)).

Definition GetValidatorByConsumerAddr (consumerId : N) (consumerAddr : string) (w : World)
  : option string := s_ValidatorByConsumerAddr w !! (consumerId, consumerAddr).
Definition SetValidatorByConsumerAddr (consumerId : N) (consumerAddr providerAddr : string)
  : K unit := modify (upd_ValidatorByConsumerAddr (insert (consumerId, consumerAddr) providerAddr)).
Definition DeleteValidatorByConsumerAddr (consumerId : N) (consumerAddr : string) : K unit :=
  modify (upd_ValidatorByConsumerAddr (delete (consumerId, consumerAddr))).
Definition GetAllValidatorsByConsumerAddr (consumerId : option N) (w : World)
  : list (N * string * string) :=
  filter (λ kv, in_consumer consumerId kv.1 = true) (iterate (s_ValidatorByConsumerAddr w)).

Definition GetConsumerAddrsToPrune (consumerId : N) (ts : Time) (w : World) : list string :=
  default [] (s_ConsumerAddrsToPrune w !! (consumerId, ts)).
Definition AppendConsumerAddrsToPrune (consumerId : N) (pruneTs : Time) (consumerAddr : string)
  : K unit :=
  addrList ← gets (GetConsumerAddrsToPrune consumerId pruneTs);
  modify (upd_ConsumerAddrsToPrune (insert (consumerId, pruneTs) (addrList ++ [consumerAddr]))).
Definition DeleteConsumerAddrsToPrune (consumerId : N) (pruneTs : Time) : K unit :=
  modify (upd_ConsumerAddrsToPrune (delete (consumerId, pruneTs))).
Definition GetAllConsumerAddrsToPrune (consumerId : N) (w : World)
  : list (N * Time * list string) :=
  filter (λ kv, in_consumer (Some consumerId) kv.1 = true) (iterate (s_ConsumerAddrsToPrune w)).
Definition ConsumeConsumerAddrsToPrune (consumerId : N) (ts : Time) : K (list string) :=
  entries ← gets (GetAllConsumerAddrsToPrune consumerId);
  let due := filter (λ kv, time_After kv.1.2 ts = false) entries in
  for_each due (λ kv, modify (upd_ConsumerAddrsToPrune (delete kv.1)));;
  mret (concat due.*2).

(** *** Validator sets *)
Definition SetConsumerValidator (consumerId : N) (validator : ConsensusValidator) : K unit :=
  modify (upd_ConsumerValidators
    (insert (consumerId, ProviderConsAddr validator) validator)).
Definition GetConsumerValidator (consumerId : N) (providerAddr : string) (w : World)
  : option ConsensusValidator := s_ConsumerValidators w !! (consumerId, providerAddr).
Definition IsConsumerValidator (consumerId : N) (providerAddr : string) (w : World) : bool :=
  bool_decide (is_Some (s_ConsumerValidators w !! (consumerId, providerAddr))).
Definition DeleteConsumerValidator (consumerId : N) (providerConsAddr : string) : K unit :=
  modify (upd_ConsumerValidators (delete (consumerId, providerConsAddr))).
Definition GetConsumerValSet (consumerId : N) (w : World) : list ConsensusValidator :=
  (filter (λ kv, in_consumer (Some consumerId) kv.1 = true) (iterate (s_ConsumerValidators w))).*2.
Definition DeleteConsumerValSet (consumerId : N) : K unit :=
  modify (upd_ConsumerValidators (clear_where (in_consumer (Some consumerId)))).
Definition SetConsumerValSet (consumerId : N) (nextValidators : list ConsensusValidator) : K unit :=
  DeleteConsumerValSet consumerId;;
  for_each nextValidators (SetConsumerValidator consumerId).
Definition SetLastProviderConsensusValSet (nextValidators : list ConsensusValidator) : K unit :=
  modify (upd_LastProviderConsensusVals (λ _, ∅));;
  for_each nextValidators (λ val,
    modify (upd_LastProviderConsensusVals (insert (ProviderConsAddr val) val))).
Definition GetLastProviderConsensusValSet (w : World) : list ConsensusValidator :=
  (iterate (s_LastProviderConsensusVals w)).*2.

(** *** Debt *)
Definition IsConsumerInDebt (consumerId : N) (w : World) : bool :=
  default false (s_ConsumerDebt w !! consumerId).
Definition SetConsumerInDebt (consumerId : N) (inDebt : bool) : K unit :=
  modify (upd_ConsumerDebt (insert consumerId inDebt)).
Definition DeleteConsumerDebt (consumerId : N) : K unit :=
  modify (upd_ConsumerDebt (delete consumerId)).
Definition UpdateConsumerDebtStatus (consumerId : N) (inDebt : bool) : K unit :=
  cur ← gets (IsConsumerInDebt consumerId);
  if Bool.eqb cur inDebt then mret tt else SetConsumerInDebt consumerId inDebt.

(** *** Parameters: absent parameters panic *)
Definition GetParams : K Params := o ← gets s_Params_; or_panic o.
Definition SetParams (params : Params) : K unit := modify (upd_Params_ (λ _, Some params)).
Definition GetTrustingPeriodFraction : K string := TrustingPeriodFraction <$> GetParams.
Definition GetVAASTimeoutPeriod : K Duration := VaasTimeoutPeriod <$> GetParams.
Definition GetBlocksPerEpoch : K Z := BlocksPerEpoch <$> GetParams.
Definition GetMaxPauseDuration : K Duration := MaxPauseDuration <$> GetParams.

(** [sdk.NewCoin] panics on a negative amount. *)
Definition NewCoin (denom : string) (amount : Z) : K Coin :=
  if amount <? 0 then panic else mret (mkCoin denom amount).
Definition GetFeesPerBlock : K Coin :=
  params ← GetParams; NewCoin feeDenom (FeesPerBlockAmount params).
Definition effectiveFeesPerBlock (consumerId : N) (defaultCoin : Coin) : K (Coin * bool) :=
  o ← gets (λ w, s_ConsumerFeesPerBlockOverride w !! consumerId);
  match o with
  | None => mret (defaultCoin, false)
  | Some overrideAmt => c ← NewCoin (Denom defaultCoin) overrideAmt; mret (c, true)
  end.
Definition GetEffectiveFeesPerBlock (consumerId : N) : K (Coin * bool) :=
  c ← GetFeesPerBlock; effectiveFeesPerBlock consumerId c.
Definition effectiveFeesPerEpoch (consumerId : N) (defaultEpochFee defaultFeePerBlock : Coin)
  : K (Coin * bool) :=
  o ← gets (λ w, s_ConsumerFeesPerBlockOverride w !! consumerId);
  match o with
  | None => mret (defaultEpochFee, false)
  | Some overrideAmt =>
      blocksPerEpoch ← GetBlocksPerEpoch;
      c ← NewCoin (Denom defaultFeePerBlock) (overrideAmt * blocksPerEpoch);
      mret (c, true)
  end.
Definition reconcileFeesPerBlockOverrides (floor : Z) : K unit :=
  entries ← gets (λ w, iterate (s_ConsumerFeesPerBlockOverride w));
  let toRemove := (filter (λ kv, (floor <? kv.2) = false) entries).*1 in
  for_each toRemove (λ consumerId, modify (upd_ConsumerFeesPerBlockOverride (delete consumerId))).

Definition GetInfractionParams : K InfractionParameters :=
  o ← gets s_InfractionParams_; or_panic o.
Definition CurrentDowntimeParams : K DowntimeParams :=
  ip ← GetInfractionParams;
  mret (mkDowntimeParams (ip_SignedBlocksWindow ip) (ip_MinSignedPerWindow ip)).
Definition downtime_params_changed (old params : InfractionParameters) : bool :=
  negb (ip_SignedBlocksWindow old =? ip_SignedBlocksWindow params)
  || negb (dec_Equal (ip_MinSignedPerWindow old) (ip_MinSignedPerWindow params)).
Definition SetInfractionParams (params : InfractionParameters) : K unit :=
  o ← gets s_InfractionParams_;
  match o with
  | Some old =>
      if downtime_params_changed old params then
        now ← asks BlockTime;
        modify (upd_PreviousDowntimeParams_ (λ _, Some (mkPreviousDowntimeParams
          (mkDowntimeParams (ip_SignedBlocksWindow old) (ip_MinSignedPerWindow old)) now)))
      else mret tt
  | None => mret tt
  end;;
  modify (upd_InfractionParams_ (λ _, Some params)).
Definition same_downtime_params (a b : DowntimeParams) : bool :=
  (dp_SignedBlocksWindow a =? dp_SignedBlocksWindow b)
  && dec_Equal (dp_MinSignedPerWindow a) (dp_MinSignedPerWindow b).
Definition AcceptableDowntimeParams (echoed : DowntimeParams) : K bool :=
  current ← CurrentDowntimeParams;
  if same_downtime_params echoed current then mret true else
  o ← gets s_PreviousDowntimeParams_;
  match o with
  | None => mret false
  | Some previous =>
      if negb (same_downtime_params echoed (pd_Params previous)) then mret false else
      ip ← GetInfractionParams;
      let horizon := wrap64 (DowntimeEvidenceMaxAge ip + DowntimeChallengeWindow ip) in
      now ← asks BlockTime;
      mret (time_Sub now (pd_ChangedAt previous) <=? horizon)
  end.
Definition LivenessGracePeriod : K Duration :=
  unbonding ← (o ← gets (λ w, UnbondingTime (w_staking w)); of_option o ErrExternal);
  params ← GetParams;
  of_option (CalculateTrustPeriod unbonding (LivenessGraceFraction params))
    (ErrOther "liveness grace fraction").
End keeper.
