(* ===== verification/Queues.v ===== *)
(** The provider's time queues (keeper/keeper.go 772-1047 and
    [ConsumeIdsFromTimeQueue] of keeper/consumer_lifecycle.go). The three
    collections SpawnTimeToConsumerIds, RemovalTimeToConsumerIds and
    PauseExpirationTimeToConsumerIds share one interface, [TimeQueue]; the
    operations and their theorems are stated once against it. *)
From S2P Require Import Prelude GoTime Types Externals World Keeper.

(** What a queue collection offers: reading and rewriting its buckets. *)
Class TimeQueue `{X : Externals} := {
  tq_get : World → gmap Time (list N);
  tq_upd : (gmap Time (list N) → gmap Time (list N)) → World → World;
  tq_get_upd f w : tq_get (tq_upd f w) = f (tq_get w);
}.

Section queue.
Context `{X : Externals} {Q : TimeQueue}.

Definition getIds (ts : Time) (w : World) : list N := default [] (tq_get w !! ts).
Definition appendId (consumerId : N) (ts : Time) : K unit :=
  ids ← gets (getIds ts);
  modify (tq_upd (insert ts (ids ++ [consumerId]))).
Definition deleteAllIds (ts : Time) : K unit := modify (tq_upd (delete ts)).

Definition removeConsumerFromTimeQueue (consumerId : N) (ts : Time) : K unit :=
  ids ← gets (getIds ts);
  if decide (ids = []) then raise (ErrOther "no consumer ids found for this time") else
  match list_find (λ id, id = consumerId) ids with
  | None => raise (ErrOther "failed to find consumer id")
  | Some (index, _) =>
      if decide (length ids = 1%nat) then deleteAllIds ts
      else modify (tq_upd (insert ts (take index ids ++ drop (S index) ids)))
  end.

(** The scan of [ConsumeIdsFromTimeQueue]: the ids consumed, the ids of the
    last visited bucket left for later, and the visited timestamps. *)
Fixpoint consume_loop (now : Time) (limit : nat) (entries : list (Time * list N))
    (result : list N) : list N * list N * list Time :=
  match entries with
  | [] => (result, [], [])
  | (ts, ids) :: rest =>
      if Nat.leb limit (length result) then (result, [], [])
      else if time_After ts now then (result, [], [])
      else
        let availableSlots := (limit - length result)%nat in
        if Nat.leb (length ids) availableSlots then
          let '(r, next, tss) := consume_loop now limit rest (result ++ ids) in
          (r, next, ts :: tss)
        else (result ++ take availableSlots ids, drop availableSlots ids, [ts])
  end.

(** Drops the visited buckets, storing back into the last one. *)
Fixpoint restore_loop (timestampsToDelete : list Time) (nextTime : list N) : K unit :=
  match timestampsToDelete with
  | [] => mret tt
  | ts :: rest =>
      deleteAllIds ts;;
      when (bool_decide (rest = [])) (for_each nextTime (λ id, appendId id ts));;
      restore_loop rest nextTime
  end.

Definition ConsumeIdsFromTimeQueue (limit : nat) : K (list N) :=
  now ← asks BlockTime;
  q ← gets tq_get;
  let '(result, nextTime, timestampsToDelete) := consume_loop now limit (iterate q) [] in
  restore_loop timestampsToDelete nextTime;;
  mret result.

(** The ids whose time has passed, earliest first. *)
Definition due_ids (now : Time) (q : gmap Time (list N)) : list N :=
  concat (filter (λ e, e.1 ≤ now) (iterate q)).*2.

(** *** Shared facts *)
Lemma getIds_upd f ts w : getIds ts (tq_upd f w) = default [] (f (tq_get w) !! ts).
Proof. unfold getIds. by rewrite tq_get_upd. Qed.

Lemma for_each_appendId c w ts ids :
  ∃ w', for_each ids (λ id, appendId id ts) c w = (Ok tt, w')
    ∧ tq_get w' = if decide (ids = []) then tq_get w
                  else <[ts := getIds ts w ++ ids]> (tq_get w).
Proof.
  revert w. induction ids as [|id ids IH]; intros w; [by exists w|].
  cbn [for_each]. rewrite bind_run. unfold appendId at 1. rewrite bind_run. cbn.
  destruct (IH (tq_upd (insert ts (getIds ts w ++ [id])) w)) as (w' & E & G).
  exists w'. split; [done|]. rewrite G, getIds_upd, tq_get_upd.
  rewrite lookup_insert_eq. cbn. case_decide as Hn.
  - subst ids. done.
  - by rewrite insert_insert_eq, <-app_assoc.
Qed.

Lemma restore_loop_run c w tss next :
  (tss = [] → next = []) →
  ∃ w', restore_loop tss next c w = (Ok tt, w')
    ∧ ∀ ts, tq_get w' !! ts =
        if decide (next ≠ [] ∧ last tss = Some ts) then Some next
        else if decide (ts ∈ tss) then None else tq_get w !! ts.
Proof.
  revert w. induction tss as [|t tss IH]; intros w Hnil.
  { exists w. split; [done|]. intros ts. rewrite (Hnil eq_refl).
    repeat case_decide; try done; set_solver. }
  cbn [restore_loop]. unfold deleteAllIds. rewrite bind_run. cbn [modify].
  set (w1 := tq_upd (delete t) w). rewrite bind_run.
  destruct tss as [|t' tss].
  - rewrite bool_decide_true by done. cbn [when].
    destruct (for_each_appendId c w1 t next) as (w2 & E & G). rewrite E.
    exists w2. split; [done|]. intros ts. rewrite G. simpl.
    assert (getIds t w1 = []) as Hg.
    { unfold w1. rewrite getIds_upd. by rewrite lookup_delete_eq. }
    rewrite Hg. unfold w1. rewrite tq_get_upd.
    destruct (decide (next = [])) as [Hn|Hn]; destruct (decide (ts = t)) as [->|];
      rewrite ?lookup_insert_eq, ?lookup_insert_ne, ?lookup_delete_eq, ?lookup_delete_ne by done;
      repeat case_decide; set_solver.
  - rewrite bool_decide_false by done. cbn [when mret M_ret].
    destruct (IH w1) as (w2 & E & G); [done|]. exists w2. split; [done|].
    intros ts. rewrite G. change (last (t :: t' :: tss)) with (last (t' :: tss)).
    unfold w1. rewrite tq_get_upd.
    destruct (decide (ts = t)) as [->|];
      rewrite ?lookup_delete_eq, ?lookup_delete_ne by done;
      repeat case_decide; set_solver.
Qed.

(** What one scan of key-sorted entries does. *)
Lemma consume_loop_spec now limit entries result r next tss :
  StronglySorted entry_le entries → (length result ≤ limit)%nat →
  consume_loop now limit entries result = (r, next, tss) →
  ∃ done rest, entries = done ++ rest ∧ tss = done.*1
    ∧ (∀ e, e ∈ done → e.1 ≤ now)
    ∧ r ++ next = result ++ concat done.*2
    ∧ (next = [] ∨ length r = limit ∧ done ≠ [])
    ∧ (length r ≤ limit)%nat
    ∧ ((length r = limit)%nat ∨ ∀ e, e ∈ rest → now < e.1).
Proof.
  revert result r next tss.
  induction entries as [|[ts ids] rest IH]; intros result r next tss Hs Hl; cbn [consume_loop].
  { intros [= <- <- <-]. exists [], []. rewrite !app_nil_r. set_solver. }
  destruct (Nat.leb_spec limit (length result)) as [Hfull|Hroom].
  { intros [= <- <- <-]. exists [], ((ts, ids) :: rest). rewrite !app_nil_r.
    split_and!; auto; [set_solver|left; lia]. }
  apply StronglySorted_inv in Hs as [Hs Hhd]. rewrite Forall_forall in Hhd.
  unfold time_After. destruct (Z.ltb_spec now ts) as [Hlate|Hdue].
  { intros [= <- <- <-]. exists [], ((ts, ids) :: rest). rewrite !app_nil_r.
    split_and!; auto; [set_solver|]. right. intros e [->|He]%elem_of_cons; [done|].
    specialize (Hhd _ He). change (ts ≤ e.1) in Hhd. lia. }
  destruct (Nat.leb_spec (length ids) (limit - length result)) as [Hfit|Hover].
  - destruct (consume_loop now limit rest (result ++ ids)) as [[r' next'] tss'] eqn:E.
    intros [= <- <- <-].
    apply IH in E as (dn & rst & -> & -> & Hd & Hr & Hn & Hlen & Hrest);
      [|done|rewrite length_app; lia].
    exists ((ts, ids) :: dn), rst. split_and!; try done.
    + intros e [->|He]%elem_of_cons; [done|auto].
    + by rewrite Hr, <-app_assoc.
    + destruct Hn as [|[]]; [by left|by right].
  - intros [= <- <- <-]. exists [(ts, ids)], rest. split_and!; try done.
    + set_solver.
    + cbn. by rewrite <-app_assoc, take_drop, app_nil_r.
    + right. split; [|done]. rewrite length_app, length_take. lia.
    + rewrite length_app, length_take. lia.
    + left. rewrite length_app, length_take. lia.
Qed.

Lemma due_ids_app now (l1 l2 : list (Time * list N)) :
  concat (filter (λ e, e.1 ≤ now) (l1 ++ l2)).*2
  = concat (filter (λ e, e.1 ≤ now) l1).*2 ++ concat (filter (λ e, e.1 ≤ now) l2).*2.
Proof. by rewrite filter_app, fmap_app, concat_app. Qed.

(** The queue after a scan: the visited prefix is gone, but for what was
    stored back under its last timestamp. *)
Lemma iterate_restored (q q' : gmap Time (list N)) dn rst next :
  iterate q = dn ++ rst → (next ≠ [] → dn ≠ []) →
  (∀ ts, q' !! ts = if decide (next ≠ [] ∧ last dn.*1 = Some ts) then Some next
                    else if decide (ts ∈ dn.*1) then None else q !! ts) →
  iterate q' = (match last dn.*1 with
                | Some ts => if decide (next = []) then [] else [(ts, next)]
                | None => [] end ++ rst)%list.
Proof.
  intros Hq Hne Hq'. pose proof (iterate_sorted q) as Hs. pose proof (NoDup_fst_iterate q) as Hnd.
  assert (∀ k v, (k, v) ∈ rst ↔ (¬ (k ∈ dn.*1) ∧ q !! k = Some v)) as Hrst.
  { intros k v. rewrite <-elem_of_iterate, Hq, elem_of_app.
    rewrite Hq, fmap_app, NoDup_app in Hnd. destruct Hnd as (_ & Hdis & _).
    split.
    - intros Hin. split; [|by right]. intros Hk. apply (Hdis k Hk).
      apply list_elem_of_fmap. by exists (k, v).
    - intros [Hk [Hin|]]; [|done]. destruct Hk. apply list_elem_of_fmap. by exists (k, v). }
  rewrite Hq in Hs, Hnd. rewrite fmap_app, NoDup_app in Hnd. destruct Hnd as (Hn1 & Hdis & Hn2).
  assert (StronglySorted entry_le rst) as Hsr by (by eapply StronglySorted_app_1_r).
  destruct (decide (next = [])) as [->|Hnn].
  { replace (match last dn.*1 with Some _ => [] | None => [] end ++ rst) with rst
      by (by destruct (last dn.*1)).
    apply iterate_unique; try done. intros k v. rewrite Hrst, Hq'.
    rewrite decide_False by naive_solver. case_decide; naive_solver. }
  destruct (last dn.*1) as [t|] eqn:Hlast; [|by apply last_None, fmap_nil_inv in Hlast; naive_solver].
  assert (t ∈ dn.*1) as Ht by (by apply last_Some_elem_of).
  apply iterate_unique.
  - constructor; [done|]. apply Forall_forall. intros e He.
    apply list_elem_of_fmap in Ht as (d & -> & Hd). unfold entry_le. cbn.
    by eapply (StronglySorted_app_1_elem_of entry_le dn rst d e Hs).
  - cbn. constructor; [|done]. by apply Hdis.
  - intros k v. rewrite Hq'. cbn. rewrite elem_of_cons, Hrst.
    destruct (decide (k = t)) as [->|].
    + rewrite decide_True by done. naive_solver.
    + rewrite (decide_False (P := next ≠ [] ∧ _)) by naive_solver.
      case_decide; naive_solver.
Qed.

(** What is left of a visited bucket is a tail of it. *)
Lemma consume_loop_next now limit entries result r next tss :
  consume_loop now limit entries result = (r, next, tss) → next ≠ [] →
  ∃ ts ids n, last tss = Some ts ∧ (ts, ids) ∈ entries ∧ next = drop n ids.
Proof.
  revert result r next tss.
  induction entries as [|[ts ids] rest IH]; intros result r next tss; cbn [consume_loop]; [by intros [= <- <- <-]|].
  destruct (Nat.leb _ _); [by intros [= <- <- <-]|]. destruct (time_After ts now); [by intros [= <- <- <-]|].
  destruct (Nat.leb _ _).
  - destruct (consume_loop _ _ rest _) as [[r' next'] tss'] eqn:E. intros [= <- <- <-] Hn.
    destruct (IH _ _ _ _ E Hn) as (t & l & n & Ht & Hin & ->). exists t, l, n.
    split_and!; [|by right|done]. destruct tss'; [done|exact Ht].
  - intros [= <- <- <-] _. eexists ts, ids, _. split_and!; [done|by left|done].
Qed.

Lemma ConsumeIds_run limit c w :
  let now := BlockTime c in
  ∃ w', ConsumeIdsFromTimeQueue limit c w = (Ok (take limit (due_ids now (tq_get w))), w')
    ∧ due_ids now (tq_get w') = drop limit (due_ids now (tq_get w))
    ∧ (∀ ts, now < ts → tq_get w' !! ts = tq_get w !! ts)
    ∧ ∀ ts, ∃ n, getIds ts w' = drop n (getIds ts w).
Proof.
  intros now. unfold ConsumeIdsFromTimeQueue, due_ids. rewrite !bind_run. cbn [asks gets].
  fold now. rewrite bind_run. cbn [gets].
  destruct (consume_loop now limit (iterate (tq_get w)) []) as [[r next] tss] eqn:E.
  pose proof (consume_loop_next _ _ _ _ _ _ _ E) as Hsuf.
  apply consume_loop_spec in E as (dn & rst & Hq & -> & Hd & Hr & Hn & Hlen & Hrest);
    [|apply iterate_sorted|cbn; lia].
  cbn in Hr. rewrite bind_run.
  destruct (restore_loop_run c w dn.*1 next) as (w' & Erun & Hq').
  { intros Hnil. apply fmap_nil_inv in Hnil as ->. destruct Hn as [|[]]; done. }
  rewrite Erun. exists w'.
  assert (filter (λ e, e.1 ≤ now) dn = dn) as Hfd by (by apply list_filter_all).
  assert (next ≠ [] → dn ≠ []) as Hne by (by destruct Hn as [->|(_ & ?)]).
  rewrite (iterate_restored _ _ _ _ _ Hq Hne Hq'), Hq.
  rewrite !due_ids_app, Hfd, <-Hr.
  assert (concat (filter (λ e, e.1 ≤ now) rst).*2 = [] ∨ length r = limit) as Hcases.
  { destruct Hrest as [|Hrest]; [by right|left]. rewrite list_filter_none; [done|].
    intros e He. specialize (Hrest e He). lia. }
  assert (concat (filter (λ e, e.1 ≤ now)
    match last dn.*1 with
    | Some ts => if decide (next = []) then [] else [(ts, next)]
    | None => [] end).*2 = next) as Hnext.
  { destruct (last dn.*1) as [t|] eqn:Hl.
    - case_decide as Hnil; [by rewrite Hnil|]. rewrite filter_cons_True; [by cbn; rewrite app_nil_r|].
      apply last_Some_elem_of, list_elem_of_fmap in Hl as (d & -> & Hin). exact (Hd d Hin).
    - apply last_None, fmap_nil_inv in Hl. destruct Hn as [->|[]]; done. }
  rewrite Hnext. clear Hnext. split_and!.
  - unfold mret, M_ret. f_equal. f_equal. destruct Hn as [->|[Hl _]].
    + rewrite app_nil_r. destruct Hcases as [->|Hl].
      * rewrite app_nil_r. by rewrite take_ge.
      * by rewrite take_app_length'.
    + rewrite <-app_assoc. by rewrite take_app_length'.
  - destruct Hn as [->|[Hl _]].
    + rewrite app_nil_r. destruct Hcases as [->|Hl].
      * by rewrite !app_nil_r, drop_ge.
      * by rewrite drop_app_length'.
    + rewrite <-app_assoc. by rewrite drop_app_length'.
  - intros ts Hts. rewrite Hq'. rewrite !decide_False; [done|..].
    + intros Hin. apply list_elem_of_fmap in Hin as (d & -> & Hin). specialize (Hd d Hin). lia.
    + intros [_ Hin]. apply last_Some_elem_of, list_elem_of_fmap in Hin as (d & -> & Hin).
      specialize (Hd d Hin). lia.
  - intros ts. unfold getIds. rewrite Hq'. case_decide as H1; [|case_decide as H2].
    + destruct H1 as [Hnn Hlast]. destruct (Hsuf Hnn) as (t & l & n & Ht & Hin & En).
      rewrite Ht in Hlast. injection Hlast as ->. exists n. apply elem_of_iterate in Hin. by rewrite Hin, En.
    + exists (length (default [] (tq_get w !! ts))). by rewrite drop_all.
    + by exists 0%nat.
Qed.

(** C37. ConsumeIdsFromTimeQueue always succeeds, returns the first ids due at the block
    time up to the limit in time order, and leaves exactly the remaining due ids queued,
    with the later buckets untouched. *)
Theorem ConsumeIdsFromTimeQueue_spec limit c w :
  let now := BlockTime c in
  ∃ w', ConsumeIdsFromTimeQueue limit c w = (Ok (take limit (due_ids now (tq_get w))), w')
    ∧ due_ids now (tq_get w') = drop limit (due_ids now (tq_get w))
    ∧ ∀ ts, now < ts → tq_get w' !! ts = tq_get w !! ts.
Proof. intros now. destruct (ConsumeIds_run limit c w) as (w' & E1 & E2 & E3 & _). by exists w'. Qed.

Lemma removeConsumerFromTimeQueue_spec consumerId ts c w :
  if decide (consumerId ∈ getIds ts w) then
    ∃ w' l1 l2, removeConsumerFromTimeQueue consumerId ts c w = (Ok tt, w')
      ∧ getIds ts w = l1 ++ consumerId :: l2 ∧ consumerId ∉ l1
      ∧ getIds ts w' = l1 ++ l2 ∧ tq_get w' !! ts ≠ Some []
      ∧ ∀ ts', ts' ≠ ts → tq_get w' !! ts' = tq_get w !! ts'
  else ∃ e, removeConsumerFromTimeQueue consumerId ts c w = (Err e, w).
Proof.
  unfold removeConsumerFromTimeQueue. rewrite !bind_run. cbn [gets].
  destruct (decide (getIds ts w = [])) as [Hnil|Hne].
  { rewrite decide_False by (rewrite Hnil; set_solver). by eexists. }
  destruct (list_find _ (getIds ts w)) as [[i id]|] eqn:Hf.
  - apply list_find_Some in Hf as (Hi & -> & Hfirst).
    rewrite decide_True by (by eapply list_elem_of_lookup_2).
    assert (getIds ts w = take i (getIds ts w) ++ consumerId :: drop (S i) (getIds ts w)) as Hsplit
      by (by rewrite take_drop_middle).
    assert (consumerId ∉ take i (getIds ts w)) as Hnot.
    { intros (j & Hj)%list_elem_of_lookup. rewrite lookup_take_Some in Hj.
      destruct Hj as [Hj Hlt]. by apply (Hfirst j consumerId). }
    destruct (decide (length (getIds ts w) = 1%nat)) as [Hone|Hmany].
    + exists (tq_upd (delete ts) w), (take i (getIds ts w)), (drop (S i) (getIds ts w)).
      split_and!; try done.
      * rewrite getIds_upd, lookup_delete_eq. cbn.
        assert (length (take i (getIds ts w) ++ drop (S i) (getIds ts w)) = 0)%nat as H0.
        { apply lookup_lt_Some in Hi. rewrite length_app, length_take, length_drop. lia. }
        by apply length_zero_iff_nil in H0.
      * by rewrite tq_get_upd, lookup_delete_eq.
      * intros ts' Hts'. by rewrite tq_get_upd, lookup_delete_ne.
    + eexists _, (take i (getIds ts w)), (drop (S i) (getIds ts w)).
      split_and!; try done.
      * by rewrite getIds_upd, lookup_insert_eq.
      * rewrite tq_get_upd, lookup_insert_eq. intros [= H0%(f_equal length)].
        apply lookup_lt_Some in Hi. rewrite length_app, length_take, length_drop in H0. cbn in H0. lia.
      * intros ts' Hts'. by rewrite tq_get_upd, lookup_insert_ne.
  - apply list_find_None in Hf. rewrite Forall_forall in Hf.
    rewrite decide_False by (intros Hin; by apply (Hf _ Hin)). by eexists.
Qed.
End queue.

(** *** The three queues *)
Section queues.
Context `{X : Externals}.

#[local] Obligation Tactic := done.
Program Definition SpawnQueue : TimeQueue :=
  {| tq_get := s_SpawnTimeToConsumerIds; tq_upd := upd_SpawnTimeToConsumerIds |}.
Program Definition RemovalQueue : TimeQueue :=
  {| tq_get := s_RemovalTimeToConsumerIds; tq_upd := upd_RemovalTimeToConsumerIds |}.
Program Definition PauseQueue : TimeQueue :=
  {| tq_get := s_PauseExpirationTimeToConsumerIds; tq_upd := upd_PauseExpirationTimeToConsumerIds |}.

Definition GetConsumersToBeLaunched : Time → World → list N := getIds (Q := SpawnQueue).
Definition AppendConsumerToBeLaunched : N → Time → K unit := appendId (Q := SpawnQueue).
Definition RemoveConsumerToBeLaunched : N → Time → K unit :=
  removeConsumerFromTimeQueue (Q := SpawnQueue).
Definition DeleteAllConsumersToBeLaunched : Time → K unit := deleteAllIds (Q := SpawnQueue).
Definition GetConsumersToBeRemoved : Time → World → list N := getIds (Q := RemovalQueue).
Definition AppendConsumerToBeRemoved : N → Time → K unit := appendId (Q := RemovalQueue).
Definition DeleteAllConsumersToBeRemoved : Time → K unit := deleteAllIds (Q := RemovalQueue).
Definition GetConsumersToBeAutoStopped : Time → World → list N := getIds (Q := PauseQueue).
Definition AppendConsumerToBeAutoStopped : N → Time → K unit := appendId (Q := PauseQueue).
Definition RemoveConsumerToBeAutoStopped : N → Time → K unit :=
  removeConsumerFromTimeQueue (Q := PauseQueue).
Definition DeleteAllConsumersToBeAutoStopped : Time → K unit := deleteAllIds (Q := PauseQueue).

(** The bucket entry may already be gone: it is removed only when present. *)
Definition CancelConsumerPauseExpiration (consumerId : N) : K unit :=
  o ← gets (GetConsumerPauseExpirationTime consumerId);
  match o with
  | None => mret tt
  | Some expirationTime =>
      ids ← gets (GetConsumersToBeAutoStopped expirationTime);
      when (bool_decide (consumerId ∈ ids))
        (RemoveConsumerToBeAutoStopped consumerId expirationTime);;
      DeleteConsumerPauseExpirationTime consumerId
  end.
End queues.
