(* ===== verification/ValSets.v ===== *)
(** Validator sets as CometBFT understands them, the specification both
    modules are proved against: a set maps a public key to a power, and an
    update replaces the power or, at power 0, removes the key. Also the theorem
    that [AccumulateChanges] (x/vaas/types/utils.go) merges two batches of
    updates into one with the same effect. *)
From S2P Require Import Prelude GoTime Types.

Definition ValSet : Type := gmap PubKey Z.

Definition apply_update (m : gmap PubKey Z) (u : ValidatorUpdate) : gmap PubKey Z :=
  if Power u =? 0 then delete (PubKey_ u) m else <[PubKey_ u := Power u]> m.
Definition apply_updates (us : list ValidatorUpdate) (m : gmap PubKey Z) : gmap PubKey Z :=
  foldl apply_update m us.

(** The set a list of validators stands for. *)
Definition set_of (vals : list ConsensusValidator) : gmap PubKey Z :=
  list_to_map ((λ v, (PublicKey v, cv_Power v)) <$> vals).

Lemma apply_updates_app us1 us2 m :
  apply_updates (us1 ++ us2) m = apply_updates us2 (apply_updates us1 m).
Proof. apply foldl_app. Qed.

Lemma update_map_app us1 us2 m :
  update_map (us1 ++ us2) m = update_map us2 (update_map us1 m).
Proof. apply foldl_app. Qed.

(** Only the last update of a key counts. *)
Lemma apply_updates_lookup us m k :
  apply_updates us m !! k =
  match update_map us ∅ !! k with
  | Some u => if Power u =? 0 then None else Some (Power u)
  | None => m !! k
  end.
Proof.
  induction us as [|u us IH] using rev_ind; [cbn; by rewrite lookup_empty|].
  rewrite apply_updates_app, update_map_app. cbn. unfold apply_update.
  destruct (decide (k = PubKey_ u)) as [->|Hne].
  - rewrite lookup_insert_eq. destruct (Power u =? 0); [by rewrite lookup_delete_eq|by rewrite lookup_insert_eq].
  - rewrite lookup_insert_ne by done. destruct (Power u =? 0);
      [by rewrite lookup_delete_ne by done|by rewrite lookup_insert_ne by done].
Qed.

Lemma update_map_lookup_or us m k :
  update_map us m !! k =
  match update_map us ∅ !! k with Some u => Some u | None => m !! k end.
Proof.
  induction us as [|u us IH] using rev_ind; [cbn; by rewrite lookup_empty|].
  rewrite !update_map_app. cbn. destruct (decide (k = PubKey_ u)) as [->|Hne].
  - by rewrite !lookup_insert_eq.
  - by rewrite !lookup_insert_ne by done.
Qed.

Lemma update_map_key us k u : update_map us ∅ !! k = Some u → PubKey_ u = k ∧ u ∈ us.
Proof.
  induction us as [|v us IH] using rev_ind; [cbn; by rewrite lookup_empty|].
  rewrite update_map_app. cbn. destruct (decide (k = PubKey_ v)) as [->|Hne].
  - rewrite lookup_insert_eq. intros [= ->]. set_solver.
  - rewrite lookup_insert_ne by done. intros [? ?]%IH. set_solver.
Qed.

Lemma update_map_NoDup us u :
  NoDup (PubKey_ <$> us) → u ∈ us → update_map us ∅ !! PubKey_ u = Some u.
Proof.
  induction us as [|v us IH] using rev_ind; [set_solver|].
  rewrite fmap_app, NoDup_app, update_map_app. intros (Hnd & Hdis & _) [Hin|Hin]%elem_of_app; cbn.
  - rewrite lookup_insert_ne; [by apply IH|]. intros E.
    apply (Hdis (PubKey_ u)); [by apply list_elem_of_fmap_2|]. rewrite <-E. set_solver.
  - apply list_elem_of_singleton in Hin as ->. by rewrite lookup_insert_eq.
Qed.

Lemma update_map_None us k : update_map us ∅ !! k = None ↔ ¬ k ∈ (PubKey_ <$> us).
Proof.
  split.
  - induction us as [|v us IH] using rev_ind; [set_solver|].
    rewrite update_map_app, fmap_app. cbn. destruct (decide (k = PubKey_ v)) as [->|Hne].
    + by rewrite lookup_insert_eq.
    + rewrite lookup_insert_ne by done. intros ?%IH. set_solver.
  - intros Hk. destruct (update_map us ∅ !! k) as [u|] eqn:E; [|done].
    apply update_map_key in E as [<- Hin]. destruct Hk. by apply list_elem_of_fmap_2.
Qed.

Lemma set_of_lookup vals v :
  NoDup (PublicKey <$> vals) → v ∈ vals → set_of vals !! PublicKey v = Some (cv_Power v).
Proof.
  intros Hnd Hin. unfold set_of. apply elem_of_list_to_map_1.
  - by rewrite <-list_fmap_compose.
  - apply list_elem_of_fmap. by exists v.
Qed.

Lemma set_of_lookup_None vals k : k ∉ (PublicKey <$> vals) → set_of vals !! k = None.
Proof.
  intros Hk. apply not_elem_of_list_to_map_1. by rewrite <-list_fmap_compose.
Qed.

(** *** Accumulation *)
Section accumulate.
Context `{LegacyDec} `{Keys}.

#[local] Instance update_le_total : Total update_le.
Proof.
  intros x y. unfold update_le.
  destruct (decide (Power x = Power y)) as [E|E];
    destruct (decide (Power y = Power x)) as [E'|E']; try congruence; [|lia].
  destruct (total String.le (PubKey_ x) (PubKey_ y)); auto.
Qed.
#[local] Instance update_le_trans : Transitive update_le.
Proof.
  intros x y z. unfold update_le. repeat case_decide; try congruence; try lia.
  intros. by etrans.
Qed.

Lemma update_le_antisymm x y : update_le x y → update_le y x → x = y.
Proof.
  destruct x as [k p], y as [k' p']. unfold update_le; cbn.
  repeat case_decide; subst; try congruence; try lia.
  intros. f_equal. by apply (anti_symm String.le).
Qed.

Lemma elem_of_AccumulateChanges cur new u :
  u ∈ AccumulateChanges cur new ↔ update_map (cur ++ new) ∅ !! PubKey_ u = Some u.
Proof.
  unfold AccumulateChanges. rewrite merge_sort_Permutation, <-update_map_app, list_elem_of_fmap.
  split.
  - intros ([k v] & -> & Hin%elem_of_map_to_list). cbn.
    by destruct (update_map_key _ _ _ Hin) as [-> _].
  - intros E. exists (PubKey_ u, u). by rewrite elem_of_map_to_list.
Qed.

Lemma AccumulateChanges_NoDup cur new : NoDup (PubKey_ <$> AccumulateChanges cur new).
Proof.
  unfold AccumulateChanges. rewrite merge_sort_Permutation, <-update_map_app.
  rewrite <-list_fmap_compose.
  rewrite (list_fmap_ext _ fst); [apply NoDup_fst_map_to_list|].
  intros i [k v] Hin%list_elem_of_lookup_2%elem_of_map_to_list. cbn.
  by destruct (update_map_key _ _ _ Hin) as [-> _].
Qed.

Lemma AccumulateChanges_order_irrelevant cur new l :
  l ≡ₚ (map_to_list (update_map new (update_map cur ∅))).*2 → StronglySorted update_le l →
  l = AccumulateChanges cur new.
Proof.
  intros P S. assert (AntiSymm (=) update_le) by (intros x y; apply update_le_antisymm).
  apply (StronglySorted_unique update_le); [done|apply StronglySorted_merge_sort; apply _|].
  unfold AccumulateChanges. by rewrite merge_sort_Permutation.
Qed.

(** Accumulating two lists of changes has the effect of applying one after the other,
    mentions each key once, and is sorted by the code's order, whatever order the map of the
    code is iterated in. *)
Lemma AccumulateChanges_apply cur new m :
  apply_updates (AccumulateChanges cur new) m = apply_updates new (apply_updates cur m)
  ∧ NoDup (PubKey_ <$> AccumulateChanges cur new)
  ∧ StronglySorted update_le (AccumulateChanges cur new)
  (* whatever order the map of the code is walked in *)
  ∧ ∀ l, l ≡ₚ (map_to_list (update_map new (update_map cur ∅))).*2 → StronglySorted update_le l →
      l = AccumulateChanges cur new.
Proof.
  split_and!.
  - apply map_eq. intros k. rewrite <-apply_updates_app, !apply_updates_lookup.
    enough (update_map (AccumulateChanges cur new) ∅ !! k = update_map (cur ++ new) ∅ !! k) as -> by done.
    destruct (update_map (cur ++ new) ∅ !! k) as [u|] eqn:E.
    + pose proof (update_map_key _ _ _ E) as [<- _].
      apply update_map_NoDup; [apply AccumulateChanges_NoDup|]. by apply elem_of_AccumulateChanges.
    + apply update_map_None. intros (u & -> & Hin)%list_elem_of_fmap.
      apply elem_of_AccumulateChanges in Hin. congruence.
  - apply AccumulateChanges_NoDup.
  - apply StronglySorted_merge_sort; apply _.
  - intros l. apply AccumulateChanges_order_irrelevant.
Qed.
End accumulate.
