(* ===== verification/Valset.v ===== *)
(** Validator-set updates on the provider: keeper/validator_set_update.go and
    keeper/relay.go. The set of each launched consumer is recomputed every
    epoch, diffed (or rendered whole, as a snapshot) into a VSC packet, queued,
    and sent over the consumer's client. *)
From S2P Require Import Prelude GoTime Types Externals World Keeper ValSets.

Section valset.
Context `{X : Externals}.

(** [map[string]ConsensusValidator], keyed by [PublicKey.String()]. *)
Definition by_key (vals : list ConsensusValidator) : gmap string ConsensusValidator :=
  foldl (λ m val, <[PublicKey val := val]> m) ∅ vals.

Definition DiffValidators (currentValidators nextValidators : list ConsensusValidator)
  : list ValidatorUpdate :=
  let isCurrentValidator := by_key currentValidators in
  let isNextValidator := by_key nextValidators in
  let changed (currentVal : ConsensusValidator) : list ValidatorUpdate :=
    match isNextValidator !! PublicKey currentVal with
    | None => [mkUpdate (PublicKey currentVal) 0]
    | Some nextVal =>
        if cv_Power currentVal =? cv_Power nextVal then []
        else [mkUpdate (PublicKey nextVal) (cv_Power nextVal)]
    end in
  let added (nextVal : ConsensusValidator) : list ValidatorUpdate :=
    match isCurrentValidator !! PublicKey nextVal with
    | None => [mkUpdate (PublicKey nextVal) (cv_Power nextVal)]
    | Some _ => []
    end in
  (currentValidators ≫= changed) ++ (nextValidators ≫= added).

Definition FullValSetUpdates (validators : list ConsensusValidator) : list ValidatorUpdate :=
  (λ v, mkUpdate (PublicKey v) (cv_Power v)) <$> validators.

Definition CreateConsumerValidator (consumerId : N) (validator : Validator) : K ConsensusValidator :=
  valAddr ← of_option (ValAddressFromBech32 (OperatorAddress validator)) ErrExternal;
  power ← (o ← gets (λ w, GetLastValidatorPower (w_staking w) valAddr); of_option o ErrExternal);
  consAddr ← of_option (GetConsAddr validator) ErrExternal;
  assigned ← gets (GetValidatorConsumerPubKey consumerId consAddr);
  consumerPublicKey ← match assigned with
                      | Some key => mret key
                      | None => of_option (CmtConsPublicKey validator) ErrExternal
                      end;
  height ← asks BlockHeight;
  v ← gets (GetConsumerValidator consumerId consAddr);
  mret (mkConsensusValidator consAddr power consumerPublicKey
          (match v with Some v => JoinHeight v | None => height end)).

(** One iteration of [CreateConsumerValidators]: the entries so far and the
    index of each consumer address among them. *)
Definition add_consumer_validator (consumerId : N)
    (acc : list ConsensusValidator * gmap string nat) (val : Validator)
  : K (list ConsensusValidator * gmap string nat) :=
  let '(nextValidators, indexByConsumerAddr) := acc in
  nextValidator ← CreateConsumerValidator consumerId val;
  consumerAddr ← of_option (TMCryptoPublicKeyToConsAddr (PublicKey nextValidator)) ErrExternal;
  match indexByConsumerAddr !! consumerAddr with
  | Some i =>
      match nextValidators !! i with
      | None => panic
      | Some kept =>
          if String.ltb (ProviderConsAddr nextValidator) (ProviderConsAddr kept)
          then mret (<[i := nextValidator]> nextValidators, indexByConsumerAddr)
          else mret (nextValidators, indexByConsumerAddr)
      end
  | None =>
      mret (nextValidators ++ [nextValidator],
            <[consumerAddr := length nextValidators]> indexByConsumerAddr)
  end.
Definition CreateConsumerValidators (consumerId : N) (bondedValidators : list Validator)
  : K (list ConsensusValidator) :=
  fst <$> fold_each bondedValidators (add_consumer_validator consumerId) ([], ∅).

Definition GetLastBondedValidators : K (list Validator) :=
  maxVals ← (o ← gets (λ w, MaxValidators (w_staking w)); of_option o ErrExternal);
  bondedValidators ← (o ← gets (λ w, GetBondedValidatorsByPower (w_staking w)); of_option o ErrExternal);
  if Z.of_nat (length bondedValidators) mod 2 ^ 32 <? maxVals then mret bondedValidators
  else mret (take (Z.to_nat maxVals) bondedValidators).

Definition ComputeConsumerNextValSet (bondedValidators : list Validator) (consumerId : N)
    (currentConsumerValSet : list ConsensusValidator) (isSnapshot : bool)
  : K (list ValidatorUpdate) :=
  nextValidators ← CreateConsumerValidators consumerId bondedValidators;
  SetConsumerValSet consumerId nextValidators;;
  mret (if isSnapshot then FullValSetUpdates nextValidators
        else DiffValidators currentConsumerValSet nextValidators).

(** *** relay.go *)
Definition OnAcknowledgementPacketV2 (sourceClientID : string) (ackVscId : N) (ackError : string)
  : K unit :=
  o ← gets (GetClientIdToConsumerId sourceClientID);
  match o with
  | None => mret tt
  | Some consumerId =>
      if negb (String.eqb ackError "") then mret tt else
      now ← asks BlockTime;
      SetConsumerLastAckTime consumerId now;;
      acked ← gets (GetConsumerHighestAckedVscId consumerId);
      when (acked <? ackVscId)%N (SetConsumerHighestAckedVscId consumerId ackVscId)
  end.

(** Both branches only log: a timed-out packet changes nothing. *)
Definition OnTimeoutPacketV2 (sourceClientID : string) : K unit :=
  o ← gets (GetClientIdToConsumerId sourceClientID);
  match o with None => mret tt | Some _ => mret tt end.

Definition ProviderValidatorUpdates : K (list ValidatorUpdate) :=
  bondedValidators ← (o ← gets (λ w, GetBondedValidatorsByPower (w_staking w)); of_option o ErrExternal);
  currentValidators ← gets GetLastProviderConsensusValSet;
  nextValidators ← map_each (λ val, o ← gets (CreateProviderConsensusValidator val);
                                    of_option o ErrExternal) bondedValidators;
  SetLastProviderConsensusValSet nextValidators;;
  mret (DiffValidators currentValidators nextValidators).

(** Go's [%] by zero panics. *)
Definition BlocksUntilNextEpoch : K Z :=
  height ← asks BlockHeight;
  blocksPerEpoch ← GetBlocksPerEpoch;
  if blocksPerEpoch =? 0 then panic else
  let blocksSinceEpochStart := Z.rem height blocksPerEpoch in
  mret (if blocksSinceEpochStart =? 0 then 0 else wrap64 (blocksPerEpoch - blocksSinceEpochStart)).

Definition send_one (consumerId : N) (clientId : string) (timeoutTimestamp : Z)
    (data : ValidatorSetChangePacketData) : K unit :=
  '(sent, ibc') ← gets (λ w, SendPacket (w_ibc w) clientId timeoutTimestamp authority data);
  modify (set_ibc ibc');;
  guard_err sent ErrExternal;;
  highest ← gets (GetConsumerHighestSentVscId consumerId);
  when (highest <? ValsetUpdateId data)%N
    (SetConsumerHighestSentVscId consumerId (ValsetUpdateId data)).

(** On a send error the loop returns before [DeletePendingVSCPackets], with
    what it sent and recorded so far kept. *)
Definition sendVSCPacketsToChainStrict (consumerId : N) (clientId : string) : K unit :=
  vaasTimeout ← GetVAASTimeoutPeriod;
  let timeoutPeriod := Z.min vaasTimeout MaxTimeoutDelta in
  now ← asks BlockTime;
  let timeoutTimestamp := (time_Unix (time_Add now timeoutPeriod)) mod 2 ^ 64 in
  pendingPackets ← gets (GetPendingVSCPackets consumerId);
  for_each pendingPackets (send_one consumerId clientId timeoutTimestamp);;
  DeletePendingVSCPackets consumerId.

Definition SendVSCPacketsToChain (consumerId : N) (clientId : string) : K unit :=
  try (sendVSCPacketsToChainStrict consumerId clientId);; mret tt.

Definition SendVSCPackets : K unit :=
  launched ← gets GetAllLaunchedConsumerIds;
  for_each launched (λ consumerId,
    o ← gets (GetConsumerClientId consumerId);
    match o with
    | None => mret tt
    | Some clientID =>
        if String.eqb clientID "" then mret tt else SendVSCPacketsToChain consumerId clientID
    end).

Definition buildVSCPacket (consumerId : N) (valUpdates : list ValidatorUpdate)
    (valUpdateID : N) (isSnapshot : bool) : K ValidatorSetChangePacketData :=
  inDebt ← gets (IsConsumerInDebt consumerId);
  dp ← CurrentDowntimeParams;
  mret (mkVSC valUpdates valUpdateID inDebt isSnapshot (Some dp)).

Definition needs_snapshot (consumerId : N) (currentValSet : list ConsensusValidator) (w : World)
  : bool :=
  bool_decide (currentValSet = [])
  || (GetConsumerHighestAckedVscId consumerId w <? GetConsumerHighestSentVscId consumerId w)%N
  || negb (bool_decide (GetPendingVSCPackets consumerId w = [])).

Definition queue_one (bondedValidators : list Validator) (valUpdateID : N) (consumerId : N)
  : K unit :=
  currentValSet ← gets (GetConsumerValSet consumerId);
  isSnapshot ← gets (needs_snapshot consumerId currentValSet);
  valUpdates ← ComputeConsumerNextValSet bondedValidators consumerId currentValSet isSnapshot;
  packet ← buildVSCPacket consumerId valUpdates valUpdateID isSnapshot;
  AppendPendingVSCPackets consumerId [packet].

Definition QueueVSCPackets : K unit :=
  valUpdateID ← gets GetValidatorSetUpdateId;
  bondedValidators ← GetLastBondedValidators;
  launched ← gets GetAllLaunchedConsumerIds;
  for_each launched (queue_one bondedValidators valUpdateID);;
  IncrementValidatorSetUpdateId.

Definition QueueImmediateSnapshotVSCPacket (consumerId : N) : K unit :=
  valUpdateID ← gets GetValidatorSetUpdateId;
  bondedValidators ← GetLastBondedValidators;
  currentValSet ← gets (GetConsumerValSet consumerId);
  valUpdates ← ComputeConsumerNextValSet bondedValidators consumerId currentValSet true;
  packet ← buildVSCPacket consumerId valUpdates valUpdateID true;
  AppendPendingVSCPackets consumerId [packet];;
  IncrementValidatorSetUpdateId.

Definition QueueConsPubKeyRotationSnapshots (newProviderAddr : string) : K unit :=
  launched ← gets GetAllLaunchedConsumerIds;
  for_each launched (λ consumerId,
    assigned ← gets (GetValidatorConsumerPubKey consumerId newProviderAddr);
    match assigned with
    | Some _ => mret tt
    | None =>
        r ← try (QueueImmediateSnapshotVSCPacket consumerId);
        match r with
        | inl _ => mret tt
        | inr _ =>
            o ← gets (GetConsumerClientId consumerId);
            match o with
            | None => mret tt
            | Some clientId => SendVSCPacketsToChain consumerId clientId
            end
        end
    end).

Definition EndBlockVSU : K (list ValidatorUpdate) :=
  valUpdates ← ProviderValidatorUpdates;
  blocks ← BlocksUntilNextEpoch;
  when (blocks =? 0) (QueueVSCPackets;; SendVSCPackets);;
  mret valUpdates.
End valset.
