(* ===== verification/ValsetProofs.v ===== *)
(** Proofs about [Valset]: what a diff and a snapshot do to a validator set,
    what [CreateConsumerValidators] keeps, what a failed send leaves queued. *)
From S2P Require Import Prelude GoTime Types Externals World Keeper ValSets Valset.

Section diff.
Implicit Types cur next : list ConsensusValidator.

Lemma by_key_app (l1 l2 : list ConsensusValidator) (m : gmap string ConsensusValidator) :
  foldl (λ m val, <[PublicKey val := val]> m) m (l1 ++ l2)
  = foldl (λ m val, <[PublicKey val := val]> m) (foldl (λ m val, <[PublicKey val := val]> m) m l1) l2.
Proof. apply foldl_app. Qed.

Lemma by_key_Some vals v :
  NoDup (PublicKey <$> vals) → v ∈ vals → by_key vals !! PublicKey v = Some v.
Proof.
  unfold by_key. induction vals as [|u vals IH] using rev_ind; [set_solver|].
  rewrite fmap_app, NoDup_app, by_key_app. intros (Hnd & Hdis & _) [Hin|Hin]%elem_of_app; cbn.
  - rewrite lookup_insert_ne; [by apply IH|]. intros E.
    apply (Hdis (PublicKey v)); [by apply list_elem_of_fmap_2|]. rewrite <-E. set_solver.
  - apply list_elem_of_singleton in Hin as ->. by rewrite lookup_insert_eq.
Qed.

Lemma by_key_inv vals k v : by_key vals !! k = Some v → PublicKey v = k ∧ v ∈ vals.
Proof.
  unfold by_key. induction vals as [|u vals IH] using rev_ind; [cbn; by rewrite lookup_empty|].
  rewrite by_key_app. cbn. destruct (decide (k = PublicKey u)) as [->|Hne].
  - rewrite lookup_insert_eq. intros [= ->]. set_solver.
  - rewrite lookup_insert_ne by done. intros [? ?]%IH. set_solver.
Qed.

Lemma by_key_None vals k : by_key vals !! k = None ↔ k ∉ (PublicKey <$> vals).
Proof.
  split.
  - unfold by_key. induction vals as [|u vals IH] using rev_ind; [set_solver|].
    rewrite by_key_app, fmap_app. cbn. destruct (decide (k = PublicKey u)) as [->|Hne].
    + by rewrite lookup_insert_eq.
    + rewrite lookup_insert_ne by done. intros ?%IH. set_solver.
  - intros Hk. destruct (by_key vals !! k) as [v|] eqn:E; [|done].
    apply by_key_inv in E as [<- Hin]. destruct Hk. by apply list_elem_of_fmap_2.
Qed.

(** A diff is one update per key whose power differs. *)
Lemma elem_of_DiffValidators cur next u :
  NoDup (PublicKey <$> cur) → NoDup (PublicKey <$> next) →
  u ∈ DiffValidators cur next ↔
    (∃ c, c ∈ cur ∧ ¬ PublicKey c ∈ (PublicKey <$> next) ∧ u = mkUpdate (PublicKey c) 0) ∨
    (∃ c n, c ∈ cur ∧ n ∈ next ∧ PublicKey c = PublicKey n ∧ cv_Power c ≠ cv_Power n
            ∧ u = mkUpdate (PublicKey n) (cv_Power n)) ∨
    (∃ n, n ∈ next ∧ ¬ PublicKey n ∈ (PublicKey <$> cur) ∧ u = mkUpdate (PublicKey n) (cv_Power n)).
Proof.
  intros Hc Hn. unfold DiffValidators. rewrite elem_of_app, !list_elem_of_bind.
  split.
  - intros [(c & Hu & Hin)|(n & Hu & Hin)].
    + destruct (by_key next !! PublicKey c) as [n|] eqn:E.
      * apply by_key_inv in E as [E Hin']. destruct (Z.eqb_spec (cv_Power c) (cv_Power n)); [set_solver|].
        apply list_elem_of_singleton in Hu as ->. right; left. by exists c, n.
      * apply by_key_None in E. apply list_elem_of_singleton in Hu as ->. left. by exists c.
    + destruct (by_key cur !! PublicKey n) as [c|] eqn:E; [set_solver|].
      apply by_key_None in E. apply list_elem_of_singleton in Hu as ->. right; right. by exists n.
  - intros [(c & Hin & Hno & ->)|[(c & n & Hin & Hin' & E & Hp & ->)|(n & Hin & Hno & ->)]].
    + left. exists c. apply by_key_None in Hno. rewrite Hno. set_solver.
    + left. exists c. rewrite E, (by_key_Some next n) by done.
      destruct (Z.eqb_spec (cv_Power c) (cv_Power n)); [done|set_solver].
    + right. exists n. apply by_key_None in Hno. rewrite Hno. set_solver.
Qed.

Lemma elem_of_DiffValidators_key cur next u :
  NoDup (PublicKey <$> cur) → NoDup (PublicKey <$> next) →
  u ∈ DiffValidators cur next →
  Power u = default 0 (set_of next !! PubKey_ u)
  ∧ set_of cur !! PubKey_ u ≠ (if decide (PubKey_ u ∈ PublicKey <$> next) then Some (Power u) else None).
Proof.
  intros Hc Hn Hu. apply elem_of_DiffValidators in Hu; [|done..].
  destruct Hu as [(c & Hin & Hno & ->)|[(c & n & Hin & Hin' & E & Hp & ->)|(n & Hin & Hno & ->)]]; cbn.
  - rewrite set_of_lookup_None by done. rewrite decide_False by done.
    split; [done|]. by rewrite set_of_lookup.
  - rewrite set_of_lookup by done. split; [done|].
    rewrite decide_True by (by apply list_elem_of_fmap_2). rewrite <-E, set_of_lookup by done. congruence.
  - rewrite set_of_lookup by done. split; [done|].
    rewrite decide_True by (by apply list_elem_of_fmap_2). by rewrite set_of_lookup_None.
Qed.

Lemma update_map_diff cur next k :
  NoDup (PublicKey <$> cur) → NoDup (PublicKey <$> next) →
  update_map (DiffValidators cur next) ∅ !! k = None ∧ set_of cur !! k = set_of next !! k
  ∨ ∃ u, update_map (DiffValidators cur next) ∅ !! k = Some u
      ∧ Power u = default 0 (set_of next !! k).
Proof.
  intros Hc Hn. destruct (update_map (DiffValidators cur next) ∅ !! k) as [u|] eqn:E.
  - right. exists u. split; [done|]. apply update_map_key in E as [<- Hin].
    by destruct (elem_of_DiffValidators_key cur next u Hc Hn Hin).
  - left. split; [done|].
    assert (∀ u, u ∈ DiffValidators cur next → PubKey_ u ≠ k) as Hno.
    { intros u Hu <-. apply update_map_None in E. destruct E. by apply list_elem_of_fmap_2. }
    destruct (decide (k ∈ PublicKey <$> cur)) as [Hk|Hk]; destruct (decide (k ∈ PublicKey <$> next)) as [Hk'|Hk'].
    + apply list_elem_of_fmap in Hk as (c & -> & Hin). apply list_elem_of_fmap in Hk' as (n & Hkn & Hin').
      rewrite set_of_lookup by done. rewrite Hkn, set_of_lookup by done. f_equal.
      destruct (decide (cv_Power c = cv_Power n)); [done|].
      destruct (Hno (mkUpdate (PublicKey n) (cv_Power n))); [|done].
      apply elem_of_DiffValidators; [done..|]. right; left. by exists c, n.
    + apply list_elem_of_fmap in Hk as (c & -> & Hin).
      destruct (Hno (mkUpdate (PublicKey c) 0)); [|done].
      apply elem_of_DiffValidators; [done..|]. left. by exists c.
    + apply list_elem_of_fmap in Hk' as (n & -> & Hin).
      destruct (Hno (mkUpdate (PublicKey n) (cv_Power n))); [|done].
      apply elem_of_DiffValidators; [done..|]. right; right. by exists n.
    + by rewrite !set_of_lookup_None.
Qed.

Definition positive_powers (vals : list ConsensusValidator) : Prop :=
  ∀ v, v ∈ vals → cv_Power v ≠ 0.

(** The set a list of validators gives a chain that had none. *)
Definition live (vals : list ConsensusValidator) : gmap PubKey Z :=
  apply_updates (FullValSetUpdates vals) ∅.

Lemma FullValSetUpdates_keys vals : PubKey_ <$> FullValSetUpdates vals = PublicKey <$> vals.
Proof. unfold FullValSetUpdates. by rewrite <-list_fmap_compose. Qed.

Lemma live_lookup vals k :
  NoDup (PublicKey <$> vals) →
  live vals !! k = match set_of vals !! k with
                   | Some p => if p =? 0 then None else Some p
                   | None => None
                   end.
Proof.
  intros Hnd. unfold live. rewrite apply_updates_lookup, lookup_empty.
  destruct (update_map (FullValSetUpdates vals) ∅ !! k) as [u|] eqn:E.
  - apply update_map_key in E as [<- Hin]. unfold FullValSetUpdates in Hin.
    apply list_elem_of_fmap in Hin as (v & -> & Hin). cbn. by rewrite set_of_lookup.
  - apply update_map_None in E. rewrite FullValSetUpdates_keys in E. by rewrite set_of_lookup_None.
Qed.

(** The shared fact behind the diff theorem and the protocol's invariant. *)
Lemma diff_live cur next :
  NoDup (PublicKey <$> cur) → NoDup (PublicKey <$> next) →
  apply_updates (DiffValidators cur next) (live cur) = live next.
Proof.
  intros Hc Hn. apply map_eq. intros k. rewrite apply_updates_lookup, !live_lookup by done.
  destruct (update_map_diff cur next k Hc Hn) as [[-> ->]|(u & -> & ->)]; [done|].
  by destruct (set_of next !! k).
Qed.

Lemma bind_keys_NoDup {A} (key : A → PubKey) (g : A → list ValidatorUpdate) (l : list A) :
  NoDup (key <$> l) → (∀ x, g x = [] ∨ ∃ p, g x = [mkUpdate (key x) p]) →
  NoDup (PubKey_ <$> (l ≫= g)) ∧ ∀ k, k ∈ PubKey_ <$> (l ≫= g) → k ∈ key <$> l.
Proof.
  intros Hnd Hg. induction l as [|x l IH]; [split; [constructor|set_solver]|].
  cbn in Hnd. apply NoDup_cons in Hnd as [Hnot Hnd]. destruct (IH Hnd) as [IH1 IH2].
  cbn. destruct (Hg x) as [->|[p ->]]; cbn; [set_solver|].
  split; [|set_solver]. apply NoDup_cons. split; [|done]. intros Hin. by apply Hnot, IH2.
Qed.

Lemma DiffValidators_NoDup cur next :
  NoDup (PublicKey <$> cur) → NoDup (PublicKey <$> next) →
  NoDup (PubKey_ <$> DiffValidators cur next).
Proof.
  intros Hc Hn. unfold DiffValidators. rewrite fmap_app, NoDup_app.
  match goal with |- NoDup (PubKey_ <$> (cur ≫= ?f)) ∧ _ ∧ NoDup (PubKey_ <$> (next ≫= ?g)) =>
    set (changed := f); set (added := g) end.
  destruct (bind_keys_NoDup PublicKey changed cur Hc) as [H1 H2].
  { intros v. unfold changed. destruct (by_key next !! PublicKey v) as [n|] eqn:E; [|eauto].
    apply by_key_inv in E as [<- _]. destruct (_ =? _); eauto. }
  destruct (bind_keys_NoDup PublicKey added next Hn) as [H3 H4].
  { intros v. unfold added. destruct (by_key cur !! PublicKey v); eauto. }
  split_and!; [done| |done]. intros k Hk%H2 Hk'.
  apply list_elem_of_fmap in Hk' as (u & -> & Hu). apply list_elem_of_bind in Hu as (v & Hu & _).
  unfold added in Hu. destruct (by_key cur !! PublicKey v) eqn:E; [set_solver|].
  apply by_key_None in E. apply list_elem_of_singleton in Hu as ->. done.
Qed.

(** C14. Applying the updates DiffValidators computes to the current set gives the next set,
    each public key is updated at most once, and no update is redundant. *)
Theorem DiffValidators_correct cur next :
  NoDup (PublicKey <$> cur) → NoDup (PublicKey <$> next) →
  apply_updates (DiffValidators cur next) (live cur) = live next
  ∧ NoDup (PubKey_ <$> DiffValidators cur next)
  ∧ (positive_powers next →
     ∀ u, u ∈ DiffValidators cur next → apply_update (set_of cur) u ≠ set_of cur).
Proof.
  intros Hc Hn. split_and!; [by apply diff_live|by apply DiffValidators_NoDup|]. intros Hp u Hu E.
  pose proof (elem_of_DiffValidators_key cur next u Hc Hn Hu) as [HP Hne].
  apply (f_equal (lookup (PubKey_ u))) in E. unfold apply_update in E.
  destruct (Z.eqb_spec (Power u) 0) as [Hz|Hz].
  - rewrite lookup_delete_eq in E. rewrite <-E in Hne. case_decide as Hin; [|done].
    apply list_elem_of_fmap in Hin as (n & Hk & Hin). rewrite Hk, set_of_lookup in HP by done.
    cbn in HP. by apply (Hp n Hin); rewrite <-HP.
  - rewrite lookup_insert_eq in E. rewrite <-E in Hne. case_decide as Hin; [done|].
    rewrite set_of_lookup_None in HP by done. done.
Qed.
End diff.

Section create.
Context `{X : Externals}.

Definition consumer_addr (v : ConsensusValidator) : option string :=
  TMCryptoPublicKeyToConsAddr (PublicKey v).
(** The entry [CreateConsumerValidator] makes for a bonded validator. *)
Definition creates (consumerId : N) (c : Ctx) (w : World) (b : Validator) (v : ConsensusValidator)
  : Prop := CreateConsumerValidator consumerId b c w = (Ok v, w).

Lemma CreateConsumerValidator_reads consumerId b c w r w' :
  CreateConsumerValidator consumerId b c w = (r, w') → w' = w.
Proof.
  apply (preserves_run (λ w1, w1 = w)); [pres|done].
Qed.

Lemma creates_provider consumerId c w b v :
  creates consumerId c w b v → GetConsAddr b = Some (ProviderConsAddr v).
Proof.
  unfold creates, CreateConsumerValidator. intros E. run_inv. cbn. done.
Qed.

(** The loop's invariant after the validators [dn]. *)
Record collected (consumerId : N) (c : Ctx) (w : World) (dn : list Validator)
    (vals : list ConsensusValidator) (idx : gmap string nat) : Prop := {
  col_idx i v : vals !! i = Some v → ∃ a, consumer_addr v = Some a ∧ idx !! a = Some i;
  col_val a i : idx !! a = Some i → ∃ v, vals !! i = Some v ∧ consumer_addr v = Some a;
  col_from v : v ∈ vals → ∃ b, b ∈ dn ∧ creates consumerId c w b v;
  col_all b : b ∈ dn → ∃ v v', creates consumerId c w b v ∧ v' ∈ vals
    ∧ consumer_addr v' = consumer_addr v ∧ is_Some (consumer_addr v)
    ∧ String.le (ProviderConsAddr v') (ProviderConsAddr v);
}.

Lemma collected_from_snoc consumerId c w dn vals idx b v v' :
  collected consumerId c w dn vals idx → creates consumerId c w b v → v' ∈ vals ∨ v' = v →
  ∃ b', b' ∈ dn ++ [b] ∧ creates consumerId c w b' v'.
Proof.
  intros [_ _ Hfrom _] Hb [Hin| ->]; [|exists b; set_solver].
  destruct (Hfrom v' Hin) as (b' & ? & ?). exists b'. set_solver.
Qed.

(** The three things the loop does with the entry of the next validator: it takes the place of
    the entry with its address ... *)
Lemma collected_replace consumerId c w dn vals idx b v kept a i :
  collected consumerId c w dn vals idx → creates consumerId c w b v →
  consumer_addr v = Some a → idx !! a = Some i → vals !! i = Some kept →
  consumer_addr kept = Some a → String.le (ProviderConsAddr v) (ProviderConsAddr kept) →
  collected consumerId c w (dn ++ [b]) (<[i:=v]> vals) idx.
Proof.
  intros Hcol Hb Ha Hi Hk Hka Hle. destruct Hcol as [Hidx Hval Hfrom Hall] eqn:Eq.
  pose proof (lookup_lt_Some _ _ _ Hk) as Hlt. split.
  - intros j v' [(<- & <- & _)|[Hne Hj]]%list_lookup_insert_Some; [by exists a|by apply Hidx].
  - intros a' j Hj. destruct (Hval a' j Hj) as (v' & Hv' & Ha'). destruct (decide (i = j)) as [<-|Hne].
    + exists v. rewrite list_lookup_insert_eq by done. split; [done|congruence].
    + exists v'. by rewrite list_lookup_insert_ne.
  - intros v' [j Hj]%list_elem_of_lookup. apply (collected_from_snoc _ _ _ _ _ _ _ _ _ Hcol Hb).
    apply list_lookup_insert_Some in Hj as [(_ & <- & _)|[_ Hj]]; [by right|].
    left. by eapply list_elem_of_lookup_2.
  - assert (v ∈ <[i:=v]> vals) as Hin by (eapply list_elem_of_lookup_2; by rewrite list_lookup_insert_eq).
    intros b' [(u & u' & Hu & [j Hj]%list_elem_of_lookup & Hsame & Hsome & Hle')%Hall
      | ->%list_elem_of_singleton]%elem_of_app; [|by exists v, v; split_and!].
    destruct (decide (i = j)) as [<-|Hne].
    + replace u' with kept in * by congruence. exists u, v. split_and!; try done; [congruence|by etrans].
    + exists u, u'. split_and!; try done. eapply (list_elem_of_lookup_2 _ j). by rewrite list_lookup_insert_ne.
Qed.

(** ... or loses to it ... *)
Lemma collected_keep consumerId c w dn vals idx b v kept a i :
  collected consumerId c w dn vals idx → creates consumerId c w b v →
  consumer_addr v = Some a → vals !! i = Some kept → consumer_addr kept = Some a →
  String.le (ProviderConsAddr kept) (ProviderConsAddr v) →
  collected consumerId c w (dn ++ [b]) vals idx.
Proof.
  intros Hcol Hb Ha Hk Hka Hle. destruct Hcol as [Hidx Hval Hfrom Hall] eqn:Eq.
  split; [done|done| |].
  - intros v' Hin. apply (collected_from_snoc _ _ _ _ _ _ _ _ _ Hcol Hb). by left.
  - intros b' [Hb'| ->%list_elem_of_singleton]%elem_of_app; [by apply Hall|].
    exists v, kept. split_and!; try done; [by eapply list_elem_of_lookup_2|congruence].
Qed.

(** ... or is appended when no entry has its address. *)
Lemma collected_append consumerId c w dn vals idx b v a :
  collected consumerId c w dn vals idx → creates consumerId c w b v →
  consumer_addr v = Some a → idx !! a = None →
  collected consumerId c w (dn ++ [b]) (vals ++ [v]) (<[a:=length vals]> idx).
Proof.
  intros Hcol Hb Ha Hi. destruct Hcol as [Hidx Hval Hfrom Hall] eqn:Eq. split.
  - intros j v' [Hj|[Hlen Hj]]%lookup_app_Some.
    + destruct (Hidx j v' Hj) as (a' & Ha' & Hj'). exists a'. split; [done|].
      rewrite lookup_insert_ne; [done|congruence].
    + apply list_lookup_singleton_Some in Hj as [Hz <-]. exists a. split; [done|].
      rewrite lookup_insert_eq. f_equal. lia.
  - intros a' j [[<- <-]|[Hne Hj]]%lookup_insert_Some.
    + exists v. by rewrite list_lookup_middle.
    + destruct (Hval a' j Hj) as (v' & Hv' & Ha'). exists v'. by rewrite (lookup_app_l_Some _ _ _ _ Hv').
  - intros v' Hin. apply (collected_from_snoc _ _ _ _ _ _ _ _ _ Hcol Hb). set_solver.
  - intros b' [(u & u' & Hu & Hu' & Hr)%Hall| ->%list_elem_of_singleton]%elem_of_app.
    + exists u, u'. set_solver.
    + exists v, v. split_and!; set_solver.
Qed.

Lemma collected_step consumerId c w dn b vals idx acc w' :
  collected consumerId c w dn vals idx →
  add_consumer_validator consumerId (vals, idx) b c w = (Ok acc, w') →
  w' = w ∧ collected consumerId c w (dn ++ [b]) acc.1 acc.2.
Proof.
  intros Hcol E. unfold add_consumer_validator in E.
  apply bind_Ok in E as (v & w1 & Ev & E).
  pose proof (CreateConsumerValidator_reads _ _ _ _ _ _ Ev) as ->.
  apply bind_Ok in E as (a & w2 & [Ha <-]%of_option_Ok & E).
  destruct (idx !! a) as [i|] eqn:Hi.
  - destruct (col_val _ _ _ _ _ _ Hcol a i Hi) as (kept & Hk & Hka). rewrite Hk in E.
    destruct (String.ltb (ProviderConsAddr v) (ProviderConsAddr kept)) eqn:Hltb;
      apply ret_Ok in E as [<- <-]; (split; [done|]); cbn.
    + eapply collected_replace; try done.
      destruct (total String.le (ProviderConsAddr v) (ProviderConsAddr kept)) as [|Hle]; [done|].
      apply string_ltb_false in Hle. congruence.
    + eapply collected_keep; try done. by apply string_ltb_false.
  - apply ret_Ok in E as [<- <-]. split; [done|]. by eapply collected_append.
Qed.

Lemma CreateConsumerValidators_collected consumerId bonded c w vals w' :
  CreateConsumerValidators consumerId bonded c w = (Ok vals, w') →
  w' = w ∧ ∃ idx, collected consumerId c w bonded vals idx.
Proof.
  unfold CreateConsumerValidators. unfold fmap, M_fmap. intros ([vs idx] & w1 & E & [<- <-]%ret_Ok)%bind_Ok.
  apply (fold_each_Ok_ind (λ dn acc w1, w1 = w ∧ collected consumerId c w dn acc.1 acc.2)) in E as [-> Hc].
  - split; [done|]. by exists idx.
  - split; [done|]. split; cbn; set_solver.
  - intros dn x rest [vs' idx'] w2 acc w3 _ [-> HI] Estep. by eapply collected_step.
Qed.

Lemma collected_NoDup consumerId c w dn vals idx :
  collected consumerId c w dn vals idx → NoDup (consumer_addr <$> vals).
Proof.
  intros [Hidx _ _ _]. 
  apply NoDup_alt. intros i j oa Hi Hj. rewrite !list_lookup_fmap in Hi, Hj.
  apply fmap_Some in Hi as (v & Hi & ->). apply fmap_Some in Hj as (v' & Hj & E).
  destruct (Hidx i v Hi) as (a & Ha & Hia). destruct (Hidx j v' Hj) as (a' & Ha' & Hja). congruence.
Qed.

Lemma collected_elem consumerId c w bonded vals idx v :
  collected consumerId c w bonded vals idx → NoDup (GetConsAddr <$> bonded) →
  v ∈ vals ↔ (∃ b, b ∈ bonded ∧ creates consumerId c w b v)
    ∧ ∀ b' v', b' ∈ bonded → creates consumerId c w b' v' → consumer_addr v' = consumer_addr v →
        String.le (ProviderConsAddr v) (ProviderConsAddr v').
Proof.
  intros Hcol Hnd. pose proof (collected_NoDup _ _ _ _ _ _ Hcol) as Hnda.
  destruct Hcol as [Hidx Hval Hfrom Hall].
  assert (∀ b v v', creates consumerId c w b v → creates consumerId c w b v' → v = v') as Hfun
    by (unfold creates; congruence).
  assert (∀ b b', b ∈ bonded → b' ∈ bonded → GetConsAddr b = GetConsAddr b' → b = b') as Hinj.
  { intros b b' [i Hi]%list_elem_of_lookup [j Hj]%list_elem_of_lookup E.
    assert (i = j) as ->; [|congruence].
    eapply (NoDup_lookup (GetConsAddr <$> bonded)); [done|..]; rewrite list_lookup_fmap;
      [by rewrite Hi|by rewrite Hj, E]. }
  split.
  - intros Hin. split; [by apply Hfrom|]. intros b' v' Hb' Hv' Hsame.
    destruct (Hall b' Hb') as (u & u' & Hu & Hu' & Hs & _ & Hle).
    rewrite (Hfun b' v' u) by done. assert (v = u') as ->; [|done].
    apply list_elem_of_lookup in Hin as [i Hi]. apply list_elem_of_lookup in Hu' as [j Hj].
    assert (i = j) as ->; [|congruence].
    eapply (NoDup_lookup (consumer_addr <$> vals)); [done|..]; rewrite list_lookup_fmap;
      [by rewrite Hi|rewrite Hj]. cbn. f_equal. rewrite Hs, <-Hsame. f_equal. by eapply Hfun.
  - intros [(b & Hb & Hv) Hmin].
    destruct (Hall b Hb) as (u & u' & Hu & Hu' & Hs & _ & Hle).
    rewrite (Hfun b v u) in * by done.
    destruct (Hfrom u' Hu') as (b' & Hb' & Hcu').
    assert (ProviderConsAddr u = ProviderConsAddr u') as E
      by (apply (anti_symm String.le); [by eapply Hmin|done]).
    assert (b = b') as -> by (apply Hinj; [done..|];
      rewrite (creates_provider _ _ _ _ _ Hv), (creates_provider _ _ _ _ _ Hcu'); congruence).
    by rewrite (Hfun b' u u').
Qed.

(** *** What the set should be *)
(** The entry of a bonded validator on a consumer: its provider address, the
    power x/staking has for its operator, the key it assigned on that consumer
    or else its own, and the height it joined the set at. *)
Record consumer_entry (consumerId : N) (c : Ctx) (w : World) (b : Validator) (v : ConsensusValidator) : Prop := {
  ce_addr : GetConsAddr b = Some (ProviderConsAddr v);
  ce_power : ∃ operator, ValAddressFromBech32 (OperatorAddress b) = Some operator ∧
    GetLastValidatorPower (w_staking w) operator = Some (cv_Power v);
  ce_key : match GetValidatorConsumerPubKey consumerId (ProviderConsAddr v) w with
           | Some assigned => PublicKey v = assigned
           | None => CmtConsPublicKey b = Some (PublicKey v)
           end;
  ce_join : JoinHeight v = match GetConsumerValidator consumerId (ProviderConsAddr v) w with
                           | Some before => JoinHeight before
                           | None => BlockHeight c
                           end;
}.
(** The set of these validators: an entry per consumer address, which goes to
    the smallest provider address when several validators claim it. *)
Definition consumer_set (consumerId : N) (c : Ctx) (w : World) (bonded : list Validator)
    (vals : list ConsensusValidator) : Prop :=
  NoDup (consumer_addr <$> vals) ∧
  ∀ v, v ∈ vals ↔ (∃ b, b ∈ bonded ∧ consumer_entry consumerId c w b v) ∧
    ∀ b' v', b' ∈ bonded → consumer_entry consumerId c w b' v' → consumer_addr v' = consumer_addr v →
      String.le (ProviderConsAddr v) (ProviderConsAddr v').

Lemma creates_entry consumerId c w b v : creates consumerId c w b v ↔ consumer_entry consumerId c w b v.
Proof.
  unfold creates, CreateConsumerValidator. split.
  - intros E. run_inv. match goal with H : match _ with Some _ => _ | None => _ end c _ = _ |- _ => rename H into Hkey end.
    split; cbn; [done|by eexists| |by destruct (GetConsumerValidator _ _ _)].
    destruct (GetValidatorConsumerPubKey _ _ _); [by apply ret_Ok in Hkey as [<- _]|].
    by apply of_option_Ok in Hkey as [Hkey _].
  - intros [Ha (op & Eop & Epow) Hk Hj]. rewrite Eop, Ha. destruct v as [p pow k j]. cbn in *.
    repeat (rewrite bind_run; cbn [of_option gets asks mret M_ret]). rewrite Epow. cbn [of_option mret M_ret].
    repeat (rewrite bind_run; cbn [of_option gets asks mret M_ret]).
    destruct (GetValidatorConsumerPubKey consumerId p w) as [k'|]; [subst k'|rewrite Hk];
      repeat (rewrite bind_run; cbn [of_option gets asks mret M_ret]); by rewrite Hj.
Qed.

Lemma CreateConsumerValidators_set consumerId bonded c w vals w' :
  CreateConsumerValidators consumerId bonded c w = (Ok vals, w') → NoDup (GetConsAddr <$> bonded) →
  w' = w ∧ consumer_set consumerId c w bonded vals.
Proof.
  intros [-> [idx Hcol]]%CreateConsumerValidators_collected Hnd. split; [done|].
  split; [by eapply collected_NoDup|]. intros v. setoid_rewrite <-creates_entry. by eapply collected_elem.
Qed.
Lemma consumer_set_unique consumerId c w bonded bonded' vals vals' :
  bonded' ≡ₚ bonded → consumer_set consumerId c w bonded vals → consumer_set consumerId c w bonded' vals' → vals' ≡ₚ vals.
Proof.
  intros Hperm [Hnd Hin] [Hnd' Hin']. apply NoDup_Permutation; [by eapply NoDup_fmap_1..|].
  intros v. rewrite Hin, Hin'. by setoid_rewrite Hperm.
Qed.
Lemma consumer_set_perm consumerId c w bonded vals vals' :
  vals ≡ₚ vals' → consumer_set consumerId c w bonded vals → consumer_set consumerId c w bonded vals'.
Proof. intros Hp [Hnd Hin]. split; [by rewrite <-Hp|]. intros v. by rewrite <-Hp. Qed.
(** It depends on the staking module, the assigned keys and the stored set. *)
Lemma consumer_set_frame consumerId c w w1 bonded vals :
  w_staking w1 = w_staking w → w_ks w1 = w_ks w → s_ConsumerValidators w1 = s_ConsumerValidators w →
  consumer_set consumerId c w1 bonded vals → consumer_set consumerId c w bonded vals.
Proof.
  intros Es Ek Ev [Hnd Hin]. split; [done|].
  assert (∀ b v, consumer_entry consumerId c w1 b v ↔ consumer_entry consumerId c w b v) as He.
  { intros b v. split; intros [H1 H2 H3 H4]; split; try done;
      unfold GetValidatorConsumerPubKey, s_ValidatorConsumerPubKey, GetConsumerValidator in *; by rewrite ?Es, ?Ek, ?Ev in *. }
  intros v. rewrite Hin. by setoid_rewrite He.
Qed.

(** C32. The consumer set built from bonded validators with distinct consensus addresses has
    one entry per consumer address. Each entry is that of a bonded validator: its provider
    address, the power x/staking has for its operator, the key assigned on that consumer or
    else its own, and the height it joined the stored set at or else the current one; a
    clash of two validators over an address goes to the smaller provider address. The result
    is exactly the set of these entries, does not depend on the order of the bonded
    validators, and nothing is written. *)
Theorem CreateConsumerValidators_correct consumerId bonded c w vals w' :
  CreateConsumerValidators consumerId bonded c w = (Ok vals, w') →
  NoDup (GetConsAddr <$> bonded) →
  w' = w ∧ consumer_set consumerId c w bonded vals
  ∧ ∀ bonded' vals' w'', bonded' ≡ₚ bonded →
      CreateConsumerValidators consumerId bonded' c w = (Ok vals', w'') → vals' ≡ₚ vals.
Proof.
  intros E Hnd. destruct (CreateConsumerValidators_set _ _ _ _ _ _ E Hnd) as [-> Hset].
  split_and!; [done|done|]. intros bonded' vals' w'' Hperm E'.
  destruct (CreateConsumerValidators_set _ _ _ _ _ _ E') as [-> Hset']; [by rewrite Hperm|].
  by eapply consumer_set_unique.
Qed.

(** *** Storing a set *)
Lemma SetConsumerValSet_run consumerId vals c w :
  SetConsumerValSet consumerId vals c w =
  (Ok tt, upd_ConsumerValidators (λ m, foldl (λ m v, <[(consumerId, ProviderConsAddr v) := v]> m)
     (clear_where (in_consumer (Some consumerId)) m) vals) w).
Proof.
  unfold SetConsumerValSet, SetConsumerValidator. rewrite bind_run. cbn [DeleteConsumerValSet modify].
  unfold DeleteConsumerValSet. cbn [modify]. rewrite for_each_modify. f_equal.
  induction vals as [|v vals IH] using rev_ind; [done|].
  rewrite foldl_app. cbn [foldl]. rewrite IH. unfold upd_ConsumerValidators. cbn.
  by rewrite foldl_app.
Qed.

Lemma stored_lookup (consumerId : N) (vals : list ConsensusValidator)
    (m : gmap (N * string) ConsensusValidator) (k : N * string) (v : ConsensusValidator) :
  NoDup (ProviderConsAddr <$> vals) →
  foldl (λ m v, <[(consumerId, ProviderConsAddr v) := v]> m)
    (clear_where (in_consumer (Some consumerId)) m) vals !! k = Some v ↔
  if decide (k.1 = consumerId) then k.2 = ProviderConsAddr v ∧ v ∈ vals else m !! k = Some v.
Proof.
  induction vals as [|u vals IH] using rev_ind; intros Hnd.
  - cbn. rewrite clear_where_lookup. unfold in_consumer. destruct k as [id a]; cbn.
    destruct (N.eqb_spec id consumerId); case_decide; try done. set_solver.
  - rewrite fmap_app, NoDup_app in Hnd. destruct Hnd as (Hnd & Hdis & _).
    rewrite foldl_app. cbn. destruct (decide (k = (consumerId, ProviderConsAddr u))) as [->|Hne].
    + rewrite lookup_insert_eq. cbn. rewrite decide_True by done. split; [intros [= ->]; set_solver|].
      intros [E [Hin| ->%list_elem_of_singleton]%elem_of_app]; [|done].
      destruct (Hdis (ProviderConsAddr v)); [by apply list_elem_of_fmap_2|rewrite <-E; set_solver].
    + rewrite lookup_insert_ne by done. rewrite IH by done. destruct k as [id a]; cbn in *.
      case_decide; [|done]. subst. rewrite elem_of_app, list_elem_of_singleton. naive_solver.
Qed.

Lemma GetConsumerValSet_elem consumerId w v :
  v ∈ GetConsumerValSet consumerId w ↔
  ∃ a, s_ConsumerValidators w !! (consumerId, a) = Some v.
Proof.
  unfold GetConsumerValSet. rewrite list_elem_of_fmap. split.
  - intros ([[id a] v'] & -> & Hin). apply list_elem_of_filter in Hin as [Hc Hin].
    apply elem_of_iterate in Hin. unfold in_consumer in Hc. cbn in Hc.
    apply N.eqb_eq in Hc as ->. by exists a.
  - intros (a & Ha). exists ((consumerId, a), v). split; [done|].
    apply list_elem_of_filter. split; [cbn; apply N.eqb_refl|]. by apply elem_of_iterate.
Qed.

(** Every stored entry sits under its own provider address. *)
Definition stored_under_address (w : World) : Prop :=
  ∀ id a v, s_ConsumerValidators w !! (id, a) = Some v → ProviderConsAddr v = a.

Lemma GetConsumerValSet_NoDup consumerId w :
  stored_under_address w → NoDup (ProviderConsAddr <$> GetConsumerValSet consumerId w).
Proof.
  intros Hs. unfold GetConsumerValSet. rewrite <-list_fmap_compose.
  assert (NoDup (filter (λ kv, in_consumer (Some consumerId) kv.1 = true)
    (iterate (s_ConsumerValidators w))).*1) as Hnd.
  { eapply sublist_NoDup; [apply (NoDup_fst_iterate (s_ConsumerValidators w))|].
    apply fmap_sublist, sublist_filter. }
  revert Hnd. set (l := filter _ _).
  assert (∀ kv, kv ∈ l → kv.1 = (consumerId, ProviderConsAddr kv.2)) as Hl.
  { intros [[id a] v] Hin. apply list_elem_of_filter in Hin as [Hc Hin]. apply elem_of_iterate in Hin.
    unfold in_consumer in Hc. cbn in *. apply N.eqb_eq in Hc as ->. by rewrite (Hs _ _ _ Hin). }
  clearbody l. induction l as [|kv l IH]; [constructor|]. cbn. rewrite !NoDup_cons.
  intros [Hnot Hnd]. split; [|apply IH; [set_solver|done]].
  intros (kv' & E & Hin)%list_elem_of_fmap. destruct Hnot. apply list_elem_of_fmap. exists kv'.
  split; [|done]. rewrite (Hl kv), (Hl kv') by set_solver. cbn in E. by rewrite E.
Qed.
End create.

(** ** Queueing and sending, seen from one consumer *)
Section relay.
Context `{X : Externals}.

(** Everything the VSC sub-protocol keeps for [consumerId]. *)
Record same_view (consumerId : N) (w w' : World) : Prop := {
  sv_pending : GetPendingVSCPackets consumerId w' = GetPendingVSCPackets consumerId w;
  sv_vals a : s_ConsumerValidators w' !! (consumerId, a) = s_ConsumerValidators w !! (consumerId, a);
  sv_sent : GetConsumerHighestSentVscId consumerId w' = GetConsumerHighestSentVscId consumerId w;
  sv_acked : GetConsumerHighestAckedVscId consumerId w' = GetConsumerHighestAckedVscId consumerId w;
}.

#[export] Instance same_view_refl id : Reflexive (same_view id).
Proof. by intros w. Qed.
#[export] Instance same_view_trans id : Transitive (same_view id).
Proof. intros w1 w2 w3 [] []. split; intros; congruence. Qed.

(** What the whole module shares and queueing leaves alone. *)
Definition same_shared (w w' : World) : Prop :=
  w_ibc w' = w_ibc w ∧ w_staking w' = w_staking w ∧ s_ConsumerClients w' = s_ConsumerClients w
  ∧ s_ConsumerPhases w' = s_ConsumerPhases w ∧ s_ConsumerIdSeq w' = s_ConsumerIdSeq w.

#[export] Instance same_shared_refl : Reflexive same_shared.
Proof. by intros w. Qed.
#[export] Instance same_shared_trans : Transitive same_shared.
Proof. unfold same_shared. intros w1 w2 w3. intuition congruence. Qed.

Lemma GetConsumerValSet_view id w w' :
  same_view id w w' → stored_under_address w → stored_under_address w' →
  GetConsumerValSet id w' ≡ₚ GetConsumerValSet id w.
Proof.
  intros Hv Hs Hs'.
  apply NoDup_Permutation; [eapply NoDup_fmap_1, GetConsumerValSet_NoDup; done..|].
  intros v. rewrite !GetConsumerValSet_elem. by setoid_rewrite (sv_vals _ _ _ Hv).
Qed.

Lemma consumer_addr_keys vals : NoDup (consumer_addr <$> vals) → NoDup (PublicKey <$> vals).
Proof.
  unfold consumer_addr. intros Hnd.
  apply (NoDup_fmap_1 TMCryptoPublicKeyToConsAddr). by rewrite <-list_fmap_compose.
Qed.

Lemma collected_providers consumerId c w bonded vals idx :
  collected consumerId c w bonded vals idx → NoDup (GetConsAddr <$> bonded) →
  NoDup (ProviderConsAddr <$> vals).
Proof.
  intros Hcol Hnd. pose proof (collected_NoDup _ _ _ _ _ _ Hcol) as Hnda.
  apply NoDup_fmap_1 in Hnda.
  assert (∀ v v', v ∈ vals → v' ∈ vals → ProviderConsAddr v = ProviderConsAddr v' → v = v') as Hinj.
  { intros v v' Hv Hv' E. destruct (col_from _ _ _ _ _ _ Hcol v Hv) as (b & Hb & Hc).
    destruct (col_from _ _ _ _ _ _ Hcol v' Hv') as (b' & Hb' & Hc').
    pose proof (creates_provider _ _ _ _ _ Hc) as P. pose proof (creates_provider _ _ _ _ _ Hc') as P'.
    apply list_elem_of_lookup in Hb as [i Hi]. apply list_elem_of_lookup in Hb' as [j Hj].
    assert (i = j) as ->; [|unfold creates in *; congruence].
    eapply (NoDup_lookup (GetConsAddr <$> bonded)); [done|..]; rewrite list_lookup_fmap;
      [by rewrite Hi|rewrite Hj; cbn; congruence]. }
  clear -Hnda Hinj. induction vals as [|v vals IH]; [constructor|].
  apply NoDup_cons in Hnda as [Hnot Hnd]. apply NoDup_cons. split; [|apply IH; set_solver].
  intros (v' & E & Hin)%list_elem_of_fmap. destruct Hnot. rewrite (Hinj v v'); set_solver.
Qed.

(** What one recomputation leaves: [vals] is the new set. *)
Record recomputed (consumerId : N) (cur : list ConsensusValidator) (isSnapshot : bool)
    (vals : list ConsensusValidator) (updates : list ValidatorUpdate) (w w' : World) : Prop := {
  rc_updates : updates = if isSnapshot then FullValSetUpdates vals else DiffValidators cur vals;
  rc_keys : NoDup (PublicKey <$> vals);
  rc_stored : GetConsumerValSet consumerId w' ≡ₚ vals;
  rc_pending : s_PendingVSCPackets w' = s_PendingVSCPackets w;
  rc_others id : id ≠ consumerId → same_view id w w';
  rc_sent : GetConsumerHighestSentVscId consumerId w' = GetConsumerHighestSentVscId consumerId w;
  rc_acked : GetConsumerHighestAckedVscId consumerId w' = GetConsumerHighestAckedVscId consumerId w;
  rc_shared : same_shared w w';
  rc_id : s_ValidatorSetUpdateId w' = s_ValidatorSetUpdateId w;
  rc_under : stored_under_address w → stored_under_address w';
}.

Lemma ComputeConsumerNextValSet_set bonded consumerId cur isSnapshot c w updates w' :
  NoDup (GetConsAddr <$> bonded) →
  ComputeConsumerNextValSet bonded consumerId cur isSnapshot c w = (Ok updates, w') →
  ∃ vals, recomputed consumerId cur isSnapshot vals updates w w' ∧ consumer_set consumerId c w bonded vals.
Proof.
  intros Hnd E. unfold ComputeConsumerNextValSet in E.
  apply bind_Ok in E as (vals & w1 & Ec & E). pose proof (CreateConsumerValidators_set _ _ _ _ _ _ Ec Hnd) as [_ Hset].
  apply CreateConsumerValidators_collected in Ec as [-> [idx Hcol]].
  apply bind_Ok in E as ([] & w1 & E1 & E). rewrite SetConsumerValSet_run in E1.
  injection E1 as <-. apply ret_Ok in E as [<- <-]. exists vals. split; [|exact Hset].
  pose proof (collected_providers _ _ _ _ _ _ Hcol Hnd) as Hprov.
  pose proof (stored_lookup consumerId vals (s_ConsumerValidators w)) as Hst.
  split; try done.
  - by apply consumer_addr_keys, (collected_NoDup _ _ _ _ _ _ Hcol).
  - apply NoDup_Permutation; [|by eapply NoDup_fmap_1|].
    + unfold GetConsumerValSet. apply (NoDup_fmap_1 ProviderConsAddr). rewrite <-list_fmap_compose.
      set (w1 := upd_ConsumerValidators _ w). set (l := filter _ _).
      assert (NoDup l.*1) as Hl.
      { eapply sublist_NoDup; [apply (NoDup_fst_iterate (s_ConsumerValidators w1))|].
        apply fmap_sublist, sublist_filter. }
      assert (∀ kv, kv ∈ l → kv.1 = (consumerId, ProviderConsAddr kv.2)) as Hk.
      { intros [[id a] v] Hin. apply list_elem_of_filter in Hin as [Hc Hin]. apply elem_of_iterate in Hin.
        unfold in_consumer in Hc. cbn in Hc. apply N.eqb_eq in Hc as ->.
        apply (Hst (consumerId, a) v Hprov) in Hin. cbn in Hin. rewrite decide_True in Hin by done.
        cbn. destruct Hin as [-> _]. done. }
      clearbody l. clear -Hl Hk. induction l as [|kv l IH]; [constructor|]. cbn in *.
      apply NoDup_cons in Hl as [Hnot Hl]. apply NoDup_cons. split; [|apply IH; set_solver].
      intros (kv' & E & Hin)%list_elem_of_fmap. destruct Hnot. apply list_elem_of_fmap. exists kv'.
      split; [|done]. rewrite (Hk kv), (Hk kv') by set_solver. cbn in E. by rewrite E.
    + intros v. rewrite GetConsumerValSet_elem. split.
      * intros (a & Ha). apply (Hst (consumerId, a) v Hprov) in Ha. cbn in Ha.
        rewrite decide_True in Ha by done. by destruct Ha.
      * intros Hin. exists (ProviderConsAddr v). apply (Hst (consumerId, _) v Hprov). cbn.
        by rewrite decide_True.
  - intros id Hne. split; try done. intros a. apply option_eq. intros v.
    rewrite (Hst (id, a) v Hprov). cbn. by rewrite decide_False.
  - intros Hu id a v Ha. apply (Hst (id, a) v Hprov) in Ha. cbn in Ha.
    case_decide as Hid; [by destruct Ha|]. by eapply Hu.
Qed.
Lemma ComputeConsumerNextValSet_ok bonded consumerId cur isSnapshot c w updates w' :
  NoDup (GetConsAddr <$> bonded) →
  ComputeConsumerNextValSet bonded consumerId cur isSnapshot c w = (Ok updates, w') →
  ∃ vals, recomputed consumerId cur isSnapshot vals updates w w'.
Proof. intros Hnd (vals & Hrc & _)%ComputeConsumerNextValSet_set; [by exists vals|done]. Qed.

Lemma live_perm vals vals' :
  vals ≡ₚ vals' → NoDup (PublicKey <$> vals) → live vals = live vals'.
Proof.
  intros P Hnd. apply map_eq. intros k. rewrite !live_lookup by (by rewrite <-?P).
  unfold set_of. by rewrite (list_to_map_proper _ ((λ v, (PublicKey v, cv_Power v)) <$> vals'));
    [|by rewrite <-list_fmap_compose|by rewrite P].
Qed.

(** One queued packet: [cur] is the consumer's old set, [vals] the new one. *)
Record enqueued (consumerId vid : N) (w w' : World) (cur vals : list ConsensusValidator)
    (p : ValidatorSetChangePacketData) : Prop := {
  en_pending : GetPendingVSCPackets consumerId w' = GetPendingVSCPackets consumerId w ++ [p];
  en_vid : ValsetUpdateId p = vid;
  en_updates : ValidatorUpdates p =
    if IsSnapshot p then FullValSetUpdates vals else DiffValidators cur vals;
  en_diff : IsSnapshot p = false → cur ≠ []
    ∧ (GetConsumerHighestSentVscId consumerId w ≤ GetConsumerHighestAckedVscId consumerId w)%N
    ∧ GetPendingVSCPackets consumerId w = [];
  en_cur : cur ≡ₚ GetConsumerValSet consumerId w;
  en_keys : NoDup (PublicKey <$> vals);
  en_stored : GetConsumerValSet consumerId w' ≡ₚ vals;
  en_sent : GetConsumerHighestSentVscId consumerId w' = GetConsumerHighestSentVscId consumerId w;
  en_acked : GetConsumerHighestAckedVscId consumerId w' = GetConsumerHighestAckedVscId consumerId w;
  en_shared : same_shared w w';
  en_under : stored_under_address w → stored_under_address w';
}.

Lemma needs_snapshot_false consumerId cur w :
  needs_snapshot consumerId cur w = false →
  cur ≠ [] ∧ (GetConsumerHighestSentVscId consumerId w ≤ GetConsumerHighestAckedVscId consumerId w)%N
  ∧ GetPendingVSCPackets consumerId w = [].
Proof.
  unfold needs_snapshot. rewrite !orb_false_iff, bool_decide_eq_false, N.ltb_ge, negb_false_iff,
    bool_decide_eq_true. tauto.
Qed.

Lemma pack_ok consumerId cur isSnapshot vals updates vid c w w1 p w2 w3 :
  recomputed consumerId cur isSnapshot vals updates w w1 →
  (isSnapshot = false → needs_snapshot consumerId cur w = false) →
  cur ≡ₚ GetConsumerValSet consumerId w →
  buildVSCPacket consumerId updates vid isSnapshot c w1 = (Ok p, w2) →
  AppendPendingVSCPackets consumerId [p] c w2 = (Ok tt, w3) →
  enqueued consumerId vid w w3 cur vals p ∧ s_ValidatorSetUpdateId w3 = s_ValidatorSetUpdateId w
  ∧ ∀ id, id ≠ consumerId → same_view id w w3.
Proof.
  intros [] Hneed Hcur E1 E2. unfold buildVSCPacket in E1. unfold AppendPendingVSCPackets in E2.
  apply bind_Ok in E1 as (debt & wa & [_ <-]%gets_Ok & E1).
  apply bind_Ok in E1 as (dp & wa & Edp & E1). apply ret_Ok in E1 as [<- <-].
  assert (wa = w1) as -> by (revert Edp; apply (preserves_run (λ x, x = w1)); [pres|done]).
  apply bind_Ok in E2 as (old & wa & [<- <-]%gets_Ok & E2). apply modify_Ok in E2 as ->.
  assert (GetPendingVSCPackets consumerId w1 = GetPendingVSCPackets consumerId w) as Hp
    by (unfold GetPendingVSCPackets; by rewrite rc_pending0).
  split_and!; [split; try done|done|].
  - unfold GetPendingVSCPackets at 1. cbn. rewrite lookup_insert_eq. cbn. by rewrite Hp.
  - cbn. intros Hs. apply needs_snapshot_false. by apply Hneed.
  - intros id Hne. destruct (rc_others0 id Hne) as [H1 H2 H3 H4]. split; try done.
    revert H1. unfold GetPendingVSCPackets. cbn. by rewrite lookup_insert_ne by done.
Qed.

Lemma queue_one_ok bonded vid consumerId c w w' :
  NoDup (GetConsAddr <$> bonded) → queue_one bonded vid consumerId c w = (Ok tt, w') →
  ∃ vals p, enqueued consumerId vid w w' (GetConsumerValSet consumerId w) vals p
    ∧ s_ValidatorSetUpdateId w' = s_ValidatorSetUpdateId w
    ∧ ∀ id, id ≠ consumerId → same_view id w w'.
Proof.
  intros Hnd E. unfold queue_one in E.
  apply bind_Ok in E as (cur & w0 & [<- <-]%gets_Ok & E).
  apply bind_Ok in E as (snap & w0 & [<- <-]%gets_Ok & E).
  apply bind_Ok in E as (upd & w1 & (vals & Hrc)%ComputeConsumerNextValSet_ok & E); [|done].
  apply bind_Ok in E as (p & w2 & E1 & E2). exists vals, p.
  eapply pack_ok; [exact Hrc|done|done|exact E1|exact E2].
Qed.

Definition bonded_distinct (w : World) : Prop :=
  ∀ l, GetBondedValidatorsByPower (w_staking w) = Some l → NoDup (GetConsAddr <$> l).

Lemma GetLastBondedValidators_ok c w l w' :
  GetLastBondedValidators c w = (Ok l, w') → bonded_distinct w → w' = w ∧ NoDup (GetConsAddr <$> l).
Proof.
  unfold GetLastBondedValidators. intros E Hd. run_inv.
  match goal with H : (if _ then _ else _) _ _ = _ |- _ => rename H into E end.
  match goal with H : GetBondedValidatorsByPower _ = Some ?b |- _ => apply Hd in H; rename b into bonded end.
  destruct (_ <? _); apply ret_Ok in E as [<- <-]; (split; [done|]); [done|].
  rewrite fmap_take. eapply sublist_NoDup; [done|]. apply sublist_take.
Qed.

(** A run of [queue_one] over consumers other than [consumerId]. *)
Lemma queue_others bonded vid consumerId l c w w' :
  NoDup (GetConsAddr <$> bonded) → ¬ consumerId ∈ l →
  for_each l (queue_one bonded vid) c w = (Ok tt, w') →
  same_view consumerId w w' ∧ same_shared w w'
  ∧ s_ValidatorSetUpdateId w' = s_ValidatorSetUpdateId w
  ∧ (stored_under_address w → stored_under_address w').
Proof.
  intros Hnd Hnot. apply (for_each_Ok_ind (λ _ w1, same_view consumerId w w1 ∧ same_shared w w1
    ∧ s_ValidatorSetUpdateId w1 = s_ValidatorSetUpdateId w
    ∧ (stored_under_address w → stored_under_address w1))); [done|].
  intros dn x rest w1 w2 -> (Hv & Hs & Hid & Hu) E.
  apply queue_one_ok in E as (vals & p & Hen & Hid2 & Hoth); [|done].
  split_and!; [etrans; [done|]; apply Hoth; set_solver
    |etrans; [done|]; by apply (en_shared _ _ _ _ _ _ _ Hen)|congruence|].
  intros Hw. apply (en_under _ _ _ _ _ _ _ Hen). auto.
Qed.

Lemma launched_NoDup w : NoDup (GetAllLaunchedConsumerIds w).
Proof.
  unfold GetAllLaunchedConsumerIds. apply NoDup_filter. unfold GetAllConsumerIds.
  destruct (GetConsumerId w); [|constructor]. apply NoDup_fmap; [|apply NoDup_seq].
  intros x y. lia.
Qed.

Lemma QueueVSCPackets_ok consumerId c w w' :
  bonded_distinct w → stored_under_address w → consumerId ∈ GetAllLaunchedConsumerIds w →
  QueueVSCPackets c w = (Ok tt, w') →
  ∃ cur vals p, enqueued consumerId (s_ValidatorSetUpdateId w) w w' cur vals p
    ∧ s_ValidatorSetUpdateId w' = u64_succ (s_ValidatorSetUpdateId w)
    ∧ stored_under_address w'.
Proof.
  intros Hd Hu Hin E. unfold QueueVSCPackets in E.
  apply bind_Ok in E as (vid & w0 & [<- <-]%gets_Ok & E).
  apply bind_Ok in E as (bonded & w0 & Eb & E).
  apply GetLastBondedValidators_ok in Eb as [-> Hnd]; [|done].
  apply bind_Ok in E as (launched & w0 & [<- <-]%gets_Ok & E).
  apply bind_Ok in E as ([] & w3 & Eloop & E).
  pose proof (launched_NoDup w) as Hl.
  apply list_elem_of_split in Hin as (l1 & l2 & Hsplit). rewrite Hsplit in Hl, Eloop.
  apply NoDup_app in Hl as (_ & Hdis & Hl2). apply NoDup_cons in Hl2 as [Hnot2 _].
  apply for_each_app_Ok in Eloop as (w1 & E1 & E23).
  cbn [for_each] in E23. apply bind_Ok in E23 as ([] & w2 & E2 & E3).
  apply queue_others with (consumerId := consumerId) in E1 as (Hv1 & Hs1 & Hid1 & Hu1);
    [|done|intros Hx; by apply (Hdis _ Hx), list_elem_of_here].
  apply queue_one_ok in E2 as (vals & p & [] & Hid2 & _); [|done].
  apply queue_others with (consumerId := consumerId) in E3 as (Hv3 & Hs3 & Hid3 & Hu3); [|done..].
  unfold IncrementValidatorSetUpdateId, SetValidatorSetUpdateId in E.
  apply bind_Ok in E as (n & w4 & [<- <-]%gets_Ok & E). apply modify_Ok in E as ->.
  exists (GetConsumerValSet consumerId w1), vals, p. unfold GetValidatorSetUpdateId in *.
  assert (stored_under_address w2) as Hu2 by auto. assert (stored_under_address w3) as Hu3' by auto.
  split_and!; [|cbn; congruence|done]. destruct Hv1, Hv3. split; try done.
  - change (GetPendingVSCPackets consumerId w3 = GetPendingVSCPackets consumerId w ++ [p]). congruence.
  - intros Hs. destruct (en_diff0 Hs) as (? & ? & ?). split_and!; congruence.
  - by apply GetConsumerValSet_view; auto.
  - transitivity (GetConsumerValSet consumerId w2); [|done].
    change (GetConsumerValSet consumerId w3 ≡ₚ GetConsumerValSet consumerId w2).
    by apply GetConsumerValSet_view.
  - change (GetConsumerHighestSentVscId consumerId w3 = GetConsumerHighestSentVscId consumerId w). congruence.
  - change (GetConsumerHighestAckedVscId consumerId w3 = GetConsumerHighestAckedVscId consumerId w). congruence.
  - change (same_shared w w3). by etrans; [|etrans].
Qed.

(** The last bonded validators are read off the staking module alone. *)
Lemma last_bonded_frame w1 w c bonded w' :
  w_staking w1 = w_staking w → GetLastBondedValidators c w1 = (Ok bonded, w') →
  GetLastBondedValidators c w = (Ok bonded, w).
Proof.
  unfold GetLastBondedValidators. intros Es E. rewrite !bind_run in *. cbn [gets] in *. rewrite Es in E.
  destruct (MaxValidators (w_staking w)) as [n|]; [|done]. cbn [of_option mret M_ret] in *. rewrite !bind_run in *.
  cbn [gets] in *. rewrite Es in E.
  destruct (GetBondedValidatorsByPower (w_staking w)) as [vs|]; [|done]. cbn [of_option mret M_ret] in *.
  by destruct (_ <? n); apply ret_Ok in E as [<- _].
Qed.

Lemma QueueImmediateSnapshot_ok consumerId c w w' :
  bonded_distinct w → QueueImmediateSnapshotVSCPacket consumerId c w = (Ok tt, w') →
  ∃ vals p, enqueued consumerId (s_ValidatorSetUpdateId w) w w' (GetConsumerValSet consumerId w) vals p
    ∧ IsSnapshot p = true
    ∧ s_ValidatorSetUpdateId w' = u64_succ (s_ValidatorSetUpdateId w)
    ∧ (∀ id, id ≠ consumerId → same_view id w w')
    ∧ ∃ bonded, GetLastBondedValidators c w = (Ok bonded, w) ∧ consumer_set consumerId c w bonded vals.
Proof.
  intros Hd E. unfold QueueImmediateSnapshotVSCPacket in E.
  apply bind_Ok in E as (vid & w0 & [<- <-]%gets_Ok & E).
  apply bind_Ok in E as (bonded & w0 & Eb & E).
  pose proof Eb as Eb0. apply GetLastBondedValidators_ok in Eb as [-> Hnd]; [|done].
  apply bind_Ok in E as (cur & w0 & [<- <-]%gets_Ok & E).
  apply bind_Ok in E as (upd & w1 & (vals & Hrc & Hset)%ComputeConsumerNextValSet_set & E); [|done].
  apply bind_Ok in E as (p & w2 & E1 & E). apply bind_Ok in E as ([] & w3 & E2 & E).
  assert (IsSnapshot p = true) as Hsnap.
  { unfold buildVSCPacket in E1. apply bind_Ok in E1 as (? & ? & _ & E1).
    apply bind_Ok in E1 as (? & ? & _ & E1). by apply ret_Ok in E1 as [<- _]. }
  destruct (pack_ok _ _ _ _ _ _ _ _ _ _ _ _ Hrc ltac:(done) (reflexivity _) E1 E2) as (Hen & Hid & Hoth).
  unfold IncrementValidatorSetUpdateId, SetValidatorSetUpdateId in E.
  apply bind_Ok in E as (n & w4 & [<- <-]%gets_Ok & E). apply modify_Ok in E as ->.
  exists vals, p. unfold GetValidatorSetUpdateId in *. cbn. rewrite Hid. split_and!; try done.
  - destruct Hen. by split.
  - intros id Hne. by destruct (Hoth id Hne).
  - by exists bonded.
Qed.

(** *** Sending *)
Context {L : PacketLog}.

(** What sending over [clientId] may change for [consumerId]: [sent] was
    committed. *)
Record sends (consumerId : N) (clientId : string) (w w' : World)
    (sent : list ValidatorSetChangePacketData) : Prop := {
  sd_log : sent_packets (w_ibc w') clientId = sent_packets (w_ibc w) clientId ++ sent;
  sd_other client : client ≠ clientId →
    sent_packets (w_ibc w') client = sent_packets (w_ibc w) client;
  sd_vals : s_ConsumerValidators w' = s_ConsumerValidators w;
  sd_acked : s_ConsumerHighestAckedVscId w' = s_ConsumerHighestAckedVscId w;
  sd_ge : (GetConsumerHighestSentVscId consumerId w ≤ GetConsumerHighestSentVscId consumerId w')%N;
  sd_ub p : p ∈ sent → (ValsetUpdateId p ≤ GetConsumerHighestSentVscId consumerId w')%N;
  sd_max : GetConsumerHighestSentVscId consumerId w' = GetConsumerHighestSentVscId consumerId w
    ∨ ∃ p, p ∈ sent ∧ ValsetUpdateId p = GetConsumerHighestSentVscId consumerId w';
  sd_sent_other id : id ≠ consumerId →
    GetConsumerHighestSentVscId id w' = GetConsumerHighestSentVscId id w;
  sd_id : s_ValidatorSetUpdateId w' = s_ValidatorSetUpdateId w;
  sd_shared : w_staking w' = w_staking w ∧ s_ConsumerClients w' = s_ConsumerClients w
    ∧ s_ConsumerPhases w' = s_ConsumerPhases w ∧ s_ConsumerIdSeq w' = s_ConsumerIdSeq w;
}.

Lemma sends_refl consumerId clientId w : sends consumerId clientId w w [].
Proof. split; try done; [by rewrite app_nil_r|set_solver|by left]. Qed.

Lemma sends_trans consumerId clientId w1 w2 w3 s1 s2 :
  sends consumerId clientId w1 w2 s1 → sends consumerId clientId w2 w3 s2 →
  sends consumerId clientId w1 w3 (s1 ++ s2).
Proof.
  intros [] []. split; try (intros; etrans; eauto; fail).
  - by rewrite sd_log1, sd_log0, app_assoc.
  - intros client Hne. by rewrite sd_other1, sd_other0.
  - intros p [Hin|Hin]%elem_of_app; [|by auto]. etrans; [by apply sd_ub0|done].
  - destruct sd_max1 as [E|(p & Hp & E)].
    + rewrite E. destruct sd_max0 as [E'|(p & Hp & E')]; [by left|right; exists p].
      split; [apply elem_of_app; by left|done].
    + right. exists p. split; [apply elem_of_app; by right|done].
  - intros id Hne. by rewrite sd_sent_other1, sd_sent_other0.
  - destruct sd_shared0 as (? & ? & ? & ?), sd_shared1 as (? & ? & ? & ?). split_and!; congruence.
Qed.

Lemma send_one_run consumerId clientId timeout p c w r w' :
  send_one consumerId clientId timeout p c w = (r, w') →
  s_PendingVSCPackets w' = s_PendingVSCPackets w
  ∧ (r = Ok tt ∧ sends consumerId clientId w w' [p] ∨ (∃ e, r = Err e) ∧ sends consumerId clientId w w' []).
Proof.
  unfold send_one. rewrite bind_run. cbn [gets].
  destruct (SendPacket (w_ibc w) clientId timeout authority p) as [ok i'] eqn:Esend.
  rewrite bind_run. cbn [modify]. rewrite bind_run.
  destruct ok; cbn [guard_err mret M_ret raise].
  - rewrite bind_run. cbn [gets when].
    pose proof (log_sent _ _ _ _ _ _ Esend) as Hlog.
    assert (∀ client, client ≠ clientId → sent_packets i' client = sent_packets (w_ibc w) client) as Hoth
      by (intros; by eapply log_other).
    change (GetConsumerHighestSentVscId consumerId (set_ibc i' w)) with (GetConsumerHighestSentVscId consumerId w).
    destruct (N.ltb_spec (GetConsumerHighestSentVscId consumerId w) (ValsetUpdateId p)) as [Hlt|Hge];
      intros [= <- <-]; (split; [done|left; split; [done|]]).
    + match goal with |- sends _ _ _ ?x _ => set (w' := x) end.
      assert (GetConsumerHighestSentVscId consumerId w' = ValsetUpdateId p) as E
        by (unfold GetConsumerHighestSentVscId, w'; cbn; by rewrite lookup_insert_eq).
      split; try done.
      * rewrite E. lia.
      * intros p' ->%list_elem_of_singleton. by rewrite E.
      * right. exists p. set_solver.
      * intros id Hne. unfold GetConsumerHighestSentVscId, w'. cbn. by rewrite lookup_insert_ne.
    + split; try done; [intros p' ->%list_elem_of_singleton; exact Hge|by left].
  - intros [= <- <-]. split; [done|right]. split; [by eexists|].
    pose proof (log_failed _ _ _ _ _ _ Esend) as Hlog.
    split; try done; [by rewrite app_nil_r|intros; by eapply log_other|set_solver|by left].
Qed.

Lemma send_loop_run consumerId clientId timeout l c w r w' :
  for_each l (send_one consumerId clientId timeout) c w = (r, w') →
  s_PendingVSCPackets w' = s_PendingVSCPackets w
  ∧ ∃ s rest, l = s ++ rest ∧ sends consumerId clientId w w' s
    ∧ (r = Ok tt ∧ rest = [] ∨ ∃ e, r = Err e).
Proof.
  revert w. induction l as [|p l IH]; intros w; cbn [for_each].
  - intros [= <- <-]. split; [done|]. exists [], []. split_and!; auto. apply sends_refl.
  - rewrite bind_run. destruct (send_one _ _ _ p c w) as [r1 w1] eqn:E1.
    apply send_one_run in E1 as [Hp [[-> Hs]|[[e ->] Hs]]].
    + intros (Hp' & s & rest & -> & Hs' & Hr)%IH. split; [congruence|].
      exists (p :: s), rest. split_and!; [done|exact (sends_trans _ _ _ _ _ [p] s Hs Hs')|done].
    + intros [= <- <-]. split; [done|]. exists [], (p :: l). split_and!; eauto.
Qed.

Lemma sendStrict_run consumerId clientId c w r w' :
  sendVSCPacketsToChainStrict consumerId clientId c w = (r, w') →
  ∃ s rest, GetPendingVSCPackets consumerId w = s ++ rest ∧ sends consumerId clientId w w' s
    ∧ (r = Ok tt ∧ rest = [] ∧ s_PendingVSCPackets w' = delete consumerId (s_PendingVSCPackets w)
       ∨ r ≠ Ok tt ∧ s_PendingVSCPackets w' = s_PendingVSCPackets w).
Proof.
  unfold sendVSCPacketsToChainStrict, GetVAASTimeoutPeriod, GetParams, fmap, M_fmap.
  rewrite !bind_run. cbn [gets]. destruct (s_Params_ w) as [params|]; cbn [or_panic panic mret M_ret].
  2: { intros [= <- <-]. exists [], (GetPendingVSCPackets consumerId w).
       split_and!; [done|apply sends_refl|by right]. }
  rewrite bind_run. cbn [asks]. rewrite bind_run. cbn [gets]. rewrite bind_run.
  destruct (for_each _ _ c w) as [r1 w1] eqn:El.
  apply send_loop_run in El as (Hp & s & rest & Hl & Hs & [[-> ->]|[e ->]]).
  - intros [= <- <-]. exists s, []. split_and!; [done|by destruct Hs|]. left. split_and!; [done..|].
    change (delete consumerId (s_PendingVSCPackets w1) = delete consumerId (s_PendingVSCPackets w)). by rewrite Hp.
  - intros [= <- <-]. exists s, rest. split_and!; [done|done|]. right. split_and!; [done|done].
Qed.

(** When sending a consumer's packets fails at some packet, the whole queue stays
    queued, the packets before the failing one were sent in order, and the highest-sent id
    covers them. *)
Lemma failed_send_keeps_whole_queue consumerId clientId c w e w' :
  sendVSCPacketsToChainStrict consumerId clientId c w = (Err e, w') →
  GetPendingVSCPackets consumerId w' = GetPendingVSCPackets consumerId w
  ∧ ∃ s rest, GetPendingVSCPackets consumerId w = s ++ rest
      ∧ sent_packets (w_ibc w') clientId = sent_packets (w_ibc w) clientId ++ s
      ∧ (∀ p, p ∈ s → (ValsetUpdateId p ≤ GetConsumerHighestSentVscId consumerId w')%N).
Proof.
  intros (s & rest & Hl & Hs & [(? & _)|(_ & Hp)])%sendStrict_run; [done|].
  split; [unfold GetPendingVSCPackets; by rewrite Hp|]. exists s, rest. destruct Hs. split_and!; auto.
Qed.
End relay.
