(* ===== verification/FeePool.v ===== *)
(** The consumer fee pool's share ledger (keeper/fee_pool_shares.go, with
    [GetConsumerFeePoolAddress] and [outstandingWithheldFees] of keeper/fees.go).
    Depositors hold shares of a pool account; a withdrawal burns shares for
    tokens at the pool's full-balance rate, a sweep pays everybody out.
    [ledger_ok] says the stored total of every pool is the sum of its shares.
    [math.Int] is [Z] (its panic above 256 bits is not modelled). *)
From stdpp Require Import pretty.
From S2P Require Import Prelude GoTime Types Externals World Keeper.

(** x/vaas/provider/types/keys.go *)
Definition ModuleName : string := "vaasprovider".
(** x/distribution's ModuleName *)
Definition dist_ModuleName : string := "distribution".

(** [feePoolDraw]: the shares a draw burns and the tokens it delivers. *)
Definition feePoolDraw (shares total balance limit : Z) : Z * Z :=
  if negb (0 <? shares) || negb (0 <? total) || negb (0 <? balance) || negb (0 <? limit)
  then (0, 0)
  else
    let claim := Z.quot (shares * balance) total in
    if claim <=? limit then (shares, claim)
    else
      let sharesToBurn := Z.quot (limit * total) balance in
      if negb (0 <? sharesToBurn) then (0, 0)
      else (sharesToBurn, Z.quot (sharesToBurn * balance) total).

Section fee_pool.
Context `{X : Externals}.

Definition GetConsumerFeePoolAddress (consumerId : N) : string :=
  NewModuleAddress (ModuleName ++ "-consumer-fee-pool-" ++ pretty consumerId)%string.
Definition pool_balance (consumerId : N) (denom : string) (w : World) : Z :=
  GetBalance (w_bank w) (GetConsumerFeePoolAddress consumerId) denom.

Definition get_shares (consumerId : N) (denom depositor : string) (w : World) : option Z :=
  s_ConsumerFeePoolShares w !! (consumerId, denom, depositor).
Definition get_total (consumerId : N) (denom : string) (w : World) : option Z :=
  s_ConsumerFeePoolTotalShares w !! (consumerId, denom).

Definition reserves (denom : string) (now : Time) (r : WithheldFeeRecord) : bool :=
  String.eqb (Denom (wf_Amount r)) denom && time_After (wf_ExpiresAt r) now.
Definition outstandingWithheldFees (consumerId : N) (denom : string) : K Z :=
  now ← asks BlockTime;
  gets (λ w, sumZ (λ kv, Amount (wf_Amount kv.2))
    (filter (λ kv, reserves denom now kv.2 = true)
      (filter (λ kv, in_consumer (Some consumerId) kv.1 = true) (iterate (s_WithheldFeeRecords w))))).

Definition ComputeClaim (consumerId : N) (depositor denom : string) : K Z :=
  balance ← gets (pool_balance consumerId denom);
  if balance =? 0 then mret 0 else
  o ← gets (get_shares consumerId denom depositor);
  match o with
  | None => mret 0
  | Some shares =>
      t ← gets (get_total consumerId denom);
      match t with
      | None => mret 0
      | Some total =>
          if total =? 0 then mret 0 else
          reserved ← outstandingWithheldFees consumerId denom;
          let available := balance - reserved in
          mret (feePoolDraw shares total balance available).2
      end
  end.

(** The share records of one pool. *)
Definition in_pool (consumerId : N) (denom : string) (k : N * string * string) : bool :=
  bool_decide (k.1 = (consumerId, denom)).

Definition clearAllShares (consumerId : N) (denom : string) : K unit :=
  modify (upd_ConsumerFeePoolShares (clear_where (in_pool consumerId denom)));;
  has ← gets (get_total consumerId denom);
  match has with
  | None => mret tt
  | Some _ => modify (upd_ConsumerFeePoolTotalShares (delete (consumerId, denom)))
  end.

Definition absorbUnaccountedBalance (consumerId : N) (denom : string) (balance : Z) : K unit :=
  clearAllShares consumerId denom;;
  let distrAddr := NewModuleAddress dist_ModuleName in
  modify (upd_ConsumerFeePoolShares (insert (consumerId, denom, distrAddr) balance));;
  modify (upd_ConsumerFeePoolTotalShares (insert (consumerId, denom) balance)).

(** [Int.Quo] panics on a zero divisor. *)
Definition Int_Quo (a b : Z) : K Z := if b =? 0 then panic else mret (Z.quot a b).

Definition MintShares (consumerId : N) (depositor : string) (amount : Coin) : K unit :=
  let denom := Denom amount in
  balance ← gets (pool_balance consumerId denom);
  t ← gets (get_total consumerId denom);
  let total := default 0 t in
  total ← (if (balance =? 0) && (0 <? total)
           then clearAllShares consumerId denom;; mret 0 else mret total);
  total ← (if (total =? 0) && (0 <? balance)
           then absorbUnaccountedBalance consumerId denom balance;; mret balance else mret total);
  shares ← (if total =? 0 then mret (Amount amount)
            else Int_Quo (Amount amount * total) balance);
  guard_err (0 <? shares) ErrDepositTooSmall;;
  e ← gets (get_shares consumerId denom depositor);
  let existing := default 0 e in
  modify (upd_ConsumerFeePoolShares (insert (consumerId, denom, depositor) (existing + shares)));;
  modify (upd_ConsumerFeePoolTotalShares (insert (consumerId, denom) (total + shares))).

(** A zero remainder removes the record. *)
Definition put_shares (k : N * string * string) (s : Z) : K unit :=
  if s =? 0 then modify (upd_ConsumerFeePoolShares (delete k))
  else modify (upd_ConsumerFeePoolShares (insert k s)).
Definition put_total (k : N * string) (t : Z) : K unit :=
  if t =? 0 then modify (upd_ConsumerFeePoolTotalShares (delete k))
  else modify (upd_ConsumerFeePoolTotalShares (insert k t)).

Definition WithdrawShares (consumerId : N) (depositor : string) (amount : Coin) : K Coin :=
  let denom := Denom amount in
  s ← gets (get_shares consumerId denom depositor);
  shares ← of_option s ErrNoSharesForDepositor;
  t ← gets (get_total consumerId denom);
  total ← of_option t ErrPoolEmpty;
  guard_err (negb (total =? 0)) ErrPoolEmpty;;
  balance ← gets (pool_balance consumerId denom);
  reserved ← outstandingWithheldFees consumerId denom;
  let available := balance - reserved in
  guard_err (0 <? available) ErrPoolEmpty;;
  let limit := if available <? Amount amount then available else Amount amount in
  let '(sharesToBurn, tokensToSend) := feePoolDraw shares total balance limit in
  guard_err (0 <? sharesToBurn) ErrSubShareWithdraw;;
  put_shares (consumerId, denom, depositor) (shares - sharesToBurn);;
  put_total (consumerId, denom) (total - sharesToBurn);;
  NewCoin denom tokensToSend.

(** A bank call on the world's bank. [sweep_pay] is the body of the sweep's
    loop: one depositor's slice, accumulating what was distributed. *)
Definition bank_call (f : bank → option bank) : K unit :=
  o ← gets (λ w, f (w_bank w));
  b' ← of_option o ErrExternal;
  modify (set_bank b').
Definition sweep_pay (denom : string) (balance total : Z) (distributed : Z)
    (e : N * string * string * Z) : K Z :=
  let slice := Z.quot (e.2 * balance) total in
  if slice =? 0 then mret distributed else
  c ← NewCoin denom slice;
  let coins := NewCoins c in
  let addr := e.1.2 in
  (if decide (addr = NewModuleAddress dist_ModuleName)
   then must (bank_call (λ b, FundCommunityPool b coins (NewModuleAddress ModuleName)))
   else must (bank_call (λ b, SendCoinsFromModuleToAccount b ModuleName addr coins)));;
  mret (distributed + slice).

Definition SweepConsumerFeePoolDenom (consumerId : N) (denom : string) : K unit :=
  balance ← gets (pool_balance consumerId denom);
  t ← gets (get_total consumerId denom);
  let total := default 0 t in
  if (balance =? 0) && (total =? 0) then mret tt else
  total ← (if total =? 0
           then must (absorbUnaccountedBalance consumerId denom balance);; mret balance
           else mret total);
  if balance =? 0 then must (clearAllShares consumerId denom) else
  must (bank_call (λ b, SendCoinsFromAccountToModule b (GetConsumerFeePoolAddress consumerId)
                          ModuleName (NewCoins (mkCoin denom balance))));;
  entries ← gets (λ w, filter (λ e, in_pool consumerId denom e.1 = true)
                         (iterate (s_ConsumerFeePoolShares w)));
  distributed ← fold_each entries (sweep_pay denom balance total) 0;
  let dust := balance - distributed in
  when (0 <? dust)
    (must (bank_call (λ b, FundCommunityPool b (NewCoins (mkCoin denom dust))
                             (NewModuleAddress ModuleName))));;
  must (clearAllShares consumerId denom).

Definition denoms_to_sweep (consumerId : N) (w : World) : list string :=
  merge_sort String.le (elements (list_to_set (C := gset string)
    ((filter (λ kv, in_consumer (Some consumerId) kv.1 = true)
        (iterate (s_ConsumerFeePoolTotalShares w))).*1.*2
     ++ (Denom <$> GetAllBalances (w_bank w) (GetConsumerFeePoolAddress consumerId))))).
Definition SweepConsumerFeePool (consumerId : N) (denoms : list string) : K unit :=
  if decide (denoms = [])
  then keys ← gets (denoms_to_sweep consumerId);
       for_each keys (SweepConsumerFeePoolDenom consumerId)
  else for_each denoms (SweepConsumerFeePoolDenom consumerId).
End fee_pool.
