(* ===== verification/FeePoolProofs.v ===== *)
(** Theorems about the fee pool's share ledger: the bounds of a draw, the
    ledger invariant, the agreement of quote and delivery, and the exactness
    of a sweep. *)
From S2P Require Import Prelude GoTime Types Externals World Keeper FeePool.

(** ** The draw *)
Lemma quot_mul_le a b : 0 ≤ a → 0 < b → 0 ≤ Z.quot a b ∧ Z.quot a b * b ≤ a < (Z.quot a b + 1) * b.
Proof.
  intros Ha Hb. rewrite Z.quot_div_nonneg by lia.
  pose proof (Z.div_pos a b Ha Hb). pose proof (Z.mul_div_le a b Hb).
  pose proof (Z.mul_succ_div_gt a b Hb). nia.
Qed.

Lemma quot_zero_l a b : Z.quot (0 * a) b = 0.
Proof. by destruct b. Qed.

Lemma feePoolDraw_bounds shares total balance limit burn tokens :
  0 ≤ shares ≤ total → 0 ≤ balance →
  feePoolDraw shares total balance limit = (burn, tokens) →
  0 ≤ burn ≤ shares ∧ 0 ≤ tokens ≤ balance ∧ tokens ≤ Z.max 0 limit ∧
  (* the shares left are backed at least at the old rate *)
  balance * (total - burn) ≤ (balance - tokens) * total ∧
  (* burning the last share empties the pool *)
  (burn = total → 0 < total → tokens = balance).
Proof.
  intros Hs Hb. unfold feePoolDraw.
  destruct (Z.ltb_spec 0 shares), (Z.ltb_spec 0 total), (Z.ltb_spec 0 balance), (Z.ltb_spec 0 limit);
    cbn [negb orb]; try (intros [= <- <-]; split_and!; lia).
  pose proof (quot_mul_le (shares * balance) total ltac:(nia) ltac:(lia)) as Hc.
  set (claim := Z.quot (shares * balance) total) in *.
  destruct (Z.leb_spec claim limit).
  - intros [= <- <-]. split_and!; nia.
  - pose proof (quot_mul_le (limit * total) balance ltac:(nia) ltac:(lia)) as Hq.
    set (q := Z.quot (limit * total) balance) in *.
    destruct (Z.ltb_spec 0 q); cbn [negb]; intros [= <- <-]; [|split_and!; nia].
    pose proof (quot_mul_le (q * balance) total ltac:(nia) ltac:(lia)) as Ht.
    set (t := Z.quot (q * balance) total) in *.
    assert (q < shares) by nia.
    split_and!; nia.
Qed.

(** ** The ledger *)
Section ledger.
Context `{X : Externals}.

Definition pool_shares (consumerId : N) (denom : string) (m : gmap (N * string * string) Z) : Z :=
  map_sum (λ k s, if in_pool consumerId denom k then s else 0) m.

(** Every stored amount is positive, and every pool's total is the sum of its
    share records. *)
Definition ledger_ok (w : World) : Prop :=
  (∀ k s, s_ConsumerFeePoolShares w !! k = Some s → 0 < s) ∧
  (∀ k t, s_ConsumerFeePoolTotalShares w !! k = Some t → 0 < t) ∧
  (∀ id denom, default 0 (get_total id denom w) = pool_shares id denom (s_ConsumerFeePoolShares w)).

(** [put k v m] with a zero amount is a removal. *)
Definition put_nz {A} `{Countable A} (k : A) (v : Z) (m : gmap A Z) : gmap A Z :=
  if decide (v = 0) then delete k m else <[k := v]> m.
Definition write_ledger (id : N) (denom depositor : string) (s t : Z) (w : World) : World :=
  upd_ConsumerFeePoolTotalShares (put_nz (id, denom) t)
    (upd_ConsumerFeePoolShares (put_nz (id, denom, depositor) s) w).
Definition drop_ledger (id : N) (denom : string) (w : World) : World :=
  upd_ConsumerFeePoolTotalShares (delete (id, denom))
    (upd_ConsumerFeePoolShares (clear_where (in_pool id denom)) w).

Lemma put_nz_lookup {A} `{Countable A} (k k' : A) v (m : gmap A Z) :
  put_nz k v m !! k' = if decide (k' = k) then (if decide (v = 0) then None else Some v) else m !! k'.
Proof.
  unfold put_nz. destruct (decide (v = 0)), (decide (k' = k)) as [->|];
    by rewrite ?lookup_delete_eq, ?lookup_insert_eq, ?lookup_delete_ne, ?lookup_insert_ne.
Qed.

Lemma map_sum_put_nz {A} `{Countable A} (f : A → Z → Z) k v (m : gmap A Z) :
  (∀ k, f k 0 = 0) →
  map_sum f (put_nz k v m) = map_sum f m - f k (default 0 (m !! k)) + f k v.
Proof.
  intros Hf. assert (map_sum f (put_nz k v m) = f k v + map_sum f (delete k m)) as ->.
  { unfold put_nz. case_decide as E; [rewrite E, Hf; lia|]. by rewrite map_sum_insert. }
  destruct (m !! k) as [x|] eqn:E; cbn.
  - rewrite (map_sum_delete f m k x E). lia.
  - rewrite Hf, delete_id by done. lia.
Qed.

Lemma pool_shares_put id denom dep s m id' denom' :
  pool_shares id' denom' (put_nz (id, denom, dep) s m)
  = if decide ((id, denom) = (id', denom'))
    then pool_shares id' denom' m - default 0 (m !! (id, denom, dep)) + s
    else pool_shares id' denom' m.
Proof.
  unfold pool_shares. rewrite map_sum_put_nz by (intros; by destruct (in_pool _ _ _)).
  unfold in_pool; cbn. repeat (case_bool_decide || case_decide); try congruence; lia.
Qed.

Lemma pool_shares_clear id denom m id' denom' :
  pool_shares id' denom' (clear_where (in_pool id denom) m)
  = if decide ((id, denom) = (id', denom')) then 0 else pool_shares id' denom' m.
Proof.
  unfold pool_shares. rewrite !map_sum_filter_if. case_decide as E.
  - injection E as -> ->. rewrite <-(map_sum_empty (λ (_ : N * string * string) (s : Z), s)). f_equal.
    apply map_eq. intros k. rewrite !clear_where_lookup, lookup_empty. cbn. by destruct (in_pool _ _ _).
  - f_equal. apply map_eq. intros k. rewrite !clear_where_lookup. cbn. unfold in_pool.
    repeat case_bool_decide; try done; congruence.
Qed.

Lemma ledger_write id denom dep s t w :
  ledger_ok w → 0 ≤ s → 0 ≤ t →
  t = default 0 (get_total id denom w) - default 0 (get_shares id denom dep w) + s →
  ledger_ok (write_ledger id denom dep s t w).
Proof.
  intros (Hs & Ht & Hsum) H0s H0t Et. unfold ledger_ok, get_total in *. cbn in *. split_and!.
  - intros k v. rewrite put_nz_lookup. repeat case_decide; intros E; simplify_eq; [lia|by eapply Hs].
  - intros k v. rewrite put_nz_lookup. repeat case_decide; intros E; simplify_eq; [lia|by eapply Ht].
  - intros id' denom'. rewrite put_nz_lookup, pool_shares_put.
    destruct (decide ((id', denom') = (id, denom))) as [[= -> ->]|Hne].
    + rewrite (decide_True (P := (id, denom) = (id, denom))) by done.
      unfold get_shares, s_ConsumerFeePoolShares in *. rewrite <-Hsum.
      case_decide; cbn; lia.
    + rewrite decide_False by congruence. apply Hsum.
Qed.

Lemma ledger_drop id denom w : ledger_ok w → ledger_ok (drop_ledger id denom w).
Proof.
  intros (Hs & Ht & Hsum). unfold ledger_ok, get_total in *. cbn in *. split_and!.
  - intros k v. rewrite clear_where_lookup. destruct (in_pool _ _ _); [done|]. apply Hs.
  - intros k v [_ E]%lookup_delete_Some. by eapply Ht.
  - intros id' denom'. rewrite pool_shares_clear. case_decide as E.
    + injection E as -> ->. by rewrite lookup_delete_eq.
    + rewrite lookup_delete_ne by done. apply Hsum.
Qed.

Lemma share_le_total id denom dep s w :
  ledger_ok w → get_shares id denom dep w = Some s →
  0 < s ≤ default 0 (get_total id denom w).
Proof.
  intros (Hs & _ & Hsum) E. split; [by eapply Hs|]. rewrite Hsum. unfold pool_shares.
  pose proof (map_sum_elem_le (λ k s, if in_pool id denom k then s else 0)
    (s_ConsumerFeePoolShares w) (id, denom, dep) s) as Hle. cbn in Hle.
  unfold in_pool in Hle at 2; cbn in Hle. rewrite bool_decide_true in Hle by done.
  apply Hle; [|done]. intros k v Hk. specialize (Hs k v Hk). destruct (in_pool _ _ _); lia.
Qed.
End ledger.

(** ** The operations as ledger writes *)
Section operations.
Context `{X : Externals}.

Lemma clearAllShares_run id denom c w :
  clearAllShares id denom c w = (Ok tt, drop_ledger id denom w).
Proof.
  unfold clearAllShares. rewrite bind_run. cbn [modify]. rewrite bind_run. cbn [gets].
  set (w1 := upd_ConsumerFeePoolShares _ w).
  assert (drop_ledger id denom w = upd_ConsumerFeePoolTotalShares (delete (id, denom)) w1) as -> by done.
  destruct (get_total id denom w1) eqn:E; [done|].
  unfold mret, M_ret, upd_ConsumerFeePoolTotalShares. do 2 f_equal. unfold get_total, s_ConsumerFeePoolTotalShares in E.
  rewrite delete_id by done. by destruct w1 as [? ? ? [] ? ? ? ?].
Qed.

Lemma put_run {A} id denom dep s t (m : K A) c w :
  (put_shares (id, denom, dep) s;; put_total (id, denom) t;; m) c w
  = m c (write_ledger id denom dep s t w).
Proof.
  unfold put_shares, put_total, write_ledger, put_nz. rewrite bind_run.
  destruct (Z.eqb_spec s 0) as [->|], (Z.eqb_spec t 0) as [->|]; cbn [modify];
    repeat case_decide; done.
Qed.

(** The unreserved part of a pool's balance. *)
Definition available (id : N) (denom : string) (c : Ctx) (w : World) : Z :=
  pool_balance id denom w
  - sumZ (λ kv, Amount (wf_Amount kv.2))
      (filter (λ kv, reserves denom (BlockTime c) kv.2 = true)
        (filter (λ kv, in_consumer (Some id) kv.1 = true) (iterate (s_WithheldFeeRecords w)))).
Definition withdraw_limit (id : N) (amount : Coin) (c : Ctx) (w : World) : Z :=
  Z.min (Amount amount) (available id (Denom amount) c w).

Lemma outstandingWithheldFees_run id denom c w :
  outstandingWithheldFees id denom c w
  = (Ok (sumZ (λ kv, Amount (wf_Amount kv.2))
      (filter (λ kv, reserves denom (BlockTime c) kv.2 = true)
        (filter (λ kv, in_consumer (Some id) kv.1 = true) (iterate (s_WithheldFeeRecords w))))), w).
Proof. reflexivity. Qed.

Lemma WithdrawShares_run id dep amount c w :
  let denom := Denom amount in
  WithdrawShares id dep amount c w =
  match get_shares id denom dep w, get_total id denom w with
  | None, _ => (Err ErrNoSharesForDepositor, w)
  | Some _, None => (Err ErrPoolEmpty, w)
  | Some shares, Some total =>
      if total =? 0 then (Err ErrPoolEmpty, w) else
      if negb (0 <? available id denom c w) then (Err ErrPoolEmpty, w) else
      let '(burn, tokens) :=
        feePoolDraw shares total (pool_balance id denom w) (withdraw_limit id amount c w) in
      if negb (0 <? burn) then (Err ErrSubShareWithdraw, w) else
      NewCoin denom tokens c (write_ledger id denom dep (shares - burn) (total - burn) w)
  end.
Proof.
  intros denom. unfold WithdrawShares. fold denom. rewrite bind_run. cbn [gets].
  destruct (get_shares id denom dep w) as [shares|]; [|done]. rewrite bind_run. cbn [of_option mret M_ret].
  rewrite bind_run. cbn [gets]. destruct (get_total id denom w) as [total|]; [|done].
  rewrite bind_run. cbn [of_option mret M_ret]. rewrite bind_run.
  destruct (total =? 0); [done|]. cbn [negb guard_err mret M_ret].
  rewrite bind_run. cbn [gets]. rewrite bind_run, outstandingWithheldFees_run.
  fold (available id denom c w). cbv zeta. rewrite bind_run.
  destruct (0 <? available id denom c w); [|done]. cbn [negb guard_err mret M_ret].
  replace (if available id denom c w <? Amount amount then available id denom c w else Amount amount)
    with (withdraw_limit id amount c w)
    by (unfold withdraw_limit; fold denom; destruct (Z.ltb_spec (available id denom c w) (Amount amount)); lia).
  destruct (feePoolDraw _ _ _ _) as [burn tokens] eqn:Ed. cbv beta iota zeta. rewrite bind_run.
  destruct (0 <? burn); [|done]. cbn [negb guard_err mret M_ret].
  apply put_run.
Qed.

Lemma put_nz_pos {A} `{Countable A} (k : A) v (m : gmap A Z) : 0 < v → put_nz k v m = <[k := v]> m.
Proof. intros. unfold put_nz. by rewrite decide_False by lia. Qed.

Lemma get_shares_drop id denom dep w : get_shares id denom dep (drop_ledger id denom w) = None.
Proof.
  unfold get_shares; cbn. rewrite clear_where_lookup. unfold in_pool; cbn.
  by rewrite bool_decide_true.
Qed.
Lemma get_total_drop id denom w : get_total id denom (drop_ledger id denom w) = None.
Proof. apply lookup_delete_eq. Qed.
Lemma get_shares_write id denom dep s t w :
  0 < s → get_shares id denom dep (write_ledger id denom dep s t w) = Some s.
Proof. intros Hs. unfold get_shares; cbn. rewrite put_nz_pos by done. apply lookup_insert_eq. Qed.
Lemma get_total_write id denom dep s t w :
  0 < t → get_total id denom (write_ledger id denom dep s t w) = Some t.
Proof. intros Ht. unfold get_total; cbn. rewrite put_nz_pos by done. apply lookup_insert_eq. Qed.

Lemma absorbUnaccountedBalance_run id denom balance c w :
  0 < balance →
  absorbUnaccountedBalance id denom balance c w
  = (Ok tt, write_ledger id denom (NewModuleAddress dist_ModuleName) balance balance (drop_ledger id denom w)).
Proof.
  intros Hb. unfold absorbUnaccountedBalance. rewrite bind_run, clearAllShares_run.
  unfold write_ledger, upd_ConsumerFeePoolTotalShares, upd_ConsumerFeePoolShares.
  by rewrite !put_nz_pos.
Qed.

(** The ledger a deposit is priced against, and its total: stale shares of an
    empty pool dropped, an unaccounted balance booked to the community pool. *)
Definition mint_base (id : N) (denom : string) (w : World) : World * Z :=
  let balance := pool_balance id denom w in
  let total := default 0 (get_total id denom w) in
  if (balance =? 0) && (0 <? total) then (drop_ledger id denom w, 0)
  else if (total =? 0) && (0 <? balance)
  then (write_ledger id denom (NewModuleAddress dist_ModuleName) balance balance
          (drop_ledger id denom w), balance)
  else (w, total).

Lemma mint_base_ok id denom w :
  ledger_ok w →
  ledger_ok (mint_base id denom w).1
  ∧ (mint_base id denom w).2 = default 0 (get_total id denom (mint_base id denom w).1).
Proof.
  intros Hl. unfold mint_base. cbv zeta. pose proof (ledger_drop id denom w Hl) as Hd.
  destruct (_ && _) eqn:E1; cbn [fst snd]; [split; [done|by rewrite get_total_drop]|].
  destruct ((_ =? 0) && (0 <? pool_balance _ _ _)) eqn:E2; cbn [fst snd]; [|done].
  apply andb_true_iff in E2 as [_ Hb%Z.ltb_lt]. rewrite get_total_write by done.
  split; [|done]. apply ledger_write; try lia; [done|].
  rewrite get_total_drop, get_shares_drop. cbn. lia.
Qed.

Lemma MintShares_run id dep amount c w :
  0 ≤ pool_balance id (Denom amount) w →
  MintShares id dep amount c w =
  let denom := Denom amount in
  let balance := pool_balance id denom w in
  let '(w1, total) := mint_base id denom w in
  if (negb (total =? 0)) && (balance =? 0) then (Panic, w1) else
  let shares := if total =? 0 then Amount amount else Z.quot (Amount amount * total) balance in
  if negb (0 <? shares) then (Err ErrDepositTooSmall, w1) else
  (Ok tt, upd_ConsumerFeePoolTotalShares (insert (id, denom) (total + shares))
     (upd_ConsumerFeePoolShares
        (insert (id, denom, dep) (default 0 (get_shares id denom dep w1) + shares)) w1)).
Proof.
  intros Hb0. cbv zeta. unfold MintShares. set (denom := Denom amount) in *.
  unfold mint_base. rewrite bind_run. cbn [gets]. rewrite bind_run. cbn [gets]. cbv zeta.
  set (balance := pool_balance id denom w) in *. set (total := default 0 (get_total id denom w)).
  rewrite bind_run.
  destruct ((balance =? 0) && (0 <? total)) eqn:E1.
  { apply andb_true_iff in E1 as [Eb%Z.eqb_eq _]. rewrite Eb. rewrite bind_run, clearAllShares_run.
    cbn [mret M_ret]. rewrite bind_run. cbn -[get_shares].
    rewrite bind_run. cbn [mret M_ret]. rewrite bind_run. by destruct (0 <? Amount amount). }
  cbn [mret M_ret]. rewrite bind_run.
  destruct ((total =? 0) && (0 <? balance)) eqn:E2.
  - apply andb_true_iff in E2 as [_ Hb%Z.ltb_lt].
    rewrite bind_run, absorbUnaccountedBalance_run by done. cbn [mret M_ret].
    rewrite bind_run. rewrite (proj2 (Z.eqb_neq balance 0)) by lia. cbn [negb andb].
    unfold Int_Quo. rewrite (proj2 (Z.eqb_neq balance 0)) by lia. cbn [mret M_ret].
    rewrite bind_run. by destruct (0 <? Z.quot _ _).
  - cbn [mret M_ret]. rewrite bind_run. unfold Int_Quo.
    destruct (total =? 0); cbn [negb andb mret M_ret].
    + rewrite bind_run. by destruct (0 <? Amount _).
    + destruct (balance =? 0); [done|]. cbn [mret M_ret]. rewrite bind_run. by destruct (0 <? Z.quot _ _).
Qed.
End operations.

(** ** Properties *)
Section properties.
Context `{X : Externals} {BL : BankLaws}.

Lemma pool_balance_nonneg id denom w : 0 ≤ pool_balance id denom w.
Proof. apply bank_nonneg. Qed.

Lemma preserves_MintShares id dep amount : preserves ledger_ok (MintShares id dep amount).
Proof.
  intros c w Hl. rewrite MintShares_run by apply pool_balance_nonneg. cbv zeta.
  destruct (mint_base_ok id (Denom amount) w Hl) as [Hb Et].
  destruct (mint_base id (Denom amount) w) as [w1 total]. cbn [fst snd] in Hb, Et.
  destruct (_ && _); [done|].
  generalize (if total =? 0 then Amount amount
              else Z.quot (Amount amount * total) (pool_balance id (Denom amount) w)).
  intros shares. destruct (Z.ltb_spec 0 shares); [cbn [negb snd]|done].
  pose proof (ledger_write id (Denom amount) dep (default 0 (get_shares id (Denom amount) dep w1) + shares)
    (total + shares) w1 Hb) as P.
  assert (0 ≤ default 0 (get_shares id (Denom amount) dep w1)) as H1.
  { destruct (get_shares id (Denom amount) dep w1) eqn:E; [|done].
    apply Hb in E. cbn. lia. }
  assert (0 ≤ total) as H2.
  { rewrite Et. destruct (get_total id (Denom amount) w1) eqn:E; [|done]. apply Hb in E. cbn. lia. }
  unfold write_ledger, upd_ConsumerFeePoolTotalShares, upd_ConsumerFeePoolShares in *.
  rewrite !put_nz_pos in P by lia. apply P; lia.
Qed.

Lemma preserves_WithdrawShares id dep amount : preserves ledger_ok (WithdrawShares id dep amount).
Proof.
  intros c w Hl. rewrite WithdrawShares_run. cbv zeta. set (denom := Denom amount).
  destruct (get_shares id denom dep w) as [shares|] eqn:Es; [|done].
  pose proof (share_le_total _ _ _ _ _ Hl Es) as Hle.
  destruct (get_total id denom w) as [total|] eqn:Et; [|done]. cbn in Hle.
  destruct (total =? 0); [done|]. destruct (negb (0 <? available _ _ _ _)); [done|].
  destruct (feePoolDraw _ _ _ _) as [burn tokens] eqn:Ed.
  assert (0 ≤ shares ≤ total) as Hst by lia.
  destruct (feePoolDraw_bounds _ _ _ _ _ _ Hst (pool_balance_nonneg _ _ _) Ed) as (Hb & _).
  destruct (negb (0 <? burn)); [done|]. unfold NewCoin.
  assert (ledger_ok (write_ledger id denom dep (shares - burn) (total - burn) w)) as P.
  { apply ledger_write; [done|lia|lia|]. rewrite Es, Et. cbn. lia. }
  by destruct (tokens <? 0).
Qed.

Lemma preserves_clearAllShares id denom : preserves ledger_ok (clearAllShares id denom).
Proof. intros c w Hl. rewrite clearAllShares_run. by apply ledger_drop. Qed.

Lemma ledger_absorb id denom balance w :
  ledger_ok w → 0 < balance →
  ledger_ok (write_ledger id denom (NewModuleAddress dist_ModuleName) balance balance
               (drop_ledger id denom w)).
Proof.
  intros Hl Hb. apply ledger_write; [by apply ledger_drop|lia|lia|].
  rewrite get_total_drop, get_shares_drop. cbn. lia.
Qed.

Lemma preserves_sweep_pay denom balance total d e :
  preserves ledger_ok (sweep_pay denom balance total d e).
Proof. unfold sweep_pay. pres. Qed.

Hint Resolve preserves_sweep_pay preserves_clearAllShares : vaas.
Lemma preserves_SweepConsumerFeePoolDenom id denom :
  preserves ledger_ok (SweepConsumerFeePoolDenom id denom).
Proof.
  intros c w Hl. unfold SweepConsumerFeePoolDenom. rewrite bind_run. cbn [gets].
  rewrite bind_run. cbn [gets]. cbv zeta. pose proof (pool_balance_nonneg id denom w).
  set (balance := pool_balance id denom w) in *. set (total := default 0 (get_total id denom w)).
  destruct ((balance =? 0) && (total =? 0)) eqn:E0; [done|]. rewrite bind_run.
  destruct (total =? 0) eqn:E1.
  - rewrite andb_true_r in E0. apply Z.eqb_neq in E0. rewrite bind_run. unfold must at 1.
    rewrite absorbUnaccountedBalance_run by lia. cbn [mret M_ret].
    match goal with |- ledger_ok (snd (?m c ?w1)) => assert (preserves ledger_ok m) as P by pres; apply P end.
    apply ledger_absorb; [done|lia].
  - cbn [mret M_ret].
    match goal with |- ledger_ok (snd (?m c ?w1)) => assert (preserves ledger_ok m) as P by pres; by apply P end.
Qed.

Lemma preserves_SweepConsumerFeePool id denoms : preserves ledger_ok (SweepConsumerFeePool id denoms).
Proof.
  unfold SweepConsumerFeePool. case_decide;
    [apply preserves_bind; [apply preserves_gets|intros keys]|];
    apply preserves_for_each; apply preserves_SweepConsumerFeePoolDenom.
Qed.

(** C19. A withdrawal delivers at most what was asked for and at most the pool's unreserved
    balance, burns at least one share, never worsens the price of the shares left, and
    empties the pool when the last share goes. *)
Theorem withdrawal_respects_escrow id dep amount c w coin w' :
  ledger_ok w →
  WithdrawShares id dep amount c w = (Ok coin, w') →
  let denom := Denom amount in
  let balance := pool_balance id denom w in
  let total := default 0 (get_total id denom w) in
  let total' := default 0 (get_total id denom w') in
  Denom coin = denom ∧
  0 ≤ Amount coin ≤ Z.min (Amount amount) (available id denom c w) ∧
  w_bank w' = w_bank w ∧
  0 ≤ total' < total ∧
  balance * total' ≤ (balance - Amount coin) * total ∧
  (total' = 0 → Amount coin = balance).
Proof.
  intros Hl. rewrite WithdrawShares_run. cbv zeta. set (denom := Denom amount).
  destruct (get_shares id denom dep w) as [shares|] eqn:Es; [|done].
  pose proof (share_le_total _ _ _ _ _ Hl Es) as Hle.
  destruct (get_total id denom w) as [total|] eqn:Et; [|done]. cbn in Hle.
  destruct (total =? 0); [done|]. destruct (negb (0 <? available _ _ _ _)); [done|].
  destruct (feePoolDraw _ _ _ _) as [burn tokens] eqn:Ed.
  assert (0 ≤ shares ≤ total) as Hst by lia.
  destruct (feePoolDraw_bounds _ _ _ _ _ _ Hst (pool_balance_nonneg _ _ _) Ed) as (Hb & Ht & Hlim & Hrate & Hlast).
  destruct (Z.ltb_spec 0 burn); [|done]. cbn [negb]. unfold NewCoin.
  rewrite (proj2 (Z.ltb_ge tokens 0)) by lia. intros [<- <-]%ret_Ok. cbn [Denom Amount].
  assert (0 < withdraw_limit id amount c w) as Hpos.
  { unfold feePoolDraw in Ed. destruct (Z.ltb_spec 0 (withdraw_limit id amount c w)); [done|].
    rewrite !orb_true_r in Ed. injection Ed as <- <-. lia. }
  assert (default 0 (get_total id denom (write_ledger id denom dep (shares - burn) (total - burn) w))
          = total - burn) as ->.
  { unfold get_total; cbn. rewrite put_nz_lookup, decide_True by done. case_decide; cbn; lia. }
  change (default 0 (Some total)) with total. unfold withdraw_limit in *. fold denom in Hlim, Hpos.
  split_and!; try done; lia.
Qed.

Lemma ComputeClaim_run id dep denom c w :
  ledger_ok w →
  ComputeClaim id dep denom c w =
  (Ok (match get_shares id denom dep w with
       | Some shares => (feePoolDraw shares (default 0 (get_total id denom w))
                           (pool_balance id denom w) (available id denom c w)).2
       | None => 0
       end), w).
Proof.
  intros Hl. unfold ComputeClaim. rewrite bind_run. cbn [gets].
  destruct (get_shares id denom dep w) as [shares|] eqn:Es.
  - destruct (share_le_total _ _ _ _ _ Hl Es) as [Hs Hle].
    destruct (Z.eqb_spec (pool_balance id denom w) 0) as [Eb|Hb].
    { rewrite Eb. unfold feePoolDraw. by rewrite !orb_true_r. }
    rewrite bind_run. cbn [gets]. rewrite Es. rewrite bind_run. cbn [gets].
    destruct (get_total id denom w) as [total|]; cbn in *; [|lia].
    rewrite (proj2 (Z.eqb_neq total 0)) by lia. done.
  - destruct (_ =? 0); [done|]. rewrite bind_run. cbn [gets]. by rewrite Es.
Qed.

(** The claim ComputeClaim quotes is exactly what WithdrawShares delivers, when the
    depositor asks for at least the unreserved balance, or for the quote of a pool whose
    reserve does not hold it back. *)
Lemma quote_is_delivered id dep denom amount c w q w1 :
  ledger_ok w →
  ComputeClaim id dep denom c w = (Ok q, w1) → 0 < q →
  (* asked for at least the unreserved balance, or for the claim of a pool
     whose reserve does not hold it back *)
  (available id denom c w ≤ amount ∨
   q ≤ amount ∧
   Z.quot (default 0 (get_shares id denom dep w) * pool_balance id denom w)
     (default 0 (get_total id denom w)) ≤ available id denom c w) →
  ∃ w', WithdrawShares id dep (mkCoin denom amount) c w = (Ok (mkCoin denom q), w').
Proof.
  intros Hl. rewrite ComputeClaim_run by done. intros [= Eq <-] Hq Hask.
  rewrite WithdrawShares_run. cbn [Denom Amount]. unfold withdraw_limit. cbn [Denom Amount].
  destruct (get_shares id denom dep w) as [shares|] eqn:Es; [|lia].
  destruct (share_le_total _ _ _ _ _ Hl Es) as [Hs Hle].
  destruct (get_total id denom w) as [total|]; cbn in *; [|lia].
  rewrite (proj2 (Z.eqb_neq total 0)) by lia.
  set (avail := available id denom c w) in *. set (balance := pool_balance id denom w) in *.
  assert (0 < avail) as Ha.
  { unfold feePoolDraw in Eq. destruct (Z.ltb_spec 0 avail); [done|].
    rewrite !orb_true_r in Eq. cbn in Eq. lia. }
  rewrite (proj2 (Z.ltb_lt 0 avail)) by done. cbn [negb].
  assert (feePoolDraw shares total balance (Z.min amount avail)
          = feePoolDraw shares total balance avail) as ->.
  { destruct Hask as [Hask|[Hask Hfit]]; [by rewrite Z.min_r|].
    destruct (Z.le_gt_cases avail amount); [by rewrite Z.min_r|]. rewrite Z.min_l by lia.
    unfold feePoolDraw in *. rewrite (proj2 (Z.ltb_lt 0 avail)) in * by done.
    assert (0 < amount) by lia. rewrite (proj2 (Z.ltb_lt 0 amount)) by done.
    destruct (_ || _); [done|]. rewrite (proj2 (Z.leb_le _ avail)) in * by done. cbn in Eq.
    by rewrite (proj2 (Z.leb_le _ amount)) by lia. }
  destruct (feePoolDraw shares total balance avail) as [burn tokens] eqn:Ed. cbn in Eq. subst tokens.
  destruct (Z.ltb_spec 0 burn) as [Hb|Hb].
  - cbn [negb]. unfold NewCoin. rewrite (proj2 (Z.ltb_ge q 0)) by lia. eauto.
  - assert (0 ≤ shares ≤ total) as Hst by lia.
    destruct (feePoolDraw_bounds _ _ _ _ _ _ Hst (pool_balance_nonneg id denom w) Ed) as (Hb' & ? & ? & Hr & ?).
    unfold balance in *. assert (burn = 0) as -> by lia. nia.
Qed.
End properties.

(** ** The sweep *)
Section sweep.
Context `{X : Externals} {BL : BankLaws} {PL : PayoutLaws}.

Lemma map_sum_single {A} `{Countable A} (f : A → Z → Z) k (m : gmap A Z) :
  (∀ k' v, k' ≠ k → f k' v = 0) → f k 0 = 0 → map_sum f m = f k (default 0 (m !! k)).
Proof.
  intros Hne H0. destruct (m !! k) as [v|] eqn:E; cbn.
  - rewrite (map_sum_delete f m k v E). rewrite (map_sum_ext f (λ _ _, 0)).
    + unfold map_sum. rewrite sumZ_const. lia.
    + intros k' v' [? _]%lookup_delete_Some. auto.
  - rewrite H0, (map_sum_ext f (λ _ _, 0)); [unfold map_sum; rewrite sumZ_const; lia|].
    intros k' v' E'. apply Hne. congruence.
Qed.

Lemma sumZ_filter {A} (f : A → Z) (P : A → bool) l :
  sumZ f (filter (λ x, P x = true) l) = sumZ (λ x, if P x then f x else 0) l.
Proof.
  induction l as [|x l IH]; [done|]. rewrite filter_cons. cbn.
  case_decide as E; [rewrite E|rewrite (not_true_is_false _ E)]; cbn; unfold sumZ in *; lia.
Qed.

Lemma sum_pool_entries (f : string → Z → Z) (id : N) (denom : string) (m : gmap (N * string * string) Z) :
  sumZ (λ e : N * string * string * Z, f e.1.2 e.2)
    (filter (λ e : N * string * string * Z, in_pool id denom e.1 = true) (iterate m))
  = map_sum (λ (k : N * string * string) s, if in_pool id denom k then f k.2 s else 0) m.
Proof. rewrite sumZ_filter. unfold map_sum. by rewrite iterate_perm. Qed.

Definition distr : string := NewModuleAddress dist_ModuleName.
Definition payable (a : string) : Prop := a = distr ∨ ∀ m, a ≠ NewModuleAddress m.

Lemma distr_provider_ne : distr ≠ NewModuleAddress ModuleName.
Proof. by intros E%module_address_inj. Qed.

Lemma bank_call_run (f : bank → option bank) b' c w :
  f (w_bank w) = Some b' → must (bank_call f) c w = (Ok tt, set_bank b' w).
Proof. intros E. unfold must, bank_call. by rewrite bind_run; cbn [gets]; rewrite E. Qed.

(** A successful transfer of one positive coin, seen from the balances. *)
Definition moved_one (b b' : bank) (from to denom : string) (n : Z) : Prop :=
  ∀ a d, GetBalance b' a d = GetBalance b a d
    + if decide (d = denom) then (if decide (a = to) then n else 0) - (if decide (a = from) then n else 0)
      else 0.
Lemma moved_single b b' from to denom n :
  moved b b' from to [mkCoin denom n] → moved_one b b' from to denom n.
Proof.
  intros Hm a d. rewrite Hm. unfold AmountOf; cbn. repeat case_decide; subst; try congruence; lia.
Qed.

Lemma sweep_pay_run denom balance total acc e c w :
  0 < total → 0 ≤ e.2 → 0 ≤ balance → payable e.1.2 →
  let slice := Z.quot (e.2 * balance) total in
  slice ≤ GetBalance (w_bank w) (NewModuleAddress ModuleName) denom →
  ∃ b', sweep_pay denom balance total acc e c w = (Ok (acc + slice), set_bank b' w) ∧
    moved_one (w_bank w) b' (NewModuleAddress ModuleName) e.1.2 denom slice.
Proof.
  intros Ht He Hb Hp slice Hbal. unfold sweep_pay. fold slice.
  pose proof (quot_mul_le (e.2 * balance) total ltac:(nia) Ht) as [Hs _]. fold slice in Hs.
  destruct (Z.eqb_spec slice 0) as [E0|Hne].
  { exists (w_bank w). rewrite E0, Z.add_0_r. split; [by destruct w|].
    intros a d. repeat case_decide; lia. }
  rewrite bind_run. unfold NewCoin. rewrite (proj2 (Z.ltb_ge slice 0)) by lia. cbn [mret M_ret].
  rewrite bind_run. unfold NewCoins. cbn [Amount]. rewrite (proj2 (Z.eqb_neq slice 0)) by done.
  case_decide as Ed.
  - destruct (fund_ok (w_bank w) (mkCoin denom slice) (NewModuleAddress ModuleName)) as [b' Eb]; [cbn; lia|].
    exists b'. rewrite (bank_call_run _ b') by done. split; [done|]. rewrite Ed.
    by apply moved_single, fund_pool_balance.
  - destruct Hp as [?|Hp]; [done|].
    destruct (payout_ok (w_bank w) ModuleName e.1.2 (mkCoin denom slice)) as [b' Eb]; [done|cbn; lia|].
    exists b'. rewrite (bank_call_run _ b') by done. split; [done|].
    by apply moved_single, module_to_acc_balance.
Qed.

Lemma sweep_loop_run denom balance total entries acc c w :
  0 < total → 0 ≤ balance → (∀ e, e ∈ entries → 0 ≤ e.2 ∧ payable e.1.2) →
  let slice e := Z.quot (e.2 * balance) total in
  sumZ slice entries ≤ GetBalance (w_bank w) (NewModuleAddress ModuleName) denom →
  ∃ b', fold_each entries (sweep_pay denom balance total) acc c w
        = (Ok (acc + sumZ slice entries), set_bank b' w) ∧
    ∀ a d, GetBalance b' a d = GetBalance (w_bank w) a d
      + if decide (d = denom)
        then sumZ (λ e, if decide (e.1.2 = a) then slice e else 0) entries
             - (if decide (a = NewModuleAddress ModuleName) then sumZ slice entries else 0)
        else 0.
Proof.
  intros Ht Hb. cbv zeta. revert acc w. induction entries as [|e entries IH]; intros acc w He Hbal.
  { exists (w_bank w). cbn. rewrite Z.add_0_r. split; [by destruct w|].
    intros. repeat case_decide; lia. }
  destruct (He e ltac:(set_solver)) as [He0 Hep].
  assert (0 ≤ sumZ (λ e, Z.quot (e.2 * balance) total) entries) as Hrest.
  { apply sumZ_nonneg. intros e' Hin. destruct (He e' ltac:(set_solver)).
    by apply quot_mul_le; [nia|]. }
  change (Z.quot (e.2 * balance) total + sumZ (λ e, Z.quot (e.2 * balance) total) entries
          ≤ GetBalance (w_bank w) (NewModuleAddress ModuleName) denom) in Hbal.
  destruct (sweep_pay_run denom balance total acc e c w Ht He0 Hb Hep) as (b1 & E1 & M1); [lia|].
  destruct (IH (acc + Z.quot (e.2 * balance) total) (set_bank b1 w)) as (b2 & E2 & M2).
  { set_solver. }
  { cbn [w_bank set_bank]. rewrite M1, decide_True by done.
    assert (NewModuleAddress ModuleName ≠ e.1.2) as Hne.
    { destruct Hep as [->|Hep]; [|naive_solver]. intros ?. by apply distr_provider_ne. }
    rewrite decide_False, decide_True by done. lia. }
  exists b2. cbn [fold_each]. rewrite bind_run, E1, E2. split.
  { cbn. rewrite Z.add_assoc. done. }
  intros a d. rewrite M2. cbn [w_bank set_bank]. rewrite M1. cbn [sumZ foldr].
  fold (sumZ (λ e, if decide (e.1.2 = a) then Z.quot (e.2 * balance) total else 0) entries).
  fold (sumZ (λ e, Z.quot (e.2 * balance) total) entries).
  repeat case_decide; subst; try congruence; lia.
Qed.

Lemma drop_ledger_write id denom dep s t w :
  drop_ledger id denom (write_ledger id denom dep s t w) = drop_ledger id denom w.
Proof.
  unfold drop_ledger, write_ledger, upd_ConsumerFeePoolTotalShares, upd_ConsumerFeePoolShares; cbn.
  do 2 f_equal; apply map_eq; intros k.
  - rewrite !clear_where_lookup, put_nz_lookup. unfold in_pool.
    case_bool_decide as E; [done|]. rewrite decide_False; [done|]. intros ->. by apply E.
  - destruct (decide (k = (id, denom))) as [->|Hne]; [by rewrite !lookup_delete_eq|].
    rewrite !lookup_delete_ne, put_nz_lookup by done. by rewrite decide_False.
Qed.
Lemma drop_ledger_idem id denom w : drop_ledger id denom (drop_ledger id denom w) = drop_ledger id denom w.
Proof.
  unfold drop_ledger, upd_ConsumerFeePoolTotalShares, upd_ConsumerFeePoolShares; cbn.
  do 2 f_equal; [|by rewrite delete_delete_eq]. apply map_eq. intros k.
  rewrite !clear_where_lookup. by destruct (in_pool id denom k).
Qed.

(** The sweep after its ledger is settled and before anything is paid. *)
Definition sweep_tail (id : N) (denom : string) (balance total : Z) : K unit :=
  must (bank_call (λ b, SendCoinsFromAccountToModule b (GetConsumerFeePoolAddress id)
                          ModuleName (NewCoins (mkCoin denom balance))));;
  entries ← gets (λ w, filter (λ e, in_pool id denom e.1 = true) (iterate (s_ConsumerFeePoolShares w)));
  distributed ← fold_each entries (sweep_pay denom balance total) 0;
  when (0 <? balance - distributed)
    (must (bank_call (λ b, FundCommunityPool b (NewCoins (mkCoin denom (balance - distributed)))
                             (NewModuleAddress ModuleName))));;
  must (clearAllShares id denom).

Lemma SweepConsumerFeePoolDenom_run id denom c w :
  0 < pool_balance id denom w → ledger_ok w →
  SweepConsumerFeePoolDenom id denom c w
  = sweep_tail id denom (pool_balance id denom w) (mint_base id denom w).2 c (mint_base id denom w).1.
Proof.
  intros Hb Hl. unfold SweepConsumerFeePoolDenom. rewrite bind_run. cbn [gets].
  rewrite bind_run. cbn [gets]. cbv zeta. unfold mint_base. cbv zeta.
  set (balance := pool_balance id denom w) in *. set (total := default 0 (get_total id denom w)).
  rewrite (proj2 (Z.eqb_neq balance 0)), (proj2 (Z.ltb_lt 0 balance)) by lia.
  rewrite andb_true_r. cbn [andb]. rewrite bind_run.
  destruct (total =? 0); [|done]. rewrite bind_run. unfold must at 1.
  rewrite absorbUnaccountedBalance_run by done. done.
Qed.

(** What each holder gets. *)
Definition payout (id : N) (denom : string) (w : World) (a : string) : Z :=
  Z.quot (default 0 (get_shares id denom a w) * pool_balance id denom w)
    (default 0 (get_total id denom w)).
Definition payouts (id : N) (denom : string) (w : World) : Z :=
  map_sum (λ (k : N * string * string) s, if in_pool id denom k && negb (bool_decide (k.2 = distr))
    then Z.quot (s * pool_balance id denom w) (default 0 (get_total id denom w)) else 0)
    (s_ConsumerFeePoolShares w).

Lemma map_sum_add {A} `{Countable A} (f g : A → Z → Z) (m : gmap A Z) :
  map_sum (λ k v, f k v + g k v) m = map_sum f m + map_sum g m.
Proof. unfold map_sum. induction (map_to_list m) as [|x l IH]; cbn; unfold sumZ in *; lia. Qed.

Lemma payout_single id denom (a : string) w :
  map_sum (λ (k : N * string * string) s, if in_pool id denom k then if decide (k.2 = a)
      then Z.quot (s * pool_balance id denom w) (default 0 (get_total id denom w)) else 0 else 0)
    (s_ConsumerFeePoolShares w) = payout id denom w a.
Proof.
  rewrite (map_sum_single _ (id, denom, a)).
  - unfold in_pool; cbn. by rewrite bool_decide_true, decide_True.
  - intros [[i d] x] v Hne. unfold in_pool; cbn. case_bool_decide as E; [|done].
    injection E as -> ->. rewrite decide_False; [done|]. congruence.
  - unfold in_pool; cbn. rewrite bool_decide_true, decide_True by done. by rewrite quot_zero_l.
Qed.

Lemma payouts_split id denom w :
  map_sum (λ (k : N * string * string) s, if in_pool id denom k
      then Z.quot (s * pool_balance id denom w) (default 0 (get_total id denom w)) else 0)
    (s_ConsumerFeePoolShares w) = payouts id denom w + payout id denom w distr.
Proof.
  rewrite <-(payout_single id denom distr w). unfold payouts. rewrite <-map_sum_add.
  apply map_sum_ext. intros k v _. destruct (in_pool id denom k); cbn; [|done].
  case_bool_decide; case_decide; cbn; try lia; congruence.
Qed.

(** Slices never add up to more than the pool holds. *)
Lemma payouts_le id denom w :
  ledger_ok w → 0 < default 0 (get_total id denom w) →
  payouts id denom w + payout id denom w distr ≤ pool_balance id denom w.
Proof.
  intros (Hs & _ & Hsum) Ht. rewrite <-payouts_split. set (T := default 0 (get_total id denom w)) in *.
  pose proof (pool_balance_nonneg id denom w) as HB. set (B := pool_balance id denom w) in *.
  enough (T * map_sum (λ (k : N * string * string) s, if in_pool id denom k then Z.quot (s * B) T else 0)
    (s_ConsumerFeePoolShares w) ≤ T * B) by nia.
  unfold T at 3. rewrite Hsum. unfold pool_shares, map_sum.
  rewrite Z.mul_comm, <-!sumZ_mul_r. apply sumZ_le. intros [k v] Hin%elem_of_map_to_list. cbn.
  apply Hs in Hin. destruct (in_pool id denom k); [|lia].
  pose proof (quot_mul_le (v * B) T ltac:(nia) Ht). lia.
Qed.

Lemma pool_not_module id m :
  m = ModuleName ∨ m = dist_ModuleName → GetConsumerFeePoolAddress id ≠ NewModuleAddress m.
Proof. intros Hm E%module_address_inj. destruct Hm as [-> | ->]; discriminate E. Qed.

(** What the division leaves goes to the community pool. *)
Lemma dust_run denom n c w :
  0 ≤ n ≤ GetBalance (w_bank w) (NewModuleAddress ModuleName) denom →
  ∃ b', when (0 <? n) (must (bank_call (λ b, FundCommunityPool b (NewCoins (mkCoin denom n))
                                                 (NewModuleAddress ModuleName)))) c w
        = (Ok tt, set_bank b' w) ∧ moved_one (w_bank w) b' (NewModuleAddress ModuleName) distr denom n.
Proof.
  intros Hn. destruct (Z.ltb_spec 0 n) as [Hd|Hd]; cbn [when].
  - destruct (fund_ok (w_bank w) (mkCoin denom n) (NewModuleAddress ModuleName)) as [b E]; [cbn; lia|].
    exists b. unfold NewCoins. cbn [Amount]. rewrite (proj2 (Z.eqb_neq n 0)) by lia.
    rewrite (bank_call_run _ b) by done. split; [done|].
    by apply fund_pool_balance, moved_single in E.
  - exists (w_bank w). split; [by destruct w|]. intros a d. repeat case_decide; lia.
Qed.

Lemma sweep_tail_run id denom c w :
  ledger_ok w → let B := pool_balance id denom w in let T := default 0 (get_total id denom w) in
  0 < B → 0 < T → (∀ a, is_Some (get_shares id denom a w) → payable a) →
  ∃ b', sweep_tail id denom B T c w = (Ok tt, set_bank b' (drop_ledger id denom w)) ∧
    ∀ a d, GetBalance b' a d = GetBalance (w_bank w) a d
      + if decide (d = denom)
        then payout id denom w a
             + (if decide (a = distr) then B - payouts id denom w - payout id denom w distr else 0)
             - (if decide (a = GetConsumerFeePoolAddress id) then B else 0)
        else 0.
Proof.
  intros Hl B T HB HT Hpay. unfold sweep_tail.
  destruct (drain_ok (w_bank w) (GetConsumerFeePoolAddress id) ModuleName (mkCoin denom B)) as [b1 E1].
  { cbn. fold (pool_balance id denom w). fold B. lia. }
  assert (NewCoins (mkCoin denom B) = [mkCoin denom B]) as Hcoins.
  { unfold NewCoins. cbn [Amount]. by rewrite (proj2 (Z.eqb_neq B 0)) by lia. }
  rewrite bind_run, (bank_call_run _ b1) by (by rewrite Hcoins).
  apply acc_to_module_balance, moved_single in E1 as M1. rewrite bind_run. cbn [gets].
  change (s_ConsumerFeePoolShares (set_bank b1 w)) with (s_ConsumerFeePoolShares w).
  set (entries := filter _ _).
  assert (sumZ (λ e : N * string * string * Z, Z.quot (e.2 * B) T) entries
          = payouts id denom w + payout id denom w distr) as HS.
  { rewrite <-payouts_split. apply (sum_pool_entries (λ _ s, Z.quot (s * B) T)). }
  pose proof (payouts_le id denom w Hl HT) as Hle. fold B in Hle.
  destruct (sweep_loop_run denom B T entries 0 c (set_bank b1 w)) as (b2 & E2 & M2); [done|lia|..].
  { intros [[[i d] a] s] Hin. unfold entries in Hin.
    apply list_elem_of_filter in Hin as [Hp Hin%elem_of_iterate]. cbn in *.
    unfold in_pool in Hp. apply bool_decide_eq_true in Hp as [= -> ->].
    destruct Hl as [Hs _]. apply Hs in Hin as ?. split; [lia|]. apply Hpay. by exists s. }
  { rewrite HS. cbn [w_bank set_bank]. rewrite M1, !decide_True by done.
    pose proof (bank_nonneg (w_bank w) (NewModuleAddress ModuleName) denom).
    rewrite decide_False by (intros E; by eapply (pool_not_module id ModuleName); [left|]). lia. }
  rewrite bind_run, E2. cbv zeta in M2. rewrite HS in *. rewrite Z.add_0_l. rewrite bind_run.
  assert (∀ a, sumZ (λ e : N * string * string * Z, if decide (e.1.2 = a) then Z.quot (e.2 * B) T else 0)
            entries = payout id denom w a) as HSa.
  { intros a. rewrite <-payout_single.
    set (g := λ (x : string) (s : Z), if decide (x = a) then Z.quot (s * B) T else 0).
    apply (sum_pool_entries g). }
  cbn [w_bank set_bank] in M2.
  assert (∀ a d, GetBalance b2 a d = GetBalance (w_bank w) a d
    + if decide (d = denom)
      then payout id denom w a
        + (if decide (a = NewModuleAddress ModuleName) then B - (payouts id denom w + payout id denom w distr) else 0)
        - (if decide (a = GetConsumerFeePoolAddress id) then B else 0) else 0) as M2'.
  { intros a d. rewrite M2, M1, HSa. repeat case_decide; lia. }
  destruct (dust_run denom (B - (payouts id denom w + payout id denom w distr)) c (set_bank b2 (set_bank b1 w))) as (b3 & E3 & M3).
  { split; [lia|]. cbn [w_bank set_bank]. rewrite M2', !decide_True by done.
    rewrite decide_False by (intros E; by eapply (pool_not_module id ModuleName); [left|]).
    pose proof (bank_nonneg (w_bank w) (NewModuleAddress ModuleName) denom).
    enough (0 ≤ payout id denom w (NewModuleAddress ModuleName)) by lia.
    unfold payout. fold T B. destruct (get_shares id denom (NewModuleAddress ModuleName) w) eqn:Eg; cbn; [|by rewrite quot_zero_l].
    apply Hl in Eg. apply quot_mul_le; nia. }
  rewrite E3. exists b3. unfold must. rewrite clearAllShares_run. split; [done|].
  intros a d. rewrite M3. cbn [w_bank set_bank]. rewrite M2'. repeat case_decide; subst; lia.
Qed.

Lemma no_total_no_shares id denom a w :
  ledger_ok w → default 0 (get_total id denom w) = 0 → get_shares id denom a w = None.
Proof.
  intros Hl H0. destruct (get_shares id denom a w) eqn:E; [|done].
  apply share_le_total in E; [lia|done].
Qed.

(** How the ledger a sweep settles first relates to the one it found. *)
Lemma mint_base_eq id denom w :
  0 < pool_balance id denom w →
  mint_base id denom w =
  if default 0 (get_total id denom w) =? 0
  then (write_ledger id denom distr (pool_balance id denom w) (pool_balance id denom w)
          (drop_ledger id denom w), pool_balance id denom w)
  else (w, default 0 (get_total id denom w)).
Proof.
  intros HB. unfold mint_base. cbv zeta.
  rewrite (proj2 (Z.eqb_neq (pool_balance id denom w) 0)) by lia.
  rewrite (proj2 (Z.ltb_lt 0 (pool_balance id denom w))), andb_true_r by lia. done.
Qed.

Lemma mint_base_bank id denom w : w_bank (mint_base id denom w).1 = w_bank w.
Proof. unfold mint_base. cbv zeta. by repeat case_match. Qed.

Lemma mint_base_drop id denom w : drop_ledger id denom (mint_base id denom w).1 = drop_ledger id denom w.
Proof.
  unfold mint_base. cbv zeta. repeat case_match; cbn [fst]; try done.
  - apply drop_ledger_idem.
  - by rewrite drop_ledger_write, drop_ledger_idem.
Qed.

Lemma mint_base_pos id denom w :
  ledger_ok w → 0 < pool_balance id denom w → 0 < (mint_base id denom w).2.
Proof.
  intros Hl HB. rewrite mint_base_eq by done. case_match; [done|].
  cbn. destruct (get_total id denom w) eqn:E; cbn in *; [by apply Hl in E|done].
Qed.

Lemma mint_base_shares id denom a w :
  ledger_ok w → 0 < pool_balance id denom w → a ≠ distr →
  get_shares id denom a (mint_base id denom w).1 = get_shares id denom a w.
Proof.
  intros Hl HB Ha. rewrite mint_base_eq by done.
  destruct (Z.eqb_spec (default 0 (get_total id denom w)) 0) as [E0|]; [|done].
  cbn [fst]. rewrite (no_total_no_shares id denom a w Hl E0).
  unfold get_shares; cbn. rewrite put_nz_lookup, decide_False by (intros [=]; done).
  apply get_shares_drop.
Qed.

Lemma mint_base_payout id denom a w :
  ledger_ok w → 0 < pool_balance id denom w → a ≠ distr →
  payout id denom (mint_base id denom w).1 a = payout id denom w a.
Proof.
  intros Hl HB Ha. unfold payout, pool_balance. rewrite mint_base_bank, mint_base_shares by done.
  destruct (mint_base_ok id denom w Hl) as [_ <-]. rewrite mint_base_eq by done.
  destruct (Z.eqb_spec (default 0 (get_total id denom w)) 0) as [E0|]; [|done].
  rewrite (no_total_no_shares id denom a w Hl E0). cbn. by rewrite !quot_zero_l.
Qed.

Lemma mint_base_payouts id denom w :
  ledger_ok w → 0 < pool_balance id denom w →
  payouts id denom (mint_base id denom w).1 = payouts id denom w.
Proof.
  intros Hl HB. unfold payouts, pool_balance. rewrite mint_base_bank.
  destruct (mint_base_ok id denom w Hl) as [_ <-]. rewrite mint_base_eq by done.
  destruct (Z.eqb_spec (default 0 (get_total id denom w)) 0) as [E0|]; [|done].
  etrans; [|symmetry]; (etrans; [apply (map_sum_ext _ (λ _ _, 0))|unfold map_sum; rewrite sumZ_const; reflexivity]).
  - intros [[i d] a] v E. cbn. unfold in_pool; cbn. repeat case_bool_decide; try done. simplify_eq.
    exfalso. cbn in E. rewrite put_nz_lookup, decide_False in E by (intros [= ?]; done).
    rewrite clear_where_lookup in E. unfold in_pool in E. by rewrite bool_decide_true in E.
  - intros [[i d] a] v E. cbn. unfold in_pool; cbn. repeat case_bool_decide; try done. simplify_eq.
    pose proof (no_total_no_shares id denom a w Hl E0). unfold get_shares in *. congruence.
Qed.

(** C20. Sweeping a pool pays every depositor the floor of its pro-rata slice, sends the
    rounding dust and the community's slice to the distribution module, empties the pool
    account and the ledger of that denom, and moves no other denom. *)
Theorem sweep_pays_out id denom c w :
  ledger_ok w → 0 < pool_balance id denom w →
  (∀ a, is_Some (get_shares id denom a w) → payable a) →
  ∃ w', SweepConsumerFeePoolDenom id denom c w = (Ok tt, w') ∧
    w' = set_bank (w_bank w') (drop_ledger id denom w) ∧
    pool_balance id denom w' = 0 ∧
    (∀ a, (∀ m, a ≠ NewModuleAddress m) →
       GetBalance (w_bank w') a denom = GetBalance (w_bank w) a denom + payout id denom w a) ∧
    GetBalance (w_bank w') distr denom
      = GetBalance (w_bank w) distr denom + (pool_balance id denom w - payouts id denom w) ∧
    GetBalance (w_bank w') (NewModuleAddress ModuleName) denom
      = GetBalance (w_bank w) (NewModuleAddress ModuleName) denom ∧
    (∀ a d, d ≠ denom → GetBalance (w_bank w') a d = GetBalance (w_bank w) a d).
Proof.
  intros Hl HB Hpay. rewrite SweepConsumerFeePoolDenom_run by done.
  destruct (mint_base_ok id denom w Hl) as [Hl1 Et].
  assert (pool_balance id denom (mint_base id denom w).1 = pool_balance id denom w) as EB.
  { unfold pool_balance. by rewrite mint_base_bank. }
  destruct (sweep_tail_run id denom c (mint_base id denom w).1 Hl1) as (b' & E & M).
  { lia. } { rewrite <-Et. by apply mint_base_pos. }
  { intros a Ha. destruct (decide (a = distr)) as [->|Hne]; [by left|].
    apply Hpay. by rewrite <-(mint_base_shares id denom a w). }
  rewrite <-Et, EB, mint_base_drop in E. exists (set_bank b' (drop_ledger id denom w)).
  rewrite mint_base_bank, EB, mint_base_payouts in M by done. split; [done|]. split; [done|].
  cbn [w_bank set_bank].
  assert (GetConsumerFeePoolAddress id ≠ distr) as Hpd by (apply pool_not_module; by right).
  assert (NewModuleAddress ModuleName ≠ distr) as Hprov by (intros ?; by apply distr_provider_ne).
  assert (∀ m, NewModuleAddress m ≠ distr → payout id denom w (NewModuleAddress m) = 0) as Hzero.
  { intros m Hm. unfold payout. destruct (get_shares _ _ _ w) eqn:Eg; cbn; [|by rewrite quot_zero_l].
    destruct (Hpay (NewModuleAddress m)) as [?|Hp]; [by eexists|done|by destruct (Hp m)]. }
  split_and!.
  - unfold pool_balance. cbn [w_bank set_bank]. rewrite M, decide_True, decide_False, decide_True by done.
    rewrite mint_base_payout by done. pose proof (Hzero _ Hpd) as Hz.
    unfold pool_balance, GetConsumerFeePoolAddress in *. lia.
  - intros a Ha. rewrite M, decide_True, !decide_False, mint_base_payout by (done || apply Ha). lia.
  - rewrite M, !decide_True, decide_False by done. lia.
  - rewrite M, decide_True, !decide_False, mint_base_payout, Hzero by
      (done || (intros ?; by eapply (pool_not_module id ModuleName); [left|])). lia.
  - intros a d Hd. rewrite M, decide_False by done. lia.
Qed.
End sweep.

(** ** What a sweep leaves of the ledger *)
Section sweep_ledger.
Context `{X : Externals}.

Definition ledgers (w : World) := (s_ConsumerFeePoolShares w, s_ConsumerFeePoolTotalShares w).
Definition dropped_ledgers (id : N) (denom : string) (w : World) :=
  (clear_where (in_pool id denom) (s_ConsumerFeePoolShares w), delete (id, denom) (s_ConsumerFeePoolTotalShares w)).

Lemma sweep_ledgers id denom c w w' :
  ledger_ok w → SweepConsumerFeePoolDenom id denom c w = (Ok tt, w') → ledgers w' = dropped_ledgers id denom w.
Proof.
  intros Hl E. unfold SweepConsumerFeePoolDenom in E.
  apply bind_Ok in E as (balance & w0 & [<- <-]%gets_Ok & E). apply bind_Ok in E as (t & w0 & [<- <-]%gets_Ok & E).
  cbv zeta in E. destruct (_ && _) eqn:E0 in E.
  { apply ret_Ok in E as [_ <-]. apply andb_true_iff in E0 as [_ E0%Z.eqb_eq].
    unfold ledgers, dropped_ledgers. f_equal.
    - apply map_eq. intros [[i d] a]. rewrite clear_where_lookup. unfold in_pool; cbn.
      case_bool_decide as Ek; [|done]. injection Ek as -> ->.
      exact (no_total_no_shares id denom a w Hl E0).
    - rewrite delete_id; [done|]. destruct (get_total id denom w) as [x|] eqn:Et; [|exact Et].
      apply Hl in Et. cbn in E0. lia. }
  apply bind_Ok in E as (total & w1 & E1 & E).
  assert (dropped_ledgers id denom w1 = dropped_ledgers id denom w) as Hw1.
  { destruct (_ =? 0) in E1; [|by apply ret_Ok in E1 as [_ <-]].
    apply bind_Ok in E1 as ([] & w2 & E1 & [_ <-]%ret_Ok). rewrite must_Ok in E1.
    unfold absorbUnaccountedBalance in E1; cbv zeta in E1.
    apply bind_Ok in E1 as (u0 & w3 & E3 & E1). rewrite clearAllShares_run in E3. injection E3 as _ <-.
    apply bind_Ok in E1 as (u1 & w4 & E3 & E1). rewrite modify_Ok in E3. rewrite modify_Ok in E1. subst w4 w2.
    unfold dropped_ledgers; cbn. f_equal.
    - apply map_eq. intros k. rewrite !clear_where_lookup. destruct (in_pool id denom k) eqn:Ek; [done|].
      rewrite lookup_insert_ne, clear_where_lookup; [by rewrite Ek|]. intros <-.
      unfold in_pool in Ek. cbn in Ek. by rewrite bool_decide_true in Ek.
    - by rewrite delete_insert_eq, delete_delete_eq. }
  rewrite <-Hw1. clear Hw1 E1.
  assert (∀ v u, must (clearAllShares id denom) c v = (Ok u, w') → ledgers w' = dropped_ledgers id denom v) as Hlast.
  { intros v u Ev. rewrite must_Ok, clearAllShares_run in Ev. by injection Ev as _ <-. }
  destruct (_ =? 0) in E; [by eapply Hlast|].
  apply bind_Ok in E as (u & w2 & E2 & E). apply bind_Ok in E as (entries & w3 & [<- <-]%gets_Ok & E).
  apply bind_Ok in E as (d & w4 & E4 & E). apply bind_Ok in E as (u' & w5 & E5 & E).
  rewrite (Hlast _ _ E). unfold dropped_ledgers.
  assert (∀ A (m : K A) v v' r, preserves (λ x, ledgers x = ledgers v) m → m c v = (r, v') → ledgers v' = ledgers v) as Hfr.
  { intros A m v v' r P Em. by apply (preserves_run _ _ _ _ _ _ P eq_refl) in Em. }
  apply Hfr in E2; [|pres]. apply Hfr in E4; [|pres]. apply Hfr in E5; [|pres].
  rewrite E4, E2 in E5. unfold ledgers in E5. injection E5 as -> ->. done.
Qed.
End sweep_ledger.

(** Rounding: a draw can burn shares and deliver nothing, and asking exactly
    for a quote that the escrow holds back delivers less than the quote. *)
Example draw_burns_shares_for_nothing : feePoolDraw 3 10 3 1 = (3, 0).
Proof. reflexivity. Qed.
Example asking_for_the_quote_delivers_less :
  feePoolDraw 10 10 7 5 = (7, 4) ∧ feePoolDraw 10 10 7 4 = (5, 3).
Proof. by split. Qed.
