(* ===== verification/Invariants.v ===== *)
(** The fee-pool invariant registered with x/crisis (provider/keeper/invariants.go):
    what it reports, and that on books the other theorems keep it reports nothing
    but balances that moved outside the module.

    A message is a value of [Violation]. Go's nested maps of consumer ids and
    denominations are one map of pairs; the order in which shares without a total
    are reported, which Go leaves open, is the key order. *)
From S2P Require Import Prelude GoTime Types Externals World Keeper FeePool FeePoolProofs.

Inductive Violation :=
  | TotalWithoutShares (id : N) (denom : string) (total : Z)
  | SumMismatch (id : N) (denom : string) (sum total : Z)
  | TotalWithoutBalance (id : N) (denom : string) (total : Z)
  | SharesWithoutTotal (id : N) (denom : string)
  | BalanceWithoutShares (id : N) (denom : string) (amount : Z).

Section invariants.
Context `{X : Externals}.

(** Pass 1: the shares of each pair summed, in the order of the store. *)
Definition add_to_sums (sums : gmap (N * string) Z) (kv : N * string * string * Z) : gmap (N * string) Z :=
  let k := kv.1.1 in
  <[k := match sums !! k with Some cur => cur + kv.2 | None => kv.2 end]> sums.
Definition share_sums (w : World) : gmap (N * string) Z :=
  foldl add_to_sums ∅ (iterate (s_ConsumerFeePoolShares w)).

(** Pass 2: one stored total. *)
Definition check_total (sums : gmap (N * string) Z) (w : World) (kv : N * string * Z) : list Violation :=
  let '((cid, denom), total) := kv in
  match sums !! (cid, denom) with
  | None => [TotalWithoutShares cid denom total]
  | Some expected =>
      (if expected =? total then [] else [SumMismatch cid denom expected total])
      ++ (if (0 <? total) && negb (0 <? GetBalance (w_bank w) (GetConsumerFeePoolAddress cid) denom)
          then [TotalWithoutBalance cid denom total] else [])
  end.
Definition check_shares (w : World) (kv : N * string * Z) : list Violation :=
  match get_total kv.1.1 kv.1.2 w with
  | Some _ => []
  | None => [SharesWithoutTotal kv.1.1 kv.1.2]
  end.
Definition check_balance (w : World) (cid : N) (coin : Coin) : list Violation :=
  if negb (0 <? Amount coin) then [] else
  match get_total cid (Denom coin) w with
  | Some _ => []
  | None => [BalanceWithoutShares cid (Denom coin) (Amount coin)]
  end.
Definition violations (w : World) : list Violation :=
  let sums := share_sums w in
  (iterate (s_ConsumerFeePoolTotalShares w) ≫= check_total sums w)
  ++ (iterate sums ≫= check_shares w)
  ++ (iterate (s_FeePoolAddressToConsumerId w) ≫= λ kv, GetAllBalances (w_bank w) kv.1 ≫= check_balance w kv.2).
(** Whether the invariant is broken. *)
Definition FeePoolSharesConsistencyInvariant (w : World) : bool := Nat.ltb 0 (length (violations w)).
End invariants.

(** ** What it reports *)
Section reports.
Context `{X : Externals}.

Lemma bind_nil {A B} (f : A → list B) (l : list A) : l ≫= f = [] ↔ ∀ x, x ∈ l → f x = [].
Proof.
  induction l as [|y l IH]; cbn; [set_solver|]. rewrite app_nil, IH. setoid_rewrite elem_of_cons. naive_solver.
Qed.

(** The sums are those of the ledger. *)
Lemma sums_lookup l id denom :
  default 0 (foldl add_to_sums ∅ l !! (id, denom)) =
  sumZ (λ kv : N * string * string * Z, if in_pool id denom kv.1 then kv.2 else 0) l.
Proof.
  induction l as [|[[[id' denom'] dep] s] l IH] using rev_ind; [by cbn; rewrite lookup_empty|].
  rewrite foldl_app, sumZ_app, <-IH. generalize (foldl add_to_sums ∅ l). intros sums. unfold add_to_sums. cbn.
  unfold in_pool. cbn. case_bool_decide as E.
  - rewrite E, lookup_insert_eq. destruct (sums !! (id, denom)); cbn; lia.
  - rewrite lookup_insert_ne by done. lia.
Qed.
Lemma share_sums_pool w id denom :
  default 0 (share_sums w !! (id, denom)) = pool_shares id denom (s_ConsumerFeePoolShares w).
Proof.
  unfold share_sums. rewrite sums_lookup. unfold pool_shares, map_sum. by rewrite iterate_perm.
Qed.
Lemma share_sums_dom w k : is_Some (share_sums w !! k) ↔ ∃ dep, is_Some (s_ConsumerFeePoolShares w !! (k, dep)).
Proof.
  assert (∀ l : list (N * string * string * Z), is_Some (foldl add_to_sums ∅ l !! k) ↔ ∃ kv, kv ∈ l ∧ kv.1.1 = k) as Hl.
  { induction l as [|kv l IH] using rev_ind; [cbn; rewrite lookup_empty; split; [by intros []|set_solver]|].
    rewrite foldl_app. cbn [foldl]. unfold add_to_sums at 1. rewrite lookup_insert_is_Some, IH.
    destruct (decide (kv.1.1 = k)) as [<-|Hne]; set_solver. }
  unfold share_sums. rewrite Hl. split.
  - intros ([[k' dep] s] & Hin%elem_of_iterate & <-). exists dep. by eexists.
  - intros (dep & s & E). exists (k, dep, s). by rewrite elem_of_iterate.
Qed.

(** *** The three parts of the report *)
Lemma totals_agree w :
  iterate (s_ConsumerFeePoolTotalShares w) ≫= check_total (share_sums w) w = [] ↔
  ∀ id denom t, get_total id denom w = Some t → share_sums w !! (id, denom) = Some t ∧
    (0 < t → 0 < GetBalance (w_bank w) (GetConsumerFeePoolAddress id) denom).
Proof.
  rewrite bind_nil. split.
  - intros H id denom t E. specialize (H (id, denom, t)). rewrite elem_of_iterate in H. specialize (H E). cbn in H.
    destruct (share_sums w !! (id, denom)) as [s|]; [|done]. apply app_nil in H as [H1 H2].
    destruct (Z.eqb_spec s t) as [Est|]; [subst s|done]. split; [done|]. intros Ht%Z.ltb_lt. rewrite Ht in H2.
    destruct (Z.ltb_spec 0 (GetBalance (w_bank w) (GetConsumerFeePoolAddress id) denom)); [done|done].
  - intros H [[id denom] t] Hin%elem_of_iterate. destruct (H id denom t Hin) as [E Hb]. cbn. rewrite E, Z.eqb_refl. cbn.
    destruct (Z.ltb_spec 0 t) as [Ht|]; [|done]. by rewrite (proj2 (Z.ltb_lt _ _) (Hb Ht)).
Qed.
Lemma sums_agree w :
  iterate (share_sums w) ≫= check_shares w = [] ↔
  ∀ id denom, is_Some (share_sums w !! (id, denom)) → is_Some (get_total id denom w).
Proof.
  rewrite bind_nil. unfold check_shares. split.
  - intros H id denom [s E]. specialize (H (id, denom, s)). rewrite elem_of_iterate in H. specialize (H E). cbn in H.
    by destruct (get_total id denom w).
  - intros H [[id denom] s] Hin%elem_of_iterate. cbn. by destruct (H id denom ltac:(by eexists)) as [t ->].
Qed.
Definition owned_balances (w : World) : Prop := ∀ addr id coin,
  s_FeePoolAddressToConsumerId w !! addr = Some id → coin ∈ GetAllBalances (w_bank w) addr → 0 < Amount coin →
  is_Some (get_total id (Denom coin) w).
Lemma balances_owned w :
  (iterate (s_FeePoolAddressToConsumerId w) ≫= λ kv, GetAllBalances (w_bank w) kv.1 ≫= check_balance w kv.2) = [] ↔
  owned_balances w.
Proof.
  rewrite bind_nil. setoid_rewrite bind_nil. unfold check_balance, owned_balances. split.
  - intros H addr id coin E Hin Hpos%Z.ltb_lt. specialize (H (addr, id)). rewrite elem_of_iterate in H.
    specialize (H E coin Hin). cbn in H. rewrite Hpos in H. cbn in H. by destruct (get_total id (Denom coin) w).
  - intros H [addr id] E%elem_of_iterate coin Hin. cbn in *. destruct (Z.ltb_spec 0 (Amount coin)); [|done]. cbn.
    by destruct (H addr id coin E Hin) as [t ->].
Qed.

(** C13. On positive stored amounts the registered fee-pool invariant holds exactly if the
    fee-pool books are consistent, every pool with shares has a balance, and every coin of a
    registered pool address has shares. (The last two are about balances and are not kept by
    every step: a fee distribution that drains a pool leaves its shares, which the invariant
    then reports, see the finding on invariants.go:28.) *)
Theorem crisis_invariant_is_the_ledger w :
  (∀ k s, s_ConsumerFeePoolShares w !! k = Some s → 0 < s) →
  (∀ k t, s_ConsumerFeePoolTotalShares w !! k = Some t → 0 < t) →
  FeePoolSharesConsistencyInvariant w = false ↔
  ledger_ok w ∧
  (∀ id denom t, get_total id denom w = Some t → 0 < GetBalance (w_bank w) (GetConsumerFeePoolAddress id) denom) ∧
  owned_balances w.
Proof.
  intros Hs Ht.
  assert (FeePoolSharesConsistencyInvariant w = false ↔ violations w = []) as ->
    by (unfold FeePoolSharesConsistencyInvariant; by destruct (violations w)).
  unfold violations. cbv zeta. rewrite !app_nil, totals_agree, sums_agree, balances_owned. split.
  - intros (H1 & H2 & H3). split_and!; [split_and!; [done|done|]|intros id denom t E; by apply (H1 _ _ _ E); eapply Ht|done].
    intros id denom. rewrite <-share_sums_pool. destruct (get_total id denom w) as [t|] eqn:E.
    + by destruct (H1 _ _ _ E) as [-> _].
    + destruct (share_sums w !! (id, denom)) eqn:E2; [|done]. destruct (H2 id denom) as [? ?]; [by eexists|congruence].
  - intros ((_ & _ & Hsum) & Hb & Ho). split_and!; [|intros id denom Hsome|done].
    + intros id denom t E. split; [|intros _; by eapply Hb]. specialize (Hsum id denom). rewrite E, <-share_sums_pool in Hsum.
      apply Ht in E. destruct (share_sums w !! (id, denom)); cbn in Hsum; [by subst|lia].
    + apply share_sums_dom in Hsome as (dep & s & E). specialize (Hsum id denom).
      assert (s ≤ pool_shares id denom (s_ConsumerFeePoolShares w)) as Hle.
      { pose proof (map_sum_elem_le (λ k s, if in_pool id denom k then s else 0) (s_ConsumerFeePoolShares w) (id, denom, dep) s) as Hle.
        cbn in Hle. unfold in_pool at 2 in Hle. rewrite bool_decide_true in Hle by done. apply Hle; [|done].
        intros k v Ek. case_match; [|done]. apply Z.lt_le_incl. by eapply Hs. }
      apply Hs in E. destruct (get_total id denom w); [by eexists|cbn in Hsum; lia].
Qed.
End reports.
