(* ===== verification/Fees.v ===== *)
(** Fees a consumer owes its validators: keeper/fees.go. Each epoch the fee of a
    launched consumer is split over the bonded validators; the share of a
    validator with downtime evidence stays in the pool as a withheld-fee
    record, paid after a successful challenge or released at its expiry. *)
From S2P Require Import Prelude GoTime Types Externals World Keeper FeePool.

Section fees.
Context `{X : Externals}.

Definition MarkEpochDowntime (consumerId : N) (providerConsAddr : string) : K unit :=
  modify (upd_EpochDowntime (insert (consumerId, providerConsAddr) true)).
Definition IsEpochDowntime (consumerId : N) (providerConsAddr : string) (w : World) : bool :=
  bool_decide (is_Some (s_EpochDowntime w !! (consumerId, providerConsAddr))).
Definition ClearEpochDowntime : K unit := modify (upd_EpochDowntime (λ _, ∅)).

Definition SetEpochShareRecord (consumerId : N) (distributedAt : Time) (share : Z) : K unit :=
  modify (upd_EpochShareRecords (insert (consumerId, time_UnixNano distributedAt) share)).
Definition ResolveEpochShare (consumerId : N) (t : Time) (w : World) : option Z :=
  head (filter (λ kv, in_consumer (Some consumerId) kv.1 = true ∧ time_UnixNano t ≤ kv.1.2)
          (iterate (s_EpochShareRecords w))).*2.
Definition PruneEpochShareRecords (olderThan : Time) : K unit :=
  entries ← gets (λ w, iterate (s_EpochShareRecords w));
  let cutoff := time_UnixNano olderThan in
  let keysToDel := (filter (λ kv, kv.1.2 < cutoff) entries).*1 in
  for_each keysToDel (λ key, modify (upd_EpochShareRecords (delete key))).

Definition epochShareForConsumer (consumerId : N) (defaultFeePerEpoch defaultFeePerBlock : Coin)
    (numBonded : Z) : K (Coin * Z) :=
  '(consumerFeePerEpoch, _) ← effectiveFeesPerEpoch consumerId defaultFeePerEpoch defaultFeePerBlock;
  share ← Int_Quo (Amount consumerFeePerEpoch) numBonded;
  mret (consumerFeePerEpoch, share).

(** The default epoch fee: [fees_per_block * blocks_per_epoch]. *)
Definition default_fees : K (Coin * Coin) :=
  defaultFeePerBlock ← GetFeesPerBlock;
  blocksPerEpoch ← GetBlocksPerEpoch;
  defaultFeePerEpoch ← NewCoin (Denom defaultFeePerBlock) (Amount defaultFeePerBlock * blocksPerEpoch);
  mret (defaultFeePerBlock, defaultFeePerEpoch).

Definition liveEpochShare (consumerId : N) : K Z :=
  '(defaultFeePerBlock, defaultFeePerEpoch) ← default_fees;
  bonded ← (o ← gets (λ w, GetBondedValidatorsByPower (w_staking w)); of_option o ErrExternal);
  if decide (bonded = []) then mret 0 else
  let numBonded := Z.of_nat (length bonded) in
  snd <$> epochShareForConsumer consumerId defaultFeePerEpoch defaultFeePerBlock numBonded.

Definition ResolveDowntimeSlashTokens (consumerId : N) (packet : EvidencePacketData)
    (windowEndTime : Time) : K Z :=
  o ← gets (ResolveEpochShare consumerId windowEndTime);
  share ← match o with Some share => mret share | None => liveEpochShare consumerId end;
  let missedFraction := dec_QuoInt64 (dec_NewDec (MissedCount packet)) (Span packet) in
  conversionRate ← (o ← gets (λ w, ConversionRate (w_bank w)); of_option o ErrExternal);
  guard_err (dec_IsPositive conversionRate) (ErrOther "photon conversion rate must be positive");;
  mret (dec_TruncateInt (dec_Quo (dec_Mul (dec_NewDec share) missedFraction) conversionRate)).

(** [Coin.Add] panics on different denominations. *)
Definition Coin_Add (a b : Coin) : K Coin :=
  if String.eqb (Denom a) (Denom b) then mret (mkCoin (Denom a) (Amount a + Amount b)) else panic.

Definition recordWithheldFee (consumerId : N) (providerConsAddr : string) (amount : Coin) : K unit :=
  let key := (consumerId, providerConsAddr) in
  now ← asks BlockTime;
  ip ← GetInfractionParams;
  let expiresAt := time_Add now (DowntimeChallengeWindow ip) in
  o ← gets (λ w, s_WithheldFeeRecords w !! key);
  amount ← match o with
           | Some existing =>
               if time_After (wf_ExpiresAt existing) now
               then Coin_Add amount (wf_Amount existing) else mret amount
           | None => mret amount
           end;
  modify (upd_WithheldFeeRecords
    (insert key (mkWithheldFeeRecord consumerId providerConsAddr amount expiresAt))).

(** Consensus and account address of a bonded validator. *)
Definition bonded_val (val : Validator) : K (string * string) :=
  consAddr ← of_option (GetConsAddr val) ErrExternal;
  valAddr ← of_option (ValAddressFromBech32 (OperatorAddress val)) ErrExternal;
  mret (consAddr, valAddr).

(** [InputOutputCoins] on the world's bank, whatever it leaves behind. *)
Definition io_call (input : string * list Coin) (outputs : list (string * list Coin)) : K unit :=
  '(ok, b') ← gets (λ w, InputOutputCoins (w_bank w) input outputs);
  modify (set_bank b');;
  guard_err ok ErrExternal.

(** The loop body of [DistributeConsumerFees] for a launched consumer. *)
Definition distribute_to_consumer (bondedVals : list (string * string))
    (defaultFeePerEpoch defaultFeePerBlock : Coin) (numBonded : Z) (consumerId : N) : K unit :=
  '(consumerFeePerEpoch, share) ←
    epochShareForConsumer consumerId defaultFeePerEpoch defaultFeePerBlock numBonded;
  shareCoin ← NewCoin (Denom consumerFeePerEpoch) share;
  excludedConsAddrs ← gets (λ w, (filter (λ bv, IsEpochDowntime consumerId bv.1 w = true) bondedVals).*1);
  eligibleAddrs ← gets (λ w, (filter (λ bv, IsEpochDowntime consumerId bv.1 w = false) bondedVals).*2);
  now ← asks BlockTime;
  if share =? 0 then
    when (0 <? Amount consumerFeePerEpoch) (UpdateConsumerDebtStatus consumerId true);;
    SetEpochShareRecord consumerId now share
  else
    let denom := Denom consumerFeePerEpoch in
    balance ← gets (pool_balance consumerId denom);
    outstandingWithheld ← outstandingWithheldFees consumerId denom;
    let available := balance - outstandingWithheld in
    if available <? Amount consumerFeePerEpoch then
      UpdateConsumerDebtStatus consumerId true;;
      SetEpochShareRecord consumerId now 0
    else
      paid ← (if decide (eligibleAddrs = []) then mret true
              else
                totalCoin ← NewCoin denom (share * Z.of_nat (length eligibleAddrs));
                let outputs := (λ addr, (addr, NewCoins shareCoin)) <$> eligibleAddrs in
                let input := (GetConsumerFeePoolAddress consumerId, NewCoins totalCoin) in
                r ← try (cached (io_call input outputs));
                mret (match r with inl _ => false | inr _ => true end));
      if negb paid then SetEpochShareRecord consumerId now 0 else
      UpdateConsumerDebtStatus consumerId false;;
      SetEpochShareRecord consumerId now share;;
      for_each excludedConsAddrs (λ consAddr, recordWithheldFee consumerId consAddr shareCoin).

Definition DistributeConsumerFees : K unit :=
  '(defaultFeePerBlock, defaultFeePerEpoch) ← default_fees;
  bonded ← (o ← gets (λ w, GetBondedValidatorsByPower (w_staking w)); of_option o ErrExternal);
  if decide (bonded = []) then mret tt else
  let numBonded := Z.of_nat (length bonded) in
  bondedVals ← map_each bonded_val bonded;
  consumerIds ← gets GetAllActiveConsumerIds;
  for_each consumerIds (λ consumerId,
    phase ← gets (GetConsumerPhase consumerId);
    when (bool_decide (phase = CONSUMER_PHASE_LAUNCHED))
      (distribute_to_consumer bondedVals defaultFeePerEpoch defaultFeePerBlock numBonded consumerId)).

Definition withheldFeePayee (providerConsAddr : string) : K string :=
  val ← (o ← gets (λ w, GetValidatorByConsAddr (w_staking w) providerConsAddr); of_option o ErrExternal);
  of_option (ValAddressFromBech32 (OperatorAddress val)) ErrExternal.

(** One record of [PayWithheldFees]: a failure to pay only logs, and what
    the failing bank call wrote is kept, as in the code. *)
Definition pay_withheld (consumerId : N) (kv : N * string * WithheldFeeRecord) : K unit :=
  let '(key, record) := kv in
  modify (upd_WithheldFeeRecords (delete key));;
  now ← asks BlockTime;
  if negb (time_After (wf_ExpiresAt record) now) then mret tt else
  let denom := Denom (wf_Amount record) in
  balance ← gets (pool_balance consumerId denom);
  let payable := if balance <? Amount (wf_Amount record) then mkCoin denom balance
                 else wf_Amount record in
  if negb (0 <? Amount payable) then mret tt else
  r ← try (withheldFeePayee (wf_ProviderConsAddr record));
  match r with
  | inl _ => mret tt
  | inr accAddr =>
      let input := (GetConsumerFeePoolAddress consumerId, NewCoins payable) in
      let outputs := [(accAddr, NewCoins payable)] in
      try (io_call input outputs);;
      mret tt
  end.
Definition withheld_records (consumerId : N) (w : World) : list (N * string * WithheldFeeRecord) :=
  filter (λ kv, in_consumer (Some consumerId) kv.1 = true) (iterate (s_WithheldFeeRecords w)).
Definition PayWithheldFees (consumerId : N) : K unit :=
  records ← gets (withheld_records consumerId);
  for_each records (pay_withheld consumerId).

Definition SweepExpiredWithheldFeeRecords : K unit :=
  now ← asks BlockTime;
  entries ← gets (λ w, iterate (s_WithheldFeeRecords w));
  let expiredKeys := (filter (λ kv, time_After (wf_ExpiresAt kv.2) now = false) entries).*1 in
  for_each expiredKeys (λ key, modify (upd_WithheldFeeRecords (delete key))).
End fees.
