(* ===== verification/FeesProofs.v ===== *)
(** Theorems about fee distribution: the escrow of withheld fees stays covered
    by the pool, every launched consumer gets one share record per run, a share
    is priced by the earliest run at or after an instant, and withheld records
    are paid or released exactly once. *)
From S2P Require Import Prelude GoTime Types Externals World Keeper FeePool FeePoolProofs Fees.

Section fees.
Context `{X : Externals}.

(** ** The escrow as a sum over the record map *)
Definition escrow_term (id : N) (denom : string) (now : Time) (k : N * string) (r : WithheldFeeRecord) : Z :=
  if in_consumer (Some id) k && reserves denom now r then Amount (wf_Amount r) else 0.
Definition escrow (id : N) (denom : string) (now : Time) (w : World) : Z :=
  map_sum (escrow_term id denom now) (s_WithheldFeeRecords w).

Lemma available_escrow id denom c w :
  available id denom c w = pool_balance id denom w - escrow id denom (BlockTime c) w.
Proof.
  unfold available, escrow, map_sum. f_equal. rewrite !sumZ_filter, iterate_perm.
  apply sumZ_ext. intros [k r] _. unfold escrow_term; cbn.
  destruct (k.1 =? id)%N, (reserves denom (BlockTime c) r); done.
Qed.

Lemma escrow_insert id denom now k r w :
  escrow id denom now (upd_WithheldFeeRecords (insert k r) w)
  = escrow id denom now w + escrow_term id denom now k r
    - match s_WithheldFeeRecords w !! k with Some r0 => escrow_term id denom now k r0 | None => 0 end.
Proof.
  unfold escrow. cbn. rewrite map_sum_insert. unfold s_WithheldFeeRecords.
  destruct (WithheldFeeRecords (w_fs w) !! k) as [r0|] eqn:E.
  - rewrite (map_sum_delete _ _ _ _ E). lia.
  - rewrite delete_id by done. lia.
Qed.

(** Recording a share adds at most that share, to the escrow of that pool. *)
Lemma recordWithheldFee_escrow id cons amount id' denom c w :
  (∀ k r, s_WithheldFeeRecords w !! k = Some r → 0 ≤ Amount (wf_Amount r)) →
  0 ≤ Amount amount →
  escrow id' denom (BlockTime c) (recordWithheldFee id cons amount c w).2
  ≤ escrow id' denom (BlockTime c) w
    + if decide (id' = id ∧ denom = Denom amount) then Amount amount else 0.
Proof.
  intros Hpos Ha. unfold recordWithheldFee. rewrite bind_run. cbn [asks]. rewrite bind_run.
  unfold GetInfractionParams. rewrite bind_run. cbn [gets]. set (now := BlockTime c).
  destruct (s_InfractionParams_ w) as [ip|]; cbn [or_panic mret M_ret]; [|cbn; case_goal; lia].
  rewrite bind_run. cbn [gets]. rewrite bind_run.
  assert (∀ r, escrow_term id' denom now (id, cons) r
    = if decide (id' = id ∧ denom = Denom (wf_Amount r))
      then if time_After (wf_ExpiresAt r) now then Amount (wf_Amount r) else 0 else 0) as Hterm.
  { intros r. unfold escrow_term, reserves. cbn. case_decide as E.
    - destruct E as [-> ->]. by rewrite N.eqb_refl, String.eqb_refl.
    - destruct (N.eqb_spec id id'), (String.eqb_spec (Denom (wf_Amount r)) denom); try done. naive_solver. }
  destruct (s_WithheldFeeRecords w !! (id, cons)) as [r0|] eqn:E0.
  - pose proof (Hpos _ r0 E0).
    destruct (time_After (wf_ExpiresAt r0) now) eqn:El.
    + unfold Coin_Add. destruct (String.eqb_spec (Denom amount) (Denom (wf_Amount r0))) as [Ed|]; [|cbn; case_goal; lia].
      cbn [mret M_ret modify snd]. rewrite escrow_insert, E0, !Hterm. cbn [wf_Amount wf_ExpiresAt Denom Amount].
      rewrite <-Ed, El. repeat case_goal; lia.
    + cbn [mret M_ret modify snd]. rewrite escrow_insert, E0, !Hterm, El. cbn [wf_Amount wf_ExpiresAt].
      repeat case_goal; lia.
  - cbn [mret M_ret modify snd]. rewrite escrow_insert, E0, !Hterm. cbn [wf_Amount wf_ExpiresAt].
    repeat case_goal; lia.
Qed.

(** Escrowed amounts are never negative. *)
Definition records_nonneg (w : World) : Prop :=
  ∀ k r, s_WithheldFeeRecords w !! k = Some r → 0 ≤ Amount (wf_Amount r).

Lemma recordWithheldFee_nonneg id cons amount c w :
  0 ≤ Amount amount → records_nonneg w → records_nonneg (recordWithheldFee id cons amount c w).2.
Proof.
  intros Ha Hw. unfold recordWithheldFee. rewrite bind_run. cbn [asks]. rewrite bind_run.
  unfold GetInfractionParams. rewrite bind_run. cbn [gets].
  destruct (s_InfractionParams_ w) as [ip|]; cbn [or_panic mret M_ret]; [|done].
  rewrite bind_run. cbn [gets]. rewrite bind_run.
  assert (∀ k r, 0 ≤ Amount (wf_Amount r) → records_nonneg (upd_WithheldFeeRecords (insert k r) w)) as Hins.
  { intros k r Hr k' r'. cbn. rewrite lookup_insert_Some. intros [[_ <-]|[_ E]]; [done|by eapply Hw]. }
  destruct (s_WithheldFeeRecords w !! (id, cons)) as [r0|] eqn:E0.
  - apply Hw in E0. destruct (time_After _ _).
    + unfold Coin_Add. destruct (String.eqb _ _); [|done]. cbn [mret M_ret modify snd]. apply Hins. cbn. lia.
    + cbn [mret M_ret modify snd]. by apply Hins.
  - cbn [mret M_ret modify snd]. by apply Hins.
Qed.

(** Recording many shares: at most one share each, and the bank untouched. *)
Lemma record_all id amount c (l : list string) w :
  0 ≤ Amount amount → records_nonneg w →
  let w' := (for_each l (λ cons, recordWithheldFee id cons amount) c w).2 in
  records_nonneg w' ∧ w_bank w' = w_bank w ∧
  ∀ id' denom, escrow id' denom (BlockTime c) w' ≤ escrow id' denom (BlockTime c) w
    + if decide (id' = id ∧ denom = Denom amount) then Amount amount * Z.of_nat (length l) else 0.
Proof.
  intros Ha. revert w. induction l as [|x l IH]; intros w Hw; cbn [for_each].
  { cbn. split_and!; [done..|intros; case_goal; lia]. }
  rewrite bind_run.
  pose proof (λ id' denom, recordWithheldFee_escrow id x amount id' denom c w Hw Ha) as He.
  pose proof (recordWithheldFee_nonneg id x amount c w Ha Hw) as Hn.
  assert (w_bank (recordWithheldFee id x amount c w).2 = w_bank w) as Hb.
  { assert (preserves (λ v, w_bank v = w_bank w) (recordWithheldFee id x amount)) as P by pres. by apply P. }
  destruct (recordWithheldFee id x amount c w) as [[[]|e|] w1]; cbn [fst snd] in *.
  - destruct (IH w1 Hn) as (H1 & H2 & H3). cbn [length]. rewrite H2. split_and!; [done..|].
    intros id' denom. specialize (He id' denom). specialize (H3 id' denom). case_decide; lia.
  - cbn [length]. split_and!; [done..|]. intros id' denom. specialize (He id' denom). case_decide; lia.
  - cbn [length]. split_and!; [done..|]. intros id' denom. specialize (He id' denom). case_decide; lia.
Qed.
End fees.

(** ** Distribution *)
Section distribution.
Context `{X : Externals} {BL : BankLaws}.

Definition solvent (id : N) (denom : string) (c : Ctx) (w : World) : Prop :=
  records_nonneg w ∧ 0 ≤ available id denom c w.

Lemma received_nonneg outs a d :
  (∀ o, o ∈ outs → 0 ≤ AmountOf o.2 d) → 0 ≤ received outs a d.
Proof. intros Ho. apply sumZ_nonneg. intros o Hin. case_decide; [by apply Ho|lia]. Qed.

Lemma received_same outs n d a :
  (∀ o, o ∈ outs → AmountOf o.2 d = n) →
  received outs a d = n * Z.of_nat (length (filter (λ o, o.1 = a) outs)).
Proof.
  intros Ho. unfold received, sumZ. induction outs as [|o outs IH]; cbn [foldr]; [cbn; lia|].
  rewrite filter_cons, IH, (Ho o) by set_solver. case_decide; cbn [length]; lia.
Qed.

(** Frame of a step that touches neither the bank nor the records. *)
Definition same_funds (w w' : World) : Prop :=
  w_bank w' = w_bank w ∧ s_WithheldFeeRecords w' = s_WithheldFeeRecords w.
Lemma same_funds_solvent id denom c w w' : same_funds w w' → solvent id denom c w → solvent id denom c w'.
Proof.
  intros [Eb Er] [Hn Ha]. split; [unfold records_nonneg; by rewrite Er|].
  rewrite available_escrow in *. unfold escrow, pool_balance in *. by rewrite Er, Eb.
Qed.
Lemma same_funds_run {A} w (m : K A) c : preserves (same_funds w) m → same_funds w (m c w).2.
Proof. intros P. by apply P. Qed.

Lemma pool_address_inj `{!PayoutLaws} id id' :
  GetConsumerFeePoolAddress id = GetConsumerFeePoolAddress id' → id = id'.
Proof.
  unfold GetConsumerFeePoolAddress. intros E%module_address_inj.
  do 2 apply (inj (String.append _)) in E. by apply (inj pretty.pretty) in E.
Qed.

Lemma epochShare_Ok id dE dB n c w F share w1 :
  epochShareForConsumer id dE dB n c w = (Ok (F, share), w1) →
  w1 = w ∧ n ≠ 0 ∧ share = Z.quot (Amount F) n ∧ (0 ≤ Amount dE → 0 ≤ Amount F).
Proof.
  unfold epochShareForConsumer. intros ([F' b] & w2 & E & E2)%bind_Ok.
  apply bind_Ok in E2 as (sh & w3 & E2 & [[= <- <-] <-]%ret_Ok).
  unfold Int_Quo in E2. destruct (Z.eqb_spec n 0); [done|]. apply ret_Ok in E2 as [<- <-].
  unfold effectiveFeesPerEpoch in E. apply bind_Ok in E as (o & w4 & [<- <-]%gets_Ok & E).
  destruct (_ !! _); [|apply ret_Ok in E as [[= <- <-] <-]; done].
  apply bind_Ok in E as (bpe & w5 & E5 & E). apply bind_Ok in E as (cc & w6 & E6 & [[= <- <-] <-]%ret_Ok).
  unfold NewCoin in E6. destruct (Z.ltb_spec (z * bpe) 0); [done|]. apply ret_Ok in E6 as [<- <-].
  assert (w5 = w) as ->; [|done].
  assert (preserves (λ v, v = w) GetBlocksPerEpoch) as P by pres. by eapply (preserves_run _ _ _ _ _ _ P).
Qed.

(** The pool gives up at most what it pays out. *)
Lemma io_call_cached_bank from ins outs c w r w1 :
  try (cached (io_call (from, ins) outs)) c w = (Ok r, w1) →
  s_WithheldFeeRecords w1 = s_WithheldFeeRecords w ∧
  match r with
  | inl _ => w1 = w
  | inr _ => ∀ a d, GetBalance (w_bank w1) a d
               = GetBalance (w_bank w) a d - (if decide (a = from) then AmountOf ins d else 0) + received outs a d
  end.
Proof.
  unfold try, cached, io_call. rewrite bind_run. cbn [gets].
  destruct (InputOutputCoins (w_bank w) (from, ins) outs) as [ok b'] eqn:E. rewrite bind_run. cbn [modify].
  destruct ok; cbn [guard_err mret M_ret raise]; intros [= <- <-]; cbn; [|done].
  split; [done|]. by apply io_balance.
Qed.

(** The rest of the section watches one pool, any one, in one denom. *)
Context (pool : N) (coin : string).

(** Paying [E] validators and withholding from [X] of the [n] that a fee of
    at least [n] shares is split over, out of a pool that covers the fee. *)
Lemma pay_and_withhold_solvent `{!PayoutLaws} c w w1 id0 amount (excluded : list string) n :
  solvent pool coin c w → 0 ≤ Amount amount →
  s_WithheldFeeRecords w1 = s_WithheldFeeRecords w →
  (∀ a d, GetBalance (w_bank w) a d
          - (if decide (a = GetConsumerFeePoolAddress id0)
             then if decide (d = Denom amount) then Amount amount * (n - Z.of_nat (length excluded)) else 0 else 0)
          ≤ GetBalance (w_bank w1) a d) →
  Amount amount * n ≤ available id0 (Denom amount) c w →
  solvent pool coin c (for_each excluded (λ cons, recordWithheldFee id0 cons amount) c w1).2.
Proof.
  intros [Hrec Hav] Ha Er Hb Hfee.
  assert (records_nonneg w1) as Hn1 by (unfold records_nonneg; by rewrite Er).
  destruct (record_all id0 amount c excluded w1 Ha Hn1) as (Hn & Ebank & Hesc).
  split; [done|]. rewrite available_escrow in *.
  specialize (Hesc pool coin). specialize (Hb (GetConsumerFeePoolAddress pool) coin).
  unfold pool_balance in *. rewrite Ebank.
  assert (escrow pool coin (BlockTime c) w1 = escrow pool coin (BlockTime c) w) as Ee.
  { unfold escrow. by rewrite Er. }
  destruct (decide (pool = id0)) as [->|Hid].
  - rewrite decide_True in Hb by done. destruct (decide (coin = Denom amount)) as [->|Hd].
    + rewrite decide_True in Hesc by done. lia.
    + rewrite decide_False in Hesc by naive_solver. lia.
  - rewrite decide_False in Hb by (intros ?%pool_address_inj; done).
    rewrite decide_False in Hesc by naive_solver. lia.
Qed.

Lemma filter_bool_length {A} (P : A → bool) (l : list A) :
  (length (filter (λ x, P x = true) l) + length (filter (λ x, P x = false) l) = length l)%nat.
Proof.
  induction l as [|x l IH]; [done|]. rewrite !filter_cons.
  destruct (P x); repeat case_decide; try done; cbn; lia.
Qed.

Lemma AmountOf_outputs (addrs : list string) cn o d :
  o ∈ (λ addr, (addr, NewCoins cn)) <$> addrs →
  AmountOf o.2 d = if decide (d = Denom cn) then Amount cn else 0.
Proof.
  intros (a & -> & _)%list_elem_of_fmap. cbn [fst snd]. rewrite AmountOf_NewCoins.
  repeat case_decide; congruence.
Qed.

Lemma withhold_tail_solvent `{!PayoutLaws} c w w1 id share denom (excluded : list string) n :
  solvent pool coin c w → 0 ≤ share →
  s_WithheldFeeRecords w1 = s_WithheldFeeRecords w →
  (∀ a d, GetBalance (w_bank w) a d
          - (if decide (a = GetConsumerFeePoolAddress id)
             then if decide (d = denom) then share * (n - Z.of_nat (length excluded)) else 0 else 0)
          ≤ GetBalance (w_bank w1) a d) →
  share * n ≤ available id denom c w →
  solvent pool coin c ((UpdateConsumerDebtStatus id false;;
                  SetEpochShareRecord id (BlockTime c) share;;
                  for_each excluded (λ cons, recordWithheldFee id cons (mkCoin denom share))) c w1).2.
Proof.
  intros Hw Hs Er Hb Hfee. rewrite bind_run.
  assert (∃ w2, UpdateConsumerDebtStatus id false c w1 = (Ok tt, w2) ∧ same_funds w1 w2) as (w2 & -> & Eb2 & Er2).
  { unfold UpdateConsumerDebtStatus. rewrite bind_run. cbn [gets].
    destruct (Bool.eqb _ _); eexists; split; [done|done|done|done]. }
  rewrite bind_run. cbn [SetEpochShareRecord modify].
  eapply (pay_and_withhold_solvent c w _ id (mkCoin denom share) excluded n); try done.
  - cbn. by rewrite <-Er.
  - intros a d. cbn [upd_EpochShareRecords w_bank Denom Amount]. rewrite Eb2. apply Hb.
Qed.

Lemma distribute_solvent `{!PayoutLaws} vals dE dB n id c w :
  n = Z.of_nat (length vals) → 0 ≤ Amount dE → solvent pool coin c w →
  solvent pool coin c (distribute_to_consumer vals dE dB n id c w).2.
Proof.
  intros Hlen HdE Hw. unfold distribute_to_consumer. rewrite bind_run.
  destruct (epochShareForConsumer id dE dB n c w) as [r w1] eqn:E.
  assert (w1 = w) as ->.
  { assert (preserves (λ v, v = w) (epochShareForConsumer id dE dB n)) as P by pres.
    by eapply (preserves_run _ _ _ _ _ _ P). }
  destruct r as [[F share]|e|]; [|done..]. cbv beta iota zeta. cbn [fst snd].
  destruct (epochShare_Ok _ _ _ _ _ _ _ _ _ E) as (_ & Hn & Es & HF). specialize (HF HdE).
  assert (0 ≤ share ∧ share * n ≤ Amount F) as [Hs0 HsF].
  { rewrite Es. pose proof (quot_mul_le (Amount F) n HF ltac:(lia)). lia. }
  rewrite bind_run. unfold NewCoin at 1. rewrite (proj2 (Z.ltb_ge share 0)) by done. cbn [mret M_ret].
  rewrite bind_run. cbn [gets]. rewrite bind_run. cbn [gets]. rewrite bind_run. cbn [asks].
  set (excluded := (filter _ vals).*1). set (eligible := (filter _ vals).*2).
  assert (Z.of_nat (length excluded) + Z.of_nat (length eligible) = n) as Hsplit.
  { unfold excluded, eligible. rewrite !length_fmap.
    pose proof (filter_bool_length (λ bv : string * string, IsEpochDowntime id bv.1 w) vals). lia. }
  destruct (share =? 0) eqn:Ez.
  { eapply same_funds_solvent; [|done]. apply same_funds_run; pres. }
  rewrite bind_run. cbn [gets]. rewrite bind_run, outstandingWithheldFees_run. cbv zeta.
  fold (available id (Denom F) c w).
  destruct (Z.ltb_spec (available id (Denom F) c w) (Amount F)).
  { eapply same_funds_solvent; [|done]. apply same_funds_run; pres. }
  rewrite bind_run.
  destruct (decide (eligible = [])) as [Enil|Hne].
  { cbn [mret M_ret negb]. eapply (withhold_tail_solvent c w w id share (Denom F) excluded n); try done; [|nia].
    intros a d. rewrite Enil in Hsplit. cbn in Hsplit. repeat case_goal; lia. }
  rewrite bind_run. unfold NewCoin. rewrite (proj2 (Z.ltb_ge (share * _) 0)) by lia. cbn [mret M_ret].
  rewrite bind_run.
  destruct (try _ c w) as [r w1] eqn:Eio. destruct r as [r| |]; [|exfalso..].
  2,3: unfold try, cached, io_call in Eio; rewrite bind_run in Eio; cbn [gets] in Eio;
    destruct (InputOutputCoins _ _ _) as [[] ?]; discriminate.
  apply io_call_cached_bank in Eio as [Er Eio]. cbn [mret M_ret]. destruct r as [er|u].
  { rewrite Eio. cbn [negb]. eapply same_funds_solvent; [|done]. apply same_funds_run; pres. }
  cbn [negb]. eapply (withhold_tail_solvent c w w1 id share (Denom F) excluded n); try done; [|nia].
  intros a d. rewrite Eio. rewrite AmountOf_NewCoins. cbn [Denom Amount].
  set (outs := _ <$> eligible).
  assert (0 ≤ received outs a d).
  { apply received_nonneg. intros o Ho. rewrite (AmountOf_outputs _ _ _ _ Ho). cbn. case_goal; lia. }
  replace (n - Z.of_nat (length excluded)) with (Z.of_nat (length eligible)) by lia.
  repeat case_goal; subst; try congruence; lia.
Qed.

Lemma default_fees_Ok c w dB dE w1 :
  default_fees c w = (Ok (dB, dE), w1) → w1 = w ∧ 0 ≤ Amount dE.
Proof.
  intros E. split.
  - assert (preserves (λ v, v = w) default_fees) as P by pres. by eapply (preserves_run _ _ _ _ _ _ P).
  - unfold default_fees in E. apply bind_Ok in E as (x & w2 & _ & E). apply bind_Ok in E as (y & w3 & _ & E).
    apply bind_Ok in E as (z & w4 & Ez & [[= <- <-] <-]%ret_Ok). unfold NewCoin in Ez.
    destruct (Z.ltb_spec (Amount x * y) 0); [done|]. by apply ret_Ok in Ez as [<- _].
Qed.

Lemma map_each_length {A B} (f : A → K B) l c w ys w1 :
  map_each f l c w = (Ok ys, w1) → length ys = length l.
Proof.
  revert w ys w1. induction l as [|x l IH]; intros w ys w1; cbn [map_each].
  - by intros [<- _]%ret_Ok.
  - intros (y & w2 & _ & E)%bind_Ok. apply bind_Ok in E as (ys' & w3 & E & [<- _]%ret_Ok).
    cbn. by rewrite (IH _ _ _ E).
Qed.

Lemma bonded_vals_read_only c w bonded :
  (map_each bonded_val bonded c w : _ * World).2 = w.
Proof.
  assert (preserves (λ v, v = w) (map_each (W := World) bonded_val bonded)) as P by pres. by apply P.
Qed.

(** C21. DistributeConsumerFees keeps each pool solvent on its own: a pool whose balance in
    a denom covers its unexpired withheld-fee records before the distribution covers them
    after it, whatever the outcome and whatever state the other pools are in (no recorded
    amount being negative). *)
Theorem distribution_never_spends_escrow `{!PayoutLaws} c w :
  solvent pool coin c w → solvent pool coin c (DistributeConsumerFees c w).2.
Proof.
  intros Hw. unfold DistributeConsumerFees. rewrite bind_run.
  destruct (default_fees c w) as [r w1] eqn:E.
  assert (w1 = w) as ->.
  { assert (preserves (λ v, v = w) default_fees) as P by pres. by eapply (preserves_run _ _ _ _ _ _ P). }
  destruct r as [[dB dE]|e|]; [|done..]. apply default_fees_Ok in E as [_ HdE]. cbv beta iota.
  rewrite bind_run. rewrite bind_run. cbn [gets].
  destruct (GetBondedValidatorsByPower (w_staking w)) as [bonded|]; cbn [of_option mret M_ret]; [|done].
  case_decide; [done|]. rewrite bind_run. pose proof (bonded_vals_read_only c w bonded) as Ew.
  destruct (map_each bonded_val bonded c w) as [[vals|e|] w1] eqn:Ev; cbn in Ew; subst w1; [|done..].
  apply map_each_length in Ev. rewrite bind_run. cbn [gets].
  apply for_each_keeps; [done|]. intros id w1 _ Hw1. rewrite bind_run. cbn [gets].
  case_bool_decide; cbn [when]; [|done]. apply distribute_solvent; [by rewrite Ev|done|done].
Qed.

(** *** What a run does to one launched consumer *)
Definition records_in (id : N) (denom : string) (w : World) : Prop :=
  ∀ cons r, s_WithheldFeeRecords w !! (id, cons) = Some r → Denom (wf_Amount r) = denom.

Definition fee_view (w : World) := (w_bank w, s_ConsumerDebt w, s_EpochShareRecords w, s_InfractionParams_ w).

Lemma recordWithheldFee_Ok id cons amount ip c w :
  s_InfractionParams_ w = Some ip → records_in id (Denom amount) w → records_nonneg w →
  ∃ n, Amount amount ≤ n ∧
    recordWithheldFee id cons amount c w
    = (Ok tt, upd_WithheldFeeRecords (insert (id, cons) (mkWithheldFeeRecord id cons
        (mkCoin (Denom amount) n) (time_Add (BlockTime c) (DowntimeChallengeWindow ip)))) w).
Proof.
  intros Hip Hden Hpos. unfold recordWithheldFee. rewrite bind_run. cbn [asks]. rewrite bind_run.
  unfold GetInfractionParams. rewrite bind_run. cbn [gets]. rewrite Hip. cbn [or_panic mret M_ret].
  rewrite bind_run. cbn [gets]. rewrite bind_run. destruct amount as [denom n]. cbn [Denom Amount] in *.
  destruct (_ !! (id, cons)) as [r0|] eqn:E0; [|exists n; split; [lia|done]].
  destruct (time_After _ _); [|exists n; split; [lia|done]].
  exists (n + Amount (wf_Amount r0)). apply Hpos in E0 as ?. split; [cbn; lia|].
  unfold Coin_Add. cbn [Denom Amount]. by rewrite (Hden _ _ E0), String.eqb_refl.
Qed.

Lemma record_all_Ok id amount ip c (l : list string) w :
  s_InfractionParams_ w = Some ip → records_in id (Denom amount) w → records_nonneg w → 0 ≤ Amount amount →
  ∃ w', for_each l (λ cons, recordWithheldFee id cons amount) c w = (Ok tt, w') ∧
    fee_view w' = fee_view w ∧
    ∀ cons, (cons ∈ l → ∃ r, s_WithheldFeeRecords w' !! (id, cons) = Some r ∧
               Amount amount ≤ Amount (wf_Amount r) ∧
               wf_ExpiresAt r = time_Add (BlockTime c) (DowntimeChallengeWindow ip)) ∧
            (¬ cons ∈ l → s_WithheldFeeRecords w' !! (id, cons) = s_WithheldFeeRecords w !! (id, cons)).
Proof.
  intros Hip Hden Hpos Ha. induction l as [|x l IH] using rev_ind.
  { exists w. split_and!; [done..|]. intros cons. split; [set_solver|done]. }
  destruct IH as (w1 & E1 & Ev & Hrec).
  assert (preserves (λ v, records_in id (Denom amount) v ∧ records_nonneg v ∧ s_InfractionParams_ v = Some ip)
    (for_each l (λ cons, recordWithheldFee id cons amount))) as P.
  { apply preserves_for_each. intros cons c' v (H1 & H2 & H3).
    destruct (recordWithheldFee_Ok id cons amount ip c' v H3 H1 H2) as (n & Hn & ->). cbn [snd].
    split_and!; [..|done].
    - intros k r. cbn. rewrite lookup_insert_Some. intros [[_ <-]|[_ E]]; [done|by eapply H1].
    - intros k r. cbn. rewrite lookup_insert_Some. intros [[_ <-]|[_ E]]; [cbn; lia|by eapply H2]. }
  destruct (preserves_run _ _ _ _ _ _ P (conj Hden (conj Hpos Hip)) E1) as (H1 & H2 & H3).
  destruct (recordWithheldFee_Ok id x amount ip c w1 H3 H1 H2) as (n & Hn & E2).
  eexists. split.
  { apply for_each_app_Ok. exists w1. split; [done|]. cbn [for_each]. rewrite bind_run, E2. done. }
  split; [by rewrite <-Ev|]. intros cons. specialize (Hrec cons) as [Hin Hout]. cbn.
  destruct (decide (cons = x)) as [->|Hne].
  - rewrite lookup_insert_eq. split; [intros _; eexists; split; [done|]; cbn; split; [lia|done]|set_solver].
  - rewrite lookup_insert_ne by congruence. split; intros Hx; [apply Hin|apply Hout]; set_solver.
Qed.

Lemma UpdateConsumerDebtStatus_run id b c w :
  ∃ w', UpdateConsumerDebtStatus id b c w = (Ok tt, w') ∧
    w' = upd_ConsumerDebt (λ _, s_ConsumerDebt w') w ∧ IsConsumerInDebt id w' = b.
Proof.
  unfold UpdateConsumerDebtStatus. rewrite bind_run. cbn [gets].
  destruct (Bool.eqb _ _) eqn:E; eexists; (split; [reflexivity|]).
  - split; [by destruct w as [? ? ? [] ? ? ? ?]|]. by apply eqb_prop.
  - split; [done|]. unfold IsConsumerInDebt, s_ConsumerDebt. cbn. by rewrite lookup_insert_eq.
Qed.

Definition excluded_vals (id : N) (vals : list (string * string)) (w : World) : list string :=
  (filter (λ bv, IsEpochDowntime id bv.1 w = true) vals).*1.
Definition eligible_vals (id : N) (vals : list (string * string)) (w : World) : list string :=
  (filter (λ bv, IsEpochDowntime id bv.1 w = false) vals).*2.
Definition share_record (id : N) (c : Ctx) (w : World) : option Z :=
  s_EpochShareRecords w !! (id, time_UnixNano (BlockTime c)).

(** A launched consumer whose unreserved balance does not cover the epoch fee is marked
    in debt, is recorded with a zero share for the epoch, and no funds move. *)
Lemma underfunded_consumer_goes_into_debt vals dE dB n id c w F share :
  epochShareForConsumer id dE dB n c w = (Ok (F, share), w) → 0 < share →
  available id (Denom F) c w < Amount F →
  ∃ w', distribute_to_consumer vals dE dB n id c w = (Ok tt, w') ∧
    IsConsumerInDebt id w' = true ∧ share_record id c w' = Some 0 ∧ same_funds w w'.
Proof.
  intros E Hs Hav. unfold distribute_to_consumer. rewrite bind_run, E. cbv beta iota zeta.
  rewrite bind_run. unfold NewCoin at 1. rewrite (proj2 (Z.ltb_ge share 0)) by lia. cbn [mret M_ret].
  rewrite bind_run. cbn [gets]. rewrite bind_run. cbn [gets]. rewrite bind_run. cbn [asks].
  rewrite (proj2 (Z.eqb_neq share 0)) by lia.
  rewrite bind_run. cbn [gets]. rewrite bind_run, outstandingWithheldFees_run. cbv zeta.
  fold (available id (Denom F) c w). rewrite (proj2 (Z.ltb_lt _ (Amount F))) by done.
  destruct (UpdateConsumerDebtStatus_run id true c w) as (w2 & E2 & Ew2 & Hd).
  rewrite bind_run, E2. eexists. split; [reflexivity|]. split; [done|]. split.
  - unfold share_record. cbn. by rewrite lookup_insert_eq.
  - rewrite Ew2. done.
Qed.

Lemma filter_fmap_length (cs : list Coin) (a : string) l :
  length (filter (λ o : string * list Coin, o.1 = a) ((λ addr, (addr, cs)) <$> l))
  = length (filter (λ x, x = a) l).
Proof.
  induction l as [|x l IH]; [done|]. rewrite fmap_cons, !filter_cons. cbn.
  case_decide; cbn; by rewrite IH.
Qed.

(** Up to the withholding, a funded run is one bank call. *)
Lemma funded_payment vals dE dB n id c w F share b' :
  epochShareForConsumer id dE dB n c w = (Ok (F, share), w) → 0 < share →
  Amount F ≤ available id (Denom F) c w →
  let eligible := eligible_vals id vals w in
  let total := share * Z.of_nat (length eligible) in
  (eligible ≠ [] →
   InputOutputCoins (w_bank w) (GetConsumerFeePoolAddress id, NewCoins (mkCoin (Denom F) total))
     ((λ addr, (addr, NewCoins (mkCoin (Denom F) share))) <$> eligible) = (true, b')) →
  ∃ w1, distribute_to_consumer vals dE dB n id c w
      = (UpdateConsumerDebtStatus id false;; SetEpochShareRecord id (BlockTime c) share;;
         for_each (excluded_vals id vals w) (λ cons, recordWithheldFee id cons (mkCoin (Denom F) share))) c w1
    ∧ w1 = set_bank (w_bank w1) w ∧
    (∀ a d, GetBalance (w_bank w1) a d = GetBalance (w_bank w) a d +
      if decide (d = Denom F)
      then share * Z.of_nat (length (filter (λ x, x = a) eligible))
           - (if decide (a = GetConsumerFeePoolAddress id) then total else 0)
      else 0).
Proof.
  intros E Hs Hav eligible total Hio. unfold distribute_to_consumer. rewrite bind_run, E. cbv beta iota zeta.
  rewrite bind_run. unfold NewCoin at 1. rewrite (proj2 (Z.ltb_ge share 0)) by lia. cbn [mret M_ret].
  rewrite bind_run. cbn [gets]. rewrite bind_run. cbn [gets]. rewrite bind_run. cbn [asks].
  rewrite (proj2 (Z.eqb_neq share 0)) by lia.
  rewrite bind_run. cbn [gets]. rewrite bind_run, outstandingWithheldFees_run. cbv zeta.
  fold (available id (Denom F) c w). rewrite (proj2 (Z.ltb_ge _ (Amount F))) by lia.
  fold (eligible_vals id vals w) (excluded_vals id vals w). fold eligible. rewrite bind_run.
  destruct (decide (eligible = [])) as [Enil|Hne].
  { exists w. split; [done|]. split; [by destruct w|]. intros a d. unfold total. rewrite Enil. cbn.
    repeat case_goal; lia. }
  rewrite bind_run. unfold NewCoin. rewrite (proj2 (Z.ltb_ge (share * _) 0)) by lia. cbn [mret M_ret].
  rewrite bind_run. unfold try, cached, io_call. rewrite bind_run. cbn [gets]. fold total. rewrite Hio by done.
  exists (set_bank b' w). split; [done|]. split; [done|]. intros a d. cbn [w_bank set_bank].
  rewrite (io_balance _ _ _ _ _ (Hio Hne)). rewrite AmountOf_NewCoins. cbn [Denom Amount].
  assert (received ((λ addr, (addr, NewCoins (mkCoin (Denom F) share))) <$> eligible) a d
    = (if decide (d = Denom F) then share else 0) * Z.of_nat (length (filter (λ x, x = a) eligible))) as ->.
  { rewrite (received_same _ (if decide (d = Denom F) then share else 0)).
    - rewrite filter_fmap_length. done.
    - intros o Ho. apply (AmountOf_outputs _ _ _ _ Ho). }
  repeat case_goal; subst; try congruence; lia.
Qed.

(** C22. A launched consumer that can pay the epoch fee pays each bonded validator without
    downtime evidence exactly its share, records the share of every excluded validator as
    withheld until the challenge window ends, records the epoch's share, and is out of debt.
    *)
Theorem funded_consumer_pays_every_validator vals dE dB n id c w F share ip b' :
  epochShareForConsumer id dE dB n c w = (Ok (F, share), w) → 0 < share →
  Amount F ≤ available id (Denom F) c w →
  let eligible := eligible_vals id vals w in
  let total := share * Z.of_nat (length eligible) in
  (eligible ≠ [] →
   InputOutputCoins (w_bank w) (GetConsumerFeePoolAddress id, NewCoins (mkCoin (Denom F) total))
     ((λ addr, (addr, NewCoins (mkCoin (Denom F) share))) <$> eligible) = (true, b')) →
  s_InfractionParams_ w = Some ip → records_in id (Denom F) w → records_nonneg w →
  ∃ w', distribute_to_consumer vals dE dB n id c w = (Ok tt, w') ∧
    IsConsumerInDebt id w' = false ∧ share_record id c w' = Some share ∧
    (∀ a d, GetBalance (w_bank w') a d = GetBalance (w_bank w) a d +
      if decide (d = Denom F)
      then share * Z.of_nat (length (filter (λ x, x = a) eligible))
           - (if decide (a = GetConsumerFeePoolAddress id) then total else 0)
      else 0) ∧
    (∀ cons, cons ∈ excluded_vals id vals w →
       ∃ r, s_WithheldFeeRecords w' !! (id, cons) = Some r ∧ share ≤ Amount (wf_Amount r) ∧
         wf_ExpiresAt r = time_Add (BlockTime c) (DowntimeChallengeWindow ip)).
Proof.
  intros E Hs Hav eligible total Hio Hip Hden Hpos.
  destruct (funded_payment vals dE dB n id c w F share b' E Hs Hav Hio) as (w1 & -> & Ew1 & Hbal).
  destruct (UpdateConsumerDebtStatus_run id false c w1) as (w2 & E2 & Ew2 & Hd).
  rewrite bind_run, E2, bind_run. cbn [SetEpochShareRecord modify].
  set (w3 := upd_EpochShareRecords _ w2).
  assert (fee_view w3 = (w_bank w1, s_ConsumerDebt w2, <[(id, time_UnixNano (BlockTime c)) := share]> (s_EpochShareRecords w), s_InfractionParams_ w)
    ∧ s_WithheldFeeRecords w3 = s_WithheldFeeRecords w) as [Ev3 Er3].
  { unfold w3, fee_view. cbn. rewrite Ew2. cbn. rewrite Ew1. done. }
  destruct (record_all_Ok id (mkCoin (Denom F) share) ip c (excluded_vals id vals w) w3) as (w4 & E4 & Ev4 & Hrec).
  { by rewrite <-Hip; apply (f_equal snd) in Ev3. } { unfold records_in. by rewrite Er3. } { unfold records_nonneg. by rewrite Er3. }
  { cbn. lia. }
  exists w4. rewrite E4. split; [done|]. rewrite Ev3 in Ev4.
  assert (w_bank w4 = w_bank w1) as Eb by (by apply (f_equal (λ v, v.1.1.1)) in Ev4).
  assert (s_ConsumerDebt w4 = s_ConsumerDebt w2) as Ed by (by apply (f_equal (λ v, v.1.1.2)) in Ev4).
  assert (s_EpochShareRecords w4 = <[(id, time_UnixNano (BlockTime c)) := share]> (s_EpochShareRecords w))
    as Es by (by apply (f_equal (λ v, v.1.2)) in Ev4).
  split_and!.
  - rewrite <-Hd. unfold IsConsumerInDebt. by rewrite Ed.
  - unfold share_record. by rewrite Es, lookup_insert_eq.
  - by rewrite Eb.
  - intros cons Hin. by apply Hrec.
Qed.
End distribution.

(** ** One record per launched consumer and run *)
Section records.
Context `{X : Externals}.

Lemma SetEpochShareRecord_Ok id share c w u w' :
  SetEpochShareRecord id (BlockTime c) share c w = (Ok u, w') → share_record id c w' = Some share.
Proof. unfold SetEpochShareRecord. intros ->%modify_Ok. unfold share_record. cbn. by rewrite lookup_insert_eq. Qed.

Lemma distribute_records vals dE dB n id c w w' :
  distribute_to_consumer vals dE dB n id c w = (Ok tt, w') → is_Some (share_record id c w').
Proof.
  unfold distribute_to_consumer. intros ([F share] & w1 & _ & E)%bind_Ok.
  apply bind_Ok in E as (cn & w2 & _ & E). apply bind_Ok in E as (ex & w3 & _ & E).
  apply bind_Ok in E as (el & w4 & _ & E). apply bind_Ok in E as (now & w5 & [<- <-]%asks_Ok & E).
  destruct (share =? 0).
  { apply bind_Ok in E as ([] & w6 & _ & E). by eexists; eapply SetEpochShareRecord_Ok. }
  apply bind_Ok in E as (bal & w6 & _ & E). apply bind_Ok in E as (out & w7 & _ & E).
  destruct (_ <? _).
  { apply bind_Ok in E as ([] & w8 & _ & E). by eexists; eapply SetEpochShareRecord_Ok. }
  apply bind_Ok in E as (paid & w8 & _ & E). destruct (negb paid).
  { by eexists; eapply SetEpochShareRecord_Ok. }
  apply bind_Ok in E as ([] & w9 & _ & E). apply bind_Ok in E as ([] & w10 & E10 & E).
  apply SetEpochShareRecord_Ok in E10. exists share. rewrite <-E10.
  assert (preserves (λ v, s_EpochShareRecords v = s_EpochShareRecords w10)
    (for_each ex (λ consAddr, recordWithheldFee id consAddr cn))) as P by pres.
  unfold share_record. by rewrite (preserves_run _ _ _ _ _ _ P eq_refl E).
Qed.

Lemma distribute_frame vals dE dB n id (m : gmap N ConsumerPhase) (f : N * Z → option Z) :
  preserves (λ w, s_ConsumerPhases w = m ∧ ∀ k, k.1 ≠ id → s_EpochShareRecords w !! k = f k)
    (distribute_to_consumer vals dE dB n id).
Proof.
  assert (∀ t s, preserves (λ w, s_ConsumerPhases w = m ∧ ∀ k, k.1 ≠ id → s_EpochShareRecords w !! k = f k)
    (SetEpochShareRecord id t s)) as HS.
  { intros t s. apply preserves_modify. intros w [? Hf]. split; [done|]. intros k Hk. cbn.
    rewrite lookup_insert_ne; [by apply Hf|]. by intros <-. }
  unfold distribute_to_consumer. pres.
Qed.

(** After a successful distribution with bonded validators every launched consumer has
    an epoch-share record for the block time, and no other consumer's record at that time
    changes. *)
Lemma every_launched_consumer_is_recorded c w w' :
  DistributeConsumerFees c w = (Ok tt, w') →
  GetBondedValidatorsByPower (w_staking w) ≠ Some [] →
  ∀ id,
    (id ∈ GetAllActiveConsumerIds w → GetConsumerPhase id w = CONSUMER_PHASE_LAUNCHED →
       is_Some (share_record id c w')) ∧
    (GetConsumerPhase id w ≠ CONSUMER_PHASE_LAUNCHED → share_record id c w' = share_record id c w).
Proof.
  unfold DistributeConsumerFees. intros ([dB dE] & w1 & E1 & E)%bind_Ok Hb.
  apply default_fees_Ok in E1 as [-> _].
  apply bind_Ok in E as (bonded & w2 & (o & w3 & [<- <-]%gets_Ok & [Eo <-]%of_option_Ok)%bind_Ok & E).
  case_decide as Hnil; [congruence|]. apply bind_Ok in E as (vals & w4 & Ev & E).
  assert (w4 = w) as ->.
  { pose proof (bonded_vals_read_only c w bonded) as P. by rewrite Ev in P. }
  apply bind_Ok in E as (ids & w5 & [<- <-]%gets_Ok & E).
  assert (s_ConsumerPhases w' = s_ConsumerPhases w ∧ ∀ id,
    (id ∈ GetAllActiveConsumerIds w → GetConsumerPhase id w = CONSUMER_PHASE_LAUNCHED →
       is_Some (share_record id c w')) ∧
    (GetConsumerPhase id w ≠ CONSUMER_PHASE_LAUNCHED → share_record id c w' = share_record id c w))
    as [_ H]; [|done].
  revert E. apply (for_each_Ok_ind (λ dn v, s_ConsumerPhases v = s_ConsumerPhases w ∧ ∀ id,
    (id ∈ dn → GetConsumerPhase id w = CONSUMER_PHASE_LAUNCHED → is_Some (share_record id c v)) ∧
    (GetConsumerPhase id w ≠ CONSUMER_PHASE_LAUNCHED → share_record id c v = share_record id c w))).
  - split; [done|]. intros id. split; [set_solver|done].
  - intros dn x rest v v' _ [Hph HI] E. apply bind_Ok in E as (ph & v1 & [<- <-]%gets_Ok & E).
    assert (GetConsumerPhase x v = GetConsumerPhase x w) as Ex by (unfold GetConsumerPhase; by rewrite Hph).
    rewrite Ex in E. case_bool_decide as Hx; cbn [when] in E.
    + pose proof (distribute_records _ _ _ _ _ _ _ _ E) as Hrec.
      pose proof (distribute_frame vals dE dB (Z.of_nat (length bonded)) x (s_ConsumerPhases v)
        (λ k, s_EpochShareRecords v !! k)) as P.
      destruct (preserves_run _ _ _ _ _ _ P (conj eq_refl (λ k _, eq_refl)) E) as [Hph' Hf].
      split; [congruence|]. intros id. destruct (decide (id = x)) as [->|Hne]; [done|].
      assert (share_record id c v' = share_record id c v) as -> by (by apply Hf).
      destruct (HI id) as [H1 H2]. split; [|done]. intros Hin. apply H1. set_solver.
    + apply ret_Ok in E as [_ <-]. split; [done|]. intros id. destruct (HI id) as [H1 H2].
      split; [|done]. intros Hin Hl. apply elem_of_app in Hin as [Hin|Hin]; [by apply H1|].
      apply list_elem_of_singleton in Hin as ->. done.
Qed.

(** ** Pricing, payment and release *)

(** ResolveEpochShare finds exactly the consumer's earliest epoch-share record at or
    after the given time. *)
Lemma ResolveEpochShare_earliest id t w share :
  ResolveEpochShare id t w = Some share ↔
  ∃ at_, time_UnixNano t ≤ at_ ∧ s_EpochShareRecords w !! (id, at_) = Some share ∧
    ∀ at', time_UnixNano t ≤ at' < at_ → s_EpochShareRecords w !! (id, at') = None.
Proof.
  unfold ResolveEpochShare.
  set (P := λ kv : N * Z * Z, in_consumer (Some id) kv.1 = true ∧ time_UnixNano t ≤ kv.1.2).
  assert (∀ kv, kv ∈ filter P (iterate (s_EpochShareRecords w)) ↔
    kv.1.1 = id ∧ time_UnixNano t ≤ kv.1.2 ∧ s_EpochShareRecords w !! kv.1 = Some kv.2) as Hin.
  { intros [[i a] s]. rewrite list_elem_of_filter, elem_of_iterate. unfold P; cbn.
    rewrite N.eqb_eq. naive_solver. }
  assert (StronglySorted entry_le (filter P (iterate (s_EpochShareRecords w)))) as Hsort.
  { apply StronglySorted_filter, iterate_sorted. }
  destruct (filter P _) as [|[[i a] s] rest] eqn:Ef; cbn.
  - split; [done|]. intros (a & Ha & E & _). assert ((id, a, share) ∈ ([] : list (N * Z * Z))) as Hx by (by apply Hin). set_solver.
  - assert (i = id ∧ time_UnixNano t ≤ a ∧ s_EpochShareRecords w !! (i, a) = Some s) as (-> & Ha & Es).
    { apply (Hin (i, a, s)). set_solver. }
    assert (∀ a' s', time_UnixNano t ≤ a' → s_EpochShareRecords w !! (id, a') = Some s' → a ≤ a') as Hmin.
    { intros a' s' Ha' E'. assert ((id, a', s') ∈ (id, a, s) :: rest) as Hx by (by apply Hin).
      apply elem_of_cons in Hx as [[= -> ->]|Hx]; [done|].
      apply StronglySorted_inv in Hsort as [_ Hall]. rewrite Forall_forall in Hall.
      specialize (Hall _ Hx). unfold entry_le, key_le in Hall; cbn in Hall. unfold pair_le in Hall; cbn in Hall.
      by rewrite decide_True in Hall. }
    split.
    + intros [= <-]. exists a. split_and!; [done..|]. intros a' Ha'.
      destruct (_ !! (id, a')) as [s'|] eqn:E'; [|done]. apply Hmin in E'; lia.
    + intros (a' & Ha' & E' & Hnone). f_equal. destruct (decide (a = a')) as [->|]; [congruence|].
      apply Hmin in E' as ?; [|done]. rewrite Hnone in Es; [done|]. lia.
Qed.

Lemma pay_withheld_run id kv c w :
  ∃ w', pay_withheld id kv c w = (Ok tt, w') ∧
    s_WithheldFeeRecords w' = delete kv.1 (s_WithheldFeeRecords w).
Proof.
  destruct kv as [key r]. unfold pay_withheld. rewrite bind_run. cbn [modify]. rewrite bind_run. cbn [asks].
  destruct (time_After _ _); cbn [negb]; [|by eexists]. rewrite bind_run. cbn [gets].
  destruct (0 <? _); cbn [negb]; [|by eexists].
  set (w1 := upd_WithheldFeeRecords _ w). rewrite bind_run.
  assert (∃ x, try (withheldFeePayee (wf_ProviderConsAddr r)) c w1 = (Ok x, w1)) as [x ->].
  { unfold try, withheldFeePayee. rewrite bind_run, bind_run. cbn [gets].
    destruct (GetValidatorByConsAddr _ _); cbn [of_option mret M_ret raise]; [|by eexists].
    destruct (ValAddressFromBech32 _); by eexists. }
  destruct x; [by eexists|]. rewrite bind_run. unfold try, io_call. rewrite bind_run. cbn [gets].
  destruct (InputOutputCoins _ _ _) as [ok b']. rewrite bind_run. cbn [modify].
  destruct ok; by eexists.
Qed.

Lemma PayWithheldFees_run id c w :
  ∃ w', PayWithheldFees id c w = (Ok tt, w') ∧
    ∀ k, s_WithheldFeeRecords w' !! k = if (k.1 =? id)%N then None else s_WithheldFeeRecords w !! k.
Proof.
  assert (∀ l w, ∃ w', for_each l (pay_withheld id) c w = (Ok tt, w') ∧
    s_WithheldFeeRecords w' = foldl (λ m k, delete k m) (s_WithheldFeeRecords w) l.*1) as Hloop.
  { induction l as [|kv l IH]; intros v; [by eexists|]. cbn [for_each].
    destruct (pay_withheld_run id kv c v) as (v1 & E1 & R1).
    destruct (IH v1) as (v2 & E2 & R2). exists v2. rewrite bind_run, E1, E2. split; [done|].
    by rewrite R2, R1. }
  unfold PayWithheldFees. rewrite bind_run. cbn [gets].
  destruct (Hloop (withheld_records id w) w) as (w' & E & R). exists w'. split; [done|]. intros k.
  rewrite R, foldl_delete_lookup. unfold withheld_records.
  destruct (N.eqb_spec k.1 id) as [Ek|Ek]; case_decide as Hin; try done.
  - destruct (s_WithheldFeeRecords w !! k) as [r|] eqn:Er; [|done]. destruct Hin.
    apply list_elem_of_fmap. exists (k, r). split; [done|]. apply list_elem_of_filter.
    split; [by apply N.eqb_eq|by apply elem_of_iterate].
  - apply list_elem_of_fmap in Hin as ([k' r] & -> & Hin).
    apply list_elem_of_filter in Hin as [Hin _]. cbn in *. by apply N.eqb_eq in Hin.
Qed.

(** A record past its expiry pays nothing. *)
Lemma pay_withheld_expired id k r c w :
  wf_ExpiresAt r ≤ BlockTime c →
  pay_withheld id (k, r) c w = (Ok tt, upd_WithheldFeeRecords (delete k) w).
Proof.
  intros He. unfold pay_withheld. rewrite bind_run. cbn [modify]. rewrite bind_run. cbn [asks].
  unfold time_After. by rewrite (proj2 (Z.ltb_ge _ _)).
Qed.

(** PayWithheldFees always succeeds, clears every withheld-fee record of the consumer
    and no other one, and pays nothing for records that have expired. *)
Lemma PayWithheldFees_clears_every_record id c w :
  ∃ w', PayWithheldFees id c w = (Ok tt, w') ∧
    (∀ k, s_WithheldFeeRecords w' !! k = if (k.1 =? id)%N then None else s_WithheldFeeRecords w !! k) ∧
    (* nothing is paid for records whose challenge window has closed *)
    ((∀ cons r, s_WithheldFeeRecords w !! (id, cons) = Some r → wf_ExpiresAt r ≤ BlockTime c) →
     w_bank w' = w_bank w).
Proof.
  destruct (PayWithheldFees_run id c w) as (w' & E & R). exists w'. split; [done|]. split; [done|]. intros Hexp.
  unfold PayWithheldFees in E. rewrite bind_run in E. cbn [gets] in E.
  refine (for_each_Ok_ind (λ _ v, w_bank v = w_bank w) _ _ _ _ _ _ eq_refl _ E).
  intros dn [[i cons] r] rest v v' Hl Hv Ex.
  assert ((i, cons, r) ∈ withheld_records id w) as Hin by (rewrite Hl; set_solver).
  apply list_elem_of_filter in Hin as [Hi%N.eqb_eq Hin%elem_of_iterate]. cbn in Hi. subst i.
  rewrite pay_withheld_expired in Ex by (by eapply Hexp). by injection Ex as <-.
Qed.

Lemma for_each_delete_records l c (w : World) :
  ∃ w', for_each l (λ key, modify (upd_WithheldFeeRecords (delete key))) c w = (Ok tt, w') ∧
    s_WithheldFeeRecords w' = foldl (λ m k, delete k m) (s_WithheldFeeRecords w) l ∧
    w_bank w' = w_bank w.
Proof.
  revert w. induction l as [|k l IH]; intros w; [by eexists|]. cbn [for_each]. rewrite bind_run. cbn [modify].
  destruct (IH (upd_WithheldFeeRecords (delete k) w)) as (w' & E & R & B). exists w'. by rewrite E, R, B.
Qed.

(** SweepExpiredWithheldFeeRecords always succeeds, removes exactly the expired records
    and moves no funds. *)
Lemma SweepExpired_releases_exactly_the_expired c w :
  ∃ w', SweepExpiredWithheldFeeRecords c w = (Ok tt, w') ∧ w_bank w' = w_bank w ∧
    ∀ k, s_WithheldFeeRecords w' !! k =
      match s_WithheldFeeRecords w !! k with
      | Some r => if time_After (wf_ExpiresAt r) (BlockTime c) then Some r else None
      | None => None
      end.
Proof.
  unfold SweepExpiredWithheldFeeRecords. rewrite bind_run. cbn [asks]. rewrite bind_run. cbn [gets].
  match goal with |- context [for_each ?l _] => destruct (for_each_delete_records l c w) as (w' & E & R & B) end.
  exists w'. split; [done|]. split; [done|]. intros k. rewrite R, foldl_delete_lookup.
  destruct (s_WithheldFeeRecords w !! k) as [r|] eqn:Er; [|by case_decide].
  case_decide as Hin.
  - apply list_elem_of_fmap in Hin as ([k' r'] & -> & Hin).
    apply list_elem_of_filter in Hin as [Hx Hin%elem_of_iterate]. cbn in *.
    rewrite Er in Hin. injection Hin as ->. by rewrite Hx.
  - destruct (time_After (wf_ExpiresAt r) (BlockTime c)) eqn:Ex; [done|]. destruct Hin.
    apply list_elem_of_fmap. exists (k, r). split; [done|]. apply list_elem_of_filter.
    split; [done|by apply elem_of_iterate].
Qed.
End records.
