(* ===== verification/KeyAssignment.v ===== *)
(** Consumer consensus keys: keeper/key_assignment.go, [EndBlockPruneKeyAssignments]
    of keeper/relay.go, and the address resolution helpers of
    keeper/cons_pubkey_rotation.go. A validator may run a consumer under another
    key; the forward map (validator to key) and the reverse map (consumer
    address to validator) must agree, and an address given up on a running
    consumer stays resolvable until it is pruned. *)
From S2P Require Import Prelude GoTime Types Externals World Keeper.

Section key_assignment.
Context `{X : Externals}.

Definition pendingRotationClaims (consAddr : string) : K bool :=
  rotations ← (o ← gets (λ w, GetBlockConsPubKeyRotationHistory (w_staking w));
               of_option o ErrExternal);
  mret (existsb (λ a, bool_decide (a = Some consAddr)) rotations).

Definition AssignConsumerKey (consumerId : N) (validator : Validator) (consumerKey : PubKey)
  : K unit :=
  active ← gets (IsConsumerActive consumerId);
  guard_err active ErrInvalidPhase;;
  consumerAddr ← of_option (TMCryptoPublicKeyToConsAddr consumerKey) ErrExternal;
  providerAddr ← of_option (GetConsAddr validator) ErrExternal;
  claimed ← pendingRotationClaims consumerAddr;
  guard_err (negb claimed) ErrConsumerKeyInUse;;
  existing ← gets (λ w, GetValidatorByConsAddr (w_staking w) consumerAddr);
  match existing with
  | None => mret tt
  | Some existingVal =>
      guard_err (String.eqb (OperatorAddress existingVal) (OperatorAddress validator))
        ErrConsumerKeyInUse;;
      o ← gets (GetValidatorConsumerPubKey consumerId providerAddr);
      guard_err (bool_decide (is_Some o)) ErrCannotAssignDefaultKeyAssignment
  end;;
  used ← gets (GetValidatorByConsumerAddr consumerId consumerAddr);
  guard_err (bool_decide (used = None)) ErrConsumerKeyInUse;;
  old ← gets (GetValidatorConsumerPubKey consumerId providerAddr);
  match old with
  | None => mret tt
  | Some oldConsumerKey =>
      oldConsumerAddr ← of_option (TMCryptoPublicKeyToConsAddr oldConsumerKey) ErrExternal;
      phase ← gets (GetConsumerPhase consumerId);
      if bool_decide (phase = CONSUMER_PHASE_LAUNCHED) || bool_decide (phase = CONSUMER_PHASE_PAUSED)
      then
        unbondingPeriod ← (o ← gets (λ w, UnbondingTime (w_staking w)); of_option o ErrExternal);
        now ← asks BlockTime;
        AppendConsumerAddrsToPrune consumerId (time_Add now unbondingPeriod) oldConsumerAddr
      else DeleteValidatorByConsumerAddr consumerId oldConsumerAddr
  end;;
  SetValidatorConsumerPubKey consumerId providerAddr consumerKey;;
  SetValidatorByConsumerAddr consumerId consumerAddr providerAddr.

Definition GetProviderAddrFromConsumerAddr (consumerId : N) (consumerAddr : string) (w : World)
  : string := default consumerAddr (GetValidatorByConsumerAddr consumerId consumerAddr w).

Definition PruneKeyAssignments (consumerId : N) : K unit :=
  now ← asks BlockTime;
  consumerAddrs ← ConsumeConsumerAddrsToPrune consumerId now;
  for_each consumerAddrs (λ addr, DeleteValidatorByConsumerAddr consumerId addr).

Definition DeleteKeyAssignments (consumerId : N) : K unit :=
  keys ← gets (GetAllValidatorConsumerPubKeys (Some consumerId));
  for_each keys (λ e, DeleteValidatorConsumerPubKey consumerId e.1.2);;
  addrs ← gets (GetAllValidatorsByConsumerAddr (Some consumerId));
  for_each addrs (λ e, DeleteValidatorByConsumerAddr consumerId e.1.2);;
  prune ← gets (GetAllConsumerAddrsToPrune consumerId);
  for_each prune (λ e, DeleteConsumerAddrsToPrune consumerId e.1.2).

Definition nonDeletedConsumerIds (w : World) : list N :=
  filter (λ id, GetConsumerPhase id w ≠ CONSUMER_PHASE_UNSPECIFIED
                ∧ GetConsumerPhase id w ≠ CONSUMER_PHASE_DELETED) (GetAllConsumerIds w).
Definition IsConsumerConsAddrInUse (consAddr : string) (w : World) : bool :=
  existsb (λ consumerId, bool_decide (is_Some (GetValidatorByConsumerAddr consumerId consAddr w)))
    (nonDeletedConsumerIds w).

Definition EndBlockPruneKeyAssignments : K unit :=
  launched ← gets GetAllLaunchedConsumerIds;
  for_each launched PruneKeyAssignments.

Definition liveProviderConsAddr (providerAddr : string) (w : World) : string :=
  match GetValidatorByConsAddr (w_staking w) providerAddr with
  | None => providerAddr
  | Some validator => default providerAddr (GetConsAddr validator)
  end.
Definition liveConsAddrOf (validator : Validator) (fallback : string) : string :=
  default fallback (GetConsAddr validator).
End key_assignment.

(** ** Consistency of the two maps *)
Section invariant.
Context `{X : Externals}.

Definition key_addr (k : PubKey) : option string := TMCryptoPublicKeyToConsAddr k.

(** The addresses waiting to be pruned, with the time each waits for. *)
Definition pruning (id : N) (ts : Time) (a : string) (w : World) : Prop :=
  a ∈ GetConsumerAddrsToPrune id ts w.

Record keys_ok (w : World) : Prop := mkKeysOk {
  (* an assigned key has an address, and that address leads back *)
  assigned_resolves id p k : GetValidatorConsumerPubKey id p w = Some k →
    ∃ a, key_addr k = Some a ∧ GetValidatorByConsumerAddr id a w = Some p;
  (* an address given up still resolves while it waits *)
  pruning_resolves id ts a : pruning id ts a w → is_Some (GetValidatorByConsumerAddr id a w);
  (* and is nobody's current address *)
  pruning_unassigned id ts a p k : pruning id ts a w →
    GetValidatorConsumerPubKey id p w = Some k → key_addr k ≠ Some a;
  (* it waits once *)
  pruning_once id ts ts' a : pruning id ts a w → pruning id ts' a w → ts = ts';
  pruning_nodup id ts : NoDup (GetConsumerAddrsToPrune id ts w);
}.

(** The parts of the world the invariant reads. *)
Definition same_keys (w w' : World) : Prop := w_ks w' = w_ks w.
Lemma keys_ok_same w w' : same_keys w w' → keys_ok w → keys_ok w'.
Proof.
  unfold same_keys. intros E [H1 H2 H3 H4 H5].
  split; unfold pruning, GetValidatorConsumerPubKey, GetValidatorByConsumerAddr, GetConsumerAddrsToPrune,
    s_ValidatorConsumerPubKey, s_ValidatorByConsumerAddr, s_ConsumerAddrsToPrune in *; rewrite E; eauto.
Qed.

Definition with_keys (ks : KeyStore) (w : World) : World :=
  mkWorld (w_lc w) (w_vs w) ks (w_fs w) (w_ds w) (w_staking w) (w_bank w) (w_ibc w).

(** What an accepted assignment writes: the old address parked, or dropped
    when the consumer never launched, then the two new entries. *)
Definition assigned (id : N) (p a : string) (k : PubKey) (w : World) : World :=
  upd_ValidatorByConsumerAddr (insert (id, a) p) (upd_ValidatorConsumerPubKey (insert (id, p) k) w).
Definition parked (id : N) (ts : Time) (a0 : string) (w : World) : World :=
  upd_ConsumerAddrsToPrune (insert (id, ts) (GetConsumerAddrsToPrune id ts w ++ [a0])) w.
Definition dropped (id : N) (a0 : string) (w : World) : World :=
  upd_ValidatorByConsumerAddr (delete (id, a0)) w.

(** What becomes of the address given up: it is parked for an unbonding period
    while the consumer validates under it, and dropped otherwise. *)
Definition validating (id : N) (w : World) : Prop :=
  GetConsumerPhase id w = CONSUMER_PHASE_LAUNCHED ∨ GetConsumerPhase id w = CONSUMER_PHASE_PAUSED.
Definition given_up (id : N) (c : Ctx) (a0 : string) (w w1 : World) : Prop :=
  (validating id w ∧ ∃ unbonding, UnbondingTime (w_staking w) = Some unbonding ∧
     w1 = parked id (time_Add (BlockTime c) unbonding) a0 w) ∨
  (¬ validating id w ∧ w1 = dropped id a0 w).

Lemma AssignConsumerKey_run id v k c w r w' :
  AssignConsumerKey id v k c w = (r, w') →
  (w' = w ∧ is_ok r = false) ∨
  r = Ok tt ∧ ∃ a p, key_addr k = Some a ∧ GetConsAddr v = Some p ∧
    GetValidatorByConsumerAddr id a w = None ∧
    match GetValidatorConsumerPubKey id p w with
    | None => w' = assigned id p a k w
    | Some k0 => ∃ a0 w1, key_addr k0 = Some a0 ∧ given_up id c a0 w w1 ∧ w' = assigned id p a k w1
    end.
Proof.
  unfold AssignConsumerKey. rewrite bind_run. cbn [gets]. rewrite bind_run.
  destruct (IsConsumerActive id w); cbn [guard_err mret M_ret raise]; [|intros [= <- <-]; by left].
  rewrite bind_run. unfold key_addr.
  destruct (TMCryptoPublicKeyToConsAddr k) as [a|]; cbn [of_option mret M_ret raise]; [|intros [= <- <-]; by left].
  rewrite bind_run. destruct (GetConsAddr v) as [p|]; cbn [of_option mret M_ret raise]; [|intros [= <- <-]; by left].
  rewrite bind_run. unfold pendingRotationClaims. rewrite bind_run, bind_run. cbn [gets].
  destruct (GetBlockConsPubKeyRotationHistory _) as [rot|]; cbn [of_option mret M_ret raise]; [|intros [= <- <-]; by left].
  rewrite bind_run. destruct (existsb _ rot); cbn [negb guard_err mret M_ret raise]; [intros [= <- <-]; by left|].
  rewrite bind_run. cbn [gets]. rewrite bind_run.
  match goal with |- (match ?m0 c w with _ => _ end = _) → _ => set (m := m0) end.
  assert (m c w = (Ok tt, w) ∨ ∃ e, m c w = (Err e, w)) as Hm.
  { unfold m. destruct (GetValidatorByConsAddr _ a) as [ev|]; [|by left]. rewrite bind_run.
    destruct (String.eqb _ _); cbn [guard_err mret M_ret raise]; [|by right; eexists].
    rewrite bind_run. cbn [gets]. case_bool_decide; [by left|by right; eexists]. }
  destruct Hm as [->|[e ->]]; [|intros [= <- <-]; by left]. rewrite bind_run. cbn [gets]. rewrite bind_run.
  destruct (GetValidatorByConsumerAddr id a w) eqn:Ea; [rewrite bool_decide_false by done; intros [= <- <-]; by left|].
  rewrite bool_decide_true by done. cbn [guard_err mret M_ret]. rewrite bind_run. cbn [gets]. rewrite bind_run.
  destruct (GetValidatorConsumerPubKey id p w) as [k0|] eqn:Ek.
  2: { intros [= <- <-]. right. split; [done|]. exists a, p. split_and!; [done..|]. by rewrite Ek. }
  rewrite bind_run. destruct (TMCryptoPublicKeyToConsAddr k0) as [a0|] eqn:Ek0; cbn [of_option mret M_ret raise];
    [|intros [= <- <-]; by left].
  rewrite bind_run. cbn [gets].
  destruct (bool_decide (GetConsumerPhase id w = CONSUMER_PHASE_LAUNCHED)
    || bool_decide (GetConsumerPhase id w = CONSUMER_PHASE_PAUSED)) eqn:Eph.
  - apply orb_true_iff in Eph. rewrite !bool_decide_eq_true in Eph. rewrite bind_run, bind_run. cbn [gets].
    destruct (UnbondingTime _) as [ub|] eqn:Eub; cbn [of_option mret M_ret raise]; [|intros [= <- <-]; by left].
    rewrite bind_run. cbn [asks]. unfold AppendConsumerAddrsToPrune. rewrite bind_run. cbn [gets modify].
    intros [= <- <-]. right. split; [done|]. exists a, p. split_and!; [done..|]. rewrite Ek.
    eexists a0, _. split; [done|]. split; [left; split; [exact Eph|by exists ub]|reflexivity].
  - apply orb_false_iff in Eph as [E1%bool_decide_eq_false E2%bool_decide_eq_false].
    intros [= <- <-]. right. split; [done|]. exists a, p. split_and!; [done..|]. rewrite Ek.
    eexists a0, _. split; [done|]. split; [right; split; [by intros []|done]|done].
Qed.

Lemma parked_prune id ts a0 w id' ts' a :
  pruning id' ts' a (parked id ts a0 w) ↔ pruning id' ts' a w ∨ (id', ts', a) = (id, ts, a0).
Proof.
  unfold pruning, GetConsumerAddrsToPrune at 1, parked; cbn.
  destruct (decide ((id', ts') = (id, ts))) as [[= -> ->]|Hne].
  - rewrite lookup_insert_eq. cbn. rewrite elem_of_app, list_elem_of_singleton. naive_solver.
  - rewrite lookup_insert_ne by congruence. split; [by left|]. intros [?|[=]]; [done|congruence].
Qed.

Lemma keys_ok_parked id p k0 a0 ts w :
  keys_ok w → GetValidatorConsumerPubKey id p w = Some k0 → key_addr k0 = Some a0 →
  (* [p]'s key is given up: everything holds once its entry is ignored *)
  keys_ok (upd_ValidatorConsumerPubKey (delete (id, p)) (parked id ts a0 w)).
Proof.
  intros [H1 H2 H3 H4 H5] Ek Ea.
  assert (∀ ts', ¬ pruning id ts' a0 w) as Hnew by (intros ts' Hp; by eapply H3).
  assert (∀ id' q k, GetValidatorConsumerPubKey id' q (upd_ValidatorConsumerPubKey (delete (id, p)) (parked id ts a0 w))
    = Some k → GetValidatorConsumerPubKey id' q w = Some k ∧ (id', q) ≠ (id, p)) as Hpk.
  { intros id' q k. unfold GetValidatorConsumerPubKey; cbn. rewrite lookup_delete_Some. naive_solver. }
  split.
  - intros id' q k [Hk _]%Hpk. by apply H1.
  - intros id' ts' a Hp. apply parked_prune in Hp as [Hp|[= -> -> ->]]; [by eapply H2|].
    destruct (H1 id p k0 Ek) as (a & Ea' & Er). assert (a0 = a) as -> by congruence. by exists p.
  - intros id' ts' a q k Hp [Hk Hne]%Hpk. apply parked_prune in Hp as [Hp|[= -> -> ->]]; [by eapply H3|].
    intros Eq. destruct (H1 id p k0 Ek) as (x & Ex & Ep). destruct (H1 id q k Hk) as (y & Ey & Eq').
    assert (x = y) as -> by congruence. naive_solver.
  - intros id' ts1 ts2 a [Hp1|E1]%parked_prune [Hp2|E2]%parked_prune.
    + by eapply H4.
    + injection E2 as -> -> ->. by edestruct Hnew.
    + injection E1 as -> -> ->. by edestruct Hnew.
    + congruence.
  - intros id' ts'. unfold GetConsumerAddrsToPrune, parked; cbn.
    destruct (decide ((id', ts') = (id, ts))) as [[= -> ->]|Hne].
    + rewrite lookup_insert_eq. cbn. apply NoDup_app. split_and!; [apply H5| |apply NoDup_singleton].
      intros x Hx ->%list_elem_of_singleton. by eapply Hnew.
    + rewrite lookup_insert_ne by congruence. apply H5.
Qed.

Lemma keys_ok_dropped id p k0 a0 w :
  keys_ok w → GetValidatorConsumerPubKey id p w = Some k0 → key_addr k0 = Some a0 →
  keys_ok (upd_ValidatorConsumerPubKey (delete (id, p)) (dropped id a0 w)).
Proof.
  intros [H1 H2 H3 H4 H5] Ek Ea.
  destruct (H1 id p k0 Ek) as (x & Ex & Ep). assert (x = a0) as -> by congruence.
  assert (∀ id' q k, GetValidatorConsumerPubKey id' q (upd_ValidatorConsumerPubKey (delete (id, p)) (dropped id a0 w))
    = Some k → GetValidatorConsumerPubKey id' q w = Some k ∧ (id', q) ≠ (id, p)) as Hpk.
  { intros id' q k. unfold GetValidatorConsumerPubKey; cbn. rewrite lookup_delete_Some. naive_solver. }
  assert (∀ id' a, (id', a) ≠ (id, a0) → GetValidatorByConsumerAddr id' a
    (upd_ValidatorConsumerPubKey (delete (id, p)) (dropped id a0 w)) = GetValidatorByConsumerAddr id' a w) as Hrev.
  { intros id' a Hne. unfold GetValidatorByConsumerAddr; cbn. by rewrite lookup_delete_ne by congruence. }
  split.
  - intros id' q k [Hk Hne]%Hpk. destruct (H1 id' q k Hk) as (y & Ey & Eq). exists y. split; [done|].
    rewrite Hrev; [done|]. intros [= -> ->]. naive_solver.
  - intros id' ts a Hp. rewrite Hrev; [by eapply H2|]. intros [= -> ->]. by eapply H3.
  - intros id' ts a q k Hp [Hk _]%Hpk. by eapply H3.
  - intros id' ts ts' a. apply H4.
  - apply H5.
Qed.

Lemma keys_ok_assigned id p a k w :
  keys_ok w → key_addr k = Some a → GetValidatorByConsumerAddr id a w = None →
  GetValidatorConsumerPubKey id p w = None →
  keys_ok (assigned id p a k w).
Proof.
  intros [H1 H2 H3 H4 H5] Ea Efree Enone.
  assert (∀ id' q k', GetValidatorConsumerPubKey id' q (assigned id p a k w) = Some k' →
    (id', q, k') = (id, p, k) ∨ GetValidatorConsumerPubKey id' q w = Some k') as Hpk.
  { intros id' q k'. unfold GetValidatorConsumerPubKey; cbn. rewrite lookup_insert_Some. naive_solver. }
  assert (∀ id' x, (id', x) ≠ (id, a) →
    GetValidatorByConsumerAddr id' x (assigned id p a k w) = GetValidatorByConsumerAddr id' x w) as Hrev.
  { intros id' x Hne. unfold GetValidatorByConsumerAddr; cbn. by rewrite lookup_insert_ne by congruence. }
  assert (GetValidatorByConsumerAddr id a (assigned id p a k w) = Some p) as Hnew by apply lookup_insert_eq.
  split.
  - intros id' q k' [[= -> -> ->]|Hk]%Hpk; [by exists a|].
    destruct (H1 id' q k' Hk) as (y & Ey & Eq). exists y. split; [done|].
    rewrite Hrev; [done|]. intros [= -> ->]. congruence.
  - intros id' ts x Hp. destruct (decide ((id', x) = (id, a))) as [[= -> ->]|]; [by exists p|].
    rewrite Hrev by done. by eapply H2.
  - intros id' ts x q k' Hp [[= -> -> ->]|Hk]%Hpk; [|by eapply H3].
    rewrite Ea. intros [= ->]. destruct (H2 _ _ _ Hp) as [y Ey]. congruence.
  - intros id' ts ts' x. apply H4.
  - apply H5.
Qed.

Lemma assigned_delete id p a k w :
  assigned id p a k (upd_ValidatorConsumerPubKey (delete (id, p)) w) = assigned id p a k w.
Proof. unfold assigned, upd_ValidatorConsumerPubKey; cbn. by rewrite insert_delete_eq. Qed.

Lemma deleted_pk id p w : GetValidatorConsumerPubKey id p (upd_ValidatorConsumerPubKey (delete (id, p)) w) = None.
Proof. apply lookup_delete_eq. Qed.

Lemma preserves_AssignConsumerKey id v k : preserves keys_ok (AssignConsumerKey id v k).
Proof.
  intros c w Hw. destruct (AssignConsumerKey id v k c w) as [r w'] eqn:E. cbn [snd].
  apply AssignConsumerKey_run in E as [[-> _]|(-> & a & p & Ea & Ep & Efree & E)]; [done|].
  destruct (GetValidatorConsumerPubKey id p w) as [k0|] eqn:Ek.
  - destruct E as (a0 & w1 & Ea0 & [(_ & ub & _ & ->)|[_ ->]] & ->); rewrite <-assigned_delete; apply keys_ok_assigned;
      try done; try apply deleted_pk; try by (eapply keys_ok_parked || eapply keys_ok_dropped).
    unfold GetValidatorByConsumerAddr; cbn. rewrite lookup_delete_None. by right.
  - rewrite E. by apply keys_ok_assigned.
Qed.

Lemma assigned_addresses_are_distinct id p1 p2 k1 k2 w :
  keys_ok w →
  GetValidatorConsumerPubKey id p1 w = Some k1 → GetValidatorConsumerPubKey id p2 w = Some k2 →
  key_addr k1 = key_addr k2 → p1 = p2.
Proof.
  intros Hw E1 E2 Ek. destruct (assigned_resolves _ Hw _ _ _ E1) as (a1 & Ea1 & Er1).
  destruct (assigned_resolves _ Hw _ _ _ E2) as (a2 & Ea2 & Er2). congruence.
Qed.

(** *** Pruning *)
Lemma for_each_upd {A} (f : A → World → World) (l : list A) c w :
  for_each l (λ x, modify (f x)) c w = (Ok tt, foldl (λ w x, f x w) w l).
Proof. apply for_each_modify. Qed.

Definition due_addrs (id : N) (now : Time) (w : World) : list (N * Time * list string) :=
  filter (λ kv, time_After kv.1.2 now = false) (GetAllConsumerAddrsToPrune id w).

Lemma foldl_prune (l : list (N * Time * list string)) w :
  foldl (λ w kv, upd_ConsumerAddrsToPrune (delete kv.1) w) w l
  = upd_ConsumerAddrsToPrune (λ m, foldl (λ m k, delete k m) m l.*1) w.
Proof.
  revert w. induction l as [|x l IH]; intros w; cbn [foldl fmap list_fmap]; [|by rewrite IH].
  by destruct w as [? ? [] ? ? ? ? ?].
Qed.
Lemma foldl_unmap id (l : list string) w :
  foldl (λ w a, upd_ValidatorByConsumerAddr (delete (id, a)) w) w l
  = upd_ValidatorByConsumerAddr (λ m, foldl (λ m k, delete k m) m (pair id <$> l)) w.
Proof.
  revert w. induction l as [|x l IH]; intros w; cbn [foldl fmap list_fmap]; [|by rewrite IH].
  by destruct w as [? ? [] ? ? ? ? ?].
Qed.

Lemma PruneKeyAssignments_run id c w :
  let due := due_addrs id (BlockTime c) w in
  PruneKeyAssignments id c w =
  (Ok tt, upd_ValidatorByConsumerAddr (λ m, foldl (λ m k, delete k m) m (pair id <$> concat due.*2))
            (upd_ConsumerAddrsToPrune (λ m, foldl (λ m k, delete k m) m due.*1) w)).
Proof.
  intros due. unfold PruneKeyAssignments. rewrite bind_run. cbn [asks]. rewrite bind_run.
  unfold ConsumeConsumerAddrsToPrune. rewrite bind_run. cbn [gets]. cbv zeta. rewrite bind_run.
  fold (due_addrs id (BlockTime c) w). fold due.
  rewrite (for_each_modify (λ kv : N * Time * list string, upd_ConsumerAddrsToPrune (delete kv.1))).
  rewrite foldl_prune. cbn [mret M_ret]. unfold DeleteValidatorByConsumerAddr.
  rewrite (for_each_modify (λ a : string, upd_ValidatorByConsumerAddr (delete (id, a)))).
  by rewrite foldl_unmap.
Qed.

Lemma elem_of_due id now w k l :
  (k, l) ∈ due_addrs id now w ↔ k.1 = id ∧ k.2 ≤ now ∧ s_ConsumerAddrsToPrune w !! k = Some l.
Proof.
  unfold due_addrs, GetAllConsumerAddrsToPrune, time_After.
  rewrite !list_elem_of_filter, elem_of_iterate. cbn. rewrite Z.ltb_ge, N.eqb_eq. naive_solver.
Qed.

Lemma pruning_lookup id ts a w :
  pruning id ts a w ↔ ∃ l, s_ConsumerAddrsToPrune w !! (id, ts) = Some l ∧ a ∈ l.
Proof.
  unfold pruning, GetConsumerAddrsToPrune. destruct (_ !! _) as [l|]; cbn; [naive_solver|].
  split; [set_solver|by intros (? & ? & _)].
Qed.

Lemma elem_of_due_addr id now w a :
  a ∈ concat (due_addrs id now w).*2 ↔ ∃ ts, ts ≤ now ∧ pruning id ts a w.
Proof.
  rewrite list_elem_of_In, in_concat. setoid_rewrite <-list_elem_of_In. split.
  - intros (l & Hl & Ha). apply list_elem_of_fmap in Hl as ([k l'] & -> & Hk).
    apply elem_of_due in Hk as (<- & Hts & E). exists k.2. split; [done|].
    apply pruning_lookup. exists l'. by destruct k.
  - intros (ts & Hts & (l & E & Ha)%pruning_lookup). exists l. split; [|done].
    apply list_elem_of_fmap. exists ((id, ts), l). split; [done|]. by apply elem_of_due.
Qed.

Lemma pruned_view id c w w' :
  PruneKeyAssignments id c w = (Ok tt, w') →
  (∀ id' q, GetValidatorConsumerPubKey id' q w' = GetValidatorConsumerPubKey id' q w) ∧
  (∀ id' a, GetValidatorByConsumerAddr id' a w' =
     if decide (id' = id ∧ a ∈ concat (due_addrs id (BlockTime c) w).*2) then None
     else GetValidatorByConsumerAddr id' a w) ∧
  (∀ id' ts, GetConsumerAddrsToPrune id' ts w' =
     if decide (id' = id ∧ ts ≤ BlockTime c) then [] else GetConsumerAddrsToPrune id' ts w).
Proof.
  rewrite PruneKeyAssignments_run. intros [= <-]. split_and!; [done|..].
  - intros id' a. unfold GetValidatorByConsumerAddr at 1. cbn. rewrite foldl_delete_lookup.
    destruct (decide ((id', a) ∈ _)) as [Hin|Hin]; case_decide as Hd; try done.
    + destruct Hd. apply list_elem_of_fmap in Hin as (? & [= -> ->] & ?). done.
    + destruct Hin. apply list_elem_of_fmap. destruct Hd as [-> ?]. by eexists.
  - intros id' ts. unfold GetConsumerAddrsToPrune at 1. cbn. rewrite foldl_delete_lookup.
    case_decide as Hin; cbn.
    + apply list_elem_of_fmap in Hin as ([k l] & Ek & Hk). cbn in Ek. subst k.
      apply elem_of_due in Hk as (H1 & H2 & _). cbn in H1, H2. by rewrite decide_True.
    + case_decide as Hd; [|done]. destruct Hd as [-> Hts].
      destruct (ConsumerAddrsToPrune (w_ks w) !! (id, ts)) as [l|] eqn:E; [|done]. destruct Hin.
      apply list_elem_of_fmap. exists ((id, ts), l). split; [done|]. by apply elem_of_due.
Qed.

Lemma keys_ok_pruned id c w w' : PruneKeyAssignments id c w = (Ok tt, w') → keys_ok w → keys_ok w'.
Proof.
  intros (Hpk & Hrev & Hpr)%pruned_view Hw.
  assert (∀ id' ts a, pruning id' ts a w' → pruning id' ts a w ∧ ¬ (id' = id ∧ ts ≤ BlockTime c)) as Hsub.
  { intros id' ts a. unfold pruning. rewrite Hpr. case_decide; [set_solver|done]. }
  destruct Hw as [H1 H2 H3 H4 H5]. split.
  - intros id' q k. rewrite Hpk. intros Hk. destruct (H1 _ _ _ Hk) as (a & Ea & Er). exists a. split; [done|].
    rewrite Hrev, decide_False; [done|]. intros [-> (ts & _ & Hp)%elem_of_due_addr]. by eapply H3.
  - intros id' ts a [Hp Hd]%Hsub. rewrite Hrev, decide_False; [by eapply H2|].
    intros [-> (ts' & Hts' & Hp')%elem_of_due_addr]. assert (ts = ts') as -> by (by eapply H4). naive_solver.
  - intros id' ts a q k [Hp _]%Hsub. rewrite Hpk. by eapply H3.
  - intros id' ts ts' a [Hp _]%Hsub [Hp' _]%Hsub. by eapply H4.
  - intros id' ts. rewrite Hpr. case_decide; [constructor|apply H5].
Qed.
Lemma preserves_PruneKeyAssignments id : preserves keys_ok (PruneKeyAssignments id).
Proof.
  intros c w Hw. destruct (PruneKeyAssignments id c w) as [r w'] eqn:E.
  assert (r = Ok tt) as -> by (by rewrite PruneKeyAssignments_run in E; injection E). by eapply keys_ok_pruned.
Qed.

(** Pruning always succeeds, keeps the key-assignment book consistent and every
    assigned key, and forgets exactly the consumer addresses whose pruning time has come. *)
Lemma PruneKeyAssignments_forgets_exactly_the_due id c w :
  keys_ok w →
  ∃ w', PruneKeyAssignments id c w = (Ok tt, w') ∧ keys_ok w' ∧
    (∀ id' p, GetValidatorConsumerPubKey id' p w' = GetValidatorConsumerPubKey id' p w) ∧
    ∀ id' a, GetValidatorByConsumerAddr id' a w' = None ↔
      GetValidatorByConsumerAddr id' a w = None ∨ id' = id ∧ ∃ ts, ts ≤ BlockTime c ∧ pruning id ts a w.
Proof.
  intros Hw. destruct (PruneKeyAssignments id c w) as [r w'] eqn:E.
  assert (r = Ok tt) as -> by (by rewrite PruneKeyAssignments_run in E; injection E).
  exists w'. split; [done|]. split; [by eapply keys_ok_pruned|].
  apply pruned_view in E as (Hpk & Hrev & Hpr). split; [done|].
  intros id' a. rewrite Hrev. case_decide as Hd; rewrite elem_of_due_addr in Hd; naive_solver.
Qed.

(** *** An assignment that replaces another *)
Lemma assigned_other id p a k x w :
  x ≠ a → GetValidatorByConsumerAddr id x (assigned id p a k w) = GetValidatorByConsumerAddr id x w.
Proof. intros Hx. unfold GetValidatorByConsumerAddr; cbn. by rewrite lookup_insert_ne by congruence. Qed.
Lemma replaced_address id p k0 a0 a w :
  keys_ok w → GetValidatorConsumerPubKey id p w = Some k0 → key_addr k0 = Some a0 →
  GetValidatorByConsumerAddr id a w = None → a0 ≠ a ∧ GetValidatorByConsumerAddr id a0 w = Some p.
Proof.
  intros Hw Ek Ea0 Efree. destruct (assigned_resolves _ Hw _ _ _ Ek) as (x & Ex & Er).
  assert (x = a0) as -> by congruence. split; [congruence|done].
Qed.
(** When a waiting address is pruned. *)
Lemma pruned_address id ts a c w :
  keys_ok w → pruning id ts a w →
  GetValidatorByConsumerAddr id a (PruneKeyAssignments id c w).2 =
  if decide (ts ≤ BlockTime c) then None else GetValidatorByConsumerAddr id a w.
Proof.
  intros Hw Hpr. destruct (PruneKeyAssignments id c w) as [r w'] eqn:E.
  assert (r = Ok tt) as -> by (by rewrite PruneKeyAssignments_run in E; injection E).
  apply pruned_view in E as (_ & Hrev & _). cbn [snd]. rewrite Hrev.
  case_decide as Hd; rewrite elem_of_due_addr in Hd; case_decide as Hts; try done.
  - destruct Hd as (_ & ts' & Hts' & Hpr'). by rewrite (pruning_once _ Hw id ts ts' a Hpr Hpr') in Hts.
  - destruct Hd. split; [done|]. by exists ts.
Qed.


(** *** Erasing *)
Definition erase_keys (id : N) (w : World) : World :=
  upd_ConsumerAddrsToPrune (clear_where (in_consumer (Some id)))
    (upd_ValidatorByConsumerAddr (clear_where (in_consumer (Some id)))
       (upd_ValidatorConsumerPubKey (clear_where (in_consumer (Some id))) w)).

Lemma keys_of_consumer {A B} `{Countable A, !KeyOrd A} (id : N) (m : gmap (N * A) B) :
  let l := filter (λ kv, in_consumer (Some id) kv.1 = true) (iterate m) in
  (λ e : N * A * B, (id, e.1.2)) <$> l = l.*1.
Proof.
  intros l. apply list_fmap_ext. intros i [[x a] b] Hi. cbn.
  apply list_elem_of_lookup_2, list_elem_of_filter in Hi as [Hx _]. cbn in Hx. by apply N.eqb_eq in Hx as ->.
Qed.

Lemma DeleteKeyAssignments_run id c w : DeleteKeyAssignments id c w = (Ok tt, erase_keys id w).
Proof.
  assert (∀ (l : list (N * string * PubKey)) w,
    foldl (λ w e, upd_ValidatorConsumerPubKey (delete (id, e.1.2)) w) w l
    = upd_ValidatorConsumerPubKey (λ m, foldl (λ m k, delete k m) m ((λ e, (id, e.1.2)) <$> l)) w) as H1.
  { induction l as [|x l IH]; intros v; cbn [foldl fmap list_fmap]; [by destruct v as [? ? [] ? ? ? ? ?]|by rewrite IH]. }
  assert (∀ (l : list (N * string * string)) w,
    foldl (λ w e, upd_ValidatorByConsumerAddr (delete (id, e.1.2)) w) w l
    = upd_ValidatorByConsumerAddr (λ m, foldl (λ m k, delete k m) m ((λ e, (id, e.1.2)) <$> l)) w) as H2.
  { induction l as [|x l IH]; intros v; cbn [foldl fmap list_fmap]; [by destruct v as [? ? [] ? ? ? ? ?]|by rewrite IH]. }
  assert (∀ (l : list (N * Time * list string)) w,
    foldl (λ w e, upd_ConsumerAddrsToPrune (delete (id, e.1.2)) w) w l
    = upd_ConsumerAddrsToPrune (λ m, foldl (λ m k, delete k m) m ((λ e, (id, e.1.2)) <$> l)) w) as H3.
  { induction l as [|x l IH]; intros v; cbn [foldl fmap list_fmap]; [by destruct v as [? ? [] ? ? ? ? ?]|by rewrite IH]. }
  unfold DeleteKeyAssignments, DeleteValidatorConsumerPubKey, DeleteValidatorByConsumerAddr, DeleteConsumerAddrsToPrune.
  rewrite bind_run. cbn [gets]. rewrite bind_run.
  rewrite (for_each_modify (λ e : N * string * PubKey, upd_ValidatorConsumerPubKey (delete (id, e.1.2)))), H1.
  rewrite bind_run. cbn [gets]. rewrite bind_run.
  rewrite (for_each_modify (λ e : N * string * string, upd_ValidatorByConsumerAddr (delete (id, e.1.2)))), H2.
  rewrite bind_run. cbn [gets].
  rewrite (for_each_modify (λ e : N * Time * list string, upd_ConsumerAddrsToPrune (delete (id, e.1.2)))), H3.
  unfold GetAllValidatorConsumerPubKeys, GetAllValidatorsByConsumerAddr, GetAllConsumerAddrsToPrune.
  rewrite !keys_of_consumer.
  assert (∀ v, upd_ValidatorConsumerPubKey (λ m, foldl (λ m k, delete k m) m
    (filter (λ kv, in_consumer (Some id) kv.1 = true) (iterate (s_ValidatorConsumerPubKey v))).*1) v
    = upd_ValidatorConsumerPubKey (clear_where (in_consumer (Some id))) v) as D1.
  { intros v. unfold upd_ValidatorConsumerPubKey. do 2 f_equal. apply delete_selected. }
  assert (∀ v, upd_ValidatorByConsumerAddr (λ m, foldl (λ m k, delete k m) m
    (filter (λ kv, in_consumer (Some id) kv.1 = true) (iterate (s_ValidatorByConsumerAddr v))).*1) v
    = upd_ValidatorByConsumerAddr (clear_where (in_consumer (Some id))) v) as D2.
  { intros v. unfold upd_ValidatorByConsumerAddr. do 2 f_equal. apply delete_selected. }
  assert (∀ v, upd_ConsumerAddrsToPrune (λ m, foldl (λ m k, delete k m) m
    (filter (λ kv, in_consumer (Some id) kv.1 = true) (iterate (s_ConsumerAddrsToPrune v))).*1) v
    = upd_ConsumerAddrsToPrune (clear_where (in_consumer (Some id))) v) as D3.
  { intros v. unfold upd_ConsumerAddrsToPrune. do 2 f_equal. apply delete_selected. }
  by rewrite D1, D2, D3.
Qed.

Lemma keys_ok_erased id w : keys_ok w → keys_ok (erase_keys id w).
Proof.
  intros [H1 H2 H3 H4 H5].
  assert (∀ id' q k, GetValidatorConsumerPubKey id' q (erase_keys id w) = Some k →
    id' ≠ id ∧ GetValidatorConsumerPubKey id' q w = Some k) as Hpk.
  { intros id' q k. unfold GetValidatorConsumerPubKey; cbn. rewrite clear_where_lookup. cbn.
    destruct (N.eqb_spec id' id); by try done. }
  assert (∀ id' a, id' ≠ id → GetValidatorByConsumerAddr id' a (erase_keys id w) = GetValidatorByConsumerAddr id' a w)
    as Hrev.
  { intros id' a Hne. unfold GetValidatorByConsumerAddr; cbn. rewrite clear_where_lookup. cbn.
    by destruct (N.eqb_spec id' id). }
  assert (∀ id' ts, GetConsumerAddrsToPrune id' ts (erase_keys id w) =
    if (id' =? id)%N then [] else GetConsumerAddrsToPrune id' ts w) as Hpr.
  { intros id' ts. unfold GetConsumerAddrsToPrune; cbn. rewrite clear_where_lookup. cbn. by destruct (N.eqb_spec id' id). }
  assert (∀ id' ts a, pruning id' ts a (erase_keys id w) → id' ≠ id ∧ pruning id' ts a w) as Hsub.
  { intros id' ts a. unfold pruning. rewrite Hpr. destruct (N.eqb_spec id' id); [by intros ?%elem_of_nil|done]. }
  split.
  - intros id' q k [Hne Hk]%Hpk. destruct (H1 _ _ _ Hk) as (a & ? & ?). exists a. by rewrite Hrev.
  - intros id' ts a [Hne Hp]%Hsub. rewrite Hrev by done. by eapply H2.
  - intros id' ts a q k [_ Hp]%Hsub [_ Hk]%Hpk. by eapply H3.
  - intros id' ts ts' a [_ Hp]%Hsub [_ Hp']%Hsub. by eapply H4.
  - intros id' ts. rewrite Hpr. destruct (id' =? id)%N; [constructor|apply H5].
Qed.
Lemma preserves_DeleteKeyAssignments id : preserves keys_ok (DeleteKeyAssignments id).
Proof. intros c w Hw. rewrite DeleteKeyAssignments_run. by apply keys_ok_erased. Qed.
(** *** No address leaks *)
(** Conversely, an address leads to a validator only as its current address or
    while it waits to be pruned. *)
Definition accounted (w : World) : Prop := ∀ id a p,
  GetValidatorByConsumerAddr id a w = Some p →
  (∃ k, GetValidatorConsumerPubKey id p w = Some k ∧ key_addr k = Some a) ∨ ∃ ts, pruning id ts a w.

Lemma accounted_same w w' : same_keys w w' → accounted w → accounted w'.
Proof.
  unfold same_keys, accounted, pruning, GetValidatorConsumerPubKey, GetValidatorByConsumerAddr, GetConsumerAddrsToPrune,
    s_ValidatorConsumerPubKey, s_ValidatorByConsumerAddr, s_ConsumerAddrsToPrune. by intros ->.
Qed.

Lemma preserves_accounted_AssignConsumerKey id v k : preserves accounted (AssignConsumerKey id v k).
Proof.
  intros c w Hw. destruct (AssignConsumerKey id v k c w) as [r w'] eqn:E. cbn [snd].
  apply AssignConsumerKey_run in E as [[-> _]|(-> & a & p & Ea & Ep & Efree & E)]; [done|].
  assert (∃ w1, w' = assigned id p a k w1 ∧
    (∀ i x q, GetValidatorByConsumerAddr i x w1 = Some q → GetValidatorByConsumerAddr i x w = Some q) ∧
    (∀ i q, GetValidatorConsumerPubKey i q w1 = GetValidatorConsumerPubKey i q w) ∧
    (∀ i ts x, pruning i ts x w → pruning i ts x w1) ∧
    (∀ k0 a0 q, GetValidatorConsumerPubKey id p w = Some k0 → key_addr k0 = Some a0 →
       GetValidatorByConsumerAddr id a0 w1 = Some q → ∃ ts, pruning id ts a0 w1)) as (w1 & -> & H1 & H2 & H3 & H4).
  { destruct (GetValidatorConsumerPubKey id p w) as [k0|]; [|by exists w].
    destruct E as (a0 & w1 & Ea0 & Hup & ->). exists w1. split; [done|].
    destruct Hup as [(_ & ub & _ & ->)|[_ ->]]; (split_and!; [|done| |intros ? a1 q [= <-] Ea1 Er; assert (a1 = a0) as -> by congruence]).
    - done.
    - intros. apply parked_prune. by left.
    - eexists. apply parked_prune. by right.
    - intros i x q. unfold GetValidatorByConsumerAddr, dropped; cbn. by intros [_ ?]%lookup_delete_Some.
    - done.
    - exfalso. revert Er. unfold GetValidatorByConsumerAddr, dropped; cbn. by rewrite lookup_delete_eq. }
  intros i x q Er. destruct (decide ((i, x) = (id, a))) as [[= -> ->]|Hne].
  { left. exists k. unfold GetValidatorByConsumerAddr in Er; cbn in Er. rewrite lookup_insert_eq in Er. injection Er as <-.
    split; [apply lookup_insert_eq|done]. }
  unfold GetValidatorByConsumerAddr in Er; cbn in Er. rewrite lookup_insert_ne in Er by congruence.
  change (GetValidatorByConsumerAddr i x w1 = Some q) in Er.
  destruct (Hw i x q (H1 _ _ _ Er)) as [(k' & Ek & Ex)|[ts Hp]]; [|right; exists ts; by apply H3].
  destruct (decide ((i, q) = (id, p))) as [[= -> ->]|Hq].
  - right. by apply (H4 k' x p).
  - left. exists k'. split; [|done]. unfold GetValidatorConsumerPubKey; cbn. rewrite lookup_insert_ne by congruence.
    change (GetValidatorConsumerPubKey i q w1 = Some k'). by rewrite H2.
Qed.

Lemma preserves_accounted_PruneKeyAssignments id : preserves accounted (PruneKeyAssignments id).
Proof.
  intros c w Hw. destruct (PruneKeyAssignments id c w) as [r w'] eqn:E.
  assert (r = Ok tt) as -> by (by rewrite PruneKeyAssignments_run in E; injection E).
  apply pruned_view in E as (Hpk & Hrev & Hpr). intros i a p. cbn [snd]. rewrite Hrev. case_decide as Hd; [done|].
  intros Er. setoid_rewrite Hpk. destruct (Hw i a p Er) as [?|[ts Hp]]; [by left|]. right. exists ts.
  unfold pruning. rewrite Hpr, decide_False; [done|]. intros [-> Hts]. destruct Hd. split; [done|].
  apply elem_of_due_addr. by exists ts.
Qed.

Lemma preserves_accounted_DeleteKeyAssignments id : preserves accounted (DeleteKeyAssignments id).
Proof.
  intros c w Hw. rewrite DeleteKeyAssignments_run. intros i a p.
  unfold pruning, GetValidatorByConsumerAddr, GetValidatorConsumerPubKey, GetConsumerAddrsToPrune; cbn.
  rewrite !clear_where_lookup. setoid_rewrite clear_where_lookup. cbn. destruct (N.eqb_spec i id); [done|]. apply Hw.
Qed.

Lemma accounted_unassigned id p k a w :
  accounted w → GetValidatorConsumerPubKey id p w = Some k → key_addr k = Some a →
  accounted (upd_ValidatorConsumerPubKey (delete (id, p)) (upd_ValidatorByConsumerAddr (delete (id, a)) w)).
Proof.
  intros Hw Ek Ea i x q. unfold GetValidatorByConsumerAddr at 1; cbn. intros [Hne Er]%lookup_delete_Some.
  destruct (Hw i x q Er) as [(k' & Ek' & Ex)|Hp]; [left|by right]. exists k'. split; [|done].
  unfold GetValidatorConsumerPubKey; cbn. rewrite lookup_delete_ne; [done|]. intros [= -> ->]. congruence.
Qed.
End invariant.
