(* ===== verification/Lifecycle.v ===== *)
(** The consumer lifecycle: keeper/consumer_lifecycle.go. A consumer is
    registered, initialized with a spawn time, launched, possibly paused and
    resumed, stopped, and deleted an unbonding period later; four block sweeps
    drive it. *)
From S2P Require Import Prelude GoTime Types Externals World Keeper Queues Valset FeePool Fees KeyAssignment.

Section lifecycle.
Context `{X : Externals}.

Definition PrepareConsumerForLaunch (consumerId : N) (previousSpawnTime spawnTime : Time) : K unit :=
  (if negb (time_IsZero previousSpawnTime)
   then RemoveConsumerToBeLaunched consumerId previousSpawnTime else mret tt);;
  AppendConsumerToBeLaunched consumerId spawnTime.

(** The spawn time, or [None] for the code's [false]. *)
Definition InitializeConsumer (consumerId : N) : K (option Time) :=
  phase ← gets (GetConsumerPhase consumerId);
  if negb (Prelaunched phase) then mret None else
  o ← gets (GetConsumerInitializationParameters consumerId);
  match o with
  | None => mret None
  | Some initializationParameters =>
      if time_IsZero (SpawnTime initializationParameters) then mret None else
      SetConsumerPhase consumerId CONSUMER_PHASE_INITIALIZED;;
      mret (Some (SpawnTime initializationParameters))
  end.

(** [getSelfConsensusState], as far as its failure matters. *)
Definition getSelfConsensusState (height : Z) : K unit :=
  ok ← gets (λ w, SelfConsensusAvailable (w_staking w) (w_ibc w) height);
  guard_err ok ErrExternal.

Definition MakeConsumerGenesis (consumerId : N) (initialValidatorUpdates : list ValidatorUpdate)
  : K ConsumerGenesisState :=
  ip ← (o ← gets (GetConsumerInitializationParameters consumerId); of_option o ErrInvalidConsumerState);
  downtimeParams ← CurrentDowntimeParams;
  owner ← gets (GetConsumerOwnerAddress consumerId);
  providerUnbondingPeriod ← (o ← gets (λ w, UnbondingTime (w_staking w)); of_option o ErrNoUnbondingTime);
  height ← asks BlockHeight;
  chainId ← asks ChainID;
  fraction ← GetTrustingPeriodFraction;
  trustPeriod ← of_option (CalculateTrustPeriod providerUnbondingPeriod fraction)
                  (ErrOther "calculating trusting_period");
  getSelfConsensusState height;;
  mret (mkConsumerGenesis chainId height trustPeriod providerUnbondingPeriod initialValidatorUpdates
          (ci_VaasTimeoutPeriod ip) (HistoricalEntries ip) (ci_UnbondingPeriod ip) (SafeModeThreshold ip)
          (dp_SignedBlocksWindow downtimeParams) (dp_MinSignedPerWindow downtimeParams) (default "" owner)).

Definition LaunchConsumer (bondedValidators : list Validator) (consumerId : N) : K unit :=
  initializationRecord ←
    (o ← gets (GetConsumerInitializationParameters consumerId);
     of_option o (ErrOther "getting initialization parameters"));
  initialValUpdates ← ComputeConsumerNextValSet bondedValidators consumerId [] false;
  guard_err (negb (bool_decide (initialValUpdates = []))) (ErrOther "cannot launch consumer with no consumer validator");;
  genesisState ← MakeConsumerGenesis consumerId initialValUpdates;
  SetConsumerGenesis consumerId genesisState;;
  SetEquivocationEvidenceMinHeight consumerId (InitialRevisionHeight initializationRecord);;
  SetConsumerPhase consumerId CONSUMER_PHASE_LAUNCHED;;
  now ← asks BlockTime;
  SetConsumerLastAckTime consumerId now.

Definition with_spawn_time (p : ConsumerInitializationParameters) (t : Time)
  : ConsumerInitializationParameters :=
  mkInitParams (InitialRevision p) (InitialRevisionHeight p) t (ci_UnbondingPeriod p)
    (ci_VaasTimeoutPeriod p) (HistoricalEntries p) (SafeModeThreshold p).

(** The limit of every queue sweep. *)
Definition queue_limit : nat := 200.

Definition launch_one (bondedValidators : list Validator) (consumerId : N) : K unit :=
  r ← try (cached (LaunchConsumer bondedValidators consumerId));
  match r with
  | inr _ => mret tt
  | inl _ =>
      initializationRecord ← (o ← gets (GetConsumerInitializationParameters consumerId);
                              of_option o ErrInvalidConsumerState);
      SetConsumerInitializationParameters consumerId (with_spawn_time initializationRecord 0);;
      SetConsumerPhase consumerId CONSUMER_PHASE_REGISTERED
  end.
Definition BeginBlockLaunchConsumers : K unit :=
  consumerIds ← ConsumeIdsFromTimeQueue (Q := SpawnQueue) queue_limit;
  bondedValidators ← (if decide (consumerIds = []) then mret [] else GetLastBondedValidators);
  for_each consumerIds (launch_one bondedValidators).

Definition of_consumer {B C} (consumerId : N) (k : N * B * C) : bool := (k.1.1 =? consumerId)%N.
Definition CancelConsumerDowntimeState (consumerId : N) : K unit :=
  modify (upd_PendingDowntimeSlashes (clear_where (of_consumer consumerId)));;
  modify (upd_EpochDowntime (clear_where (in_consumer (Some consumerId)))).

Definition StopAndPrepareForConsumerRemoval (consumerId : N) : K unit :=
  SetConsumerPhase consumerId CONSUMER_PHASE_STOPPED;;
  CancelConsumerDowntimeState consumerId;;
  CancelConsumerPauseExpiration consumerId;;
  DeleteConsumerPauseReason consumerId;;
  DeleteConsumerPausedAt consumerId;;
  unbondingPeriod ← (o ← gets (λ w, UnbondingTime (w_staking w)); of_option o ErrExternal);
  now ← asks BlockTime;
  let removalTime := time_Add now unbondingPeriod in
  SetConsumerRemovalTime consumerId removalTime;;
  AppendConsumerToBeRemoved consumerId removalTime.

Definition PauseConsumerChain (consumerId : N) (reason : PauseReason) : K unit :=
  guard_err (negb (bool_decide (reason = PAUSE_REASON_UNSPECIFIED)))
    (ErrOther "cannot pause consumer without a reason");;
  phase ← gets (GetConsumerPhase consumerId);
  guard_err (bool_decide (phase = CONSUMER_PHASE_LAUNCHED)) ErrInvalidPhase;;
  PayWithheldFees consumerId;;
  SetConsumerPhase consumerId CONSUMER_PHASE_PAUSED;;
  SetConsumerPauseReason consumerId reason;;
  now ← asks BlockTime;
  SetConsumerPausedAt consumerId now;;
  CancelConsumerDowntimeState consumerId;;
  maxPause ← GetMaxPauseDuration;
  let autoStopTime := time_Add now maxPause in
  SetConsumerPauseExpirationTime consumerId autoStopTime;;
  AppendConsumerToBeAutoStopped consumerId autoStopTime.

(** The state of a tendermint client, or the two errors of its lookup. *)
Definition tm_client_state (clientId : string) (e : error) : K TmClientState :=
  o ← gets (λ w, GetClientState (w_ibc w) clientId);
  s ← of_option o e;
  of_option s e.

Definition forkEvidenceExpired (consumerId : N) (clientId : string) : K unit :=
  pausedAt ← (o ← gets (GetConsumerPausedAt consumerId); of_option o (ErrOther "reading pause time"));
  cs ← tm_client_state clientId ErrInvalidConsumerClient;
  let resumableAt := time_Add pausedAt (wrap64 (cs_TrustingPeriod cs + cs_MaxClockDrift cs)) in
  now ← asks BlockTime;
  guard_err (negb (time_Before now resumableAt)) ErrForkEvidenceStillVerifiable.

(** A failed pause is logged and retried next block. *)
Definition PauseConsumersWithFrozenClients : K unit :=
  launched ← gets GetAllLaunchedConsumerIds;
  for_each launched (λ consumerId,
    o ← gets (GetConsumerClientId consumerId);
    match o with
    | None => mret tt
    | Some clientId =>
        status ← gets (λ w, GetClientStatus (w_ibc w) clientId);
        when (bool_decide (status = Frozen))
          (try (PauseConsumerChain consumerId PAUSE_REASON_LIGHT_CLIENT_ATTACK);; mret tt)
    end).

Definition ResumeConsumerChain (consumerId : N) : K unit :=
  phase ← gets (GetConsumerPhase consumerId);
  guard_err (bool_decide (phase = CONSUMER_PHASE_PAUSED)) ErrInvalidPhase;;
  clientId ← (o ← gets (GetConsumerClientId consumerId); of_option o ErrInvalidConsumerClient);
  status ← gets (λ w, GetClientStatus (w_ibc w) clientId);
  guard_err (bool_decide (status = Active)) ErrConsumerClientNotActive;;
  reason ← gets (GetConsumerPauseReason consumerId);
  when (bool_decide (reason = PAUSE_REASON_LIGHT_CLIENT_ATTACK)) (forkEvidenceExpired consumerId clientId);;
  DeleteConsumerPauseReason consumerId;;
  DeleteConsumerPausedAt consumerId;;
  CancelConsumerPauseExpiration consumerId;;
  SetConsumerPhase consumerId CONSUMER_PHASE_LAUNCHED;;
  now ← asks BlockTime;
  SetConsumerLastAckTime consumerId now;;
  QueueImmediateSnapshotVSCPacket consumerId;;
  sendVSCPacketsToChainStrict consumerId clientId.

Definition BeginBlockAutoStopPausedConsumers : K unit :=
  consumerIds ← ConsumeIdsFromTimeQueue (Q := PauseQueue) queue_limit;
  for_each consumerIds (λ consumerId,
    phase ← gets (GetConsumerPhase consumerId);
    when (bool_decide (phase = CONSUMER_PHASE_PAUSED))
      (try (cached (StopAndPrepareForConsumerRemoval consumerId));; mret tt)).

(** The removals of a deletion, from the client mapping to the chain id. *)
Definition eraseConsumer (consumerId : N) : K unit :=
  DeleteConsumerClientId consumerId;;
  DeleteConsumerGenesis consumerId;;
  DeleteKeyAssignments consumerId;;
  DeleteEquivocationEvidenceMinHeight consumerId;;
  DeleteInitChainHeight consumerId;;
  DeletePendingVSCPackets consumerId;;
  DeleteConsumerValSet consumerId;;
  DeleteConsumerRemovalTime consumerId;;
  DeleteConsumerLastAckTime consumerId;;
  DeleteConsumerHighestSentVscId consumerId;;
  DeleteConsumerHighestAckedVscId consumerId;;
  DeleteConsumerPauseReason consumerId;;
  DeleteConsumerPausedAt consumerId;;
  DeleteConsumerDebt consumerId;;
  modify (upd_ConsumerFeesPerBlockOverride (delete consumerId));;
  modify (upd_FeePoolAddressToConsumerId (delete (GetConsumerFeePoolAddress consumerId)));;
  CancelConsumerDowntimeState consumerId;;
  modify (upd_WithheldFeeRecords (clear_where (in_consumer (Some consumerId))));;
  modify (upd_AcceptedDowntimeWindows (clear_where (of_consumer consumerId)));;
  modify (upd_DowntimeWindowFloors (clear_where (in_consumer (Some consumerId))));;
  DeleteConsumerChainId consumerId.
Definition DeleteConsumerChain (consumerId : N) : K unit :=
  phase ← gets (GetConsumerPhase consumerId);
  let deletable := bool_decide (phase = CONSUMER_PHASE_STOPPED) || Prelaunched phase in
  guard_err deletable (ErrOther "cannot delete chain in this phase");;
  when (bool_decide (phase = CONSUMER_PHASE_INITIALIZED))
    (ip ← (o ← gets (GetConsumerInitializationParameters consumerId);
           of_option o (ErrOther "getting initialization parameters"));
     wrap_err ErrInvalidConsumerState (RemoveConsumerToBeLaunched consumerId (SpawnTime ip)));;
  SweepConsumerFeePool consumerId [];;
  eraseConsumer consumerId;;
  SetConsumerPhase consumerId CONSUMER_PHASE_DELETED.

Definition BeginBlockRemoveConsumers : K unit :=
  consumerIds ← ConsumeIdsFromTimeQueue (Q := RemovalQueue) queue_limit;
  for_each consumerIds (λ consumerId, try (cached (DeleteConsumerChain consumerId));; mret tt).

Definition SweepUnresponsiveConsumers : K unit :=
  grace ← LivenessGracePeriod;
  launched ← gets GetAllLaunchedConsumerIds;
  for_each launched (λ consumerId,
    lastAck ← GetConsumerLastAckTime consumerId;
    now ← asks BlockTime;
    if time_Sub now lastAck <=? grace then mret tt
    else try (cached (StopAndPrepareForConsumerRemoval consumerId));; mret tt).

Definition SetConsumerClient (consumerId : N) (clientID : string) : K unit :=
  existing ← gets (GetConsumerClientId consumerId);
  guard_err (match existing with Some c => String.eqb c "" | None => true end) ErrInvalidMsgUpdateConsumer;;
  chainID ← (o ← gets (GetConsumerChainId consumerId); of_option o ErrInvalidConsumerState);
  cs ← tm_client_state clientID ErrInvalidMsgUpdateConsumer;
  guard_err (String.eqb (cs_ChainId cs) chainID) ErrInvalidMsgUpdateConsumer;;
  status ← gets (λ w, GetClientStatus (w_ibc w) clientID);
  guard_err (bool_decide (status = Active)) ErrInvalidMsgUpdateConsumer;;
  cp ← gets (λ w, GetClientCounterparty (w_ibc w) clientID);
  guard_err (match cp with Some c => negb (String.eqb c "") | None => false end) ErrInvalidMsgUpdateConsumer;;
  ip ← GetInfractionParams;
  guard_err (negb (cs_TrustingPeriod cs <=? ChallengeableInterval ip)) ErrInvalidMsgUpdateConsumer;;
  SetConsumerClientId consumerId clientID.
End lifecycle.
