(* ===== verification/LifecycleProofs.v ===== *)
(** Theorems about the lifecycle: what pausing, stopping, resuming and deleting
    a consumer do to its state and to the rest of the provider. *)
From S2P Require Import Prelude GoTime Types Externals World Keeper Queues ValSets Valset ValsetProofs.
From S2P Require Import FeePool FeePoolProofs Fees FeesProofs KeyAssignment Lifecycle.

Section pause.
Context `{X : Externals}.

(** Everything but the bank and the fee store. *)
Definition but_funds (w w' : World) : Prop :=
  w_lc w' = w_lc w ∧ w_vs w' = w_vs w ∧ w_ks w' = w_ks w ∧ w_ds w' = w_ds w.
Lemma PayWithheldFees_but_funds id w : preserves (but_funds w) (PayWithheldFees id).
Proof. pres. Qed.

Definition cancelled_downtime (id : N) (w : World) : World :=
  upd_EpochDowntime (clear_where (in_consumer (Some id))) (upd_PendingDowntimeSlashes (clear_where (of_consumer id)) w).
Lemma CancelConsumerDowntimeState_run id c w :
  CancelConsumerDowntimeState id c w = (Ok tt, cancelled_downtime id w).
Proof. reflexivity. Qed.

(** The writes of a pause, after the withheld fees are paid. *)
Definition pause_writes (id : N) (reason : PauseReason) (now : Time) (params : Params) (w : World) : World :=
  let stop := time_Add now (MaxPauseDuration params) in
  let w1 := upd_ConsumerPauseExpirationTime (insert id stop)
              (cancelled_downtime id
                 (upd_ConsumerPausedAt (insert id now)
                    (upd_ConsumerPauseReason (insert id reason)
                       (upd_ConsumerPhases (insert id CONSUMER_PHASE_PAUSED) w)))) in
  upd_PauseExpirationTimeToConsumerIds (insert stop (GetConsumersToBeAutoStopped stop w1 ++ [id])) w1.

Lemma PauseConsumerChain_run id reason c w :
  ∃ w1, PayWithheldFees id c w = (Ok tt, w1) ∧ but_funds w w1 ∧
    match bool_decide (reason = PAUSE_REASON_UNSPECIFIED),
          bool_decide (GetConsumerPhase id w = CONSUMER_PHASE_LAUNCHED), s_Params_ w with
    | true, _, _ => ∃ e, PauseConsumerChain id reason c w = (Err e, w)
    | _, false, _ => PauseConsumerChain id reason c w = (Err ErrInvalidPhase, w)
    | _, _, None => ∃ w', PauseConsumerChain id reason c w = (Panic, w')
    | _, _, Some params =>
        PauseConsumerChain id reason c w = (Ok tt, pause_writes id reason (BlockTime c) params w1)
    end.
Proof.
  destruct (PayWithheldFees_run id c w) as (w1 & E1 & _). exists w1. split; [done|].
  assert (but_funds w w1) as Hbf.
  { by apply (preserves_run _ _ _ _ _ _ (PayWithheldFees_but_funds id w)) in E1. }
  split; [done|]. unfold PauseConsumerChain. rewrite bind_run.
  destruct (bool_decide (reason = _)); [by eexists|]. cbn [negb guard_err mret M_ret].
  rewrite bind_run. cbn [gets]. rewrite bind_run.
  destruct (bool_decide (GetConsumerPhase id w = _)); [|done]. cbn [guard_err mret M_ret].
  rewrite bind_run, E1. destruct Hbf as (_ & _ & _ & Hds).
  assert (s_Params_ w = s_Params_ w1) as -> by (unfold s_Params_; by rewrite Hds).
  repeat (rewrite bind_run; cbn [SetConsumerPhase SetConsumerPauseReason SetConsumerPausedAt modify asks]).
  rewrite CancelConsumerDowntimeState_run. rewrite bind_run.
  set (w2 := cancelled_downtime id _).
  assert (GetMaxPauseDuration c w2 = match s_Params_ w1 with
    | Some p => (Ok (MaxPauseDuration p), w2) | None => (Panic, w2) end) as ->.
  { unfold GetMaxPauseDuration, fmap, M_fmap, GetParams. rewrite bind_run, bind_run. cbn [gets].
    change (s_Params_ w2) with (s_Params_ w1). by destruct (s_Params_ w1). }
  destruct (s_Params_ w1) as [params|]; [|by eexists]. cbv zeta. rewrite bind_run.
  cbn [SetConsumerPauseExpirationTime modify]. unfold AppendConsumerToBeAutoStopped, appendId.
  rewrite bind_run. cbn [gets modify]. unfold pause_writes. cbv zeta. subst w2. reflexivity.
Qed.

(** Pausing a launched consumer always succeeds: it records reason and time, schedules
    the automatic stop MaxPauseDuration later, settles the withheld fees, cancels its
    pending slashes and epoch marks but keeps the accepted windows, and affects no other
    consumer. *)
Lemma pause_stops_serving_and_schedules_stop id reason c w params :
  reason ≠ PAUSE_REASON_UNSPECIFIED → GetConsumerPhase id w = CONSUMER_PHASE_LAUNCHED →
  s_Params_ w = Some params →
  let stop := time_Add (BlockTime c) (MaxPauseDuration params) in
  ∃ w', PauseConsumerChain id reason c w = (Ok tt, w') ∧
    GetConsumerPhase id w' = CONSUMER_PHASE_PAUSED ∧
    GetConsumerPauseReason id w' = reason ∧ GetConsumerPausedAt id w' = Some (BlockTime c) ∧
    GetConsumerPauseExpirationTime id w' = Some stop ∧
    id ∈ GetConsumersToBeAutoStopped stop w' ∧
    (* its accusations and withheld fees are gone *)
    (∀ k, of_consumer id k = true → s_PendingDowntimeSlashes w' !! k = None) ∧
    (∀ cons, IsEpochDowntime id cons w' = false) ∧
    (∀ cons, s_WithheldFeeRecords w' !! (id, cons) = None) ∧
    (* what was accepted stays on record *)
    s_AcceptedDowntimeWindows w' = s_AcceptedDowntimeWindows w ∧
    s_DowntimeWindowFloors w' = s_DowntimeWindowFloors w ∧
    (* other consumers keep their phase and their accusations *)
    (∀ id', id' ≠ id → GetConsumerPhase id' w' = GetConsumerPhase id' w) ∧
    (∀ k, of_consumer id k = false → s_PendingDowntimeSlashes w' !! k = s_PendingDowntimeSlashes w !! k).
Proof.
  intros Hr Hph Hp stop. destruct (PauseConsumerChain_run id reason c w) as (w1 & E1 & (Hlc & Hvs & Hks & Hds) & E).
  rewrite Hp, bool_decide_false, bool_decide_true in E by done.
  eexists. split; [exact E|]. unfold pause_writes. fold stop.
  destruct (PayWithheldFees_run id c w) as (w1' & E1' & Hrec). assert (w1' = w1) as -> by congruence.
  split_and!.
  - unfold GetConsumerPhase. cbn. by rewrite lookup_insert_eq.
  - unfold GetConsumerPauseReason. cbn. by rewrite lookup_insert_eq.
  - unfold GetConsumerPausedAt. cbn. by rewrite lookup_insert_eq.
  - unfold GetConsumerPauseExpirationTime. cbn. by rewrite lookup_insert_eq.
  - unfold GetConsumersToBeAutoStopped, getIds at 1. cbn. rewrite lookup_insert_eq. cbn. set_solver.
  - intros k Hk. cbn. by rewrite clear_where_lookup, Hk.
  - intros cons. unfold IsEpochDowntime. apply bool_decide_eq_false. cbn.
    rewrite clear_where_lookup. cbn. rewrite N.eqb_refl. by intros [? ?].
  - intros cons. cbn. change (s_WithheldFeeRecords w1 !! (id, cons) = None). rewrite Hrec. cbn. by rewrite N.eqb_refl.
  - cbn. unfold s_AcceptedDowntimeWindows. by rewrite <-Hds.
  - cbn. unfold s_DowntimeWindowFloors. by rewrite <-Hds.
  - intros id' Hne. unfold GetConsumerPhase. cbn. rewrite lookup_insert_ne by done. by rewrite Hlc.
  - intros k Hk. cbn. rewrite clear_where_lookup, Hk. by rewrite Hds.
Qed.
End pause.

(** ** Stopping *)
Section stop.
Context `{X : Externals}.

Lemma removeConsumer_pause_frame id ts : ∀ (P : World → Prop),
  (∀ w f, P w → P (upd_PauseExpirationTimeToConsumerIds f w)) → preserves P (RemoveConsumerToBeAutoStopped id ts).
Proof.
  intros P HP. unfold RemoveConsumerToBeAutoStopped, removeConsumerFromTimeQueue, deleteAllIds. pres.
  all: apply preserves_modify; intros w Hw; by apply HP.
Qed.

(** Cancelling a scheduled auto-stop never fails. *)
Lemma CancelConsumerPauseExpiration_run id c w :
  ∃ w', CancelConsumerPauseExpiration id c w = (Ok tt, w') ∧
    GetConsumerPauseExpirationTime id w' = None ∧
    ∃ q, w' = upd_ConsumerPauseExpirationTime (delete id) (upd_PauseExpirationTimeToConsumerIds (λ _, q) w).
Proof.
  unfold CancelConsumerPauseExpiration. rewrite bind_run. cbn [gets].
  destruct (GetConsumerPauseExpirationTime id w) as [t|] eqn:Et.
  2: { exists w. split; [done|]. split; [done|]. exists (s_PauseExpirationTimeToConsumerIds w).
       unfold GetConsumerPauseExpirationTime, s_ConsumerPauseExpirationTime in Et.
       unfold upd_ConsumerPauseExpirationTime, upd_PauseExpirationTimeToConsumerIds; cbn.
       rewrite delete_id by done. by destruct w as [[] ? ? ? ? ? ? ?]. }
  rewrite bind_run. cbn [gets]. rewrite bind_run.
  assert (∃ w1, when (bool_decide (id ∈ GetConsumersToBeAutoStopped t w)) (RemoveConsumerToBeAutoStopped id t) c w
    = (Ok tt, w1) ∧ ∃ q, w1 = upd_PauseExpirationTimeToConsumerIds (λ _, q) w) as (w1 & E1 & q & Ew1).
  { case_bool_decide as Hin; cbn [when].
    - pose proof (removeConsumerFromTimeQueue_spec (Q := PauseQueue) id t c w) as Hspec.
      rewrite decide_True in Hspec by exact Hin. destruct Hspec as (w1 & _ & _ & E1 & _).
      exists w1. split; [exact E1|].
      refine (preserves_run (λ v, ∃ q, v = upd_PauseExpirationTimeToConsumerIds (λ _, q) w) _ _ _ _ _
        (removeConsumer_pause_frame id t _ _) _ E1).
      + intros v f [q ->]. exists (f q). by destruct w as [[] ? ? ? ? ? ? ?].
      + exists (s_PauseExpirationTimeToConsumerIds w). by destruct w as [[] ? ? ? ? ? ? ?].
    - exists w. split; [done|]. exists (s_PauseExpirationTimeToConsumerIds w). by destruct w as [[] ? ? ? ? ? ? ?]. }
  rewrite E1. eexists. split; [reflexivity|]. split.
  - unfold GetConsumerPauseExpirationTime. apply lookup_delete_eq.
  - exists q. by rewrite Ew1.
Qed.

(** Stopping a consumer puts it in STOPPED, schedules its removal one unbonding period
    later, cancels its accusations and its pause schedule, and moves no funds. *)
Lemma stop_schedules_removal id c w unbonding :
  UnbondingTime (w_staking w) = Some unbonding →
  let removal := time_Add (BlockTime c) unbonding in
  ∃ w', StopAndPrepareForConsumerRemoval id c w = (Ok tt, w') ∧
    GetConsumerPhase id w' = CONSUMER_PHASE_STOPPED ∧
    GetConsumerRemovalTime id w' = Some removal ∧ id ∈ GetConsumersToBeRemoved removal w' ∧
    (* no accusation, mark or pause schedule outlives the stop *)
    (∀ k, of_consumer id k = true → s_PendingDowntimeSlashes w' !! k = None) ∧
    (∀ cons, IsEpochDowntime id cons w' = false) ∧
    GetConsumerPauseExpirationTime id w' = None ∧ GetConsumerPausedAt id w' = None ∧
    GetConsumerPauseReason id w' = PAUSE_REASON_UNSPECIFIED ∧
    (* nobody else is affected, and no funds move *)
    (∀ id', id' ≠ id → GetConsumerPhase id' w' = GetConsumerPhase id' w ∧
       GetConsumerRemovalTime id' w' = GetConsumerRemovalTime id' w) ∧
    (∀ k, of_consumer id k = false → s_PendingDowntimeSlashes w' !! k = s_PendingDowntimeSlashes w !! k) ∧
    w_fs w' = w_fs w ∧ w_bank w' = w_bank w.
Proof.
  intros Hu removal. unfold StopAndPrepareForConsumerRemoval. rewrite bind_run. cbn [SetConsumerPhase modify].
  rewrite bind_run, CancelConsumerDowntimeState_run. rewrite bind_run.
  set (w1 := cancelled_downtime id _).
  destruct (CancelConsumerPauseExpiration_run id c w1) as (w2 & E2 & Hexp & q & Ew2). rewrite E2.
  repeat (rewrite bind_run; cbn [DeleteConsumerPauseReason DeleteConsumerPausedAt modify gets]).
  assert (UnbondingTime (w_staking w2) = Some unbonding) as Hu2 by (by rewrite Ew2).
  change (w_staking (upd_ConsumerPausedAt _ _)) with (w_staking w2). rewrite Hu2. cbn [of_option mret M_ret].
  repeat (rewrite bind_run; cbn [asks SetConsumerRemovalTime modify]). fold removal. cbv zeta.
  unfold AppendConsumerToBeRemoved, appendId. rewrite bind_run. cbn [gets modify].
  eexists. split; [reflexivity|]. rewrite Ew2 in *. clear E2 Ew2.
  split_and!; try done.
  - unfold GetConsumerPhase. cbn. by rewrite lookup_insert_eq.
  - unfold GetConsumerRemovalTime. cbn. by rewrite lookup_insert_eq.
  - unfold GetConsumersToBeRemoved, getIds at 1. cbn. rewrite lookup_insert_eq. cbn. set_solver.
  - intros k Hk. cbn. by rewrite clear_where_lookup, Hk.
  - intros cons. unfold IsEpochDowntime. apply bool_decide_eq_false. cbn.
    rewrite clear_where_lookup. cbn. rewrite N.eqb_refl. by intros [? ?].
  - unfold GetConsumerPausedAt. apply lookup_delete_eq.
  - unfold GetConsumerPauseReason. cbn. by rewrite lookup_delete_eq.
  - intros id' Hne. unfold GetConsumerPhase, GetConsumerRemovalTime. cbn. by rewrite !lookup_insert_ne.
  - intros k Hk. cbn. by rewrite clear_where_lookup, Hk.
Qed.
End stop.

(** ** Deleting *)
Section delete.
Context `{X : Externals, BL : !BankLaws}.

(** A sweep touches only the bank and the pool's own ledger. *)
Definition but_pool (id : N) (w w' : World) : Prop :=
  w_lc w' = w_lc w ∧ w_vs w' = w_vs w ∧ w_ks w' = w_ks w ∧ w_ds w' = w_ds w ∧ w_staking w' = w_staking w ∧
  w_ibc w' = w_ibc w ∧
  s_ConsumerDebt w' = s_ConsumerDebt w ∧ s_ConsumerFeesPerBlockOverride w' = s_ConsumerFeesPerBlockOverride w ∧
  s_FeePoolAddressToConsumerId w' = s_FeePoolAddressToConsumerId w ∧ s_EpochShareRecords w' = s_EpochShareRecords w ∧
  s_WithheldFeeRecords w' = s_WithheldFeeRecords w.
Lemma sweep_but_pool id denoms w : preserves (but_pool id w) (SweepConsumerFeePool id denoms).
Proof. pres. Qed.

Lemma sweep_drops_ledgers id c w w' :
  ledger_ok w → SweepConsumerFeePool id [] c w = (Ok tt, w') →
  (∀ denom a, get_shares id denom a w' = None ∧ get_total id denom w' = None) ∧
  (∀ id' denom a, id' ≠ id →
     get_shares id' denom a w' = get_shares id' denom a w ∧ get_total id' denom w' = get_total id' denom w).
Proof.
  intros Hl E. unfold SweepConsumerFeePool in E. rewrite decide_True in E by done.
  apply bind_Ok in E as (keys & w0 & [<- <-]%gets_Ok & E).
  apply (for_each_Ok_ind (λ dn v, ledger_ok v ∧ ∀ id' denom a,
    if decide (id' = id ∧ denom ∈ dn) then get_shares id' denom a v = None ∧ get_total id' denom v = None
    else get_shares id' denom a v = get_shares id' denom a w ∧ get_total id' denom v = get_total id' denom w)) in E.
  - destruct E as [_ E]. split.
    + intros denom a. destruct (decide (denom ∈ denoms_to_sweep id w)) as [Hin|Hni].
      { specialize (E id denom a). by rewrite decide_True in E. }
      assert (get_total id denom w = None) as Ht.
      { destruct (get_total id denom w) as [t|] eqn:Et; [|done]. destruct Hni.
        unfold denoms_to_sweep. rewrite merge_sort_Permutation, elem_of_elements, elem_of_list_to_set, elem_of_app.
        left. apply list_elem_of_fmap. exists (id, denom). split; [done|].
        apply list_elem_of_fmap. exists (id, denom, t). split; [done|].
        apply list_elem_of_filter. split; [by cbn; rewrite N.eqb_refl|]. by apply elem_of_iterate. }
      specialize (E id denom a). rewrite decide_False in E by naive_solver. destruct E as [-> ->].
      split; [|done]. apply no_total_no_shares; [done|]. by rewrite Ht.
    + intros id' denom a Hne. specialize (E id' denom a). by rewrite decide_False in E by naive_solver.
  - split; [done|]. intros id' denom a. rewrite decide_False; [done|]. intros [_ ?%elem_of_nil]. done.
  - intros dn d rest v v' _ [Hlv Hv] Ed. split.
    { pose proof (preserves_SweepConsumerFeePoolDenom id d c v Hlv) as P. by rewrite Ed in P. }
    apply sweep_ledgers in Ed as [= Es Et]; [|done]. intros id' denom a. specialize (Hv id' denom a).
    unfold get_shares, get_total in *. rewrite Es, Et, clear_where_lookup. unfold in_pool; cbn.
    destruct (decide ((id', denom) = (id, d))) as [[= -> ->]|Hne].
    + rewrite bool_decide_true, lookup_delete_eq, decide_True by set_solver. done.
    + rewrite bool_decide_false, lookup_delete_ne by congruence.
      destruct (decide (id' = id ∧ denom ∈ dn)) as [[-> ?]|Hd]; [by rewrite decide_True by set_solver|].
      rewrite decide_False; [done|]. rewrite elem_of_app, list_elem_of_singleton. intros [-> [?| ->]]; naive_solver.
Qed.

(** What an erasure leaves of the consumer, and what it keeps of the others. *)
Definition erased (id : N) (w : World) : Prop :=
  GetConsumerPhase id w = CONSUMER_PHASE_DELETED ∧
  GetConsumerChainId id w = None ∧ GetConsumerClientId id w = None ∧ GetConsumerGenesis id w = None ∧
  s_EquivocationEvidenceMinHeight w !! id = None ∧ s_InitChainHeight w !! id = None ∧
  s_PendingVSCPackets w !! id = None ∧ s_ConsumerHighestSentVscId w !! id = None ∧
  s_ConsumerHighestAckedVscId w !! id = None ∧ s_ConsumerRemovalTime w !! id = None ∧
  s_ConsumerLastAckTime w !! id = None ∧ s_ConsumerPauseReason w !! id = None ∧
  s_ConsumerPausedAt w !! id = None ∧ s_ConsumerDebt w !! id = None ∧
  s_ConsumerFeesPerBlockOverride w !! id = None ∧
  s_FeePoolAddressToConsumerId w !! GetConsumerFeePoolAddress id = None ∧
  (∀ a, s_ValidatorConsumerPubKey w !! (id, a) = None ∧ s_ValidatorByConsumerAddr w !! (id, a) = None ∧
        s_ConsumerValidators w !! (id, a) = None ∧ s_EpochDowntime w !! (id, a) = None ∧
        s_WithheldFeeRecords w !! (id, a) = None ∧ s_DowntimeWindowFloors w !! (id, a) = None) ∧
  (∀ ts, s_ConsumerAddrsToPrune w !! (id, ts) = None) ∧
  (∀ a h, s_PendingDowntimeSlashes w !! (id, a, h) = None ∧ s_AcceptedDowntimeWindows w !! (id, a, h) = None).

(** A store keyed by consumer in which the records of the others are as they were. *)
Definition others {Key A} `{Countable Key} (owner : Key → N) (id : N) (m m' : gmap Key A) : Prop :=
  ∀ k, owner k ≠ id → m' !! k = m !! k.
Lemma others_refl {Key A} `{Countable Key} (owner : Key → N) id (m : gmap Key A) : others owner id m m.
Proof. done. Qed.
Lemma others_trans {Key A} `{Countable Key} (owner : Key → N) id (m1 m2 m3 : gmap Key A) :
  others owner id m1 m2 → others owner id m2 m3 → others owner id m1 m3.
Proof. intros H1 H2 k Hk. by rewrite H2, H1. Qed.
Lemma others_delete {A} id (m : gmap N A) : others (λ k, k) id m (delete id m).
Proof. intros k Hk. by rewrite lookup_delete_ne. Qed.
Lemma others_insert {A} id (x : A) m : others (λ k, k) id m (<[id := x]> m).
Proof. intros k Hk. by rewrite lookup_insert_ne. Qed.
Lemma others_clear {Key A} `{Countable Key} (owner : Key → N) id (p : Key → bool) (m : gmap Key A) :
  (∀ k, p k = true → owner k = id) → others owner id m (clear_where p m).
Proof. intros Hp k Hk. rewrite clear_where_lookup. destruct (p k) eqn:E; [by apply Hp in E|done]. Qed.

(** What leads from [w] to [w'] wrote to no record of another consumer, and
    kept of [id] itself what block explorers show. *)
Record only_consumer (id : N) (w w' : World) : Prop := {
  oc_shown : s_ConsumerOwnerAddress w' = s_ConsumerOwnerAddress w ∧ s_ConsumerMetadata w' = s_ConsumerMetadata w ∧
    s_ConsumerInitParams w' = s_ConsumerInitParams w ∧ s_EpochShareRecords w' = s_EpochShareRecords w;
  oc_shared : s_ConsumerIdSeq w' = s_ConsumerIdSeq w ∧
    s_RemovalTimeToConsumerIds w' = s_RemovalTimeToConsumerIds w ∧
    s_PauseExpirationTimeToConsumerIds w' = s_PauseExpirationTimeToConsumerIds w ∧
    s_ConsumerPauseExpirationTime w' = s_ConsumerPauseExpirationTime w ∧
    s_ValidatorSetUpdateId w' = s_ValidatorSetUpdateId w ∧
    s_LastProviderConsensusVals w' = s_LastProviderConsensusVals w ∧
    s_PunishedEquivocations w' = s_PunishedEquivocations w ∧ s_PreviousDowntimeParams_ w' = s_PreviousDowntimeParams_ w ∧
    s_Params_ w' = s_Params_ w ∧ s_InfractionParams_ w' = s_InfractionParams_ w ∧
    w_staking w' = w_staking w ∧ w_ibc w' = w_ibc w;
  oc_launch : ∀ id' ts, id' ≠ id → id' ∈ GetConsumersToBeLaunched ts w' ↔ id' ∈ GetConsumersToBeLaunched ts w;
  oc_lifecycle : others (λ k, k) id (s_ConsumerPhases w) (s_ConsumerPhases w') ∧
    others (λ k, k) id (s_ConsumerChainId w) (s_ConsumerChainId w') ∧
    others (λ k, k) id (s_ConsumerGenesis w) (s_ConsumerGenesis w') ∧
    others (λ k, k) id (s_InitChainHeight w) (s_InitChainHeight w') ∧
    others (λ k, k) id (s_EquivocationEvidenceMinHeight w) (s_EquivocationEvidenceMinHeight w') ∧
    others (λ k, k) id (s_ConsumerRemovalTime w) (s_ConsumerRemovalTime w') ∧
    others (λ k, k) id (s_ConsumerPauseReason w) (s_ConsumerPauseReason w') ∧
    others (λ k, k) id (s_ConsumerPausedAt w) (s_ConsumerPausedAt w') ∧
    others (λ k, k) id (s_ConsumerLastAckTime w) (s_ConsumerLastAckTime w');
  oc_vsc : others (λ k, k) id (s_PendingVSCPackets w) (s_PendingVSCPackets w') ∧
    others fst id (s_ConsumerValidators w) (s_ConsumerValidators w') ∧
    others (λ k, k) id (s_ConsumerHighestSentVscId w) (s_ConsumerHighestSentVscId w') ∧
    others (λ k, k) id (s_ConsumerHighestAckedVscId w) (s_ConsumerHighestAckedVscId w') ∧
    others (λ k, k) id (s_ConsumerClients w) (s_ConsumerClients w');
  oc_keys : others fst id (s_ValidatorConsumerPubKey w) (s_ValidatorConsumerPubKey w') ∧
    others fst id (s_ValidatorByConsumerAddr w) (s_ValidatorByConsumerAddr w') ∧
    others fst id (s_ConsumerAddrsToPrune w) (s_ConsumerAddrsToPrune w');
  oc_fees : others (λ k, k) id (s_ConsumerDebt w) (s_ConsumerDebt w') ∧
    others (λ k, k) id (s_ConsumerFeesPerBlockOverride w) (s_ConsumerFeesPerBlockOverride w') ∧
    others (λ k, k.1.1) id (s_ConsumerFeePoolShares w) (s_ConsumerFeePoolShares w') ∧
    others fst id (s_ConsumerFeePoolTotalShares w) (s_ConsumerFeePoolTotalShares w') ∧
    others fst id (s_WithheldFeeRecords w) (s_WithheldFeeRecords w') ∧
    (∀ a, a ≠ GetConsumerFeePoolAddress id →
       s_FeePoolAddressToConsumerId w' !! a = s_FeePoolAddressToConsumerId w !! a);
  oc_downtime : others fst id (s_EpochDowntime w) (s_EpochDowntime w') ∧
    others (λ k, k.1.1) id (s_PendingDowntimeSlashes w) (s_PendingDowntimeSlashes w') ∧
    others (λ k, k.1.1) id (s_AcceptedDowntimeWindows w) (s_AcceptedDowntimeWindows w') ∧
    others fst id (s_DowntimeWindowFloors w) (s_DowntimeWindowFloors w');
}.
Lemma only_consumer_trans id w1 w2 w3 : only_consumer id w1 w2 → only_consumer id w2 w3 → only_consumer id w1 w3.
Proof.
  intros [S1 R1 L1 A1 V1 K1 F1 D1] [S2 R2 L2 A2 V2 K2 F2 D2]. split; destruct_and?; split_and?;
    try first [congruence | eapply others_trans; eassumption].
  - intros id' ts Hne. by rewrite (L2 id' ts Hne), (L1 id' ts Hne).
  - intros a Ha. transitivity (s_FeePoolAddressToConsumerId w2 !! a); auto.
Qed.

Lemma eraseConsumer_run id c w :
  ∃ w', (eraseConsumer id;; SetConsumerPhase id CONSUMER_PHASE_DELETED) c w = (Ok tt, w') ∧
    erased id w' ∧ only_consumer id w w' ∧ ledgers w' = ledgers w.
Proof.
  rewrite bind_run. unfold eraseConsumer.
  repeat (rewrite bind_run; cbn [DeleteConsumerClientId DeleteConsumerGenesis modify]).
  rewrite DeleteKeyAssignments_run.
  repeat (rewrite bind_run; cbn [DeleteEquivocationEvidenceMinHeight DeleteInitChainHeight DeletePendingVSCPackets
    DeleteConsumerValSet DeleteConsumerRemovalTime DeleteConsumerLastAckTime DeleteConsumerHighestSentVscId
    DeleteConsumerHighestAckedVscId DeleteConsumerPauseReason DeleteConsumerPausedAt DeleteConsumerDebt modify]).
  rewrite CancelConsumerDowntimeState_run.
  repeat (rewrite bind_run; cbn [modify]). cbn [DeleteConsumerChainId SetConsumerPhase modify].
  eexists. split; [reflexivity|]. unfold erased, GetConsumerPhase, GetConsumerChainId, GetConsumerClientId,
    GetConsumerGenesis, erase_keys, cancelled_downtime. split; [|split; [|done]].
  - cbn. rewrite lookup_insert_eq, !lookup_delete_eq. split_and!; try done;
      intros; split_and?; rewrite clear_where_lookup; unfold of_consumer; cbn; by rewrite N.eqb_refl.
  - split; cbn; split_and?; try done; first [apply others_insert|apply others_delete|apply others_clear|idtac];
      try (intros k E; unfold of_consumer, in_consumer in E; by apply N.eqb_eq in E).
    intros a Ha. by rewrite lookup_delete_ne.
Qed.

Definition deletable (p : ConsumerPhase) : bool := bool_decide (p = CONSUMER_PHASE_STOPPED) || Prelaunched p.

(** What a deletion has done before it erases: an initialized consumer has
    left the launch queue. *)
Definition unscheduled (id : N) : K unit :=
  phase ← gets (GetConsumerPhase id);
  when (bool_decide (phase = CONSUMER_PHASE_INITIALIZED))
    (ip ← (o ← gets (GetConsumerInitializationParameters id);
           of_option o (ErrOther "getting initialization parameters"));
     wrap_err ErrInvalidConsumerState (RemoveConsumerToBeLaunched id (SpawnTime ip))).
Definition but_spawn_queue (w w' : World) : Prop := ∃ q, w' = upd_SpawnTimeToConsumerIds (λ _, q) w.
Lemma unscheduled_frame id w : preserves (but_spawn_queue w) (unscheduled id).
Proof.
  assert (∀ f v, but_spawn_queue w v → but_spawn_queue w (upd_SpawnTimeToConsumerIds f v)) as HP.
  { intros f v [q ->]. exists (f q). by destruct w as [[] ? ? ? ? ? ? ?]. }
  unfold unscheduled, RemoveConsumerToBeLaunched, removeConsumerFromTimeQueue, deleteAllIds. pres.
  all: apply preserves_modify; intros v Hv; by apply HP.
Qed.
Lemma unscheduled_launch id c w w' :
  unscheduled id c w = (Ok tt, w') →
  ∀ id' ts, id' ≠ id → id' ∈ GetConsumersToBeLaunched ts w' ↔ id' ∈ GetConsumersToBeLaunched ts w.
Proof.
  unfold unscheduled. intros (ph & w1 & [<- <-]%gets_Ok & E)%bind_Ok.
  case_bool_decide; cbn [when] in E; [|by apply ret_Ok in E as [_ <-]].
  apply bind_Ok in E as (ip & w1 & E1 & E%wrap_err_Ok).
  assert (w1 = w) as ->.
  { apply bind_Ok in E1 as (o & w2 & [<- <-]%gets_Ok & E1). by apply of_option_Ok in E1 as [_ <-]. }
  pose proof (removeConsumerFromTimeQueue_spec (Q := SpawnQueue) id (SpawnTime ip) c w) as Hr.
  unfold RemoveConsumerToBeLaunched in E. case_decide; [|destruct Hr as [e Hr]; by rewrite Hr in E].
  destruct Hr as (w2 & l1 & l2 & E2 & El & _ & El' & _ & Hoth). rewrite E2 in E. injection E as <-.
  intros id' ts Hne. unfold GetConsumersToBeLaunched. destruct (decide (ts = SpawnTime ip)) as [->|Ht].
  - rewrite El, El', !elem_of_app, elem_of_cons. naive_solver.
  - unfold getIds. by rewrite Hoth.
Qed.
Lemma unscheduled_only id c w w' : unscheduled id c w = (Ok tt, w') → only_consumer id w w' ∧ ledgers w' = ledgers w.
Proof.
  intros E. pose proof (unscheduled_launch _ _ _ _ E) as Hl.
  apply (preserves_run _ _ _ _ _ _ (unscheduled_frame id w)) in E as [q ->].
  2: { exists (s_SpawnTimeToConsumerIds w). by destruct w as [[] ? ? ? ? ? ? ?]. }
  split; [|done]. by split; [..|exact Hl| | | | |].
Qed.
Lemma sweep_only id c w w' :
  ledger_ok w → SweepConsumerFeePool id [] c w = (Ok tt, w') → only_consumer id w w'.
Proof.
  intros Hl E. pose proof (sweep_drops_ledgers _ _ _ _ Hl E) as [_ Hkept].
  apply (preserves_run _ _ _ _ _ _ (sweep_but_pool id [] w)) in E; [|by repeat split].
  destruct E as (Elc & Evs & Eks & Eds & Est & Eibc & Ed & Eo & Ea & Ee & Ew).
  destruct w as [lc vs ks fs ds st bk ib], w' as [lc' vs' ks' fs' ds' st' bk' ib'].
  cbn in Elc, Evs, Eks, Eds, Est, Eibc. subst.
  split; rewrite ?Ed, ?Eo, ?Ea, ?Ee, ?Ew; try done; split_and?; try done.
  - intros [[id' denom] a] Hne. by destruct (Hkept id' denom a Hne).
  - intros [id' denom] Hne. by destruct (Hkept id' denom EmptyString Hne).
Qed.

Lemma DeleteConsumerChain_run id c w :
  deletable (GetConsumerPhase id w) = true →
  DeleteConsumerChain id c w =
    (unscheduled id;; SweepConsumerFeePool id [];; eraseConsumer id;; SetConsumerPhase id CONSUMER_PHASE_DELETED) c w.
Proof.
  intros Hd. unfold DeleteConsumerChain. rewrite bind_run. cbn [gets]. cbv zeta. rewrite bind_run.
  fold (deletable (GetConsumerPhase id w)). rewrite Hd. cbn [guard_err mret M_ret].
  unfold unscheduled. rewrite bind_run. symmetry. rewrite bind_run. rewrite bind_run. cbn [gets]. done.
Qed.

(** C16. DeleteConsumerChain refuses a consumer that is neither STOPPED nor pre-launch and
    then changes nothing. A successful deletion (on consistent fee-pool books) moves it to
    DELETED and removes what the lifecycle document lists: its chain id, client, genesis,
    minimum evidence height, init height, pending packets and counters, removal and last-ack
    time, pause reason and time, debt flag, fee override, pool-address entry, key
    assignments with their reverse entries and prune queues, validator set, downtime marks,
    pending slashes, accepted windows, floors and withheld fees, and every share of its
    pools. Owner, metadata, initialization parameters and epoch share records are kept, as
    are the records of every other consumer, in each store and in the launch queue, the
    parameters, staking and IBC. Outside INITIALIZED it succeeds whenever the fee-pool sweep
    does. *)
Theorem deletion_erases_the_consumer id c w :
  ledger_ok w →
  (deletable (GetConsumerPhase id w) = false →
     ∃ e, DeleteConsumerChain id c w = (Err e, w)) ∧
  (∀ w', DeleteConsumerChain id c w = (Ok tt, w') →
     deletable (GetConsumerPhase id w) = true ∧ erased id w' ∧
     (∀ denom a, get_shares id denom a w' = None ∧ get_total id denom w' = None) ∧
     only_consumer id w w') ∧
  (deletable (GetConsumerPhase id w) = true → GetConsumerPhase id w ≠ CONSUMER_PHASE_INITIALIZED →
   is_ok (SweepConsumerFeePool id [] c w).1 = true → is_ok (DeleteConsumerChain id c w).1 = true).
Proof.
  intros Hl. destruct (deletable (GetConsumerPhase id w)) eqn:Hd.
  2: { assert (∃ e, DeleteConsumerChain id c w = (Err e, w)) as [e E].
       { unfold DeleteConsumerChain. rewrite bind_run. cbn [gets]. cbv zeta. rewrite bind_run.
         fold (deletable (GetConsumerPhase id w)). rewrite Hd. by eexists. }
       rewrite E. split_and!; [by eexists|done|done]. }
  split; [done|]. rewrite DeleteConsumerChain_run by done. split.
  - intros w' E. split; [done|]. apply bind_Ok in E as ([] & w1 & [O1 L1]%unscheduled_only & E).
    assert (ledger_ok w1) as Hl1 by (by unfold ledger_ok, get_total; injection L1 as -> ->).
    apply bind_Ok in E as ([] & w2 & E2 & E).
    destruct (sweep_drops_ledgers _ _ _ _ Hl1 E2) as [Hgone _]. apply sweep_only in E2 as O2; [|done].
    destruct (eraseConsumer_run id c w2) as (w3 & E3 & He & O3 & [= Hs Ht]).
    rewrite E3 in E. injection E as ->. split; [done|].
    unfold get_shares, get_total in *. rewrite Hs, Ht. split; [done|].
    by apply (only_consumer_trans _ _ w1), (only_consumer_trans _ _ w2).
  - intros _ Hni Hs. rewrite bind_run. unfold unscheduled. rewrite bind_run. cbn [gets].
    rewrite bool_decide_false by done. cbn [when mret M_ret]. rewrite bind_run.
    destruct (SweepConsumerFeePool id [] c w) as [[[]|e|] w1]; [|done..].
    destruct (eraseConsumer_run id c w1) as (w2 & E2 & _). by rewrite E2.
Qed.
End delete.

(** ** Resuming *)
Section resume.
Context `{X : Externals, PL : !PacketLog}.

Lemma forkEvidenceExpired_reads id client w : preserves (λ v, v = w) (forkEvidenceExpired id client).
Proof. pres. Qed.

(** The three refusals that read nothing but the phase, the client and the
    pause record. *)
Lemma resume_refused id c w :
  (GetConsumerPhase id w ≠ CONSUMER_PHASE_PAUSED → ResumeConsumerChain id c w = (Err ErrInvalidPhase, w)) ∧
  (GetConsumerPhase id w = CONSUMER_PHASE_PAUSED → GetConsumerClientId id w = None →
     ResumeConsumerChain id c w = (Err ErrInvalidConsumerClient, w)) ∧
  (∀ client, GetConsumerPhase id w = CONSUMER_PHASE_PAUSED → GetConsumerClientId id w = Some client →
     GetClientStatus (w_ibc w) client ≠ Active →
     ResumeConsumerChain id c w = (Err ErrConsumerClientNotActive, w)).
Proof.
  unfold ResumeConsumerChain. split_and!.
  - intros Hp. rewrite bind_run. cbn [gets]. rewrite bind_run, bool_decide_false by done. done.
  - intros Hp Hc. rewrite bind_run. cbn [gets]. rewrite bind_run, bool_decide_true by done.
    cbn [guard_err mret M_ret]. rewrite bind_run, bind_run. cbn [gets]. by rewrite Hc.
  - intros client Hp Hc Hs. rewrite bind_run. cbn [gets]. rewrite bind_run, bool_decide_true by done.
    cbn [guard_err mret M_ret]. rewrite bind_run, bind_run. cbn [gets]. rewrite Hc. cbn [of_option mret M_ret].
    rewrite bind_run. cbn [gets]. by rewrite bind_run, bool_decide_false by done.
Qed.

(** The world a resume queues its snapshot from. *)
Definition resumed (id : N) (now : Time) (w w1 : World) : Prop :=
  ∃ q, w1 = upd_ConsumerLastAckTime (insert id now)
              (upd_ConsumerPhases (insert id CONSUMER_PHASE_LAUNCHED)
                 (upd_ConsumerPauseExpirationTime (delete id)
                    (upd_PauseExpirationTimeToConsumerIds (λ _, q)
                       (upd_ConsumerPausedAt (delete id) (upd_ConsumerPauseReason (delete id) w))))).

Lemma resume_steps id c w w' :
  ResumeConsumerChain id c w = (Ok tt, w') →
  GetConsumerPhase id w = CONSUMER_PHASE_PAUSED ∧ ∃ client w1 w2,
    GetConsumerClientId id w = Some client ∧ GetClientStatus (w_ibc w) client = Active ∧
    (GetConsumerPauseReason id w = PAUSE_REASON_LIGHT_CLIENT_ATTACK →
       forkEvidenceExpired id client c w = (Ok tt, w)) ∧
    resumed id (BlockTime c) w w1 ∧
    QueueImmediateSnapshotVSCPacket id c w1 = (Ok tt, w2) ∧
    sendVSCPacketsToChainStrict id client c w2 = (Ok tt, w').
Proof.
  intros E. unfold ResumeConsumerChain in E.
  apply bind_Ok in E as (phase & w0 & [<- <-]%gets_Ok & E).
  apply bind_Ok in E as (u & w0 & [Hp <-]%guard_err_Ok & E). apply bool_decide_eq_true in Hp. split; [done|].
  apply bind_Ok in E as (client & w0 & Ec & E). run_inv1 Ec. apply gets_Ok in H as [<- <-].
  apply of_option_Ok in Ec as [Ec <-].
  apply bind_Ok in E as (status & w0 & [<- <-]%gets_Ok & E).
  apply bind_Ok in E as (u1 & w0 & [Hs <-]%guard_err_Ok & E). apply bool_decide_eq_true in Hs.
  apply bind_Ok in E as (reason & w0 & [<- <-]%gets_Ok & E).
  apply bind_Ok in E as (u2 & w0 & Ef & E).
  assert (w0 = w ∧ (GetConsumerPauseReason id w = PAUSE_REASON_LIGHT_CLIENT_ATTACK →
    forkEvidenceExpired id client c w = (Ok tt, w))) as [-> Hf].
  { case_bool_decide as Hr; cbn [when] in Ef.
    - assert (w0 = w) as -> by by apply (preserves_run _ _ _ _ _ _ (forkEvidenceExpired_reads id client w) eq_refl) in Ef.
      destruct u2. by split.
    - by apply ret_Ok in Ef as [_ <-]. }
  apply bind_Ok in E as (u3 & w3 & ->%modify_Ok & E). apply bind_Ok in E as (u4 & w3 & ->%modify_Ok & E).
  apply bind_Ok in E as (u5 & w3 & Ep & E).
  match type of Ep with _ _ ?v = _ => destruct (CancelConsumerPauseExpiration_run id c v) as (w3' & Ep' & _ & q & Ew3) end.
  rewrite Ep in Ep'. injection Ep' as _ ->. subst w3'.
  apply bind_Ok in E as (u6 & w4 & ->%modify_Ok & E). apply bind_Ok in E as (now & w4 & [<- <-]%asks_Ok & E).
  apply bind_Ok in E as (u7 & w4 & ->%modify_Ok & E). apply bind_Ok in E as ([] & w5 & Eq & E).
  exists client. eexists _, w5. split_and!; try done. by exists q.
  Unshelve. all: exact c.
Qed.

Definition same_lifecycle (w w' : World) : Prop := w_lc w' = w_lc w.

(** C18. A successful resume (the bonded validators having distinct consensus addresses)
    moves a PAUSED consumer to LAUNCHED over an active client, leaves nothing of the pause
    behind, restarts the liveness clock, and sends every queued packet followed by a full
    snapshot, leaving the queue empty. The snapshot is of the set it stores, which is
    computed anew from the validators bonded at that moment: one entry per consumer address,
    with the assigned key or else the validator's own, and the power x/staking has for it
    then. *)
Theorem resume_catches_the_consumer_up id c w w' :
  bonded_distinct w → ResumeConsumerChain id c w = (Ok tt, w') →
  GetConsumerPhase id w = CONSUMER_PHASE_PAUSED ∧ GetConsumerPhase id w' = CONSUMER_PHASE_LAUNCHED ∧
  (* nothing of the pause is left *)
  GetConsumerPauseReason id w' = PAUSE_REASON_UNSPECIFIED ∧ GetConsumerPausedAt id w' = None ∧
  GetConsumerPauseExpirationTime id w' = None ∧ s_ConsumerLastAckTime w' !! id = Some (BlockTime c) ∧
  (∃ client, GetConsumerClientId id w = Some client ∧ GetClientStatus (w_ibc w) client = Active ∧
     (* every queued packet went out, a full snapshot of the new set last *)
     ∃ p bonded, sent_packets (w_ibc w') client = sent_packets (w_ibc w) client ++ GetPendingVSCPackets id w ++ [p] ∧
       IsSnapshot p = true ∧ ValsetUpdateId p = GetValidatorSetUpdateId w ∧
       (* which is computed anew from the validators bonded now *)
       GetLastBondedValidators c w = (Ok bonded, w) ∧ consumer_set id c w bonded (GetConsumerValSet id w') ∧
       (∀ u, u ∈ ValidatorUpdates p ↔ u ∈ FullValSetUpdates (GetConsumerValSet id w'))) ∧
  GetPendingVSCPackets id w' = [] ∧
  (∀ id', id' ≠ id → GetConsumerPhase id' w' = GetConsumerPhase id' w ∧
     GetPendingVSCPackets id' w' = GetPendingVSCPackets id' w).
Proof.
  intros Hd (Hp & client & w1 & w2 & Hc & Hs & _ & [q Ew1] & E1 & E2)%resume_steps.
  assert (same_lifecycle w1 w2) as L1.
  { assert (preserves (same_lifecycle w1) (QueueImmediateSnapshotVSCPacket id)) as P by pres.
    by apply (preserves_run _ _ _ _ _ _ P eq_refl) in E1. }
  assert (same_lifecycle w1 w') as L2.
  { assert (preserves (same_lifecycle w1) (sendVSCPacketsToChainStrict id client)) as P by pres.
    by apply (preserves_run _ _ _ _ _ _ P L1) in E2. }
  unfold same_lifecycle in L2.
  assert (bonded_distinct w1) as Hd1 by (by rewrite Ew1).
  apply QueueImmediateSnapshot_ok in E1 as (vals & p & Hen & Hsnap & _ & Hoth & bonded & Ebond & Hbset); [|done].
  apply sendStrict_run in E2 as (s & rest & Hl & Hsd & [(_ & -> & Hpend)|[[] _]]); [|done].
  rewrite app_nil_r in Hl. destruct Hen as [Hep Hvid Hup _ _ _ Hst _ _ Hsh _], Hsd as [Hlog _ Hvals _ _ _ _ _ _ _].
  destruct Hsh as (Hibc & _).
  assert (GetConsumerValSet id w' ≡ₚ vals) as Hset.
  { unfold GetConsumerValSet in *. by rewrite Hvals. }
  unfold GetConsumerPhase, GetConsumerPauseReason, GetConsumerPausedAt, GetConsumerPauseExpirationTime,
    s_ConsumerPhases, s_ConsumerPauseReason, s_ConsumerPausedAt, s_ConsumerPauseExpirationTime, s_ConsumerLastAckTime.
  rewrite L2, Ew1. cbn. rewrite !lookup_insert_eq, !lookup_delete_eq. split_and!; try done.
  - exists client. split; [done|]. split; [done|]. exists p, bonded. rewrite Hlog, <-Hl, Hep, Hibc, Ew1.
    split_and!; try done; [by rewrite Hvid, Ew1|by eapply (last_bonded_frame w1); [rewrite Ew1|]| |].
    { apply (consumer_set_perm _ _ _ _ vals); [done|]. apply (consumer_set_frame _ _ w w1); [by rewrite Ew1..|done]. }
    intros u. rewrite Hup, Hsnap.
    unfold FullValSetUpdates. by rewrite Hset.
  - unfold GetPendingVSCPackets. rewrite Hpend. by rewrite lookup_delete_eq.
  - intros id' Hne. rewrite lookup_insert_ne by done. split; [done|].
    pose proof (sv_pending _ _ _ (Hoth id' Hne)) as Hv. rewrite Ew1 in Hv.
    unfold GetPendingVSCPackets in *. rewrite Hpend, lookup_delete_ne by done. exact Hv.
Qed.
End resume.
