(* ===== verification/Downtime.v ===== *)
(** Consumer downtime on the provider: keeper/downtime.go (acceptance),
    keeper/downtime_slash.go (execution and pruning), keeper/downtime_challenge.go
    (challenges) and the stake lookup of keeper/consumer_equivocation.go. An
    accepted accusation waits a challenge window as a pending slash; a proven
    challenge pauses the consumer and cancels all of them. *)
From S2P Require Import Prelude GoTime Types Externals World Keeper Queues Valset FeePool Fees KeyAssignment.
From S2P Require Import Lifecycle.

(** The message: a header with a nil part is [None], a commit is its encoding. *)
Record MsgChallengeConsumerDowntime := mkChallenge {
  ch_Signer : string;
  ch_ConsumerId : N;
  ch_ValidatorAddr : string;
  ch_ClaimedHeight : Z;
  ch_Header : option TmHeader;
  ch_LastCommit : option string;
  ch_ValidatorPubkey : string;
}.

Section downtime.
Context `{X : Externals}.

(** *** Acceptance *)
Definition accusedConsumerValidatorAddr (consumerId : N) (accusedAddr : string) (w : World)
  : string * bool :=
  if IsConsumerValidator consumerId accusedAddr w then (accusedAddr, true)
  else
    let rotatedAddr := liveProviderConsAddr accusedAddr w in
    (rotatedAddr, IsConsumerValidator consumerId rotatedAddr w).

(** The retained windows of one (consumer, validator) pair, by window end. *)
Definition of_pair (consumerId : N) (addr : string) (k : N * string * Z) : bool :=
  bool_decide (k.1 = (consumerId, addr)).
Definition retained_windows (consumerId : N) (providerAddr : string) (w : World)
  : list (N * string * Z * AcceptedDowntimeWindow) :=
  filter (λ kv, of_pair consumerId providerAddr kv.1 = true) (iterate (s_AcceptedDowntimeWindows w)).
Definition intersects (newStart newEnd : Z) (kv : N * string * Z * AcceptedDowntimeWindow) : bool :=
  (newStart <=? kv.1.2) && (aw_WindowStart kv.2 <=? newEnd).
Definition checkAcceptedDowntimeWindowIntersection (consumerId : N) (providerAddr : string)
    (newStart newEnd : Z) : K unit :=
  windows ← gets (retained_windows consumerId providerAddr);
  guard_err (negb (existsb (intersects newStart newEnd) windows)) ErrInvalidPacketData.

Definition consumerClientTrustingPeriod (clientId : string) : K Duration :=
  cs ← tm_client_state clientId ErrInvalidConsumerState;
  mret (cs_TrustingPeriod cs).

(** The ascending scan: the last height at or below [windowEnd] and whether
    one at or above it exists. *)
Fixpoint bracket (windowEnd : Z) (heights : list Z) (anchor : option Z) : option Z * bool :=
  match heights with
  | [] => (anchor, false)
  | h :: rest =>
      let anchor := if h <=? windowEnd then Some h else anchor in
      if windowEnd <=? h then (anchor, true) else bracket windowEnd rest anchor
  end.
Definition windowEndTimestamp (clientId : string) (windowEnd : Z) : K Time :=
  heights ← gets (λ w, ConsensusHeights (w_ibc w) clientId);
  let '(anchorHeight, upperFound) := bracket windowEnd heights None in
  guard_err upperFound (ErrOther "no consensus state at or above the window end");;
  h ← of_option anchorHeight (ErrOther "window end predates the retained consensus states");
  ts ← gets (λ w, ConsensusTimestamp (w_ibc w) clientId h);
  of_option ts (ErrOther "consensus state lookup failed").

Definition HandleConsumerDowntime (consumerId : N) (e : EvidencePacketData) : K unit :=
  ok ← AcceptableDowntimeParams (mkDowntimeParams (SignedBlocksWindow e) (MinSignedPerWindow e));
  guard_err ok ErrInvalidPacketData;;
  guard_err (negb (MissedCount e <=? Evidence_MaxMissed e)) ErrInvalidPacketData;;
  let consumerAddr := ValidatorAddr e in
  providerAddr ← gets (GetProviderAddrFromConsumerAddr consumerId consumerAddr);
  minHeight ← gets (GetEquivocationEvidenceMinHeight consumerId);
  guard_err (negb (WindowEndHeight e mod 2 ^ 64 <? minHeight)) ErrInvalidPacketData;;
  '(setAddr, inSet) ← gets (accusedConsumerValidatorAddr consumerId providerAddr);
  guard_err inSet ErrInvalidPacketData;;
  clientId ← (o ← gets (GetConsumerClientId consumerId); of_option o ErrInvalidConsumerState);
  windowEndTime ← wrap_err ErrInvalidPacketData (windowEndTimestamp clientId (WindowEndHeight e));
  ip ← GetInfractionParams;
  when (0 <? DowntimeGracePeriod ip)
    (initParams ← (o ← gets (GetConsumerInitializationParameters consumerId);
                   of_option o ErrInvalidConsumerState);
     guard_err (negb (time_Before windowEndTime (time_Add (SpawnTime initParams) (DowntimeGracePeriod ip))))
       ErrInvalidPacketData);;
  now ← asks BlockTime;
  let age := time_Sub now windowEndTime in
  guard_err (negb (DowntimeEvidenceMaxAge ip <? age)) ErrInvalidPacketData;;
  trustingPeriod ← consumerClientTrustingPeriod clientId;
  guard_err (negb (trustingPeriod <=? wrap64 (age + DowntimeChallengeWindow ip))) ErrInvalidPacketData;;
  floor ← gets (λ w, s_DowntimeWindowFloors w !! (consumerId, providerAddr));
  guard_err (match floor with Some f => negb (WindowStartHeight e <=? f) | None => true end)
    ErrInvalidPacketData;;
  checkAcceptedDowntimeWindowIntersection consumerId providerAddr (WindowStartHeight e) (WindowEndHeight e);;
  slashTokens ← wrap_err ErrInvalidPacketData (ResolveDowntimeSlashTokens consumerId e windowEndTime);
  distributed ← gets (ResolveEpochShare consumerId windowEndTime);
  when (bool_decide (distributed = None)) (MarkEpochDowntime consumerId setAddr);;
  let maturesAt := time_Add now (DowntimeChallengeWindow ip) in
  let pendingKey := (consumerId, providerAddr, WindowEndHeight e) in
  modify (upd_PendingDowntimeSlashes (insert pendingKey
    (mkPendingDowntimeSlash consumerId providerAddr consumerAddr (WindowStartHeight e) (Span e)
       (MissedCount e) (MissedBlocksBitmap e) slashTokens maturesAt)));;
  modify (upd_AcceptedDowntimeWindows (insert pendingKey
    (mkAcceptedDowntimeWindow (WindowStartHeight e) now))).

Definition HandleConsumerEvidencePacket (consumerId : N) (e : EvidencePacketData) : K unit :=
  guard_err (is_ok (EvidencePacketData_Validate e)) ErrInvalidPacketData;;
  phase ← gets (GetConsumerPhase consumerId);
  guard_err (bool_decide (phase = CONSUMER_PHASE_LAUNCHED)) ErrInvalidConsumerState;;
  match Infraction_ e with
  | INFRACTION_DOWNTIME => HandleConsumerDowntime consumerId e
  | _ => raise (ErrOther "unsupported infraction type in evidence packet")
  end.

(** *** Slashable stake (consumer_equivocation.go) *)
(** [TokensToConsensusPower] ends in [Int64()], which panics out of range. *)
Definition ComputePowerToSlash (undelegations redelegations : list Z) (power powerReduction : Z) : K Z :=
  q ← Int_Quo (sumZ id undelegations + sumZ id redelegations) powerReduction;
  if bool_decide (int64_min ≤ q ≤ int64_max) then mret (wrap64 (power + q)) else panic.

Definition slashableStake (providerAddr : string) : K (Z * Z * string) :=
  validator ← (o ← gets (λ w, GetValidatorByConsAddr (w_staking w) providerAddr); of_option o ErrExternal);
  guard_err (negb (IsUnbonded validator)) ErrExternal;;
  let consAddr := liveConsAddrOf validator providerAddr in
  tombstoned ← gets (λ w, IsTombstoned (w_staking w) consAddr);
  guard_err (negb tombstoned) ErrValidatorTombstoned;;
  valAddr ← of_option (ValAddressFromBech32 (OperatorAddress validator)) ErrExternal;
  undelegations ← (o ← gets (λ w, SlashableUndelegations (w_staking w) valAddr); of_option o ErrExternal);
  redelegations ← (o ← gets (λ w, SlashableRedelegations (w_staking w) valAddr); of_option o ErrExternal);
  lastPower ← (o ← gets (λ w, GetLastValidatorPower (w_staking w) valAddr); of_option o ErrExternal);
  powerReduction ← gets (λ w, PowerReduction (w_staking w));
  totalPower ← ComputePowerToSlash undelegations redelegations lastPower powerReduction;
  mret (totalPower, totalPower * powerReduction, consAddr).

Definition slash_call (consAddr : string) (height power : Z) (fraction : dec) (infraction : Infraction)
  : K unit :=
  o ← gets (λ w, SlashWithInfractionReason (w_staking w) consAddr height power fraction infraction);
  s' ← of_option o ErrExternal;
  modify (set_staking s').

(** The parameters are behind a pointer, dereferenced after the lookup. *)
Definition SlashValidator (providerAddr : string) (slashingParams : option SlashJailParameters)
    (infraction : Infraction) : K unit :=
  '(totalPower, _, consAddr) ← slashableStake providerAddr;
  params ← or_panic slashingParams;
  slash_call consAddr 0 totalPower (SlashFraction params) infraction.

(** *** Execution *)
Definition downtime_fraction (slashTokens totalTokens : Z) (cap : dec) : dec :=
  let fraction := dec_Quo (dec_NewDec slashTokens) (dec_NewDec totalTokens) in
  if dec_GT fraction cap then cap else fraction.

(** Whether a slash was executed; a dropped entry only emits an event. *)
Definition executeDowntimeSlash (key : N * string * Z) (entry : PendingDowntimeSlash)
    (ip : InfractionParameters) : K bool :=
  let providerAddr := key.1.2 in
  if ps_SlashTokens entry =? 0 then mret false else
  r ← try (slashableStake providerAddr);
  match r with
  | inl _ => mret false
  | inr (totalPower, totalTokens, consAddr) =>
      if totalTokens =? 0 then mret false else
      dt ← or_panic (Downtime ip);
      let fraction := downtime_fraction (ps_SlashTokens entry) totalTokens (SlashFraction dt) in
      s ← try (slash_call consAddr 0 totalPower fraction INFRACTION_DOWNTIME);
      mret (match s with inl _ => false | inr _ => true end)
  end.

Definition hasPendingDowntimeSlash (consumerId : N) (addr : string) (w : World) : bool :=
  bool_decide (filter (λ kv, of_pair consumerId addr kv.1 = true)
                 (iterate (s_PendingDowntimeSlashes w)) ≠ []).

Definition matured (now : Time) (w : World) : list (N * string * Z * PendingDowntimeSlash) :=
  filter (λ kv, time_After (ps_MaturesAt kv.2) now = false) (iterate (s_PendingDowntimeSlashes w)).

Definition SweepPendingDowntimeSlashes : K unit :=
  ip ← GetInfractionParams;
  now ← asks BlockTime;
  maturedEntries ← gets (matured now);
  executedPairs ← fold_each maturedEntries (λ (acc : gset (N * string)) kv,
    executed ← executeDowntimeSlash kv.1 kv.2 ip;
    mret (if executed : bool then acc ∪ {[ kv.1.1 ]} else acc)) ∅;
  for_each maturedEntries (λ kv, modify (upd_PendingDowntimeSlashes (delete kv.1)));;
  let touchedPairs := remove_dups (maturedEntries.*1).*1 in
  for_each touchedPairs (λ pk,
    if negb (bool_decide (pk ∈ executedPairs)) then mret tt else
    hasPending ← gets (hasPendingDowntimeSlash pk.1 pk.2);
    if hasPending : bool then mret tt else modify (upd_WithheldFeeRecords (delete pk))).

(** *** Pruning *)
Definition lowestAcceptedWindowEnd (consumerId : N) (providerConsAddr : string) (w : World) : option Z :=
  (λ kv, kv.1.2) <$> head (retained_windows consumerId providerConsAddr w).

Definition prune_window (key : N * string * Z) : K unit :=
  let '(pairKey, windowEnd) := key in
  lowest ← gets (lowestAcceptedWindowEnd pairKey.1 pairKey.2);
  if (match lowest with Some lowestEnd => lowestEnd <? windowEnd | None => false end) then mret tt else
  floor ← gets (λ w, s_DowntimeWindowFloors w !! pairKey);
  when (match floor with None => true | Some f => f <? windowEnd end)
    (modify (upd_DowntimeWindowFloors (insert pairKey windowEnd)));;
  modify (upd_AcceptedDowntimeWindows (delete key)).

Definition prunable (now : Time) (horizon : Duration) (w : World) : list (N * string * Z) :=
  (filter (λ kv, (time_Sub now (aw_AcceptedAt kv.2) <=? horizon) = false
                 ∧ s_PendingDowntimeSlashes w !! kv.1 = None)
     (iterate (s_AcceptedDowntimeWindows w))).*1.
Definition PruneAcceptedDowntimeWindows (ip : InfractionParameters) : K unit :=
  let horizon := wrap64 (DowntimeChallengeWindow ip + DowntimeEvidenceMaxAge ip) in
  now ← asks BlockTime;
  prunedKeys ← gets (prunable now horizon);
  for_each prunedKeys prune_window.

(** *** Challenges *)
Definition in_window (claimedHeight : Z) (p : PendingDowntimeSlash) : bool :=
  (ps_WindowStartHeight p <=? claimedHeight)
  && (claimedHeight <? wrap64 (ps_WindowStartHeight p + ps_Span p)).
Definition findPendingDowntimeSlashUnderProviderAddr (consumerId : N) (providerConsAddr : string)
    (claimedHeight : Z) (w : World) : option PendingDowntimeSlash :=
  head (filter (λ kv, of_pair consumerId providerConsAddr kv.1 = true ∧ in_window claimedHeight kv.2 = true)
          (iterate (s_PendingDowntimeSlashes w))).*2.
Definition findPendingDowntimeSlashContaining (consumerId : N) (consumerAddr : string)
    (claimedHeight : Z) (w : World) : option PendingDowntimeSlash :=
  let providerAddr := GetProviderAddrFromConsumerAddr consumerId consumerAddr w in
  match findPendingDowntimeSlashUnderProviderAddr consumerId providerAddr claimedHeight w with
  | Some pending => Some pending
  | None =>
      head (filter (λ kv, of_consumer consumerId kv.1 = true ∧ ps_ConsumerConsAddr kv.2 = consumerAddr
                          ∧ in_window claimedHeight kv.2 = true)
              (iterate (s_PendingDowntimeSlashes w))).*2
  end.

Definition verifySealedCommitSignature (lastCommit : option string) (header : TmHeader)
    (chainID valAddr pubKey : string) : result unit :=
  let claimedHeight := wrap64 (hdr_Height header - 1) in
  match lastCommit ≫= CommitFromProto with
  | None => Err ErrDowntimeChallengeFailed
  | Some commit =>
      if negb (commit_Height commit =? claimedHeight) then Err ErrDowntimeChallengeFailed else
      if negb (String.eqb (CommitHash commit) (hdr_LastCommitHash header))
      then Err ErrDowntimeChallengeFailed else
      if negb (String.eqb (Ed25519Address pubKey) valAddr) then Err ErrDowntimeChallengeFailed else
      match list_find (λ sig, sig_ValidatorAddress sig = valAddr) (commit_Signatures commit) with
      | None => Err ErrDowntimeChallengeFailed
      | Some (sigIdx, sig) =>
          if negb (bool_decide (sig_Flag sig = BlockIDFlagCommit)
                   || bool_decide (sig_Flag sig = BlockIDFlagNil))
          then Err ErrDowntimeChallengeFailed else
          if VerifySignature pubKey (VoteSignBytes commit chainID sigIdx) (sig_Signature sig)
          then Ok tt else Err ErrDowntimeChallengeFailed
      end
  end.

Definition verifyDowntimeChallengeHeader (clientId : string) (header : TmHeader) : K unit :=
  status ← gets (λ w, GetClientStatus (w_ibc w) clientId);
  guard_err (bool_decide (status = Active)) ErrDowntimeChallengeFailed;;
  ok ← gets (λ w, VerifyClientMessage (w_ibc w) clientId header);
  guard_err ok ErrExternal.

(** A pure check as a step: [if err := f(); err != nil { return err }]. *)
Definition check (r : result unit) : K unit :=
  match r with Ok _ => mret tt | Err e => raise e | Panic => panic end.

Definition HandleChallengeConsumerDowntime (msg : MsgChallengeConsumerDowntime) : K unit :=
  header ← of_option (ch_Header msg) ErrDowntimeChallengeFailed;
  o ← gets (findPendingDowntimeSlashContaining (ch_ConsumerId msg) (ch_ValidatorAddr msg) (ch_ClaimedHeight msg));
  pending ← of_option o ErrDowntimeChallengeFailed;
  let index := wrap64 (ch_ClaimedHeight msg - ps_WindowStartHeight pending) in
  guard_err (Bitmap.BitmapIsSet (ps_MissedBlocksBitmap pending) index) ErrDowntimeChallengeFailed;;
  consumerChainId ← (o ← gets (GetConsumerChainId (ch_ConsumerId msg)); of_option o ErrDowntimeChallengeFailed);
  guard_err (String.eqb (hdr_ChainID header) consumerChainId) ErrDowntimeChallengeFailed;;
  guard_err (hdr_Height header =? wrap64 (ch_ClaimedHeight msg + 1)) ErrDowntimeChallengeFailed;;
  clientId ← (o ← gets (GetConsumerClientId (ch_ConsumerId msg)); of_option o ErrDowntimeChallengeFailed);
  wrap_err ErrDowntimeChallengeFailed (verifyDowntimeChallengeHeader clientId header);;
  check (verifySealedCommitSignature (ch_LastCommit msg) header consumerChainId
           (ch_ValidatorAddr msg) (ch_ValidatorPubkey msg));;
  PauseConsumerChain (ch_ConsumerId msg) PAUSE_REASON_DOWNTIME_CHALLENGE.
End downtime.
