(* ===== verification/DowntimeProofs.v ===== *)
(** Theorems about downtime accusations: no height of a validator is accepted
    twice while its records stay under its address, a slash stays under its cap
    and never reads an unmatured entry, a won challenge disproves an accusation
    against the validator that signed and pauses the consumer, a lost one changes
    nothing. *)
From S2P Require Import Prelude GoTime Types Externals World Keeper Queues Valset FeePool Fees FeesProofs.
From S2P Require Import KeyAssignment Lifecycle LifecycleProofs Downtime.

(** ** No height is accepted twice *)
Section covered.
Context `{X : Externals}.

(** A height is covered when a retained window contains it or the pair's floor
    has passed it. *)
Definition covered (id : N) (addr : string) (h : Z) (w : World) : Prop :=
  (∃ wend a, s_AcceptedDowntimeWindows w !! (id, addr, wend) = Some a ∧ aw_WindowStart a ≤ h ≤ wend) ∨
  (∃ f, s_DowntimeWindowFloors w !! (id, addr) = Some f ∧ h ≤ f).

Lemma elem_of_retained id addr k a w :
  (k, a) ∈ retained_windows id addr w ↔ k.1 = (id, addr) ∧ s_AcceptedDowntimeWindows w !! k = Some a.
Proof.
  unfold retained_windows. rewrite list_elem_of_filter, elem_of_iterate. cbn. unfold of_pair.
  by rewrite bool_decide_eq_true.
Qed.

Lemma retained_sorted id addr w : StronglySorted entry_le (retained_windows id addr w).
Proof. apply StronglySorted_filter, iterate_sorted. Qed.

(** The lowest retained window end is a minimum. *)
Lemma lowestAcceptedWindowEnd_min id addr wend a w :
  s_AcceptedDowntimeWindows w !! (id, addr, wend) = Some a →
  ∃ low, lowestAcceptedWindowEnd id addr w = Some low ∧ low ≤ wend.
Proof.
  intros E. assert ((id, addr, wend, a) ∈ retained_windows id addr w) as Hin by (by apply elem_of_retained).
  pose proof (retained_sorted id addr w) as Hs. unfold lowestAcceptedWindowEnd.
  destruct (retained_windows id addr w) as [|[[p l] b] rest] eqn:El; [set_solver|].
  exists l. split; [done|]. apply elem_of_cons in Hin as [[= <- <- <-]|Hin]; [done|].
  assert (p = (id, addr)) as ->.
  { assert ((p, l, b) ∈ retained_windows id addr w) as Hp by (rewrite El; set_solver).
    by apply elem_of_retained in Hp as [? _]. }
  apply StronglySorted_inv in Hs as [_ Hall]. rewrite Forall_forall in Hall. specialize (Hall _ Hin).
  unfold entry_le, key_le in Hall; cbn in Hall. unfold pair_le in Hall; cbn in Hall.
  by rewrite decide_True in Hall.
Qed.

Lemma prune_window_covered id addr h key : preserves (covered id addr h) (prune_window key).
Proof.
  intros c w Hw. destruct key as [pk wend]. unfold prune_window. rewrite bind_run. cbn [gets].
  destruct (match lowestAcceptedWindowEnd pk.1 pk.2 w with Some _ => _ | None => _ end) eqn:El; [done|].
  rewrite bind_run. cbn [gets]. rewrite bind_run.
  set (raise := match s_DowntimeWindowFloors w !! pk with Some _ => _ | None => _ end).
  set (floors := if raise then <[pk := wend]> (s_DowntimeWindowFloors w) else s_DowntimeWindowFloors w).
  match goal with |- covered id addr h (match ?m c w with _ => _ end).2 =>
    assert (∃ w1, m c w = (Ok tt, w1) ∧ s_DowntimeWindowFloors w1 = floors
      ∧ s_AcceptedDowntimeWindows w1 = s_AcceptedDowntimeWindows w) as (w1 & -> & Ef & Ea) end.
  { unfold floors. destruct raise; eexists; split; try done; split; done. }
  cbn [modify snd]. unfold covered in *. cbn.
  change (AcceptedDowntimeWindows (w_ds w1)) with (s_AcceptedDowntimeWindows w1).
  change (DowntimeWindowFloors (w_ds w1)) with (s_DowntimeWindowFloors w1). rewrite Ef, Ea.
  assert (∀ x, s_DowntimeWindowFloors w !! pk = Some x → ∃ y, floors !! pk = Some y ∧ x ≤ y) as Hmono.
  { intros x Hx. unfold floors, raise. rewrite Hx. destruct (Z.ltb_spec x wend); [|by exists x].
    exists wend. rewrite lookup_insert_eq. split; [done|lia]. }
  destruct Hw as [(e & a & E & Hh)|(f & E & Hh)].
  - destruct (decide ((id, addr, e) = (pk, wend))) as [[= <- <-]|Hne].
    + right. unfold floors, raise. destruct (s_DowntimeWindowFloors w !! (id, addr)) as [f|] eqn:Ef'.
      * destruct (Z.ltb_spec f e); [exists e; rewrite lookup_insert_eq; split; [done|lia]|].
        exists f. split; [done|lia].
      * exists e. rewrite lookup_insert_eq. split; [done|lia].
    + left. exists e, a. rewrite lookup_delete_ne by congruence. done.
  - right. destruct (decide ((id, addr) = pk)) as [<-|Hne].
    + destruct (Hmono f E) as (y & Ey & Hy). exists y. split; [done|lia].
    + exists f. split; [|done]. unfold floors. destruct raise; [|done]. by rewrite lookup_insert_ne by congruence.
Qed.
Hint Resolve prune_window_covered : vaas.

(** What an accepted accusation writes. *)
Definition accept_window (id : N) (e : EvidencePacketData) (addr : string) (tokens : Z) (now maturesAt : Time)
    (w : World) : World :=
  upd_AcceptedDowntimeWindows (insert (id, addr, WindowEndHeight e) (mkAcceptedDowntimeWindow (WindowStartHeight e) now))
    (upd_PendingDowntimeSlashes (insert (id, addr, WindowEndHeight e)
      (mkPendingDowntimeSlash id addr (ValidatorAddr e) (WindowStartHeight e) (Span e) (MissedCount e)
         (MissedBlocksBitmap e) tokens maturesAt)) w).

Lemma HandleConsumerDowntime_run id e c w r w' :
  HandleConsumerDowntime id e c w = (r, w') →
  (w' = w ∧ is_ok r = false) ∨
  r = Ok tt ∧ ∃ ip tokens set_addr client t_end,
    let addr := GetProviderAddrFromConsumerAddr id (ValidatorAddr e) w in
    s_InfractionParams_ w = Some ip ∧
    Evidence_MaxMissed e < MissedCount e ∧
    GetConsumerClientId id w = Some client ∧
    windowEndTimestamp client (WindowEndHeight e) c w = (Ok t_end, w) ∧
    time_Sub (BlockTime c) t_end ≤ DowntimeEvidenceMaxAge ip ∧
    accusedConsumerValidatorAddr id addr w = (set_addr, true) ∧
    (∀ f, s_DowntimeWindowFloors w !! (id, addr) = Some f → f < WindowStartHeight e) ∧
    existsb (intersects (WindowStartHeight e) (WindowEndHeight e)) (retained_windows id addr w) = false ∧
    ∃ w1, (w1 = w ∨ w1 = upd_EpochDowntime (insert (id, set_addr) true) w) ∧
      w' = accept_window id e addr tokens (BlockTime c) (time_Add (BlockTime c) (DowntimeChallengeWindow ip)) w1.
Proof.
  unfold HandleConsumerDowntime. intros E. ro_step E ok Eok. ro_step E u1 E1. ro_step E u2 E2.
  apply guard_err_Ok in E2 as [E2%negb_true_iff%Z.leb_gt _].
  ro_step E addr Eaddr. apply gets_Ok in Eaddr as [Eaddr _]. ro_step E mh Emh. ro_step E u3 E3.
  ro_step E sa Esa. apply gets_Ok in Esa as [Esa _]. destruct sa as [set_addr inSet]. ro_step E u4 E4.
  apply guard_err_Ok in E4 as [-> _]. ro_step E client Ecl.
  apply bind_Ok in Ecl as (o & w0 & [<- <-]%gets_Ok & [Ecl _]%of_option_Ok).
  ro_step E t_end Et. apply wrap_err_Ok in Et. ro_step E ip Eip.
  unfold GetInfractionParams in Eip. apply bind_Ok in Eip as (o & w0 & [<- <-]%gets_Ok & [Eip _]%or_panic_Ok).
  ro_step E u5 E5. ro_step E now Enow. apply asks_Ok in Enow as [<- _]. ro_step E u6 E6.
  apply guard_err_Ok in E6 as [E6%negb_true_iff%Z.ltb_ge _]. ro_step E tp Etp. ro_step E u7 E7.
  ro_step E flr Efl. apply gets_Ok in Efl as [Efl _]. ro_step E u8 E8. apply guard_err_Ok in E8 as [E8 _].
  ro_step E u9 E9. unfold checkAcceptedDowntimeWindowIntersection in E9.
  apply bind_Ok in E9 as (ws & w0 & [<- <-]%gets_Ok & [E9%negb_true_iff _]%guard_err_Ok).
  ro_step E tokens Etok. ro_step E dist Edist. right.
  rewrite bind_run in E. subst addr.
  destruct (bool_decide (dist = None)); cbn [when MarkEpochDowntime modify mret M_ret] in E;
    injection E as <- <-; (split; [done|]); exists ip, tokens, set_addr, client, t_end; cbv zeta;
    (split_and!; [done..| | |]); try done.
  - intros f Ef. rewrite Ef in Efl. subst flr. by apply negb_true_iff, Z.leb_gt in E8.
  - eexists. split; [by right|done].
  - intros f Ef. rewrite Ef in Efl. subst flr. by apply negb_true_iff, Z.leb_gt in E8.
  - eexists. split; [by left|done].
Qed.

Lemma HandleConsumerEvidencePacket_run id e c w r w' :
  HandleConsumerEvidencePacket id e c w = (r, w') →
  (w' = w ∧ is_ok r = false) ∨
  EvidencePacketData_Validate e = Ok tt ∧ GetConsumerPhase id w = CONSUMER_PHASE_LAUNCHED ∧
  HandleConsumerDowntime id e c w = (Ok tt, w') ∧ r = Ok tt.
Proof.
  unfold HandleConsumerEvidencePacket. intros E. ro_step E u1 E1. apply guard_err_Ok in E1 as [E1 _].
  ro_step E ph Eph. apply gets_Ok in Eph as [<- _]. ro_step E u2 E2.
  apply guard_err_Ok in E2 as [E2%bool_decide_eq_true _].
  destruct (Infraction_ e); [left; by injection E as <- <-|left; by injection E as <- <-|].
  destruct (HandleConsumerDowntime_run _ _ _ _ _ _ E) as [?|[-> _]]; [by left|].
  right. split_and!; try done. destruct (EvidencePacketData_Validate e) as [[]| |]; done.
Qed.

Lemma validated_window e :
  EvidencePacketData_Validate e = Ok tt → 0 < WindowStartHeight e ≤ WindowEndHeight e.
Proof.
  unfold EvidencePacketData_Validate. destruct (String.eqb _ _); [done|].
  destruct (Z.leb_spec (WindowEndHeight e) 0); [done|]. case_match; [done|].
  destruct (Z.leb_spec (WindowStartHeight e) 0); [done|].
  destruct (Z.ltb_spec (WindowEndHeight e) (WindowStartHeight e)); [done|]. intros _. lia.
Qed.

(** An accepted window meets no retained one. *)
Lemma retained_disjoint id addr s t wend a w :
  existsb (intersects s t) (retained_windows id addr w) = false →
  s_AcceptedDowntimeWindows w !! (id, addr, wend) = Some a →
  wend < s ∨ t < aw_WindowStart a.
Proof.
  intros Hex Ea. assert ((id, addr, wend, a) ∈ retained_windows id addr w) as Hin by (by apply elem_of_retained).
  apply list_elem_of_In in Hin.
  assert (intersects s t (id, addr, wend, a) = false) as Hi.
  { destruct (intersects s t (id, addr, wend, a)) eqn:Hi; [|done].
    rewrite <-Hex. symmetry. apply existsb_exists. by exists (id, addr, wend, a). }
  unfold intersects in Hi; cbn in Hi. apply andb_false_iff in Hi as [Hi%Z.leb_gt|Hi%Z.leb_gt]; [by left|by right].
Qed.

Lemma evidence_covered id e id' addr h :
  preserves (covered id' addr h) (HandleConsumerEvidencePacket id e).
Proof.
  intros c w Hw. destruct (HandleConsumerEvidencePacket id e c w) as [r w'] eqn:E. cbn [snd].
  apply HandleConsumerEvidencePacket_run in E as [[-> _]|(Hval & _ & E & _)]; [done|].
  apply validated_window in Hval.
  apply HandleConsumerDowntime_run in E as [[-> _]|(_ & ip & tokens & sa & cl & te & Hrun)]; [done|].
  cbv zeta in Hrun. destruct Hrun as (_ & _ & _ & _ & _ & _ & _ & Hex & w1 & Hw1 & ->).
  set (p := GetProviderAddrFromConsumerAddr id (ValidatorAddr e) w) in *.
  assert (s_AcceptedDowntimeWindows w1 = s_AcceptedDowntimeWindows w ∧ s_DowntimeWindowFloors w1 = s_DowntimeWindowFloors w)
    as [Ea Ef] by (by destruct Hw1 as [-> | ->]).
  destruct Hw as [(wend & a & E & Hh)|(f & E & Hh)].
  - left. destruct (decide ((id', addr, wend) = (id, p, WindowEndHeight e))) as [[= -> -> ->]|Hne].
    + exfalso. destruct (retained_disjoint _ _ _ _ _ _ _ Hex E); lia.
    + exists wend, a. split; [|done]. cbn. rewrite lookup_insert_ne by congruence.
      change (s_AcceptedDowntimeWindows w1 !! (id', addr, wend) = Some a). by rewrite Ea.
  - right. exists f. split; [|done]. change (s_DowntimeWindowFloors w1 !! (id', addr) = Some f). by rewrite Ef.
Qed.

(** The operations that touch downtime state while a consumer exists. *)
Inductive downtime_operation : K unit → Prop :=
  | op_evidence id e : downtime_operation (HandleConsumerEvidencePacket id e)
  | op_challenge msg : downtime_operation (HandleChallengeConsumerDowntime msg)
  | op_sweep : downtime_operation SweepPendingDowntimeSlashes
  | op_prune ip : downtime_operation (PruneAcceptedDowntimeWindows ip)
  | op_pause id reason : downtime_operation (PauseConsumerChain id reason)
  | op_stop id : downtime_operation (StopAndPrepareForConsumerRemoval id)
  | op_distribute : downtime_operation DistributeConsumerFees.

Lemma downtime_operation_covered op id addr h :
  downtime_operation op → preserves (covered id addr h) op.
Proof.
  destruct 1.
  - apply evidence_covered.
  - pres.
  - pres.
  - unfold PruneAcceptedDowntimeWindows. pres.
  - pres.
  - pres.
  - pres.
Qed.
(** Any number of these operations, successful or not, in any order, between
    other ones that leave the accepted windows and the floors alone. *)
Definition same_windows (w w' : World) : Prop :=
  s_AcceptedDowntimeWindows w' = s_AcceptedDowntimeWindows w ∧ s_DowntimeWindowFloors w' = s_DowntimeWindowFloors w.
Definition downtime_run : relation World :=
  rtc (λ w w', (∃ op c, downtime_operation op ∧ w' = (op c w).2) ∨ same_windows w w').
Lemma downtime_run_covered id addr h w w' : downtime_run w w' → covered id addr h w → covered id addr h w'.
Proof.
  induction 1 as [|w v w' Hs _ IH]; [done|]. intros Hw. apply IH. destruct Hs as [(op & c & Hop & ->)|[Ea Ef]].
  - by apply downtime_operation_covered.
  - unfold covered. by rewrite Ea, Ef.
Qed.

(** Evidence is accepted only for a window none of whose heights was covered before,
    and covers all of them afterwards. *)
Lemma accepted_evidence_accuses_fresh_heights id e c w w' :
  HandleConsumerEvidencePacket id e c w = (Ok tt, w') →
  let addr := GetProviderAddrFromConsumerAddr id (ValidatorAddr e) w in
  ∀ h, WindowStartHeight e ≤ h ≤ WindowEndHeight e → ¬ covered id addr h w ∧ covered id addr h w'.
Proof.
  intros E addr h Hh. apply HandleConsumerEvidencePacket_run in E as [[_ ?]|(Hval & _ & E & _)]; [done|].
  apply validated_window in Hval.
  apply HandleConsumerDowntime_run in E as [[_ ?]|(_ & ip & tokens & sa & cl & te & Hrun)]; [done|].
  cbv zeta in Hrun. fold addr in Hrun. destruct Hrun as (_ & _ & _ & _ & _ & _ & Hfl & Hex & w1 & _ & ->). split.
  - intros [(wend & a & Ea & Ha)|(f & Ef & Hf)].
    + destruct (retained_disjoint _ _ _ _ _ _ _ Hex Ea); lia.
    + apply Hfl in Ef. lia.
  - left. exists (WindowEndHeight e), (mkAcceptedDowntimeWindow (WindowStartHeight e) (BlockTime c)).
    cbn. by rewrite lookup_insert_eq.
Qed.

(** C28. Between two accepted pieces of downtime evidence whose consumer address resolves to
    the same validator, whatever the downtime operations (evidence, challenges, sweeps,
    pruning, pauses, stops, fee distributions) and the operations that leave accepted
    windows and floors alone do in between, failing ones included, the two windows share no
    height: each acceptance is of heights that were not covered (by an accepted window, or
    at or below the pair's floor) and are covered from then on, pruning included. Deletions
    are not among these operations, nor are key rotations, which can lose the covered
    heights of an address accused before its first key assignment (see the finding on
    cons_pubkey_rotation.go:267). *)
Theorem no_height_is_accepted_twice id e e' c c' w w1 w2 w3 :
  HandleConsumerEvidencePacket id e c w = (Ok tt, w1) → downtime_run w1 w2 →
  HandleConsumerEvidencePacket id e' c' w2 = (Ok tt, w3) →
  GetProviderAddrFromConsumerAddr id (ValidatorAddr e') w2 = GetProviderAddrFromConsumerAddr id (ValidatorAddr e) w →
  let addr := GetProviderAddrFromConsumerAddr id (ValidatorAddr e) w in
  (* the two windows share no height *)
  (WindowEndHeight e < WindowStartHeight e' ∨ WindowEndHeight e' < WindowStartHeight e) ∧
  (* since each acceptance is of heights not covered before and covered from then on *)
  (∀ h, WindowStartHeight e ≤ h ≤ WindowEndHeight e → ¬ covered id addr h w ∧ covered id addr h w2) ∧
  (∀ h, covered id addr h w → covered id addr h w3).
Proof.
  intros E1 Hrun E2 Eaddr addr. pose proof (accepted_evidence_accuses_fresh_heights id e c w w1 E1) as H1.
  pose proof (accepted_evidence_accuses_fresh_heights id e' c' w2 w3 E2) as H2. cbv zeta in H1, H2.
  rewrite Eaddr in H2. fold addr in H1, H2.
  assert (∀ h, WindowStartHeight e ≤ h ≤ WindowEndHeight e → covered id addr h w2) as Hcov
    by (intros h Hh; by apply (downtime_run_covered _ _ _ w1), H1).
  split_and!.
  - apply HandleConsumerEvidencePacket_run in E1 as [[_ ?]|(V1%validated_window & _)]; [done|].
    apply HandleConsumerEvidencePacket_run in E2 as [[_ ?]|(V2%validated_window & _)]; [done|].
    destruct (Z.lt_ge_cases (WindowEndHeight e) (WindowStartHeight e')); [by left|].
    destruct (Z.lt_ge_cases (WindowEndHeight e') (WindowStartHeight e)); [by right|].
    destruct (H2 (Z.max (WindowStartHeight e) (WindowStartHeight e')) ltac:(lia)) as [Hn _].
    destruct Hn. apply Hcov. lia.
  - intros h Hh. split; [by apply H1|by apply Hcov].
  - intros h Hw. assert (covered id addr h w2) as Hw2.
    { apply (downtime_run_covered _ _ _ w1); [done|]. pose proof (evidence_covered id e id addr h c w Hw) as He. by rewrite E1 in He. }
    pose proof (evidence_covered id e' id addr h c' w2 Hw2) as He. by rewrite E2 in He.
Qed.
End covered.

(** ** Execution *)
Section execution.
Context `{X : Externals}.

(** C29. Executing a matured downtime slash either changes nothing or performs exactly one
    slash, at height zero, with the validator's total slashable power and a fraction never
    above the configured downtime fraction. *)
Theorem executed_slash_is_capped `{!LegacyDecLaws} key entry ip cap c w r w' :
  Downtime ip = Some cap →
  executeDowntimeSlash key entry ip c w = (r, w') →
  (w' = w ∧ r ≠ Ok true) ∨
  r = Ok true ∧ 0 ≠ ps_SlashTokens entry ∧ ∃ power tokens consAddr fraction s',
    slashableStake key.1.2 c w = (Ok (power, tokens, consAddr), w) ∧
    SlashWithInfractionReason (w_staking w) consAddr 0 power fraction INFRACTION_DOWNTIME = Some s' ∧
    w' = set_staking s' w ∧
    (* never above the configured fraction *)
    dec_GT fraction (SlashFraction cap) = false.
Proof.
  intros Hcap. unfold executeDowntimeSlash. destruct (Z.eqb_spec (ps_SlashTokens entry) 0) as [|Hne].
  { intros [= <- <-]. by left. }
  rewrite bind_run. unfold try at 1.
  assert ((slashableStake key.1.2 c w).2 = w) as Ero.
  { assert (preserves (λ v, v = w) (slashableStake key.1.2)) as P by pres. by apply P. }
  destruct (slashableStake key.1.2 c w) as [[[[power tokens] consAddr]|e|] w1]; cbn in Ero; subst w1;
    [|intros [= <- <-]; by left|intros [= <- <-]; by left].
  destruct (tokens =? 0); [intros [= <- <-]; by left|]. rewrite Hcap. rewrite bind_run. cbn [or_panic mret M_ret].
  rewrite bind_run. unfold try, slash_call. rewrite bind_run. cbn [gets].
  set (fraction := downtime_fraction _ _ _).
  destruct (SlashWithInfractionReason (w_staking w) consAddr 0 power fraction INFRACTION_DOWNTIME) as [s'|] eqn:Es;
    cbn [of_option mret M_ret raise]; rewrite bind_run; cbn; intros [= <- <-]; [|by left].
  right. split_and!; [done|done|]. exists power, tokens, consAddr, fraction, s'. split_and!; try done.
  unfold fraction, downtime_fraction, dec_GT in *. destruct (dec_LT (SlashFraction cap) _) eqn:El; [|done].
  apply dec_LT_irrefl.
Qed.

Lemma executeDowntimeSlash_frame key entry ip (P : World → Prop) :
  (∀ w s, P w → P (set_staking s w)) → preserves P (executeDowntimeSlash key entry ip).
Proof.
  intros HP. assert (∀ a b d fr i, preserves P (slash_call a b d fr i)) as Hs.
  { intros. unfold slash_call. pres. apply preserves_modify. intros w Hw. by apply HP. }
  unfold executeDowntimeSlash, slashableStake, ComputePowerToSlash, Int_Quo. pres.
Qed.

Lemma for_each_delete_pending (l : list (N * string * Z * PendingDowntimeSlash)) c w :
  ∃ w', for_each l (λ kv, modify (upd_PendingDowntimeSlashes (delete kv.1))) c w = (Ok tt, w') ∧
    s_PendingDowntimeSlashes w' = foldl (λ m k, delete k m) (s_PendingDowntimeSlashes w) l.*1.
Proof.
  revert w. induction l as [|kv l IH]; intros w; [by eexists|]. cbn [for_each]. rewrite bind_run. cbn [modify].
  destruct (IH (upd_PendingDowntimeSlashes (delete kv.1) w)) as (w' & E & R). exists w'. by rewrite E, R.
Qed.

Lemma elem_of_matured now k p w :
  (k, p) ∈ matured now w ↔ s_PendingDowntimeSlashes w !! k = Some p ∧ time_After (ps_MaturesAt p) now = false.
Proof. unfold matured. rewrite list_elem_of_filter, elem_of_iterate. cbn. naive_solver. Qed.

(** SweepPendingDowntimeSlashes removes exactly the pending slashes that have matured,
    and gives up a withheld fee record only for a pair that has no slash left pending. *)
Lemma sweep_removes_exactly_the_matured c w w' :
  SweepPendingDowntimeSlashes c w = (Ok tt, w') →
  (∀ k, s_PendingDowntimeSlashes w' !! k =
     match s_PendingDowntimeSlashes w !! k with
     | Some p => if time_After (ps_MaturesAt p) (BlockTime c) then Some p else None
     | None => None
     end) ∧
  (* a withheld record is given up only for a pair with nothing left pending *)
  (∀ pk, s_WithheldFeeRecords w' !! pk ≠ s_WithheldFeeRecords w !! pk →
     s_WithheldFeeRecords w' !! pk = None ∧ hasPendingDowntimeSlash pk.1 pk.2 w' = false).
Proof.
  unfold SweepPendingDowntimeSlashes. intros (ip & w0 & Eip & E)%bind_Ok.
  assert (w0 = w) as ->.
  { assert (preserves (λ v, v = w) GetInfractionParams) as P by pres. by eapply (preserves_run _ _ _ _ _ _ P). }
  apply bind_Ok in E as (now & w0 & [<- <-]%asks_Ok & E).
  apply bind_Ok in E as (ms & w0 & [<- <-]%gets_Ok & E).
  apply bind_Ok in E as (executed & w1 & E1 & E). apply bind_Ok in E as ([] & w2 & E2 & E).
  assert (s_PendingDowntimeSlashes w1 = s_PendingDowntimeSlashes w ∧ s_WithheldFeeRecords w1 = s_WithheldFeeRecords w)
    as [Hp1 Hr1].
  { refine (preserves_run (λ v, s_PendingDowntimeSlashes v = s_PendingDowntimeSlashes w ∧
      s_WithheldFeeRecords v = s_WithheldFeeRecords w) _ _ _ _ _ _ (conj eq_refl eq_refl) E1).
    apply preserves_fold_each. intros acc kv. apply preserves_bind; [|intros; apply preserves_ret].
    by apply executeDowntimeSlash_frame. }
  destruct (for_each_delete_pending (matured (BlockTime c) w) c w1) as (v & Ev & Hv).
  rewrite Ev in E2. injection E2 as ->.
  assert (s_WithheldFeeRecords w2 = s_WithheldFeeRecords w) as Hr2.
  { refine (preserves_run (λ v, s_WithheldFeeRecords v = s_WithheldFeeRecords w) _ _ _ _ _ _ Hr1 Ev). pres. }
  assert (s_PendingDowntimeSlashes w' = s_PendingDowntimeSlashes w2 ∧ ∀ pk,
    s_WithheldFeeRecords w' !! pk ≠ s_WithheldFeeRecords w !! pk →
    s_WithheldFeeRecords w' !! pk = None ∧ hasPendingDowntimeSlash pk.1 pk.2 w2 = false) as [Hp Hr].
  { revert E. set (touched := remove_dups _). intros E.
    refine (for_each_Ok_ind (λ _ v, s_PendingDowntimeSlashes v = s_PendingDowntimeSlashes w2 ∧ ∀ pk,
      s_WithheldFeeRecords v !! pk ≠ s_WithheldFeeRecords w !! pk →
      s_WithheldFeeRecords v !! pk = None ∧ hasPendingDowntimeSlash pk.1 pk.2 w2 = false) _ _ _ _ _ _ _ _ E).
    - split; [done|]. intros pk. by rewrite Hr2.
    - intros dn pk rest v v' _ [HI1 HI2] Ex. destruct (negb _); [by apply ret_Ok in Ex as [_ <-]|].
      apply bind_Ok in Ex as (hp & v0 & [<- <-]%gets_Ok & Ex).
      destruct (hasPendingDowntimeSlash pk.1 pk.2 v) eqn:Eh; [by apply ret_Ok in Ex as [_ <-]|].
      apply modify_Ok in Ex as ->. split; [done|]. intros pk'. cbn.
      destruct (decide (pk' = pk)) as [->|Hne].
      + intros _. rewrite lookup_delete_eq. split; [done|]. unfold hasPendingDowntimeSlash in *. by rewrite <-HI1.
      + rewrite lookup_delete_ne by done. apply HI2. }
  split.
  - intros k. rewrite Hp, Hv, foldl_delete_lookup, Hp1.
    destruct (s_PendingDowntimeSlashes w !! k) as [p|] eqn:Ek; [|by case_decide].
    case_decide as Hin.
    + apply list_elem_of_fmap in Hin as ([k' p'] & -> & Hin).
      apply elem_of_matured in Hin as [Hin Hm]. cbn in Ek. rewrite Ek in Hin. injection Hin as <-. by rewrite Hm.
    + destruct (time_After (ps_MaturesAt p) (BlockTime c)) eqn:Hm; [done|]. destruct Hin.
      apply list_elem_of_fmap. exists (k, p). split; [done|]. by apply elem_of_matured.
  - intros pk Hpk. destruct (Hr pk Hpk) as [? Hh]. split; [done|]. unfold hasPendingDowntimeSlash in *. by rewrite Hp.
Qed.
End execution.

(** ** Challenges *)
Section challenge.
Context `{X : Externals}.

(** A pending slash of the consumer that accuses the validator of this consumer
    address: it stands under the provider address the consumer address resolves
    to, or was accepted against the consumer address itself. *)
Definition accuses (id : N) (addr : string) (p : PendingDowntimeSlash) (w : World) : Prop :=
  ∃ pa wend, s_PendingDowntimeSlashes w !! (id, pa, wend) = Some p ∧
    (pa = GetProviderAddrFromConsumerAddr id addr w ∨ ps_ConsumerConsAddr p = addr).

Lemma head_pending (P : N * string * Z * PendingDowntimeSlash → Prop) `{∀ x, Decision (P x)} q w :
  head (filter P (iterate (s_PendingDowntimeSlashes w))).*2 = Some q →
  ∃ k, P (k, q) ∧ s_PendingDowntimeSlashes w !! k = Some q.
Proof.
  intros Hq. destruct (filter P _) as [|[k q'] rest] eqn:Ef; [done|]. cbn in Hq. injection Hq as ->.
  assert ((k, q) ∈ filter P (iterate (s_PendingDowntimeSlashes w))) as Hin by (rewrite Ef; set_solver).
  apply list_elem_of_filter in Hin as [HP Hin%elem_of_iterate]. by exists k.
Qed.
Lemma findPending_sound id addr h p w :
  findPendingDowntimeSlashContaining id addr h w = Some p → accuses id addr p w ∧ in_window h p = true.
Proof.
  unfold findPendingDowntimeSlashContaining, findPendingDowntimeSlashUnderProviderAddr, accuses.
  destruct (head _) as [q|] eqn:Eh.
  - intros [= ->]. apply head_pending in Eh as ([pk wend] & [Hp Hw] & Ek). split; [|done].
    unfold of_pair in Hp. apply bool_decide_eq_true in Hp. cbn in Hp. subst pk. eexists _, wend. split; [exact Ek|by left].
  - intros ([[i pa] wend] & (Hc & Ha & Hw) & Ek)%head_pending. split; [|done]. unfold of_consumer in Hc. cbn in Hc.
    apply N.eqb_eq in Hc as ->. exists pa, wend. split; [done|by right].
Qed.

(** The evidence a won challenge rests on. *)
Definition disproof (msg : MsgChallengeConsumerDowntime) (w : World) : Prop :=
  ∃ header pending chain client,
    ch_Header msg = Some header ∧
    (* a pending slash of this very validator claims the height missed *)
    accuses (ch_ConsumerId msg) (ch_ValidatorAddr msg) pending w ∧
    in_window (ch_ClaimedHeight msg) pending = true ∧
    Bitmap.BitmapIsSet (ps_MissedBlocksBitmap pending)
      (wrap64 (ch_ClaimedHeight msg - ps_WindowStartHeight pending)) = true ∧
    (* the next header of the consumer chain verifies on its active client *)
    GetConsumerChainId (ch_ConsumerId msg) w = Some chain ∧ hdr_ChainID header = chain ∧
    hdr_Height header = wrap64 (ch_ClaimedHeight msg + 1) ∧
    GetConsumerClientId (ch_ConsumerId msg) w = Some client ∧
    GetClientStatus (w_ibc w) client = Active ∧ VerifyClientMessage (w_ibc w) client header = true ∧
    (* and seals the validator's signature *)
    verifySealedCommitSignature (ch_LastCommit msg) header chain (ch_ValidatorAddr msg)
      (ch_ValidatorPubkey msg) = Ok tt.

Lemma HandleChallengeConsumerDowntime_run msg c w r w' :
  HandleChallengeConsumerDowntime msg c w = (r, w') →
  (w' = w ∧ is_ok r = false) ∨
  (disproof msg w ∧ PauseConsumerChain (ch_ConsumerId msg) PAUSE_REASON_DOWNTIME_CHALLENGE c w = (r, w')).
Proof.
  unfold HandleChallengeConsumerDowntime. intros E.
  ro_step E header Eh. apply of_option_Ok in Eh as [Eh _]. ro_step E o Eo. apply gets_Ok in Eo as [Eo _].
  ro_step E pending Ep. apply of_option_Ok in Ep as [-> _]. apply findPending_sound in Eo as [Ek Ewin].
  ro_step E u1 Eb. apply guard_err_Ok in Eb as [Eb _]. ro_step E chain Ec.
  apply bind_Ok in Ec as (o & w0 & [<- <-]%gets_Ok & [Ec _]%of_option_Ok).
  ro_step E u2 E2. apply guard_err_Ok in E2 as [E2%String.eqb_eq _].
  ro_step E u3 E3. apply guard_err_Ok in E3 as [E3%Z.eqb_eq _]. ro_step E client Ecl.
  apply bind_Ok in Ecl as (o & w0 & [<- <-]%gets_Ok & [Ecl _]%of_option_Ok).
  ro_step E u4 E4. apply wrap_err_Ok in E4. unfold verifyDowntimeChallengeHeader in E4.
  apply bind_Ok in E4 as (st & w0 & [<- <-]%gets_Ok & E4).
  apply bind_Ok in E4 as (u5 & w0 & [E5%bool_decide_eq_true <-]%guard_err_Ok & E4).
  apply bind_Ok in E4 as (ok & w0 & [<- <-]%gets_Ok & [E4 _]%guard_err_Ok).
  ro_step E u6 E6. right. split; [|done].
  exists header, pending, chain, client. split_and!; try done.
  unfold check in E6. by destruct (verifySealedCommitSignature _ _ _ _ _) as [[]| |].
Qed.

End challenge.
