(* ===== verification/Equivocation.v ===== *)
(** Consumer equivocation on the provider: keeper/consumer_equivocation.go.
    Double voting is proven by two signed votes and punished (slashed, jailed,
    and tombstoned if the parameters say so), once per infraction. A
    light-client attack punishes nobody: the client is frozen and the consumer
    paused. *)
From S2P Require Import Prelude GoTime Types Externals World Keeper Queues Valset FeePool Fees.
From S2P Require Import KeyAssignment Lifecycle Downtime.

Section equivocation.
Context `{X : Externals}.

(** *** Double voting *)
Definition VerifyDoubleVotingEvidence (evidence : DuplicateVoteEvidence) (chainId : string)
    (pubkey : option string) : result unit :=
  match pubkey with
  | None => Err (ErrOther "validator public key cannot be empty")
  | Some pubkey =>
      let a := VoteA evidence in
      let b := VoteB evidence in
      if negb (String.eqb (PubKeyAddress pubkey) (vote_ValidatorAddress a))
      then Err ErrInvalidDoubleVotingEvidence else
      if negb (vote_Height a =? vote_Height b) || negb (vote_Round a =? vote_Round b)
         || negb (vote_Type a =? vote_Type b)
      then Err ErrInvalidDoubleVotingEvidence else
      if negb (String.eqb (vote_ValidatorAddress a) (vote_ValidatorAddress b))
      then Err ErrInvalidDoubleVotingEvidence else
      if String.eqb (vote_BlockID a) (vote_BlockID b)
      then Err ErrInvalidDoubleVotingEvidence else
      if negb (PubKeyVerify pubkey (VoteBytes chainId a) (vote_Signature a)) then Err ErrExternal else
      if negb (PubKeyVerify pubkey (VoteBytes chainId b) (vote_Signature b)) then Err ErrExternal else
      Ok tt
  end.

(** A staking or slashing call on the world's staking state. *)
Definition staking_call (f : staking → option staking) : K unit :=
  o ← gets (λ w, f (w_staking w));
  s' ← of_option o ErrExternal;
  modify (set_staking s').

(** The parameters are not nil here: [SlashValidator] has dereferenced them. *)
Definition JailAndTombstoneValidator (providerAddr : string) (jailingParams : option SlashJailParameters)
  : K unit :=
  validator ← (o ← gets (λ w, GetValidatorByConsAddr (w_staking w) providerAddr); of_option o ErrExternal);
  guard_err (negb (IsUnbonded validator)) ErrExternal;;
  let liveAddr := liveConsAddrOf validator providerAddr in
  tombstoned ← gets (λ w, IsTombstoned (w_staking w) liveAddr);
  guard_err (negb tombstoned) ErrValidatorTombstoned;;
  when (negb (IsJailed validator)) (staking_call (λ s, Jail s liveAddr));;
  now ← asks BlockTime;
  params ← or_panic jailingParams;
  let jailEndTime := time_Add now (JailDuration params) in
  staking_call (λ s, JailUntil s liveAddr jailEndTime);;
  when (Tombstone params) (staking_call (λ s, Tombstone_ s liveAddr)).

(** Whether the validator was tombstoned already. *)
Definition punishEquivocation (providerAddr : string) (params : option SlashJailParameters) : K bool :=
  r ← try (SlashValidator providerAddr params INFRACTION_DOUBLE_SIGN);
  match r with
  | inl e => if bool_decide (e = ErrValidatorTombstoned) then mret true else raise e
  | inr _ =>
      r ← try (JailAndTombstoneValidator providerAddr params);
      match r with
      | inl e => if bool_decide (e = ErrValidatorTombstoned) then mret true else raise e
      | inr _ => mret false
      end
  end.

Definition HandleConsumerDoubleVoting (consumerId : N) (evidence : DuplicateVoteEvidence)
    (pubkey : option string) : K unit :=
  phase ← gets (GetConsumerPhase consumerId);
  guard_err (bool_decide (phase = CONSUMER_PHASE_LAUNCHED)) ErrInvalidDoubleVotingEvidence;;
  minHeight ← gets (GetEquivocationEvidenceMinHeight consumerId);
  guard_err (negb (vote_Height (VoteA evidence) mod 2 ^ 64 <? minHeight)) ErrInvalidDoubleVotingEvidence;;
  chainId ← (o ← gets (GetConsumerChainId consumerId); of_option o (ErrOther "no chain id"));
  check (VerifyDoubleVotingEvidence evidence chainId pubkey);;
  providerAddr ← gets (GetProviderAddrFromConsumerAddr consumerId (vote_ValidatorAddress (VoteA evidence)));
  liveAddr ← gets (liveProviderConsAddr providerAddr);
  let punishedKey := (chainId, liveAddr, vote_Height (VoteA evidence)) in
  punished ← gets (λ w, bool_decide (punishedKey ∈ s_PunishedEquivocations w));
  if (punished : bool) then mret tt else
  infractionParams ← GetInfractionParams;
  alreadyTombstoned ← punishEquivocation providerAddr (DoubleSign infractionParams);
  forget ← (if (alreadyTombstoned : bool) then mret true
            else Tombstone <$> or_panic (DoubleSign infractionParams));
  if (forget : bool)
  then modify (upd_PunishedEquivocations (filter (λ k, k.1 ≠ (chainId, liveAddr))))
  else modify (upd_PunishedEquivocations (union {[ punishedKey ]})).

(** *** Light-client attacks *)
Definition headerToLightBlock (h : MisbehaviourHeader) : K LightBlock :=
  '(hd, commit) ← of_option (SignedHeaderFromProto (mh_SignedHeader h)) ErrExternal;
  vs ← of_option (ValidatorSetFromProto (mh_ValidatorSet h)) ErrExternal;
  mret (mkLightBlock hd commit vs).

Definition CheckMisbehaviour (consumerId : N) (misbehaviour : Misbehaviour) : K unit :=
  let chainId := mh_ChainID (Header1 misbehaviour) in
  consumerChainId ← (o ← gets (GetConsumerChainId consumerId); of_option o (ErrOther "no chain id"));
  guard_err (String.eqb consumerChainId chainId) (ErrOther "misbehaviour for a different chain id");;
  clientId ← (o ← gets (GetConsumerClientId consumerId);
              of_option o (ErrOther "misbehaviour from a non-existent consumer chain"));
  guard_err (String.eqb (mb_ClientId misbehaviour) clientId) (ErrOther "misbehaviour of another client");;
  guard_err (bool_decide (mh_Height (Header1 misbehaviour) = mh_Height (Header2 misbehaviour)))
    ErrInvalidMisbehaviour;;
  minHeight ← gets (GetEquivocationEvidenceMinHeight consumerId);
  guard_err (negb ((mh_Height (Header1 misbehaviour)).2 <? minHeight)) ErrInvalidDoubleVotingEvidence;;
  ok ← gets (λ w, CheckForMisbehaviour (w_ibc w) clientId misbehaviour);
  guard_err ok ErrInvalidMisbehaviour;;
  verified ← gets (λ w, VerifyMisbehaviour (w_ibc w) clientId misbehaviour);
  guard_err verified ErrExternal.

Definition headersStateTransitionsAreConflicting (h1 h2 : LightHeader) : bool :=
  negb (String.eqb (ValidatorsHash h1) (ValidatorsHash h2))
  || negb (String.eqb (NextValidatorsHash h1) (NextValidatorsHash h2))
  || negb (String.eqb (ConsensusHash h1) (ConsensusHash h2))
  || negb (String.eqb (AppHash h1) (AppHash h2))
  || negb (String.eqb (LastResultsHash h1) (LastResultsHash h2)).

Definition verifyLightBlockCommitSig (lightBlock : LightBlock) (sigIdx : nat) : K unit :=
  sig ← or_panic (lc_Signatures (lb_Commit lightBlock) !! sigIdx);
  '(_, val) ← of_option (GetByAddress (lb_ValidatorSet lightBlock) (sig_ValidatorAddress sig))
                (ErrOther "incorrect signature");
  guard_err (String.eqb (PubKeyAddress (val_PubKey val)) (sig_ValidatorAddress sig))
    (ErrOther "public key doesn't correspond to signature validator address");;
  guard_err (PubKeyVerify (val_PubKey val)
               (LightVoteSignBytes (lb_Commit lightBlock) (lh_ChainID (lb_Header lightBlock)) sigIdx)
               (sig_Signature sig)) (ErrOther "wrong signature").

(** The signers of a commit with their indices, absent ones skipped. *)
Definition signers (lb : LightBlock) : list (nat * CommitSig) :=
  filter (λ s, sig_Flag s.2 ≠ BlockIDFlagAbsent) (imap pair (lc_Signatures (lb_Commit lb))).
Definition header1Signers (lb : LightBlock) : gmap string nat :=
  foldl (λ m s, <[sig_ValidatorAddress s.2 := s.1]> m) ∅ (signers lb).

(** A validator missing from the first set would be a nil pointer. *)
Definition GetByzantineValidators (misbehaviour : Misbehaviour) : K (list CmtValidator) :=
  lightBlock1 ← headerToLightBlock (Header1 misbehaviour);
  lightBlock2 ← headerToLightBlock (Header2 misbehaviour);
  if negb (headersStateTransitionsAreConflicting (lb_Header lightBlock1) (lb_Header lightBlock2))
     && negb (lc_Round (lb_Commit lightBlock1) =? lc_Round (lb_Commit lightBlock2))
  then mret [] else
  fold_each (signers lightBlock2) (λ validators s,
    match header1Signers lightBlock1 !! sig_ValidatorAddress s.2 with
    | None => mret validators
    | Some sigIdxHeader1 =>
        verifyLightBlockCommitSig lightBlock1 sigIdxHeader1;;
        verifyLightBlockCommitSig lightBlock2 s.1;;
        '(_, val) ← or_panic (GetByAddress (lb_ValidatorSet lightBlock1) (sig_ValidatorAddress s.2));
        mret (validators ++ [val])
    end) [].

Definition containLightClientAttack (consumerId : N) (misbehaviour : Misbehaviour)
    (byzantineValidators : list CmtValidator) : K (list string) :=
  byzantineAddrs ← gets (λ w, (λ v, GetProviderAddrFromConsumerAddr consumerId (val_Address v) w)
                                <$> byzantineValidators);
  clientId ← (o ← gets (GetConsumerClientId consumerId); of_option o ErrInvalidConsumerClient);
  status ← gets (λ w, GetClientStatus (w_ibc w) clientId);
  when (bool_decide (status = Active))
    (o ← gets (λ w, UpdateClient (w_ibc w) clientId misbehaviour);
     ibc' ← of_option o ErrExternal;
     modify (set_ibc ibc'));;
  PauseConsumerChain consumerId PAUSE_REASON_LIGHT_CLIENT_ATTACK;;
  mret byzantineAddrs.

Definition HandleConsumerMisbehaviour (consumerId : N) (misbehaviour : Misbehaviour) : K (list string) :=
  phase ← gets (GetConsumerPhase consumerId);
  guard_err (bool_decide (phase = CONSUMER_PHASE_LAUNCHED)) ErrInvalidPhase;;
  CheckMisbehaviour consumerId misbehaviour;;
  byzantineValidators ← GetByzantineValidators misbehaviour;
  containLightClientAttack consumerId misbehaviour byzantineValidators.
End equivocation.
