(* ===== verification/GrpcQuery.v ===== *)
(** The queries of both modules (provider/keeper/grpc_query.go,
    consumer/keeper/grpc_query.go, provider_info.go, grpc_staking_query.go): what
    a node answers about its store.

    A request is [None] where the code checks for a nil one. The pagination of
    the SDK ([query.CollectionPaginate]) is a parameter; that of
    [ConsumerFeePoolClaims] is the module's own. A validator record of x/staking,
    whose fields a response copies one by one, appears as the record itself. *)
From S2P Require Import Prelude GoTime Types Externals World Keeper ValSets Valset FeePool Lifecycle.

(** gRPC status codes. *)
Abbreviation InvalidArgument := (ErrOther "InvalidArgument").
Abbreviation NotFound := (ErrOther "NotFound").
Abbreviation Internal := (ErrOther "Internal").

Record PageRequest := mkPageRequest {
  pr_Key : string;
  pr_Offset : N;
  pr_Limit : N;
  pr_CountTotal : bool;
}.
Record PageResponse := mkPageResponse { ps_NextKey : string; ps_Total : N }.

Class QueryExternals `{X : Externals} := {
  ConsAddressString : string → string;
  ConsAddressFromBech32 : string → option string;
  (* UnixNano of the consensus state of a client at a height, a uint64 *)
  GetClientConsensusState : ibc → string → Z * Z → option N;
  (* entries in key order, the request, the filter and the transformation *)
  CollectionFilteredPaginate : ∀ V T : Type,
    list (N * V) → option PageRequest → (N → V → bool) → (N → V → option T) → option (list T * option PageResponse);
}.

Record Chain := mkChain {
  ch_ChainId : string;
  ch_ClientId : string;
  ch_Phase : ConsumerPhase;
  ch_Metadata : string * string * string;
  ch_ConsumerId : N;
  ch_FeePoolAddress : string;
}.
Record QueryConsumerChainResponse := mkConsumerChainResponse {
  qc_ChainId : string;
  qc_ConsumerId : N;
  qc_OwnerAddress : string;
  qc_Phase : ConsumerPhase;
  qc_Metadata : string * string * string;
  qc_InitParams : ConsumerInitializationParameters;
  qc_ClientId : string;
  qc_FeePoolAddress : string;
}.
Record PairValConAddrProviderAndConsumer := mkPair {
  pv_ProviderAddress : string;
  pv_ConsumerAddress : string;
  pv_ConsumerKey : PubKey;
}.
Record QueryConsumerValidatorsValidator := mkQueryValidator {
  qv_ProviderAddress : string;
  qv_ConsumerKey : PubKey;
  qv_ConsumerPower : Z;
  qv_Validator : Validator;
  qv_ValidatesCurrentEpoch : bool;
}.
Record DepositorClaim := mkDepositorClaim { dc_Depositor : string; dc_Claim : list Coin }.
Record QueryConsumerFeePoolClaimsResponse := mkClaimsResponse {
  cr_Claims : list DepositorClaim;
  cr_Pagination : PageResponse;
}.
Record QueryConsumerLivenessResponse := mkLiveness {
  ql_LastAckTime : Time;
  ql_GracePeriod : Duration;
  ql_RemovalEta : Time;
  ql_Degraded : bool;
}.

(** An entry of the map [perDepositor], which is keyed by the rendered address. *)
Record acc := mkAcc { acc_addr : string; acc_coins : list Coin }.

Section provider_queries.
Context `{QX : QueryExternals}.

Definition QueryConsumerGenesis (req : option N) : K ConsumerGenesisState :=
  consumerId ← of_option req InvalidArgument;
  o ← gets (GetConsumerGenesis consumerId);
  of_option o NotFound.

Definition fee_pool_address (consumerId : N) : string := AccAddressString (GetConsumerFeePoolAddress consumerId).

(** The chain id of a consumer, which only a deleted one may lack. *)
Definition chain_id_or_deleted (consumerId : N) (w : World) : option string :=
  match GetConsumerChainId consumerId w with
  | Some chainID => Some chainID
  | None => if decide (GetConsumerPhase consumerId w = CONSUMER_PHASE_DELETED) then Some "" else None
  end.
Definition GetConsumerChain (consumerId : N) (w : World) : option Chain :=
  chainID ← chain_id_or_deleted consumerId w;
  metadata ← GetConsumerMetadata consumerId w;
  Some (mkChain chainID (default "" (GetConsumerClientId consumerId w)) (GetConsumerPhase consumerId w) metadata
          consumerId (fee_pool_address consumerId)).
Definition QueryConsumerChains (req : option (ConsumerPhase * option PageRequest))
  : K (list Chain * option PageResponse) :=
  '(phase, page) ← of_option req InvalidArgument;
  o ← gets (λ w, CollectionFilteredPaginate _ _ (iterate (s_ConsumerPhases w)) page
    (λ _ p, bool_decide (phase = CONSUMER_PHASE_UNSPECIFIED) || bool_decide (p = phase))
    (λ consumerId _, GetConsumerChain consumerId w));
  of_option o Internal.

(** *** Keys *)
Definition QueryValidatorConsumerAddr (req : option (N * string)) : K string :=
  '(consumerId, address) ← of_option req InvalidArgument;
  providerAddr ← of_option (ConsAddressFromBech32 address) ErrExternal;
  o ← gets (GetValidatorConsumerPubKey consumerId providerAddr);
  match o with
  | None => mret ""
  | Some consumerKey =>
      consumerAddr ← of_option (TMCryptoPublicKeyToConsAddr consumerKey) ErrExternal;
      mret (ConsAddressString consumerAddr)
  end.
Definition QueryValidatorProviderAddr (req : option (N * string)) : K string :=
  '(consumerId, address) ← of_option req InvalidArgument;
  consumerAddr ← of_option (ConsAddressFromBech32 address) ErrExternal;
  o ← gets (GetValidatorByConsumerAddr consumerId consumerAddr);
  mret (match o with None => "" | Some providerAddr => ConsAddressString providerAddr end).
Definition QueryAllPairsValConsAddrByConsumer (req : option N) : K (list PairValConAddrProviderAndConsumer) :=
  consumerId ← of_option req InvalidArgument;
  validatorConsumerPubKeys ← gets (GetAllValidatorConsumerPubKeys (Some consumerId));
  map_each (λ data : N * string * PubKey,
    consumerAddr ← of_option (TMCryptoPublicKeyToConsAddr data.2) ErrExternal;
    mret (mkPair (ConsAddressString data.1.2) (ConsAddressString consumerAddr) data.2)) validatorConsumerPubKeys.

(** *** Parameters, sets, epochs *)
Definition QueryParams (req : option unit) : K (Params * InfractionParameters) :=
  of_option req InvalidArgument;;
  params ← GetParams;
  ip ← GetInfractionParams;
  mret (params, ip).

(** [bytes.Compare(a.ProviderConsAddr, b.ProviderConsAddr) == -1] *)
Definition by_provider (a b : ConsensusValidator) : Prop := String.le (ProviderConsAddr a) (ProviderConsAddr b).
#[global] Instance by_provider_dec : RelDecision by_provider.
Proof. intros a b. unfold by_provider. apply _. Defined.
Definition query_validator (consumerId : N) (w : World) (v : ConsensusValidator) : list QueryConsumerValidatorsValidator :=
  match GetValidatorByConsAddr (w_staking w) (ProviderConsAddr v) with
  | None => []
  | Some providerVal =>
      [mkQueryValidator (ConsAddressString (ProviderConsAddr v)) (PublicKey v) (cv_Power v) providerVal
         (IsConsumerValidator consumerId (ProviderConsAddr v) w)]
  end.
Definition QueryConsumerValidators (req : option N) : K (list QueryConsumerValidatorsValidator) :=
  consumerId ← of_option req InvalidArgument;
  phase ← gets (GetConsumerPhase consumerId);
  guard_err (negb (bool_decide (phase = CONSUMER_PHASE_UNSPECIFIED))) InvalidArgument;;
  consumerValSet ← (if decide (phase = CONSUMER_PHASE_LAUNCHED)
                    then gets (λ w, merge_sort by_provider (GetConsumerValSet consumerId w)) else mret []);
  gets (λ w, consumerValSet ≫= query_validator consumerId w).
Definition QueryBlocksUntilNextEpoch : K N :=
  blocksUntilNextEpoch ← BlocksUntilNextEpoch;
  mret (Z.to_N (blocksUntilNextEpoch mod 2 ^ 64)).
Definition QueryConsumerIdFromClientId (clientId : string) : K N :=
  o ← gets (GetClientIdToConsumerId clientId);
  of_option o InvalidArgument.

(** The zero value that stands in for parameters that are not there. *)
Definition zero_init_params : ConsumerInitializationParameters := mkInitParams 0 0 0 0 0 0 0.
Definition QueryConsumerChain (req : option N) : K QueryConsumerChainResponse :=
  consumerId ← of_option req InvalidArgument;
  phase ← gets (GetConsumerPhase consumerId);
  guard_err (negb (bool_decide (phase = CONSUMER_PHASE_UNSPECIFIED))) InvalidArgument;;
  chainId ← (o ← gets (chain_id_or_deleted consumerId); of_option o InvalidArgument);
  ownerAddress ← (o ← gets (GetConsumerOwnerAddress consumerId); of_option o InvalidArgument);
  metadata ← (o ← gets (GetConsumerMetadata consumerId); of_option o InvalidArgument);
  initParams ← gets (GetConsumerInitializationParameters consumerId);
  clientId ← gets (GetConsumerClientId consumerId);
  mret (mkConsumerChainResponse chainId consumerId ownerAddress phase metadata
          (default zero_init_params initParams) (default "" clientId)
          (fee_pool_address consumerId)).
(** [time.Unix(0, int64(ts))] *)
Definition time_from_nanos (ts : N) : Time := wrap64 (Z.of_N ts) + unixToInternal * nanosPerSecond.
Definition QueryConsumerGenesisTime (req : option N) : K Time :=
  consumerId ← of_option req InvalidArgument;
  params ← (o ← gets (GetConsumerInitializationParameters consumerId); of_option o InvalidArgument);
  clientID ← (o ← gets (GetConsumerClientId consumerId); of_option o InvalidArgument);
  cs ← (o ← gets (λ w, GetClientConsensusState (w_ibc w) clientID (InitialRevision params, InitialRevisionHeight params));
        of_option o InvalidArgument);
  mret (time_from_nanos cs).

(** *** Fees *)
Definition QueryConsumerFeesPerBlock (req : option N) : K (Coin * bool) :=
  consumerId ← of_option req InvalidArgument;
  phase ← gets (GetConsumerPhase consumerId);
  guard_err (negb (bool_decide (phase = CONSUMER_PHASE_UNSPECIFIED) || bool_decide (phase = CONSUMER_PHASE_DELETED))) NotFound;;
  GetEffectiveFeesPerBlock consumerId.
Definition QueryAllConsumerFeesPerBlockOverrides (req : option (option PageRequest))
  : K (list (N * Z) * option PageResponse) :=
  page ← of_option req InvalidArgument;
  o ← gets (λ w, CollectionFilteredPaginate _ _ (iterate (s_ConsumerFeesPerBlockOverride w)) page
    (λ _ _, true) (λ consumerId amt, Some (consumerId, amt)));
  of_option o Internal.

(** *** Fee-pool claims *)
Definition live_consumer (consumerId : N) : K unit :=
  exists_ ← gets (λ w, bool_decide (is_Some (s_ConsumerPhases w !! consumerId)));
  guard_err exists_ NotFound;;
  phase ← gets (GetConsumerPhase consumerId);
  guard_err (negb (bool_decide (phase = CONSUMER_PHASE_DELETED))) NotFound.

(** The denoms with a total, in order. *)
Definition total_denoms (consumerId : N) (w : World) : list string :=
  (filter (λ kv, in_consumer (Some consumerId) kv.1 = true) (iterate (s_ConsumerFeePoolTotalShares w))).*1.*2.
Definition add_claim (consumerId : N) (depositor : string) (coins : list Coin) (denom : string) : K (list Coin) :=
  claim ← ComputeClaim consumerId depositor denom;
  if 0 <? claim then coin ← NewCoin denom claim; mret (Coins_Add coins coin) else mret coins.
Definition ConsumerFeePoolClaim (req : option (N * string)) : K (list Coin) :=
  '(consumerId, depositor) ← of_option req InvalidArgument;
  live_consumer consumerId;;
  addr ← of_option (AccAddressFromBech32 depositor) InvalidArgument;
  let addr := if IsAuthority depositor then NewModuleAddress dist_ModuleName else addr in
  denoms ← gets (total_denoms consumerId);
  fold_each denoms (add_claim consumerId addr) [].

(** The code reads a balance, total or reserve once per denom and keeps it;
    nothing changes them meanwhile. *)
Definition record_claim (perDepositor : gmap string acc) (addr denom : string) (claim : Z) : K (gmap string acc) :=
  coin ← NewCoin denom claim;
  mret (match perDepositor !! AccAddressString addr with
        | Some entry => <[AccAddressString addr := mkAcc (acc_addr entry) (Coins_Add (acc_coins entry) coin)]> perDepositor
        | None => <[AccAddressString addr := mkAcc addr (NewCoins coin)]> perDepositor
        end).
Definition claim_of_share (consumerId : N) (perDepositor : gmap string acc) (kv : N * string * string * Z) : K (gmap string acc) :=
  let denom := kv.1.1.2 in
  balance ← gets (pool_balance consumerId denom);
  if balance =? 0 then mret perDepositor else
  t ← gets (get_total consumerId denom);
  match t with
  | None => mret perDepositor
  | Some total =>
      if total =? 0 then mret perDepositor else
      reserved ← outstandingWithheldFees consumerId denom;
      let claim := (feePoolDraw kv.2 total balance (balance - reserved)).2 in
      if 0 <? claim then record_claim perDepositor kv.1.2 denom claim else mret perDepositor
  end.
Definition consumer_shares (consumerId : N) (w : World) : list (N * string * string * Z) :=
  filter (λ kv, of_consumer consumerId kv.1 = true) (iterate (s_ConsumerFeePoolShares w)).

(** [query.DefaultLimit] *)
Definition DefaultLimit : N := 100.
(** [sort.SearchStrings]: the first index whose key is not below [x]. *)
Fixpoint SearchStrings (keys : list string) (x : string) : nat :=
  match keys with
  | [] => O
  | k :: keys' => if String.ltb k x then S (SearchStrings keys' x) else O
  end.
(** Where a page starts, how long it is, and whether the total is asked for. *)
Definition page_window (keys : list string) (page : option PageRequest) : N * N * bool :=
  match page with
  | None => (0%N, DefaultLimit, true)
  | Some p =>
      (match nonempty (pr_Key p) with
       | Some cursor => N.of_nat (SearchStrings keys cursor)
       | None => pr_Offset p
       end,
       if (0 <? pr_Limit p)%N then pr_Limit p else DefaultLimit, pr_CountTotal p)
  end.
(** The page of a claim map; [None] is the run-time panic of [keys[offset:end]]
    when the sum of offset and limit wraps to below the offset. *)
Definition claims_page (perDepositor : gmap string acc) (page : option PageRequest) : option QueryConsumerFeePoolClaimsResponse :=
  let entries := iterate perDepositor in
  let keys := entries.*1 in
  let total := N.of_nat (length keys) in
  let '(offset, limit, countTotal) := page_window keys page in
  let offset := if (total <? offset)%N then total else offset in
  let end_ := ((offset + limit) mod 2 ^ 64)%N in
  let end_ := if (total <? end_)%N then total else end_ in
  if (end_ <? offset)%N then None else
  Some (mkClaimsResponse
    ((λ kv : string * acc, mkDepositorClaim (AccAddressString (acc_addr kv.2)) (acc_coins kv.2))
       <$> take (N.to_nat (end_ - offset)) (drop (N.to_nat offset) entries))
    (mkPageResponse (if (end_ <? total)%N then nth (N.to_nat end_) keys "" else "")
       (if (countTotal : bool) then total else 0%N))).
Definition per_depositor (consumerId : N) : K (gmap string acc) :=
  shares ← gets (consumer_shares consumerId);
  fold_each shares (claim_of_share consumerId) ∅.
Definition ConsumerFeePoolClaims (req : option (N * option PageRequest)) : K QueryConsumerFeePoolClaimsResponse :=
  '(consumerId, page) ← of_option req InvalidArgument;
  live_consumer consumerId;;
  perDepositor ← per_depositor consumerId;
  or_panic (claims_page perDepositor page).

(** *** Liveness and accusations *)
Definition known_consumer (consumerId : N) : K unit :=
  phase ← gets (GetConsumerPhase consumerId);
  guard_err (negb (bool_decide (phase = CONSUMER_PHASE_UNSPECIFIED))) InvalidArgument.
Definition QueryConsumerLiveness (req : option N) : K QueryConsumerLivenessResponse :=
  consumerId ← of_option req InvalidArgument;
  known_consumer consumerId;;
  grace ← wrap_err Internal LivenessGracePeriod;
  lastAck ← GetConsumerLastAckTime consumerId;
  now ← asks BlockTime;
  mret (mkLiveness lastAck grace (time_Add lastAck grace) (time_After now (time_Add lastAck (Z.quot grace 2)))).
Definition QueryPendingDowntimeSlashes (req : option N) : K (list PendingDowntimeSlash) :=
  consumerId ← of_option req InvalidArgument;
  known_consumer consumerId;;
  gets (λ w, (filter (λ kv, of_consumer consumerId kv.1 = true) (iterate (s_PendingDowntimeSlashes w))).*2).
Definition QueryWithheldFeeRecords (req : option N) : K (list WithheldFeeRecord) :=
  consumerId ← of_option req InvalidArgument;
  known_consumer consumerId;;
  gets (λ w, (filter (λ kv, in_consumer (Some consumerId) kv.1 = true) (iterate (s_WithheldFeeRecords w))).*2).
End provider_queries.
