(* ===== verification/GrpcQueryProofs.v ===== *)
(** What the fee-pool quotes promise: walking the pages of
    [ConsumerFeePoolClaims] lists every claim once, each is what
    [ConsumerFeePoolClaim] quotes, and together they fit the pool. *)
From S2P Require Import Prelude GoTime Types Externals World Keeper ValSets Valset FeePool FeePoolProofs KeyAssignment Lifecycle GrpcQuery.

(** What is documented of the SDK's addresses and coins: an address survives its
    bech32 form, as does a consensus address, a module account has an address, and
    adding a coin adds its amount. *)
Class QueryLaws `{QX : QueryExternals} : Prop := {
  acc_roundtrip a : a ≠ "" → AccAddressFromBech32 (AccAddressString a) = Some a;
  acc_named a : a ≠ "" → AccAddressString a ≠ "";
  module_named m : NewModuleAddress m ≠ "";
  cons_roundtrip a : a ≠ "" → ConsAddressFromBech32 (ConsAddressString a) = Some a;
  coins_add_empty c : 0 < Amount c → Coins_Add [] c = NewCoins c;
  coins_add_amount cs c d : AmountOf (Coins_Add cs c) d = AmountOf cs d + (if decide (Denom c = d) then Amount c else 0);
}.

(** A client that walks the pages of the claims: it asks for [limit] claims at
    the cursor and goes on at [NextKey] until there is none. *)
Fixpoint walk_claims `{QX : QueryExternals} (fuel : nat) (id limit : N) (cursor : string) : K (list DepositorClaim) :=
  match fuel with
  | O => raise Internal
  | S fuel' =>
      r ← ConsumerFeePoolClaims (Some (id, Some (mkPageRequest cursor 0 limit false)));
      match nonempty (ps_NextKey (cr_Pagination r)) with
      | None => mret (cr_Claims r)
      | Some next => rest ← walk_claims fuel' id limit next; mret (cr_Claims r ++ rest)
      end
  end.

(** ** Lists *)
Lemma StronglySorted_omap {A B} (R : relation A) (R' : relation B) (f : A → option B) (l : list A) :
  StronglySorted R l → (∀ x y b b', x ∈ l → y ∈ l → R x y → f x = Some b → f y = Some b' → R' b b') →
  StronglySorted R' (omap f l).
Proof.
  induction 1 as [|x l Hs IH Hall]; intros Hf; [constructor|]. cbn.
  assert (StronglySorted R' (omap f l)) as Hl by (apply IH; intros y z b b' Hy Hz; apply Hf; by right).
  destruct (f x) as [b|] eqn:Ex; [|done]. constructor; [done|]. apply list.Forall_forall.
  intros b' (y & Hy & Ey)%list_elem_of_omap. rewrite list.Forall_forall in Hall.
  apply (Hf x y); [by left|by right|by apply Hall|done|done].
Qed.
Lemma NoDup_omap {A B K} (f : A → option B) (g : B → K) (l : list A) :
  NoDup l → (∀ x y b b', x ∈ l → y ∈ l → f x = Some b → f y = Some b' → g b = g b' → x = y) → NoDup (g <$> omap f l).
Proof.
  induction 1 as [|x l Hx Hnd IH]; intros Hf; [constructor|]. cbn.
  assert (NoDup (g <$> omap f l)) as Hl by (apply IH; intros y z b b' Hy Hz; apply Hf; by right).
  destruct (f x) as [b|] eqn:Ex; [|done]. rewrite fmap_cons, NoDup_cons. split; [|done].
  intros (b' & Eg & (y & Hy & Ey)%list_elem_of_omap)%list_elem_of_fmap. destruct Hx.
  rewrite (Hf x y b b'); [done|by left|by right|done|done|done].
Qed.

Lemma sumZ_fmap {A B} (f : B → Z) (g : A → B) (l : list A) : sumZ f (g <$> l) = sumZ (λ x, f (g x)) l.
Proof. unfold sumZ. induction l as [|x l IH]; [done|]. cbn. by rewrite IH. Qed.

(** ** The cursor of a page *)
Lemma SearchStrings_nth keys i k :
  StronglySorted String.le keys → NoDup keys → keys !! i = Some k → SearchStrings keys k = i.
Proof.
  intros Hs. revert i. induction Hs as [|x keys Hs IH Hall]; intros i Hnd Hk; [done|].
  apply NoDup_cons in Hnd as [Hx Hnd]. destruct i as [|i]; cbn in *.
  - injection Hk as ->. unfold String.ltb. pose proof (String.compare_antisym k k). by destruct (String.compare k k).
  - assert (k ∈ keys) as Hin by (by eapply list_elem_of_lookup_2). rewrite list.Forall_forall in Hall.
    specialize (Hall k Hin). unfold String.le, String.leb, String.ltb in *.
    destruct (String.compare x k) eqn:E; [|by rewrite (IH i)|done].
    apply String.compare_eq_iff in E. by subst x.
Qed.
Lemma iterate_keys_sorted {V} (m : gmap string V) : StronglySorted String.le (iterate m).*1.
Proof.
  induction (iterate_sorted m) as [|x l Hs IH Hall]; [constructor|]. cbn. constructor; [done|].
  apply list.Forall_fmap. eapply list.Forall_impl; [exact Hall|]. by intros y Hy.
Qed.

Section pages.
Context `{QX : QueryExternals}.
Context (m : gmap string acc).
Definition claim_entry (kv : string * acc) : DepositorClaim :=
  mkDepositorClaim (AccAddressString (acc_addr kv.2)) (acc_coins kv.2).
(** The page that starts at the [i]th claim. *)
Definition page_at (i limit : N) (countTotal : bool) : QueryConsumerFeePoolClaimsResponse :=
  let total := N.of_nat (length (iterate m)) in
  mkClaimsResponse (claim_entry <$> take (N.to_nat limit) (drop (N.to_nat i) (iterate m)))
    (mkPageResponse (if (i + limit <? total)%N then nth (N.to_nat (i + limit)) (iterate m).*1 "" else "")
      (if countTotal then total else 0%N)).
Lemma claims_page_at page i limit ct :
  page_window (iterate m).*1 page = (i, limit, ct) → (i + limit < 2 ^ 64)%N → (i ≤ N.of_nat (length (iterate m)))%N →
  claims_page m page = Some (page_at i limit ct).
Proof.
  intros Ew Hfit Hi. unfold claims_page, page_at. rewrite Ew, length_fmap. cbv beta iota zeta.
  set (total := N.of_nat (length (iterate m))) in *.
  rewrite (proj2 (N.ltb_ge total i)) by done. rewrite (N.mod_small (i + limit)) by done.
  destruct (N.ltb_spec total (i + limit)).
  - rewrite (proj2 (N.ltb_ge total i)), (proj2 (N.ltb_ge (i + limit) total)), N.ltb_irrefl by lia. do 3 f_equal. rewrite !take_ge; [done| |]; rewrite length_drop; lia.
  - destruct (N.ltb_spec (i + limit) i); [lia|]. replace (i + limit - i)%N with limit by lia. done.
Qed.
(** The sum of offset and limit wraps: the slice of the page is out of range. *)
Lemma wrapping_page_panics offset limit ct :
  (0 < limit)%N → (limit < 2 ^ 64)%N → (offset ≤ N.of_nat (length (iterate m)))%N → (offset < 2 ^ 64)%N →
  (2 ^ 64 ≤ offset + limit)%N → claims_page m (Some (mkPageRequest "" offset limit ct)) = None.
Proof.
  intros Hpos Hlim Hoff Ho Hwrap. unfold claims_page, page_window. cbn [pr_Key pr_Limit pr_Offset pr_CountTotal nonempty String.eqb].
  rewrite (proj2 (N.ltb_lt 0 limit)) by done. cbv beta iota zeta. rewrite length_fmap.
  rewrite (proj2 (N.ltb_ge _ offset)) by done.
  assert ((offset + limit) mod 2 ^ 64 = offset + limit - 2 ^ 64)%N as ->.
  { symmetry. apply (N.mod_unique _ _ 1); lia. }
  rewrite (proj2 (N.ltb_ge _ (offset + limit - 2 ^ 64))) by lia.
  by rewrite (proj2 (N.ltb_lt _ offset)) by lia.
Qed.
End pages.

Section quotes.
Context `{QX : QueryExternals} {QL : QueryLaws}.
Context (id : N) (c : Ctx) (w : World).

(** ** What one share draws *)
Definition draw (denom : string) (shares : Z) : Z :=
  let balance := pool_balance id denom w in
  if balance =? 0 then 0 else
  match get_total id denom w with
  | None => 0
  | Some total => if total =? 0 then 0 else (feePoolDraw shares total balance (available id denom c w)).2
  end.
Lemma draw_total denom shares : 0 < draw denom shares → is_Some (get_total id denom w).
Proof. unfold draw. destruct (_ =? 0); [done|]. destruct (get_total id denom w); [by eexists|done]. Qed.
Definition claim_at (a denom : string) : Z :=
  match get_shares id denom a w with Some shares => draw denom shares | None => 0 end.
Lemma ComputeClaim_draw a denom : ComputeClaim id a denom c w = (Ok (claim_at a denom), w).
Proof.
  unfold ComputeClaim, claim_at, draw. rewrite bind_run. cbn [gets].
  destruct (pool_balance id denom w =? 0); [by destruct (get_shares _ _ _ _)|].
  rewrite bind_run. cbn [gets]. destruct (get_shares id denom a w) as [shares|]; [|done].
  rewrite bind_run. cbn [gets]. destruct (get_total id denom w) as [total|]; [|done]. destruct (total =? 0); [done|].
  by rewrite bind_run, outstandingWithheldFees_run.
Qed.

(** The coins of a list of draws. *)
Definition coins_of (l : list (string * Z)) : list Coin := foldl (λ cs dn, Coins_Add cs (mkCoin dn.1 dn.2)) [] l.
Lemma coins_of_snoc l dn : coins_of (l ++ [dn]) = Coins_Add (coins_of l) (mkCoin dn.1 dn.2).
Proof. unfold coins_of. by rewrite foldl_app. Qed.
Lemma AmountOf_coins_of l d : AmountOf (coins_of l) d = sumZ (λ dn, if decide (dn.1 = d) then dn.2 else 0) l.
Proof.
  induction l as [|dn l IH] using rev_ind; [done|]. rewrite coins_of_snoc, coins_add_amount, IH, sumZ_app. cbn. lia.
Qed.

(** ** The single quote *)
Definition quoted_at (a denom : string) : option (string * Z) :=
  if 0 <? claim_at a denom then Some (denom, claim_at a denom) else None.
Definition quotes (a : string) : list (string * Z) := omap (quoted_at a) (total_denoms id w).
Lemma add_claims_run a denoms coins :
  fold_each denoms (add_claim id a) coins c w =
  (Ok (foldl (λ cs dn, Coins_Add cs (mkCoin dn.1 dn.2)) coins (omap (quoted_at a) denoms)), w).
Proof.
  revert coins. induction denoms as [|denom denoms IH]; intros coins; [done|]. cbn [fold_each].
  rewrite bind_run. unfold add_claim at 1. rewrite bind_run, ComputeClaim_draw. cbn [omap list_omap]. unfold quoted_at at 1.
  destruct (Z.ltb_spec 0 (claim_at a denom)); [|apply IH].
  rewrite bind_run. unfold NewCoin. rewrite (proj2 (Z.ltb_ge _ 0)) by lia. cbn [mret M_ret]. apply IH.
Qed.
Definition live : Prop := is_Some (s_ConsumerPhases w !! id) ∧ GetConsumerPhase id w ≠ CONSUMER_PHASE_DELETED.
Lemma live_run : live → live_consumer id c w = (Ok tt, w).
Proof.
  intros [Hs Hne]. unfold live_consumer. rewrite bind_run. cbn [gets]. rewrite bool_decide_true by done.
  rewrite bind_run. cbn [guard_err mret M_ret]. rewrite bind_run. cbn [gets]. by rewrite bool_decide_false by done.
Qed.
(** Whose claim a spelled address is quoted: the authority's deposits are the
    distribution module's. *)
Definition claimant (s a : string) : string := if IsAuthority s then NewModuleAddress dist_ModuleName else a.
Lemma ConsumerFeePoolClaim_run s a :
  live → AccAddressFromBech32 s = Some a →
  ConsumerFeePoolClaim (Some (id, s)) c w = (Ok (coins_of (quotes (claimant s a))), w).
Proof.
  intros Hl Ea. unfold ConsumerFeePoolClaim. rewrite bind_run. cbn [of_option mret M_ret]. rewrite bind_run, live_run by done.
  rewrite bind_run, Ea. cbn [of_option mret M_ret]. fold (claimant s a). cbv zeta. rewrite bind_run. cbn [gets]. apply add_claims_run.
Qed.

(** ** The listing *)
Lemma acc_inj a a' : a ≠ "" → a' ≠ "" → AccAddressString a = AccAddressString a' → a = a'.
Proof. intros Ha Ha' E. apply acc_roundtrip in Ha, Ha'. rewrite E in Ha. congruence. Qed.

Definition share_denom (kv : N * string * string * Z) : string := kv.1.1.2.
Definition drawn_by (kv : N * string * string * Z) : Z := draw (share_denom kv) kv.2.
Definition put_claim (pd : gmap string acc) (addr : string) (coin : Coin) : gmap string acc :=
  match pd !! AccAddressString addr with
  | Some entry => <[AccAddressString addr := mkAcc (acc_addr entry) (Coins_Add (acc_coins entry) coin)]> pd
  | None => <[AccAddressString addr := mkAcc addr (NewCoins coin)]> pd
  end.
Definition list_share (pd : gmap string acc) (kv : N * string * string * Z) : gmap string acc :=
  if 0 <? drawn_by kv then put_claim pd kv.1.2 (mkCoin (share_denom kv) (drawn_by kv)) else pd.
Definition listed (l : list (N * string * string * Z)) : gmap string acc := foldl list_share ∅ l.

Lemma claim_of_share_run pd kv : claim_of_share id pd kv c w = (Ok (list_share pd kv), w).
Proof.
  unfold claim_of_share, list_share, drawn_by, share_denom, draw. cbv zeta. rewrite bind_run. cbn [gets].
  destruct (pool_balance id kv.1.1.2 w =? 0); [done|]. rewrite bind_run. cbn [gets].
  destruct (get_total id kv.1.1.2 w) as [total|]; [|done]. destruct (total =? 0); [done|].
  rewrite bind_run, outstandingWithheldFees_run. fold (available id kv.1.1.2 c w).
  destruct (Z.ltb_spec 0 (feePoolDraw kv.2 total (pool_balance id kv.1.1.2 w) (available id kv.1.1.2 c w)).2); [|done].
  unfold record_claim. rewrite bind_run. unfold NewCoin. rewrite (proj2 (Z.ltb_ge _ 0)) by lia. cbn [mret M_ret].
  unfold put_claim. by destruct (pd !! _) as [[]|].
Qed.
Lemma claims_run l pd : fold_each l (claim_of_share id) pd c w = (Ok (foldl list_share pd l), w).
Proof.
  revert pd. induction l as [|kv l IH]; intros pd; [done|]. cbn [fold_each]. by rewrite bind_run, claim_of_share_run, IH.
Qed.
Lemma per_depositor_run : per_depositor id c w = (Ok (listed (consumer_shares id w)), w).
Proof. unfold per_depositor. rewrite bind_run. cbn [gets]. apply claims_run. Qed.

(** What one depositor draws from a list of shares. *)
Definition drawn_at (a : string) (kv : N * string * string * Z) : option (string * Z) :=
  if String.eqb kv.1.2 a && (0 <? drawn_by kv) then Some (share_denom kv, drawn_by kv) else None.
Definition drawn (a : string) (l : list (N * string * string * Z)) : list (string * Z) := omap (drawn_at a) l.
Definition all_named (l : list (N * string * string * Z)) : Prop := ∀ kv, kv ∈ l → kv.1.2 ≠ "".

Lemma drawn_snoc a l kv :
  drawn a (l ++ [kv]) = drawn a l ++ match drawn_at a kv with Some dn => [dn] | None => [] end.
Proof. unfold drawn. rewrite omap_app. cbn. by destruct (drawn_at a kv). Qed.
Lemma listed_at l a :
  all_named l → a ≠ "" →
  listed l !! AccAddressString a = if decide (drawn a l = []) then None else Some (mkAcc a (coins_of (drawn a l))).
Proof.
  intros Hn Ha. induction l as [|kv l IH] using rev_ind; [done|].
  assert (all_named l) as Hl by (intros x Hx; apply Hn; set_solver). specialize (IH Hl).
  assert (kv.1.2 ≠ "") as Hk by (apply Hn; set_solver). unfold listed in *. rewrite foldl_app. cbn [foldl].
  rewrite drawn_snoc. unfold list_share at 1, drawn_at.
  destruct (Z.ltb_spec 0 (drawn_by kv)) as [Hpos|]; [|by rewrite andb_false_r, app_nil_r].
  destruct (String.eqb_spec kv.1.2 a) as [->|Hne]; cbn [andb].
  - unfold put_claim. rewrite IH. rewrite (decide_False (P := _ ++ _ = [])) by (by intros []%app_eq_nil).
    rewrite coins_of_snoc. cbn [acc_addr acc_coins]. destruct (decide (drawn a l = [])) as [E|E]; rewrite lookup_insert_eq; [|done].
    rewrite E. unfold coins_of at 1. cbn [foldl]. by rewrite coins_add_empty.
  - rewrite app_nil_r, <-IH. unfold put_claim. assert (AccAddressString kv.1.2 ≠ AccAddressString a) by (intros E; by apply acc_inj in E).
    destruct (foldl _ _ _ !! AccAddressString kv.1.2) as [[]|]; by rewrite lookup_insert_ne.
Qed.
Lemma listed_snoc l kv : listed (l ++ [kv]) = list_share (listed l) kv.
Proof. unfold listed. by rewrite foldl_app. Qed.
Lemma listed_keys l s x : all_named l → listed l !! s = Some x → ∃ a, a ≠ "" ∧ s = AccAddressString a.
Proof.
  intros Hn. revert x. induction l as [|kv l IH] using rev_ind; intros x; [done|].
  assert (∀ x, listed l !! s = Some x → ∃ a, a ≠ "" ∧ s = AccAddressString a) as Hl
    by (apply IH; intros y Hy; apply Hn; set_solver).
  rewrite listed_snoc. unfold list_share, put_claim. destruct (0 <? drawn_by kv); [|apply Hl].
  assert (kv.1.2 ≠ "") as Hk by (apply Hn; set_solver).
  destruct (listed l !! AccAddressString kv.1.2) as [[]|]; rewrite lookup_insert_Some.
  all: intros [[<- _]|[_ E]]; [by exists kv.1.2|by eapply Hl].
Qed.

(** ** Both read the same draws *)
Lemma omap_keys {K V B} (P : K * V → bool) (h : K → option B) (l : list (K * V)) :
  omap h (filter (λ kv, P kv = true) l).*1 = omap (λ kv, if P kv then h kv.1 else None) l.
Proof.
  induction l as [|kv l IH]; [done|]. rewrite filter_cons. cbn [omap list_omap]. rewrite <-IH. by destruct (P kv).
Qed.
Definition quoted_entry (a : string) (kv : N * string * Z) : option (string * Z) :=
  if in_consumer (Some id) kv.1 then quoted_at a kv.1.2 else None.
Lemma quotes_entries a : quotes a = omap (quoted_entry a) (iterate (s_ConsumerFeePoolTotalShares w)).
Proof.
  unfold quotes, total_denoms. trans (omap (λ k : N * string, quoted_at a k.2)
    (filter (λ kv : N * string * Z, in_consumer (Some id) kv.1 = true) (iterate (s_ConsumerFeePoolTotalShares w))).*1).
  - induction (_.*1) as [|k l IH]; [done|]. cbn. by rewrite IH.
  - exact (omap_keys (λ kv, in_consumer (Some id) kv.1) (λ k, quoted_at a k.2) _).
Qed.
Definition drawn_entry (a : string) (kv : N * string * string * Z) : option (string * Z) :=
  if of_consumer id kv.1 then drawn_at a kv else None.
Lemma drawn_entries a : drawn a (consumer_shares id w) = omap (drawn_entry a) (iterate (s_ConsumerFeePoolShares w)).
Proof.
  unfold drawn, consumer_shares, drawn_entry. induction (iterate _) as [|kv l IH]; [done|].
  rewrite filter_cons. cbn [omap list_omap]. rewrite <-IH. by destruct (of_consumer id kv.1).
Qed.
Lemma quoted_entry_Some a kv d n :
  quoted_entry a kv = Some (d, n) ↔ kv.1 = (id, d) ∧ 0 < n ∧ n = claim_at a d.
Proof.
  destruct kv as [[i d'] t]. unfold quoted_entry, quoted_at, in_consumer. cbn.
  destruct (N.eqb_spec i id) as [->|]; [|naive_solver]. destruct (Z.ltb_spec 0 (claim_at a d')); naive_solver lia.
Qed.
Lemma drawn_entry_Some a kv d n :
  drawn_entry a kv = Some (d, n) ↔ kv.1 = (id, d, a) ∧ 0 < n ∧ n = draw d kv.2.
Proof.
  destruct kv as [[[i d'] a'] s]. unfold drawn_entry, drawn_at, drawn_by, share_denom, of_consumer. cbn.
  destruct (N.eqb_spec i id) as [->|]; [|naive_solver]. destruct (String.eqb_spec a' a) as [->|]; [|naive_solver].
  destruct (Z.ltb_spec 0 (draw d' s)); naive_solver lia.
Qed.
Lemma key_le_pair {A B} `{EqDecision A, KeyOrd A, KeyOrd B} (a : A) (x y : B) : key_le (a, x) (a, y) → key_le x y.
Proof. cbn. unfold pair_le. cbn. by rewrite decide_True. Qed.
Lemma key_le_pair_l {A B} `{EqDecision A, KeyOrd A, KeyOrd B} (x y : A) (b : B) : key_le (x, b) (y, b) → key_le x y.
Proof. cbn. unfold pair_le. cbn. case_decide as E; [|done]. subst y. by destruct (total key_le x x). Qed.

Lemma quotes_sorted a : StronglySorted entry_le (quotes a).
Proof.
  rewrite quotes_entries. eapply StronglySorted_omap; [apply iterate_sorted|].
  intros x y [d n] [d' n'] _ _ Hle (Ex & _)%quoted_entry_Some (Ey & _)%quoted_entry_Some.
  unfold entry_le in *. rewrite Ex, Ey in Hle. by apply key_le_pair in Hle.
Qed.
Lemma drawn_sorted a : StronglySorted entry_le (drawn a (consumer_shares id w)).
Proof.
  rewrite drawn_entries. eapply StronglySorted_omap; [apply iterate_sorted|].
  intros x y [d n] [d' n'] _ _ Hle (Ex & _)%drawn_entry_Some (Ey & _)%drawn_entry_Some.
  unfold entry_le in *. rewrite Ex, Ey in Hle. by apply key_le_pair_l, key_le_pair in Hle.
Qed.
Lemma quotes_NoDup a : NoDup (quotes a).*1.
Proof.
  rewrite quotes_entries. apply NoDup_omap; [apply NoDup_iterate|].
  intros [k t] [k' t'] [d n] [d' n'] Hx Hy (Ex & _)%quoted_entry_Some (Ey & _)%quoted_entry_Some. cbn in *. intros E.
  assert (k = k') as <- by congruence. apply elem_of_iterate in Hx, Hy. congruence.
Qed.
Lemma drawn_NoDup a : NoDup (drawn a (consumer_shares id w)).*1.
Proof.
  rewrite drawn_entries. apply NoDup_omap; [apply NoDup_iterate|].
  intros [k t] [k' t'] [d n] [d' n'] Hx Hy (Ex & _)%drawn_entry_Some (Ey & _)%drawn_entry_Some. cbn in *. intros E.
  assert (k = k') as <- by congruence. apply elem_of_iterate in Hx, Hy. congruence.
Qed.
Lemma elem_of_drawn a d n :
  (d, n) ∈ drawn a (consumer_shares id w) ↔ ∃ s, get_shares id d a w = Some s ∧ n = draw d s ∧ 0 < n.
Proof.
  rewrite drawn_entries, list_elem_of_omap. split.
  - intros ([k s] & Hin & (E & ? & ?)%drawn_entry_Some). cbn in *. subst k. apply elem_of_iterate in Hin. by exists s.
  - intros (s & Es & -> & Hn). exists (id, d, a, s). by rewrite elem_of_iterate, drawn_entry_Some.
Qed.
Lemma elem_of_quotes a d n :
  (d, n) ∈ quotes a ↔ ∃ s, get_shares id d a w = Some s ∧ n = draw d s ∧ 0 < n.
Proof.
  rewrite quotes_entries, list_elem_of_omap. unfold claim_at. split.
  - intros ([k t] & Hin & (E & Hn & Hc)%quoted_entry_Some). unfold claim_at in Hc.
    destruct (get_shares id d a w) as [s|]; [by exists s|lia].
  - intros (s & Es & -> & Hn). destruct (draw_total d s Hn) as [t Et]. exists (id, d, t).
    rewrite elem_of_iterate, quoted_entry_Some. unfold claim_at. by rewrite Es.
Qed.
(** The denoms with a total and the shares' own draw the same coins. *)
Lemma quotes_drawn a : quotes a = drawn a (consumer_shares id w).
Proof.
  apply sorted_entries_unique; [apply quotes_sorted|apply drawn_sorted|apply quotes_NoDup|].
  apply NoDup_Permutation; [eapply NoDup_fmap_1, quotes_NoDup|eapply NoDup_fmap_1, drawn_NoDup|].
  intros [d n]. by rewrite elem_of_quotes, elem_of_drawn.
Qed.

(** ** The walk *)
Lemma listed_named l s x : all_named l → listed l !! s = Some x →
  acc_addr x ≠ "" ∧ s = AccAddressString (acc_addr x) ∧ acc_coins x = coins_of (drawn (acc_addr x) l) ∧ drawn (acc_addr x) l ≠ [].
Proof.
  intros Hn Hs. destruct (listed_keys l s x Hn Hs) as (a & Ha & ->). rewrite listed_at in Hs by done.
  destruct (decide (drawn a l = [])); [done|]. by injection Hs as <-.
Qed.
Lemma listed_size l : (size (listed l) ≤ length l)%nat.
Proof.
  induction l as [|kv l IH] using rev_ind; [done|]. rewrite listed_snoc, length_app. cbn [length]. unfold list_share, put_claim.
  destruct (0 <? drawn_by kv); [|lia].
  destruct (listed l !! AccAddressString kv.1.2) as [[]|] eqn:E; [rewrite map_size_insert_Some by eauto|rewrite map_size_insert_None by done]; lia.
Qed.
Lemma ConsumerFeePoolClaims_run page :
  live → ConsumerFeePoolClaims (Some (id, page)) c w = or_panic (claims_page (listed (consumer_shares id w)) page) c w.
Proof.
  intros Hl. unfold ConsumerFeePoolClaims. rewrite bind_run. cbn [of_option mret M_ret]. rewrite bind_run, live_run by done.
  by rewrite bind_run, per_depositor_run.
Qed.

Definition pool_claims : list (string * acc) := iterate (listed (consumer_shares id w)).
Lemma cursor_window limit i :
  all_named (consumer_shares id w) → (0 < limit)%N → (i < length pool_claims)%nat →
  page_window pool_claims.*1 (Some (mkPageRequest (nth i pool_claims.*1 "") 0 limit false)) = (N.of_nat i, limit, false)
  ∧ nonempty (nth i pool_claims.*1 "") = Some (nth i pool_claims.*1 "").
Proof.
  intros Hn Hlim Hi. destruct (lookup_lt_is_Some_2 pool_claims i Hi) as [[s x] Ex].
  assert (pool_claims.*1 !! i = Some s) as Es by (by rewrite list_lookup_fmap, Ex).
  assert (nth i pool_claims.*1 "" = s) as -> by (by apply nth_lookup_Some).
  assert (nonempty s = Some s) as Hs.
  { apply list_elem_of_lookup_2, elem_of_iterate in Ex. apply listed_named in Ex as (Hx & -> & _); [|done].
    unfold nonempty. by rewrite (proj2 (String.eqb_neq _ _)) by (by apply acc_named). }
  split; [|done]. unfold page_window. cbn [pr_Key pr_Limit pr_CountTotal]. rewrite Hs, (proj2 (N.ltb_lt 0 limit)) by done.
  rewrite (SearchStrings_nth _ i); [done|apply iterate_keys_sorted|apply NoDup_fst_iterate|done].
Qed.
Lemma walk_from limit fuel i cursor :
  live → all_named (consumer_shares id w) → (0 < limit)%N → (N.of_nat (length pool_claims) + limit < 2 ^ 64)%N →
  (i ≤ length pool_claims)%nat → (length pool_claims - i ≤ fuel)%nat → (0 < fuel)%nat →
  page_window pool_claims.*1 (Some (mkPageRequest cursor 0 limit false)) = (N.of_nat i, limit, false) →
  walk_claims fuel id limit cursor c w = (Ok (claim_entry <$> drop i pool_claims), w).
Proof.
  intros Hl Hn Hlim Hfit. revert i cursor. induction fuel as [|fuel IH]; intros i cursor Hi Hfuel Hf Ew; [lia|].
  cbn [walk_claims]. rewrite bind_run, ConsumerFeePoolClaims_run by done.
  rewrite (claims_page_at _ _ _ _ _ Ew) by (fold pool_claims; lia). cbn [or_panic mret M_ret].
  unfold page_at. cbn [cr_Claims cr_Pagination ps_NextKey]. fold pool_claims. rewrite Nat2N.id.
  destruct (N.ltb_spec (N.of_nat i + limit) (N.of_nat (length pool_claims))).
  - set (j := N.to_nat (N.of_nat i + limit)). destruct (cursor_window limit j) as [Ej ->]; [done|done|lia|].
    rewrite bind_run, (IH j) by (done || lia). cbn [mret M_ret]. rewrite <-fmap_app.
    replace j with (i + N.to_nat limit)%nat by lia. by rewrite <-drop_drop, take_drop.
  - cbn [nonempty String.eqb mret M_ret]. by rewrite take_ge by (rewrite length_drop; lia).
Qed.
(** At most a page per share record, and one page if there is none. *)
Lemma walk_lists_all limit fuel :
  live → all_named (consumer_shares id w) → (0 < limit)%N →
  (N.of_nat (length (consumer_shares id w)) + limit < 2 ^ 64)%N →
  (Nat.max 1 (length (consumer_shares id w)) ≤ fuel)%nat →
  walk_claims fuel id limit "" c w = (Ok (claim_entry <$> pool_claims), w).
Proof.
  intros Hl Hn Hlim Hfit Hfuel.
  assert (length pool_claims ≤ length (consumer_shares id w))%nat as Hlen.
  { etrans; [|apply listed_size]. unfold pool_claims. by rewrite iterate_perm, length_map_to_list. }
  rewrite (walk_from limit _ 0 "") by (done || lia || by unfold page_window; cbn; rewrite (proj2 (N.ltb_lt 0 limit))). done.
Qed.
Lemma coins_of_nil l : (∀ dn, dn ∈ l → 0 < dn.2) → coins_of l = [] → l = [].
Proof.
  intros Hpos E. destruct l as [|[d n] l]; [done|]. pose proof (AmountOf_coins_of ((d, n) :: l) d) as Ha.
  rewrite E in Ha. cbn in Ha. rewrite decide_True in Ha by done. pose proof (Hpos (d, n) (list_elem_of_here _ _)) as Hn.
  assert (0 ≤ sumZ (λ dn : string * Z, if decide (dn.1 = d) then dn.2 else 0) l); [|unfold AmountOf, sumZ in *; cbn in *; lia].
  apply sumZ_nonneg. intros dn Hdn. specialize (Hpos dn (list_elem_of_further _ _ _ Hdn)). case_decide; lia.
Qed.
Lemma elem_of_claims a coins :
  all_named (consumer_shares id w) → a ≠ "" →
  mkDepositorClaim (AccAddressString a) coins ∈ claim_entry <$> pool_claims ↔ coins = coins_of (quotes a) ∧ coins ≠ [].
Proof.
  intros Hn Ha. rewrite quotes_drawn. rewrite list_elem_of_fmap. split.
  - intros ([s x] & [= E ->] & Hin%elem_of_iterate). cbn in *.
    destruct (listed_named _ _ _ Hn Hin) as (Hx & -> & -> & Hne). apply acc_inj in E; [subst a|done..].
    split; [done|]. intros E. destruct Hne. apply coins_of_nil; [|done]. by intros [d n] (? & ? & ? & ?)%elem_of_drawn.
  - intros [-> Hne]. exists (AccAddressString a, mkAcc a (coins_of (drawn a (consumer_shares id w)))). split; [done|].
    apply elem_of_iterate. rewrite listed_at by done. rewrite decide_False; [done|]. intros E. by rewrite E in Hne.
Qed.
Lemma claims_depositors :
  all_named (consumer_shares id w) → dc_Depositor <$> (claim_entry <$> pool_claims) = pool_claims.*1.
Proof.
  intros Hn. rewrite <-list_fmap_compose. apply list_fmap_ext. intros i [s x] Hin%list_elem_of_lookup_2%elem_of_iterate.
  by destruct (listed_named _ _ _ Hn Hin) as (_ & -> & _).
Qed.

(** ** What is listed in all *)
Lemma sum_list_share d pd kv :
  map_sum (λ _ x, AmountOf (acc_coins x) d) (list_share pd kv) =
  map_sum (λ _ x, AmountOf (acc_coins x) d) pd + (if decide (share_denom kv = d) then Z.max 0 (drawn_by kv) else 0).
Proof.
  unfold list_share. destruct (Z.ltb_spec 0 (drawn_by kv)); [|case_decide; lia]. unfold put_claim.
  destruct (pd !! AccAddressString kv.1.2) as [[a coins]|] eqn:E.
  - rewrite map_sum_insert, (map_sum_delete _ pd _ _ E). cbn [acc_coins]. rewrite coins_add_amount. cbn [Denom Amount]. case_decide; lia.
  - rewrite map_sum_insert_None by done. unfold NewCoins. cbn. rewrite (proj2 (Z.eqb_neq _ 0)) by lia.
    unfold AmountOf, sumZ. cbn. case_decide; lia.
Qed.
Lemma sum_listed d l :
  map_sum (λ _ x, AmountOf (acc_coins x) d) (listed l) =
  sumZ (λ kv, if decide (share_denom kv = d) then Z.max 0 (drawn_by kv) else 0) l.
Proof.
  induction l as [|kv l IH] using rev_ind; [apply map_sum_empty|].
  rewrite listed_snoc, sum_list_share, IH, sumZ_app. unfold sumZ. cbn. lia.
Qed.

Context {BL : BankLaws}.
Lemma draw_bounds a d s :
  ledger_ok w → get_shares id d a w = Some s →
  0 ≤ draw d s ≤ Z.max 0 (available id d c w) ∧
  draw d s ≤ Z.quot (s * pool_balance id d w) (default 0 (get_total id d w)).
Proof.
  intros Hok Es. pose proof (share_le_total _ _ _ _ _ Hok Es) as [Hs Hle]. pose proof (pool_balance_nonneg id d w) as HB.
  unfold draw. destruct (Z.eqb_spec (pool_balance id d w) 0) as [E|]; [rewrite E, Z.mul_0_r, Z.quot_0_l by lia; lia|].
  destruct (get_total id d w) as [total|]; cbn in *; [|lia]. destruct (Z.eqb_spec total 0); [lia|].
  destruct (feePoolDraw s total _ _) as [burn tokens] eqn:Ed. cbn.
  apply feePoolDraw_bounds in Ed as (Hb & Ht & Hlim & Hrate & _); [|lia|lia]. split; [lia|].
  pose proof (quot_mul_le (s * pool_balance id d w) total ltac:(nia) ltac:(lia)). nia.
Qed.
Lemma sum_at d (l : list (string * Z)) :
  NoDup l.*1 → let n := sumZ (λ dn, if decide (dn.1 = d) then dn.2 else 0) l in n = 0 ∨ (d, n) ∈ l.
Proof.
  induction l as [|[d' n'] l IH]; [by left|]. rewrite fmap_cons, NoDup_cons. intros [Hd Hnd]. cbn in *.
  specialize (IH Hnd). unfold sumZ in *. cbn. case_decide as E; [|destruct IH as [IH|IH]; [left; lia|right; by right]].
  subst d'. destruct IH as [->|Hin]; [right; rewrite Z.add_0_r; apply list_elem_of_here|]. destruct Hd. apply list_elem_of_fmap. by eexists; split; [|exact Hin].
Qed.
Lemma drawn_amount a d :
  ledger_ok w → 0 ≤ AmountOf (coins_of (drawn a (consumer_shares id w))) d ≤ Z.max 0 (available id d c w).
Proof.
  intros Hok. rewrite AmountOf_coins_of. destruct (sum_at d _ (drawn_NoDup a)) as [->|Hin]; [lia|].
  apply elem_of_drawn in Hin as (s & Es & -> & _). by apply (draw_bounds a).
Qed.
Lemma share_at kv : kv ∈ consumer_shares id w → get_shares id (share_denom kv) kv.1.2 w = Some kv.2.
Proof.
  destruct kv as [[[i d] a] s]. intros [E Hin%elem_of_iterate]%list_elem_of_filter.
  unfold of_consumer in E. cbn in *. apply N.eqb_eq in E. by subst i.
Qed.
Lemma sum_consumer_shares (f : string → Z → Z) d :
  sumZ (λ kv, if decide (share_denom kv = d) then f kv.1.2 kv.2 else 0) (consumer_shares id w) =
  map_sum (λ (k : N * string * string) s, if in_pool id d k then f k.2 s else 0) (s_ConsumerFeePoolShares w).
Proof.
  unfold consumer_shares. rewrite (sumZ_filter _ (λ kv : N * string * string * Z, of_consumer id kv.1)).
  unfold map_sum. rewrite <-iterate_perm. apply sumZ_ext. intros [[[i d'] a] s] _.
  unfold of_consumer, in_pool, share_denom. cbn. destruct (N.eqb_spec i id); repeat case_decide; try case_bool_decide; naive_solver.
Qed.
Lemma listed_fits d :
  ledger_ok w → map_sum (λ _ x, AmountOf (acc_coins x) d) (listed (consumer_shares id w)) ≤ pool_balance id d w.
Proof.
  intros Hok. rewrite sum_listed. pose proof (pool_balance_nonneg id d w) as HB.
  set (f (a : string) s := Z.quot (s * pool_balance id d w) (default 0 (get_total id d w))).
  trans (sumZ (λ kv, if decide (share_denom kv = d) then f kv.1.2 kv.2 else 0) (consumer_shares id w)).
  { apply sumZ_le. intros kv Hin%share_at. case_decide as E; [|done]. rewrite E in Hin.
    destruct (draw_bounds _ _ _ Hok Hin) as [? ?]. unfold f, drawn_by. rewrite E. lia. }
  rewrite sum_consumer_shares. destruct (Z.le_gt_cases (default 0 (get_total id d w)) 0).
  - etrans; [|exact HB]. rewrite (map_sum_ext _ (λ _ _, 0)); [unfold map_sum; rewrite sumZ_const; lia|].
    intros [[i d'] a] s Es. destruct (in_pool id d _) eqn:E; [|done]. apply bool_decide_eq_true in E. injection E as -> ->.
    pose proof (share_le_total id d a s w Hok Es). lia.
  - unfold f. rewrite payouts_split. by apply payouts_le.
Qed.
End quotes.

Section queries.
Context `{QX : QueryExternals} {QL : QueryLaws}.

(** Every depositor of a pool is an address. *)
Definition named_depositors (id : N) (w : World) : Prop :=
  ∀ denom a, is_Some (get_shares id denom a w) → a ≠ "".
Lemma named_all id w : named_depositors id w → all_named (consumer_shares id w).
Proof.
  intros Hn [[[i d] a] s] [E Hin%elem_of_iterate]%list_elem_of_filter. cbn in *. apply N.eqb_eq in E. cbn in E. subst i.
  apply (Hn d). by exists s.
Qed.

(** C33. Walking the pages of ConsumerFeePoolClaims of a consumer that is not deleted, whose
    depositors are non-empty addresses, by any positive limit that does not overflow with
    the number of its share records (see the finding on grpc_query.go:516), ends after at
    most one page per share record (one page if there is none) and lists every claim once,
    in the order of the depositors' addresses: the depositor a spelled address stands for is
    listed with the coins ConsumerFeePoolClaim quotes that address, and is missing exactly
    if that quote is empty. An address stands for itself, except that the governance
    authority stands for the distribution module account, which holds its deposits. The
    store is left alone. *)
Theorem claim_pages_list_every_claim_once id limit c w :
  live id w → named_depositors id w → (0 < limit)%N → (N.of_nat (length (consumer_shares id w)) + limit < 2 ^ 64)%N →
  ∃ claims, walk_claims (Nat.max 1 (length (consumer_shares id w))) id limit "" c w = (Ok claims, w) ∧
    StronglySorted String.le (dc_Depositor <$> claims) ∧ NoDup (dc_Depositor <$> claims) ∧
    (∀ s, s ∈ dc_Depositor <$> claims → ∃ a, a ≠ "" ∧ s = AccAddressString a) ∧
    ∀ s a coins, AccAddressFromBech32 s = Some a → a ≠ "" →
      mkDepositorClaim (AccAddressString (if IsAuthority s then NewModuleAddress dist_ModuleName else a)) coins ∈ claims ↔
      coins ≠ [] ∧ ConsumerFeePoolClaim (Some (id, s)) c w = (Ok coins, w).
Proof.
  intros Hl Hn%named_all Hlim Hfit. eexists. split; [by apply walk_lists_all|]. rewrite claims_depositors by done.
  split_and!; [apply iterate_keys_sorted|apply NoDup_fst_iterate| |].
  - intros s ([s' x] & -> & Hin%elem_of_iterate)%list_elem_of_fmap. by eapply listed_keys.
  - intros s a coins Es Ha. fold (claimant s a).
    assert (claimant s a ≠ "") by (unfold claimant; destruct (IsAuthority s); [apply module_named|done]).
    rewrite elem_of_claims by done. rewrite (ConsumerFeePoolClaim_run id c w s a) by done. naive_solver.
Qed.

Context {BL : BankLaws}.
(** C34. The claims the pages list fit the pool: no claim is negative or promises what an
    open fee reserve holds back, and together they are at most the pool's balance, in every
    denom. *)
Theorem listed_claims_fit_the_pool id limit c w claims denom :
  ledger_ok w → live id w → named_depositors id w → (0 < limit)%N →
  (N.of_nat (length (consumer_shares id w)) + limit < 2 ^ 64)%N →
  walk_claims (S (length (consumer_shares id w))) id limit "" c w = (Ok claims, w) →
  (∀ dc, dc ∈ claims → 0 ≤ AmountOf (dc_Claim dc) denom ≤ Z.max 0 (available id denom c w)) ∧
  sumZ (λ dc, AmountOf (dc_Claim dc) denom) claims ≤ pool_balance id denom w.
Proof.
  intros Hok Hl Hn%named_all Hlim Hfit. rewrite walk_lists_all by (done || lia). intros [= <-]. split.
  - intros dc ([s x] & -> & Hin%elem_of_iterate)%list_elem_of_fmap. cbn.
    destruct (listed_named id c w _ _ _ Hn Hin) as (Hx & _ & -> & _). by apply drawn_amount.
  - etrans; [|by apply (listed_fits id c w)]. unfold map_sum. rewrite sumZ_fmap, <-iterate_perm. done.
Qed.

(** *** Keys *)
Lemma map_each_run {A B} (f : A → K B) (g : A → B) l c w :
  (∀ x, x ∈ l → f x c w = (Ok (g x), w)) → map_each f l c w = (Ok (g <$> l), w).
Proof.
  induction l as [|x l IH]; intros Hf; [done|]. cbn [map_each]. rewrite bind_run, Hf by apply list_elem_of_here.
  rewrite bind_run, IH; [done|]. intros y Hy. apply Hf. by right.
Qed.
Lemma elem_of_assigned_keys id w (x : N * string * PubKey) :
  x ∈ GetAllValidatorConsumerPubKeys (Some id) w ↔ x.1.1 = id ∧ GetValidatorConsumerPubKey id x.1.2 w = Some x.2.
Proof.
  destruct x as [[i p] k]. unfold GetAllValidatorConsumerPubKeys, GetValidatorConsumerPubKey, in_consumer.
  rewrite list_elem_of_filter, elem_of_iterate, N.eqb_eq. cbn. naive_solver.
Qed.

(** Addresses are not empty. *)
Definition addressed (id : N) (w : World) : Prop :=
  ∀ p k, GetValidatorConsumerPubKey id p w = Some k → p ≠ "" ∧ ∀ a, key_addr k = Some a → a ≠ "".
Definition key_pair (x : N * string * PubKey) : PairValConAddrProviderAndConsumer :=
  mkPair (ConsAddressString x.1.2) (ConsAddressString (default "" (key_addr x.2))) x.2.
Lemma assigned_key_addr id w x :
  keys_ok w → addressed id w → x ∈ GetAllValidatorConsumerPubKeys (Some id) w →
  ∃ a, key_addr x.2 = Some a ∧ a ≠ "" ∧ x.1.2 ≠ "" ∧ GetValidatorByConsumerAddr id a w = Some x.1.2.
Proof.
  intros Hok Ha [_ Hk]%elem_of_assigned_keys. destruct (assigned_resolves _ Hok _ _ _ Hk) as (a & E & Hr).
  destruct (Ha _ _ Hk) as [Hp Hne]. exists a. split_and!; auto.
Qed.

(** C35. The key queries agree: the pairs QueryAllPairsValConsAddrByConsumer lists are the
    assignments of the consumer, no two with one consumer address, and for each of them
    QueryValidatorConsumerAddr and QueryValidatorProviderAddr are inverse to each other.
    None of them writes. *)
Theorem key_queries_agree id c w :
  keys_ok w → addressed id w →
  ∃ pairs, QueryAllPairsValConsAddrByConsumer (Some id) c w = (Ok pairs, w) ∧
    NoDup (pv_ConsumerAddress <$> pairs) ∧
    (∀ p k, GetValidatorConsumerPubKey id p w = Some k →
      ∃ a, key_addr k = Some a ∧ mkPair (ConsAddressString p) (ConsAddressString a) k ∈ pairs) ∧
    ∀ pair, pair ∈ pairs →
      (∃ p, pv_ProviderAddress pair = ConsAddressString p ∧ GetValidatorConsumerPubKey id p w = Some (pv_ConsumerKey pair)) ∧
      QueryValidatorConsumerAddr (Some (id, pv_ProviderAddress pair)) c w = (Ok (pv_ConsumerAddress pair), w) ∧
      QueryValidatorProviderAddr (Some (id, pv_ConsumerAddress pair)) c w = (Ok (pv_ProviderAddress pair), w).
Proof.
  intros Hok Ha. pose proof (assigned_key_addr id w) as Hx. exists (key_pair <$> GetAllValidatorConsumerPubKeys (Some id) w).
  split_and!.
  - unfold QueryAllPairsValConsAddrByConsumer. rewrite bind_run. cbn [of_option mret M_ret]. rewrite bind_run. cbn [gets].
    apply map_each_run. intros x Hin. destruct (Hx x Hok Ha Hin) as (a & Ea & _). unfold key_pair. rewrite bind_run, Ea.
    unfold key_addr in Ea. by rewrite Ea.
  - rewrite <-list_fmap_compose. apply NoDup_fmap_2_strong; [|apply NoDup_filter, NoDup_iterate].
    intros x y Hinx Hiny. destruct (Hx x Hok Ha Hinx) as (a & Ea & Hne & _ & Ra), (Hx y Hok Ha Hiny) as (b & Eb & Hne' & _ & Rb).
    cbn. rewrite Ea, Eb. cbn. intros E%(f_equal ConsAddressFromBech32). rewrite !cons_roundtrip in E by done.
    apply elem_of_assigned_keys in Hinx as [Hi Hk], Hiny as [Hj Hk']. destruct x as [[i p] k], y as [[j q] k']. cbn in *. congruence.
  - intros p k Hk. assert ((id, p, k) ∈ GetAllValidatorConsumerPubKeys (Some id) w) as Hin by (by apply elem_of_assigned_keys).
    destruct (Hx _ Hok Ha Hin) as (a & Ea & _). exists a. split; [done|]. apply list_elem_of_fmap. eexists. split; [|exact Hin].
    unfold key_pair. cbn in *. by rewrite Ea.
  - intros pair (x & -> & Hin)%list_elem_of_fmap. destruct (Hx x Hok Ha Hin) as (a & Ea & Hne & Hp & Hr).
    apply elem_of_assigned_keys in Hin as [_ Hk]. unfold key_pair. cbn. rewrite Ea. cbn. split; [by eexists|].
    unfold QueryValidatorConsumerAddr, QueryValidatorProviderAddr. rewrite !bind_run. cbn [of_option mret M_ret].
    rewrite !bind_run, !cons_roundtrip by done. cbn [of_option mret M_ret]. rewrite !bind_run. cbn [gets]. rewrite Hk, Hr.
    rewrite bind_run. unfold key_addr in Ea. by rewrite Ea.
Qed.
End queries.
