(* ===== verification/LivenessProofs.v ===== *)
(** The liveness sweep (SweepUnresponsiveConsumers of
    provider/keeper/consumer_lifecycle.go) against what the liveness query
    (provider/keeper/grpc_query.go) announces. *)
From S2P Require Import Prelude GoTime Types Externals World Keeper Queues ValSets Valset FeePool Lifecycle LifecycleProofs GrpcQuery.

Section liveness.
Context `{QX : QueryExternals}.
Context (c : Ctx) (w : World) (grace unbonding : Duration).

(** The acknowledgement the sweep counts from: a consumer without one counts
    from the block itself. *)
Definition last_ack (id : N) : Time := default (BlockTime c) (s_ConsumerLastAckTime w !! id).
Definition overdue (id : N) : bool := grace <? BlockTime c - last_ack id.

(** What a stop leaves alone, besides the consumer's own records. *)
Definition kept (w' : World) : Prop :=
  w_staking w' = w_staking w ∧ s_ConsumerLastAckTime w' = s_ConsumerLastAckTime w ∧ w_fs w' = w_fs w ∧ w_bank w' = w_bank w.
Lemma stop_keeps id : preserves kept (StopAndPrepareForConsumerRemoval id).
Proof.
  unfold StopAndPrepareForConsumerRemoval, CancelConsumerDowntimeState, CancelConsumerPauseExpiration, RemoveConsumerToBeAutoStopped,
    removeConsumerFromTimeQueue, deleteAllIds, AppendConsumerToBeRemoved, appendId. pres.
Qed.

Definition swept (id : N) (stopped : bool) (w' : World) : Prop :=
  if stopped then
    GetConsumerPhase id w' = CONSUMER_PHASE_STOPPED ∧
    GetConsumerRemovalTime id w' = Some (time_Add (BlockTime c) unbonding) ∧
    ∀ k, of_consumer id k = true → s_PendingDowntimeSlashes w' !! k = None
  else
    GetConsumerPhase id w' = GetConsumerPhase id w ∧ GetConsumerRemovalTime id w' = GetConsumerRemovalTime id w ∧
    ∀ k, of_consumer id k = true → s_PendingDowntimeSlashes w' !! k = s_PendingDowntimeSlashes w !! k.

Lemma swept_other id b v v' id' :
  id' ≠ id →
  (∀ j, j ≠ id → GetConsumerPhase j v' = GetConsumerPhase j v ∧ GetConsumerRemovalTime j v' = GetConsumerRemovalTime j v) →
  (∀ k, of_consumer id k = false → s_PendingDowntimeSlashes v' !! k = s_PendingDowntimeSlashes v !! k) →
  swept id' b v → swept id' b v'.
Proof.
  intros Hne Hoth Hsl. destruct (Hoth id' Hne) as [E1 E2].
  assert (∀ k, of_consumer id' k = true → s_PendingDowntimeSlashes v' !! k = s_PendingDowntimeSlashes v !! k) as E3.
  { intros k Hk. apply Hsl. unfold of_consumer in *. apply N.eqb_eq in Hk. apply N.eqb_neq. congruence. }
  unfold swept. rewrite E1, E2. destruct b; intros (? & ? & Hk); split_and!; try done; intros k Hk'; rewrite E3 by done; by apply Hk.
Qed.

Hypothesis Hunbonding : UnbondingTime (w_staking w) = Some unbonding.
Hypothesis Hgrace : LivenessGracePeriod c w = (Ok grace, w).
Hypothesis Hrange : ∀ id, id ∈ GetAllLaunchedConsumerIds w → in_int64 (BlockTime c - last_ack id).

Definition progress (dn : list N) (v : World) : Prop :=
  kept v ∧ ∀ id, swept id (bool_decide (id ∈ dn) && overdue id) v.
Lemma sweep_run :
  ∃ w', SweepUnresponsiveConsumers c w = (Ok tt, w') ∧ progress (GetAllLaunchedConsumerIds w) w'.
Proof.
  unfold SweepUnresponsiveConsumers. rewrite bind_run, Hgrace. rewrite bind_run. cbn [gets].
  apply (for_each_runs progress).
  { split; [done|]. intros id. by rewrite bool_decide_false by set_solver. }
  intros dn id rest v Hl [Hk Hs]. unfold GetConsumerLastAckTime. rewrite bind_run, bind_run. cbn [asks gets].
  rewrite bind_run. cbn [asks]. pose proof Hk as (Est & Eack & _). rewrite Eack. fold (last_ack id).
  assert (in_int64 (BlockTime c - last_ack id)) as H64 by (apply Hrange; rewrite Hl; set_solver).
  assert (time_Sub (BlockTime c) (last_ack id) = BlockTime c - last_ack id) as -> by (unfold time_Sub, in_int64 in *; lia).
  destruct (Z.leb_spec (BlockTime c - last_ack id) grace) as [Hle|Hgt].
  - exists v. split; [done|]. split; [done|]. intros id'. specialize (Hs id').
    destruct (decide (id' = id)) as [->|Hne].
    + assert (overdue id = false) as E by (unfold overdue; by apply Z.ltb_ge). rewrite E, andb_false_r in *. done.
    + by rewrite (bool_decide_ext (id' ∈ dn ++ [id]) (id' ∈ dn)) by set_solver.
  - rewrite <-Est in Hunbonding. destruct (stop_schedules_removal id c v unbonding Hunbonding)
      as (v' & E & Hph & Hrt & _ & Hnone & _ & _ & _ & _ & Hoth & Hsl & _).
    exists v'. rewrite bind_run. unfold try, cached. rewrite E. split; [done|].
    split; [by apply (preserves_run kept _ c v _ v' (stop_keeps id) Hk E)|]. intros id'. specialize (Hs id').
    destruct (decide (id' = id)) as [->|Hne].
    + rewrite bool_decide_true by set_solver. assert (overdue id = true) as -> by (unfold overdue; by apply Z.ltb_lt). by split_and!.
    + rewrite (bool_decide_ext (id' ∈ dn ++ [id]) (id' ∈ dn)) by set_solver. by eapply swept_other.
Qed.
End liveness.

Section query.
Context `{QX : QueryExternals}.

Lemma LivenessGracePeriod_anywhen c c0 w : LivenessGracePeriod c w = LivenessGracePeriod c0 w.
Proof.
  unfold LivenessGracePeriod, GetParams. rewrite !bind_run. cbn [gets].
  destruct (UnbondingTime (w_staking w)); cbn [of_option mret M_ret raise]; [|done]. rewrite !bind_run. cbn [gets].
  destruct (s_Params_ w); cbn [or_panic mret M_ret panic]; [|done]. by destruct (CalculateTrustPeriod _ _).
Qed.
Lemma QueryConsumerLiveness_run id c0 c w grace t :
  LivenessGracePeriod c w = (Ok grace, w) → GetConsumerPhase id w = CONSUMER_PHASE_LAUNCHED →
  s_ConsumerLastAckTime w !! id = Some t →
  QueryConsumerLiveness (Some id) c0 w =
  (Ok (mkLiveness t grace (time_Add t grace) (time_After (BlockTime c0) (time_Add t (Z.quot grace 2)))), w).
Proof.
  intros Eg Hp Et. assert (known_consumer id c0 w = (Ok tt, w)) as Hk.
  { unfold known_consumer. rewrite bind_run. cbn [gets]. by rewrite Hp. }
  rewrite (LivenessGracePeriod_anywhen c c0) in Eg.
  unfold QueryConsumerLiveness, GetConsumerLastAckTime. rewrite bind_run. cbn [of_option mret M_ret].
  rewrite bind_run, Hk, bind_run. unfold wrap_err. rewrite Eg, !bind_run. cbn [asks gets]. by rewrite Et, bind_run.
Qed.

(** C17. The liveness query foretells the liveness sweep: of the launched consumers, the
    sweep of a block stops exactly those the block is past the removal time the query
    announces for (with their removal scheduled one unbonding period later and their
    accusations cancelled), and leaves the phase, removal time and accusations of every
    other consumer, and all funds, as they are. *)
Theorem liveness_query_foretells_the_sweep c c0 w grace unbonding :
  UnbondingTime (w_staking w) = Some unbonding → LivenessGracePeriod c w = (Ok grace, w) →
  (∀ id, id ∈ GetAllLaunchedConsumerIds w → in_int64 (BlockTime c - last_ack c w id)) →
  ∃ w', SweepUnresponsiveConsumers c w = (Ok tt, w') ∧ w_fs w' = w_fs w ∧ w_bank w' = w_bank w ∧
    (∀ id, id ∉ GetAllLaunchedConsumerIds w → swept c w unbonding id false w') ∧
    ∀ id t, id ∈ GetAllLaunchedConsumerIds w → s_ConsumerLastAckTime w !! id = Some t →
      ∃ r, QueryConsumerLiveness (Some id) c0 w = (Ok r, w) ∧
        ql_LastAckTime r = t ∧ ql_RemovalEta r = time_Add t grace ∧
        swept c w unbonding id (time_After (BlockTime c) (ql_RemovalEta r)) w'.
Proof.
  intros Hu Hg H64. destruct (sweep_run c w grace unbonding Hu Hg H64) as (w' & E & (_ & _ & Hf & Hb) & Hs).
  exists w'. split; [exact E|]. split; [done|]. split; [done|]. split.
  - intros id Hid. specialize (Hs id). by rewrite bool_decide_false in Hs.
  - intros id t Hid Et. assert (GetConsumerPhase id w = CONSUMER_PHASE_LAUNCHED) as Hp.
    { unfold GetAllLaunchedConsumerIds in Hid. by apply list_elem_of_filter in Hid as [? _]. }
    eexists. split; [by apply (QueryConsumerLiveness_run _ _ c)|]. cbn [ql_LastAckTime ql_GracePeriod ql_RemovalEta].
    split; [done|]. split; [done|]. specialize (Hs id). rewrite bool_decide_true in Hs by done. cbn [andb] in Hs.
    assert (overdue c w grace id = time_After (BlockTime c) (time_Add t grace)) as <-; [|done].
    unfold overdue, last_ack, time_After, time_Add. rewrite Et. change (default (BlockTime c) (Some t)) with t.
    destruct (Z.ltb_spec grace (BlockTime c - t)), (Z.ltb_spec (t + grace) (BlockTime c)); (done || lia).
Qed.
End query.
