(* ===== verification/Rotation.v ===== *)
(** Consensus-key rotation on the provider: keeper/cons_pubkey_rotation.go and
    the rotation hook of keeper/hooks.go, with the admission check of
    provider/ante/cons_pubkey_rotation_ante.go. When a validator rotates its
    provider consensus key, the state it holds under its old consensus address
    moves to the new one. Store failures, which the code logs, do not occur in
    the model. *)
From S2P Require Import Prelude GoTime Types Externals World Keeper Queues Valset FeePool Fees.
From S2P Require Import KeyAssignment Lifecycle Downtime.

Section rotation.
Context `{X : Externals}.

Definition migrateKeyAssignment (consumerId : N) (oldProviderAddr newProviderAddr : string) : K bool :=
  o ← gets (GetValidatorConsumerPubKey consumerId oldProviderAddr);
  match o with
  | None => mret false
  | Some consumerKey =>
      DeleteValidatorConsumerPubKey consumerId oldProviderAddr;;
      SetValidatorConsumerPubKey consumerId newProviderAddr consumerKey;;
      entries ← gets (GetAllValidatorsByConsumerAddr (Some consumerId));
      for_each entries (λ entry,
        if negb (String.eqb entry.2 oldProviderAddr) then mret tt
        else SetValidatorByConsumerAddr consumerId entry.1.2 newProviderAddr);;
      mret true
  end.

Definition migrateConsumerValidator (consumerId : N) (oldProviderAddr newProviderAddr : string) : K unit :=
  o ← gets (GetConsumerValidator consumerId oldProviderAddr);
  match o with
  | None => mret tt
  | Some val =>
      DeleteConsumerValidator consumerId oldProviderAddr;;
      SetConsumerValidator consumerId
        (mkConsensusValidator newProviderAddr (cv_Power val) (PublicKey val) (JoinHeight val))
  end.

Definition migrateDowntimeWindowFloor (consumerId : N) (oldAddr newAddr : string) : K unit :=
  let oldKey := (consumerId, oldAddr) in
  let newKey := (consumerId, newAddr) in
  o ← gets (λ w, s_DowntimeWindowFloors w !! oldKey);
  match o with
  | None => mret tt
  | Some floor =>
      existing ← gets (λ w, s_DowntimeWindowFloors w !! newKey);
      let floor := match existing with
                   | Some existing => if floor <? existing then existing else floor
                   | None => floor
                   end in
      modify (upd_DowntimeWindowFloors (insert newKey floor));;
      modify (upd_DowntimeWindowFloors (delete oldKey))
  end.

(** [collectPerWindowEntries]: the entries of one (consumer, address) pair. *)
Definition collectPerWindowEntries {V} (m : gmap (N * string * Z) V) (consumerId : N) (addr : string)
  : list (N * string * Z * V) := filter (λ kv, of_pair consumerId addr kv.1 = true) (iterate m).

Definition with_provider_addr (p : PendingDowntimeSlash) (addr : string) : PendingDowntimeSlash :=
  mkPendingDowntimeSlash (ps_ConsumerId p) addr (ps_ConsumerConsAddr p) (ps_WindowStartHeight p)
    (ps_Span p) (ps_MissedCount p) (ps_MissedBlocksBitmap p) (ps_SlashTokens p) (ps_MaturesAt p).

Definition migrateDowntimeAcceptance (consumerId : N) (oldAddr newAddr : string) : K unit :=
  pending ← gets (λ w, collectPerWindowEntries (s_PendingDowntimeSlashes w) consumerId oldAddr);
  for_each pending (λ kv,
    modify (upd_PendingDowntimeSlashes
      (insert (consumerId, newAddr, kv.1.2) (with_provider_addr kv.2 newAddr)));;
    modify (upd_PendingDowntimeSlashes (delete kv.1)));;
  accepted ← gets (λ w, collectPerWindowEntries (s_AcceptedDowntimeWindows w) consumerId oldAddr);
  for_each accepted (λ kv,
    modify (upd_AcceptedDowntimeWindows (insert (consumerId, newAddr, kv.1.2) kv.2));;
    modify (upd_AcceptedDowntimeWindows (delete kv.1)));;
  migrateDowntimeWindowFloor consumerId oldAddr newAddr.

Definition migrateFeeExclusion (consumerId : N) (oldAddr newAddr : string) : K unit :=
  let oldKey := (consumerId, oldAddr) in
  let newKey := (consumerId, newAddr) in
  marked ← gets (λ w, bool_decide (is_Some (s_EpochDowntime w !! oldKey)));
  when marked
    (modify (upd_EpochDowntime (insert newKey true));; modify (upd_EpochDowntime (delete oldKey)));;
  o ← gets (λ w, s_WithheldFeeRecords w !! oldKey);
  match o with
  | None => mret tt
  | Some record =>
      existing ← gets (λ w, s_WithheldFeeRecords w !! newKey);
      match existing with
      | Some _ => mret tt
      | None =>
          modify (upd_WithheldFeeRecords (insert newKey
            (mkWithheldFeeRecord (wf_ConsumerId record) newAddr (wf_Amount record) (wf_ExpiresAt record))));;
          modify (upd_WithheldFeeRecords (delete oldKey))
      end
  end.

(** The heights punished under one (chain, address) pair, ascending. *)
Definition punished_heights (chainId addr : string) (w : World) : list Z :=
  merge_sort Z.le (filter (λ k, k.1 = (chainId, addr)) (elements (s_PunishedEquivocations w))).*2.
Definition migratePunishedEquivocations (consumerId : N) (oldAddr newAddr : string) : K unit :=
  o ← gets (GetConsumerChainId consumerId);
  match o with
  | None => mret tt
  | Some chainId =>
      heights ← gets (punished_heights chainId oldAddr);
      for_each heights (λ height,
        modify (upd_PunishedEquivocations (union {[ (chainId, newAddr, height) ]}));;
        modify (upd_PunishedEquivocations (λ s, s ∖ {[ (chainId, oldAddr, height) ]})))
  end.

Definition MigrateStateOnConsPubKeyRotation (oldProviderAddr newProviderAddr : string) : K unit :=
  ids ← gets nonDeletedConsumerIds;
  for_each ids (λ consumerId,
    moved ← migrateKeyAssignment consumerId oldProviderAddr newProviderAddr;
    when moved
      (migrateConsumerValidator consumerId oldProviderAddr newProviderAddr;;
       migrateDowntimeAcceptance consumerId oldProviderAddr newProviderAddr);;
    migrateFeeExclusion consumerId oldProviderAddr newProviderAddr;;
    migratePunishedEquivocations consumerId oldProviderAddr newProviderAddr).

(** *** hooks.go *)
Definition AfterConsensusPubKeyUpdate (oldPk newPk : string) : K unit :=
  let oldAddr := PubKeyAddress oldPk in
  let newAddr := PubKeyAddress newPk in
  MigrateStateOnConsPubKeyRotation oldAddr newAddr;;
  QueueConsPubKeyRotationSnapshots newAddr.

(** *** ante/cons_pubkey_rotation_ante.go

    The messages the decorator looks at; a key or a list of inner messages
    that does not decode is [None]. *)
Inductive AnteMsg :=
  | MsgRotateConsPubKey (newPubkey : option string)
  | MsgExec (inner : option (list AnteMsg))
  | OtherMsg.
Definition checkRotation (newPubkey : option string) (w : World) : bool :=
  match newPubkey with
  | None => true
  | Some pubKey => negb (IsConsumerConsAddrInUse (PubKeyAddress pubKey) w)
  end.
Fixpoint checkMsg (w : World) (msg : AnteMsg) : bool :=
  match msg with
  | MsgRotateConsPubKey newPubkey => checkRotation newPubkey w
  | MsgExec (Some innerMsgs) => forallb (checkMsg w) innerMsgs
  | MsgExec None => true
  | OtherMsg => true
  end.
Definition AnteHandle (msgs : list AnteMsg) (w : World) : bool := forallb (checkMsg w) msgs.
End rotation.
