(* ===== verification/RotationProofs.v ===== *)
(** Theorems about consensus-key rotation: what a validator holds under its old
    consensus address is found under the new one, the key maps stay consistent,
    no escrow is released, no punished infraction forgotten, and accepted
    downtime windows stay covered for every identity but one. *)
From S2P Require Import Prelude GoTime Types Externals World Keeper Queues Valset FeePool FeePoolProofs.
From S2P Require Import Fees FeesProofs KeyAssignment Lifecycle LifecycleProofs Downtime DowntimeProofs Rotation.

(** ** Loops of total bodies *)
Section loops.
Context {W : Type}.

Lemma for_each_total {A} (f : A → M W unit) (g : A → W → W) c l w :
  (∀ x w, f x c w = (Ok tt, g x w)) → for_each l f c w = (Ok tt, foldl (λ w x, g x w) w l).
Proof.
  intros Hf. revert w. induction l as [|x l IH]; intros w; [done|]. cbn [for_each foldl].
  by rewrite bind_run, Hf, IH.
Qed.

(** A loop over distinct elements meets one of them once: [Post] holds after
    its turn, [Same] until then. *)
Lemma foldl_once {A} `{EqDecision A} (one : A → W → W) (Same Post : W → Prop) (x : A) l w :
  NoDup l → Same w → (∀ y v, y ≠ x → Same v → Same (one y v)) → (∀ v, Same v → Post (one x v)) →
  (∀ y v, y ≠ x → Post v → Post (one y v)) →
  if decide (x ∈ l) then Post (foldl (λ w y, one y w) w l) else Same (foldl (λ w y, one y w) w l).
Proof.
  intros Hnd Hw HS HP HPP. revert w Hw. induction l as [|y l IH]; intros w Hw; cbn [foldl].
  { by rewrite decide_False by set_solver. }
  apply NoDup_cons in Hnd as [Hy Hnd]. destruct (decide (y = x)) as [->|Hne].
  - rewrite decide_True by set_solver. clear IH Hnd.
    assert (Post (one x w)) as Hp by auto. revert Hp. generalize (one x w). induction l as [|z l IH]; [done|].
    intros v Hv. cbn [foldl]. apply IH; [set_solver|]. apply HPP; [set_solver|done].
  - specialize (IH Hnd (one y w) (HS _ _ Hne Hw)). repeat case_decide; try done; set_solver.
Qed.
End loops.

Definition rename (old new a : string) : string := if decide (a = old) then new else a.

(** ** Moving map entries *)
Section moves.
Context {V : Type}.
Implicit Types m : gmap (N * string * Z) V.

Definition move_windows (id : N) (old new : string) (f : V → V) m : gmap (N * string * Z) V :=
  foldl (λ m kv, delete kv.1 (insert (id, new, kv.1.2) (f kv.2) m)) m (collectPerWindowEntries m id old).

Lemma move_entries id old new (f : V → V) (l : list (N * string * Z * V)) m i a h :
  old ≠ new → (∀ e, e ∈ l → e.1.1 = (id, old)) → NoDup l.*1 →
  foldl (λ m kv, delete kv.1 (insert (id, new, kv.1.2) (f kv.2) m)) m l !! (i, a, h) =
  if decide ((i, a) = (id, new)) then
    match (list_to_map l : gmap (N * string * Z) V) !! (id, old, h) with Some v => Some (f v) | None => m !! (i, a, h) end
  else if decide ((i, a, h) ∈ l.*1) then None else m !! (i, a, h).
Proof.
  intros Hne. revert m. induction l as [|[[[i0 a0] h0] v0] l IH]; intros m Hl Hnd; cbn [foldl].
  { cbn. rewrite lookup_empty. repeat case_decide; try done. set_solver. }
  assert ((i0, a0) = (id, old)) as [= -> ->] by apply (Hl (i0, a0, h0, v0) ltac:(left)).
  cbn [fmap list_fmap fst snd] in *. apply NoDup_cons in Hnd as [Hn Hnd].
  rewrite IH; [|set_solver|done]. rewrite list_to_map_cons. cbn [fst snd].
  case_decide as E1.
  - injection E1 as -> ->. rewrite lookup_delete_ne by congruence.
    destruct (decide (h = h0)) as [->|Hh].
    + rewrite !lookup_insert_eq. by rewrite (not_elem_of_list_to_map_1 _ _ Hn).
    + by rewrite !lookup_insert_ne by congruence.
  - destruct (decide ((i, a, h) = (id, old, h0))) as [E|E].
    + injection E as -> -> ->. rewrite lookup_delete_eq. by repeat case_decide; try set_solver.
    + rewrite lookup_delete_ne, lookup_insert_ne by congruence. repeat case_decide; set_solver.
Qed.

Lemma elem_of_collect m id addr k v :
  (k, v) ∈ collectPerWindowEntries m id addr ↔ k.1 = (id, addr) ∧ m !! k = Some v.
Proof.
  unfold collectPerWindowEntries. rewrite list_elem_of_filter, elem_of_iterate. cbn. unfold of_pair.
  by rewrite bool_decide_eq_true.
Qed.
Lemma NoDup_collect m id addr : NoDup (collectPerWindowEntries m id addr).*1.
Proof. eapply sublist_NoDup; [apply (NoDup_fst_iterate m)|]. apply fmap_sublist, sublist_filter. Qed.

Lemma move_windows_lookup id old new f m i a h :
  old ≠ new →
  move_windows id old new f m !! (i, a, h) =
  if decide ((i, a) = (id, new)) then
    match m !! (id, old, h) with Some v => Some (f v) | None => m !! (i, a, h) end
  else if decide ((i, a) = (id, old)) then None else m !! (i, a, h).
Proof.
  intros Hne. unfold move_windows. rewrite (move_entries id old new); [|done| |apply NoDup_collect].
  2: { intros [k v] Hin. by apply elem_of_collect in Hin as [? _]. }
  assert ((list_to_map (collectPerWindowEntries m id old) : gmap (N * string * Z) V) !! (id, old, h) = m !! (id, old, h)) as ->.
  { destruct (m !! (id, old, h)) as [v|] eqn:E.
    - apply elem_of_list_to_map_1; [apply NoDup_collect|]. by apply elem_of_collect.
    - apply not_elem_of_list_to_map_1. rewrite list_elem_of_fmap. intros ([k v] & Ek & [_ Hv]%elem_of_collect).
      cbn in Ek. congruence. }
  case_decide; [done|]. destruct (decide ((i, a) = (id, old))) as [[= -> ->]|Hn].
  - case_decide as Hin; [done|]. destruct (m !! (id, old, h)) as [v|] eqn:E; [|done]. destruct Hin.
    apply list_elem_of_fmap. exists (id, old, h, v). split; [done|]. by apply elem_of_collect.
  - rewrite decide_False; [done|]. rewrite list_elem_of_fmap. intros ([k v] & Ek & [Hk _]%elem_of_collect). cbn in Ek, Hk. subst k. by cbn in Hk.
Qed.
End moves.

(** Repointing the consumer addresses that lead to [old]. *)
Definition repoint (id : N) (old new : string) (m : gmap (N * string) string) : gmap (N * string) string :=
  foldl (λ m e, if negb (String.eqb e.2 old) then m else insert (id, e.1.2) new m) m
    (filter (λ kv, in_consumer (Some id) kv.1 = true) (iterate m)).

Lemma repoint_entries id old new (l : list (N * string * string)) m k :
  (∀ e, e ∈ l → e.1.1 = id) →
  foldl (λ m e, if negb (String.eqb e.2 old) then m else insert (id, e.1.2) new m) m l !! k =
  if decide (k ∈ (filter (λ e, e.2 = old) l).*1) then Some new else (m : gmap (N * string) string) !! k.
Proof.
  revert m. induction l as [|[[i a] p] l IH]; intros m Hl; cbn [foldl].
  { by rewrite decide_False by set_solver. }
  assert (i = id) as -> by apply (Hl (i, a, p) ltac:(left)). rewrite IH by set_solver. cbn [fst snd].
  destruct (String.eqb_spec p old) as [->|Hp]; cbn [negb].
  - rewrite filter_cons_True by done. cbn [fmap list_fmap fst]. destruct (decide (k = (id, a))) as [->|Hk].
    + rewrite lookup_insert_eq. rewrite (decide_True (P := (id, a) ∈ (id, a) :: _)) by set_solver. by case_decide.
    + rewrite lookup_insert_ne by congruence. repeat case_decide; set_solver.
  - by rewrite filter_cons_False by done.
Qed.

Lemma repoint_lookup id old new m i a :
  repoint id old new m !! (i, a) = if decide (i = id) then rename old new <$> m !! (i, a) else m !! (i, a).
Proof.
  unfold repoint. rewrite repoint_entries.
  2: { intros [[j b] p] [Hc _]%list_elem_of_filter. cbn in Hc. by apply N.eqb_eq in Hc. }
  case_decide as Hex.
  - apply list_elem_of_fmap in Hex as ([[j b] p] & [= <- <-] & [Hp [Hc Hin%elem_of_iterate]%list_elem_of_filter]%list_elem_of_filter).
    cbn in Hc, Hp. apply N.eqb_eq in Hc as ->. rewrite decide_True by done. rewrite Hin, Hp. cbn. unfold rename. by rewrite decide_True.
  - case_decide as Hi; [subst i|done]. destruct (m !! (id, a)) as [p|] eqn:E; [|done]. cbn. unfold rename.
    case_decide as Hp; [subst p|done]. destruct Hex. apply list_elem_of_fmap. exists (id, a, old). split; [done|].
    apply list_elem_of_filter. split; [done|]. apply list_elem_of_filter. split; [cbn; apply N.eqb_refl|]. by apply elem_of_iterate.
Qed.

(** ** What the migration of one consumer does *)
Section migration.
Context `{X : Externals}.

Lemma foldl_upd {S A} (upd : (S → S) → World → World) (f : A → S → S) l w :
  (∀ w, upd (λ m, m) w = w) → (∀ g h w, upd g (upd h w) = upd (λ m, g (h m)) w) →
  foldl (λ w x, upd (f x) w) w l = upd (λ m, foldl (λ m x, f x m) m l) w.
Proof.
  intros Hid Hcomp. revert w. induction l as [|x l IH]; intros w; cbn [foldl]; [by rewrite Hid|].
  by rewrite IH, Hcomp.
Qed.
Ltac by_stores := intros; repeat match goal with w : World |- _ => destruct w as [[] [] [] [] [] ? ? ?] end; reflexivity.
Ltac fold_upd := rewrite foldl_upd; [|by_stores|by_stores].

(** The key maps once the assignment of [old] stands under [new]. *)
Definition moved_keys (id : N) (old new : string) (k : PubKey) (w : World) : World :=
  upd_ValidatorByConsumerAddr (repoint id old new)
    (upd_ValidatorConsumerPubKey (λ m, <[(id, new) := k]> (delete (id, old) m)) w).

Lemma migrateKeyAssignment_run id old new c w :
  migrateKeyAssignment id old new c w =
  match GetValidatorConsumerPubKey id old w with
  | None => (Ok false, w)
  | Some k => (Ok true, moved_keys id old new k w)
  end.
Proof.
  unfold migrateKeyAssignment. rewrite bind_run. cbn [gets].
  destruct (GetValidatorConsumerPubKey id old w) as [k|]; [|done].
  unfold DeleteValidatorConsumerPubKey, SetValidatorConsumerPubKey, SetValidatorByConsumerAddr.
  rewrite bind_run. cbn [modify]. rewrite bind_run. cbn [modify]. rewrite bind_run. cbn [gets]. rewrite bind_run.
  rewrite (for_each_total _ (λ e w, upd_ValidatorByConsumerAddr
    (λ m, if negb (String.eqb e.2 old) then m else insert (id, e.1.2) new m) w)).
  2: { intros e v. destruct (negb _); [|done]. cbn. f_equal. symmetry. by_stores. }
  fold_upd. reflexivity.
Qed.

Lemma moved_keys_ok id old new k w :
  keys_ok w → GetValidatorConsumerPubKey id old w = Some k → keys_ok (moved_keys id old new k w).
Proof.
  intros [H1 H2 H3 H4 H5] Ek. destruct (H1 _ _ _ Ek) as (a0 & Ea0 & Er0).
  assert (∀ i a, GetValidatorByConsumerAddr i a (moved_keys id old new k w) =
    if decide (i = id) then rename old new <$> GetValidatorByConsumerAddr i a w
    else GetValidatorByConsumerAddr i a w) as Hrev by (intros; apply repoint_lookup).
  assert (∀ i q k', GetValidatorConsumerPubKey i q (moved_keys id old new k w) = Some k' →
    ((i, q) = (id, new) ∧ k' = k) ∨ (GetValidatorConsumerPubKey i q w = Some k' ∧ (i, q) ≠ (id, old))) as Hpk.
  { intros i q k'. unfold GetValidatorConsumerPubKey; cbn. rewrite lookup_insert_Some, lookup_delete_Some. naive_solver. }
  split.
  - intros i q k' [[[= -> ->] ->]|[Hk Hne]]%Hpk.
    + exists a0. split; [done|]. rewrite Hrev, decide_True, Er0 by done. cbn. unfold rename. by rewrite decide_True.
    + destruct (H1 _ _ _ Hk) as (a & Ea & Er). exists a. split; [done|]. rewrite Hrev, Er. case_decide as Hi; [|done].
      cbn. unfold rename. rewrite decide_False by congruence. done.
  - intros i ts a Hp. rewrite Hrev. destruct (H2 _ _ _ Hp) as [p Ep]. rewrite Ep. case_decide; eauto.
  - intros i ts a q k' Hp [[[= -> ->] ->]|[Hk _]]%Hpk; by eapply H3.
  - intros i ts ts' a. apply H4.
  - apply H5.
Qed.

Lemma moved_keys_accounted id old new k w :
  accounted w → GetValidatorConsumerPubKey id old w = Some k → old = new ∨ GetValidatorConsumerPubKey id new w = None →
  accounted (moved_keys id old new k w).
Proof.
  intros Hw Ek En i a p. unfold GetValidatorByConsumerAddr, moved_keys; cbn. rewrite repoint_lookup.
  change (ValidatorByConsumerAddr (w_ks w) !! (i, a)) with (GetValidatorByConsumerAddr i a w).
  assert (∀ q k', GetValidatorConsumerPubKey i q w = Some k' → (i, q) ≠ (id, old) →
    GetValidatorConsumerPubKey i q (moved_keys id old new k w) = Some k') as Hkeep.
  { intros q k' Hq Hne. assert ((i, q) ≠ (id, new)) by (destruct En; congruence). unfold GetValidatorConsumerPubKey; cbn. rewrite lookup_insert_ne by congruence.
    by rewrite lookup_delete_ne by congruence. }
  case_decide as Hi; [subst i|].
  - intros (q & Er & ->)%fmap_Some. destruct (Hw id a q Er) as [(k' & Hq & Ha)|?]; [left|by right]. unfold rename.
    case_decide as Hold; [subst q|].
    + assert (k' = k) as -> by congruence. exists k. split; [apply lookup_insert_eq|done].
    + exists k'. split; [|done]. apply Hkeep; congruence.
  - intros Er. destruct (Hw i a p Er) as [(k' & Hq & Ha)|?]; [left|by right]. exists k'. split; [|done]. apply Hkeep; congruence.
Qed.

(** The downtime records once they stand under [new]. *)
Definition moved_floor (id : N) (old new : string) (m : gmap (N * string) Z) : gmap (N * string) Z :=
  match m !! (id, old) with
  | None => m
  | Some floor =>
      delete (id, old) (<[(id, new) := match m !! (id, new) with Some f => Z.max floor f | None => floor end]> m)
  end.
Definition moved_records (id : N) (old new : string) (w : World) : World :=
  upd_DowntimeWindowFloors (moved_floor id old new)
    (upd_AcceptedDowntimeWindows (move_windows id old new (λ a, a))
      (upd_PendingDowntimeSlashes (move_windows id old new (λ p, with_provider_addr p new)) w)).

Lemma migrateDowntimeAcceptance_run id old new c w :
  migrateDowntimeAcceptance id old new c w = (Ok tt, moved_records id old new w).
Proof.
  unfold migrateDowntimeAcceptance. rewrite bind_run. cbn [gets]. rewrite bind_run.
  rewrite (for_each_total _ (λ kv w, upd_PendingDowntimeSlashes
    (λ m, delete kv.1 (insert (id, new, kv.1.2) (with_provider_addr kv.2 new) m)) w)) by done.
  fold_upd. rewrite bind_run. cbn [gets]. rewrite bind_run.
  rewrite (for_each_total _ (λ kv w, upd_AcceptedDowntimeWindows
    (λ m, delete kv.1 (insert (id, new, kv.1.2) kv.2 m)) w)) by done.
  fold_upd. unfold moved_records. fold (move_windows id old new (λ a, a) (s_AcceptedDowntimeWindows w)).
  unfold migrateDowntimeWindowFloor. rewrite bind_run. cbn [gets].
  set (v := upd_AcceptedDowntimeWindows _ _).
  change (upd_DowntimeWindowFloors (moved_floor id old new) (upd_AcceptedDowntimeWindows _ _))
    with (upd_DowntimeWindowFloors (moved_floor id old new) v).
  assert (∀ f g u, f (s_DowntimeWindowFloors u) = g (s_DowntimeWindowFloors u) →
    upd_DowntimeWindowFloors f u = upd_DowntimeWindowFloors g u) as Hext.
  { intros f g u E. unfold upd_DowntimeWindowFloors, s_DowntimeWindowFloors in *. by rewrite E. }
  destruct (s_DowntimeWindowFloors v !! (id, old)) as [fl|] eqn:Ef.
  - transitivity (@Ok unit tt, upd_DowntimeWindowFloors (λ m, delete (id, old) (<[(id, new) :=
      match s_DowntimeWindowFloors v !! (id, new) with
      | Some x => if fl <? x then x else fl | None => fl end]> m)) v); [reflexivity|]. f_equal.
    apply Hext. unfold moved_floor. rewrite Ef. do 2 f_equal.
    destruct (_ !! (id, new)) as [x|]; [|done]. destruct (Z.ltb_spec fl x); lia.
  - cbn. f_equal. transitivity (upd_DowntimeWindowFloors (λ m, m) v); [symmetry; clearbody v; by_stores|].
    apply Hext. unfold moved_floor. by rewrite Ef.
Qed.
Definition moved_validator (id : N) (old new : string) (m : gmap (N * string) ConsensusValidator)
  : gmap (N * string) ConsensusValidator :=
  match m !! (id, old) with
  | None => m
  | Some val => <[(id, new) := mkConsensusValidator new (cv_Power val) (PublicKey val) (JoinHeight val)]> (delete (id, old) m)
  end.
Definition moved_mark (id : N) (old new : string) (m : gmap (N * string) bool) : gmap (N * string) bool :=
  if bool_decide (is_Some (m !! (id, old))) then delete (id, old) (<[(id, new) := true]> m) else m.
Definition moved_withheld (id : N) (old new : string) (m : gmap (N * string) WithheldFeeRecord)
  : gmap (N * string) WithheldFeeRecord :=
  match m !! (id, old), m !! (id, new) with
  | Some r, None =>
      delete (id, old) (<[(id, new) := mkWithheldFeeRecord (wf_ConsumerId r) new (wf_Amount r) (wf_ExpiresAt r)]> m)
  | _, _ => m
  end.
Definition moved_punished (chainId old new : string) (heights : list Z) (s : gset (string * string * Z))
  : gset (string * string * Z) :=
  foldl (λ s h, ({[ (chainId, new, h) ]} ∪ s) ∖ {[ (chainId, old, h) ]}) s heights.

(** The body of the migration loop. *)
Definition rotate_one (old new : string) (id : N) (w : World) : World :=
  let w := match GetValidatorConsumerPubKey id old w with
           | None => w
           | Some k => moved_records id old new (upd_ConsumerValidators (moved_validator id old new) (moved_keys id old new k w))
           end in
  let w := upd_WithheldFeeRecords (moved_withheld id old new) (upd_EpochDowntime (moved_mark id old new) w) in
  match GetConsumerChainId id w with
  | None => w
  | Some chainId => upd_PunishedEquivocations (moved_punished chainId old new (punished_heights chainId old w)) w
  end.

Lemma migrateConsumerValidator_run id old new c w :
  migrateConsumerValidator id old new c w = (Ok tt, upd_ConsumerValidators (moved_validator id old new) w).
Proof.
  unfold migrateConsumerValidator. rewrite bind_run. cbn [gets]. unfold GetConsumerValidator.
  unfold moved_validator, upd_ConsumerValidators, s_ConsumerValidators.
  destruct (ConsumerValidators (w_vs w) !! (id, old)) as [val|]; [reflexivity|]. cbn. f_equal. by_stores.
Qed.
Lemma migrateFeeExclusion_run id old new c w :
  migrateFeeExclusion id old new c w =
  (Ok tt, upd_WithheldFeeRecords (moved_withheld id old new) (upd_EpochDowntime (moved_mark id old new) w)).
Proof.
  unfold migrateFeeExclusion. rewrite bind_run. cbn [gets]. rewrite bind_run.
  set (v := upd_EpochDowntime (moved_mark id old new) w).
  match goal with |- match ?m c w with _ => _ end = _ => assert (m c w = (Ok tt, v)) as -> end.
  { unfold v, moved_mark, upd_EpochDowntime, s_EpochDowntime.
    case_bool_decide; [reflexivity|]. cbn. f_equal. by_stores. }
  rewrite bind_run. cbn [gets]. clearbody v. unfold moved_withheld, upd_WithheldFeeRecords, s_WithheldFeeRecords.
  destruct (WithheldFeeRecords (w_fs v) !! (id, old)) as [r|]; [|cbn; f_equal; by_stores].
  rewrite bind_run. cbn [gets]. destruct (WithheldFeeRecords (w_fs v) !! (id, new)); [cbn; f_equal; by_stores|reflexivity].
Qed.
Lemma migratePunishedEquivocations_run id old new c w :
  migratePunishedEquivocations id old new c w =
  (Ok tt, match GetConsumerChainId id w with
          | None => w
          | Some chainId => upd_PunishedEquivocations (moved_punished chainId old new (punished_heights chainId old w)) w
          end).
Proof.
  unfold migratePunishedEquivocations. rewrite bind_run. cbn [gets].
  destruct (GetConsumerChainId id w) as [chainId|]; [|done]. rewrite bind_run. cbn [gets].
  rewrite (for_each_total _ (λ h w, upd_PunishedEquivocations
    (λ s, ({[ (chainId, new, h) ]} ∪ s) ∖ {[ (chainId, old, h) ]}) w)) by done.
  fold_upd. reflexivity.
Qed.

Lemma Migrate_run old new c w :
  MigrateStateOnConsPubKeyRotation old new c w =
  (Ok tt, foldl (λ w id, rotate_one old new id w) w (nonDeletedConsumerIds w)).
Proof.
  unfold MigrateStateOnConsPubKeyRotation. rewrite bind_run. cbn [gets].
  rewrite (for_each_total _ (rotate_one old new)); [done|]. intros id v. rewrite bind_run, migrateKeyAssignment_run.
  unfold rotate_one. destruct (GetValidatorConsumerPubKey id old v) as [k|]; cbn [when].
  - rewrite bind_run, bind_run, migrateConsumerValidator_run, migrateDowntimeAcceptance_run, bind_run,
      migrateFeeExclusion_run. apply migratePunishedEquivocations_run.
  - rewrite bind_run. cbn [mret M_ret]. rewrite bind_run, migrateFeeExclusion_run.
    apply migratePunishedEquivocations_run.
Qed.

Lemma nonDeleted_NoDup w : NoDup (nonDeletedConsumerIds w).
Proof.
  unfold nonDeletedConsumerIds. apply NoDup_filter. unfold GetAllConsumerIds. destruct (GetConsumerId w); [|constructor].
  apply NoDup_fmap_2; [intros ? ? ?; lia|apply NoDup_seq].
Qed.
End migration.

(** ** What one consumer sees *)
Section slices.
Context `{X : Externals}.

(** The records of one consumer, equal in two worlds. *)
Record slice (id : N) (w v : World) : Prop := mkSlice {
  slice_key p : GetValidatorConsumerPubKey id p v = GetValidatorConsumerPubKey id p w;
  slice_addr a : GetValidatorByConsumerAddr id a v = GetValidatorByConsumerAddr id a w;
  slice_window a h : s_AcceptedDowntimeWindows v !! (id, a, h) = s_AcceptedDowntimeWindows w !! (id, a, h);
  slice_floor a : s_DowntimeWindowFloors v !! (id, a) = s_DowntimeWindowFloors w !! (id, a);
  slice_pending a h : s_PendingDowntimeSlashes v !! (id, a, h) = s_PendingDowntimeSlashes w !! (id, a, h);
}.
Lemma slice_refl id w : slice id w w.
Proof. by split. Qed.
Lemma slice_trans id w v u : slice id w v → slice id v u → slice id w u.
Proof. intros [] []. split; congruence. Qed.

Section one.
Context (old new : string) (Hne : old ≠ new).

(** The records of the rotating consumer, those of the others untouched. *)
Lemma rotate_one_other id j w : j ≠ id → slice id w (rotate_one old new j w).
Proof.
  intros Hj. apply (slice_trans _ _ (match GetValidatorConsumerPubKey j old w with
    | None => w
    | Some k => moved_records j old new (upd_ConsumerValidators (moved_validator j old new) (moved_keys j old new k w))
    end)).
  2: { unfold rotate_one. cbv zeta. destruct (GetValidatorConsumerPubKey j old w) as [k|];
         match goal with |- context [GetConsumerChainId j ?u] => destruct (GetConsumerChainId j u) end; by split. }
  destruct (GetValidatorConsumerPubKey j old w) as [k|]; [|apply slice_refl]. split; intros; cbn.
  - unfold GetValidatorConsumerPubKey; cbn. by rewrite lookup_insert_ne, lookup_delete_ne by congruence.
  - unfold GetValidatorByConsumerAddr; cbn. by rewrite repoint_lookup, decide_False by done.
  - rewrite move_windows_lookup by done. by rewrite !decide_False by congruence.
  - unfold moved_floor. destruct (_ !! (j, old)); [|done]. by rewrite lookup_delete_ne, lookup_insert_ne by congruence.
  - rewrite move_windows_lookup by done. by rewrite !decide_False by congruence.
Qed.

Definition max_floor (x y : option Z) : option Z :=
  match x, y with Some f, Some g => Some (Z.max f g) | Some f, None => Some f | None, y => y end.
Lemma rotate_one_moved id k w :
  GetValidatorConsumerPubKey id old w = Some k →
  let v := rotate_one old new id w in
  (∀ p, GetValidatorConsumerPubKey id p v =
     if decide (p = new) then Some k else if decide (p = old) then None else GetValidatorConsumerPubKey id p w) ∧
  (∀ a, GetValidatorByConsumerAddr id a v = rename old new <$> GetValidatorByConsumerAddr id a w) ∧
  (∀ a h, s_AcceptedDowntimeWindows v !! (id, a, h) =
     if decide (a = new) then
       match s_AcceptedDowntimeWindows w !! (id, old, h) with Some x => Some x | None => s_AcceptedDowntimeWindows w !! (id, a, h) end
     else if decide (a = old) then None else s_AcceptedDowntimeWindows w !! (id, a, h)) ∧
  (∀ a, s_DowntimeWindowFloors v !! (id, a) =
     if decide (a = new) then max_floor (s_DowntimeWindowFloors w !! (id, old)) (s_DowntimeWindowFloors w !! (id, new))
     else if decide (a = old) then None else s_DowntimeWindowFloors w !! (id, a)) ∧
  (∀ a h, s_PendingDowntimeSlashes v !! (id, a, h) =
     if decide (a = new) then
       match s_PendingDowntimeSlashes w !! (id, old, h) with
       | Some x => Some (with_provider_addr x new) | None => s_PendingDowntimeSlashes w !! (id, a, h) end
     else if decide (a = old) then None else s_PendingDowntimeSlashes w !! (id, a, h)).
Proof.
  intros Ek v. set (u := moved_records id old new
    (upd_ConsumerValidators (moved_validator id old new) (moved_keys id old new k w))).
  assert (slice id u v) as [H1 H2 H3 H4 H5].
  { subst v. unfold rotate_one. rewrite Ek. fold u. cbv zeta.
    match goal with |- context [GetConsumerChainId id ?u] => destruct (GetConsumerChainId id u) end; by split. }
  split_and!; intros; rewrite ?H1, ?H2, ?H3, ?H4, ?H5; subst u; cbn.
  - unfold GetValidatorConsumerPubKey; cbn. case_decide as E; [subst; apply lookup_insert_eq|].
    rewrite lookup_insert_ne by congruence. case_decide as E'; [subst; apply lookup_delete_eq|].
    by rewrite lookup_delete_ne by congruence.
  - unfold GetValidatorByConsumerAddr; cbn. by rewrite repoint_lookup, decide_True by done.
  - rewrite move_windows_lookup by done. repeat case_decide; try congruence; done.
  - unfold moved_floor, s_DowntimeWindowFloors. destruct (_ !! (id, old)) as [f|] eqn:Ef; cbn.
    + case_decide as E; [subst a|].
      * rewrite lookup_delete_ne, lookup_insert_eq by congruence. by destruct (_ !! (id, new)).
      * case_decide as E'; [subst a; apply lookup_delete_eq|]. by rewrite lookup_delete_ne, lookup_insert_ne by congruence.
    + repeat case_decide; subst; done.
  - rewrite move_windows_lookup by done. repeat case_decide; try congruence; done.
Qed.

Lemma rotate_one_unassigned id w :
  GetValidatorConsumerPubKey id old w = None → slice id w (rotate_one old new id w).
Proof.
  intros Ek. unfold rotate_one. rewrite Ek. cbv zeta.
  match goal with |- context [GetConsumerChainId id ?u] => destruct (GetConsumerChainId id u) end; by split.
Qed.

Lemma rotate_one_cong id w v : slice id w v → slice id (rotate_one old new id w) (rotate_one old new id v).
Proof.
  intros [H1 H2 H3 H4 H5]. destruct (GetValidatorConsumerPubKey id old w) as [k|] eqn:Ek.
  - assert (GetValidatorConsumerPubKey id old v = Some k) as Ek' by (by rewrite H1).
    destruct (rotate_one_moved id k w Ek) as (A1 & A2 & A3 & A4 & A5).
    destruct (rotate_one_moved id k v Ek') as (B1 & B2 & B3 & B4 & B5).
    split; intros.
    + by rewrite A1, B1, H1. + by rewrite A2, B2, H2. + by rewrite A3, B3, !H3. + by rewrite A4, B4, !H4.
    + by rewrite A5, B5, !H5.
  - pose proof (rotate_one_unassigned id w Ek) as [A1 A2 A3 A4 A5].
    pose proof (rotate_one_unassigned id v ltac:(by rewrite H1)) as [B1 B2 B3 B4 B5]. split; congruence.
Qed.

Lemma rotation_slice id w :
  slice id (if decide (id ∈ nonDeletedConsumerIds w) then rotate_one old new id w else w)
    (foldl (λ w j, rotate_one old new j w) w (nonDeletedConsumerIds w)).
Proof.
  pose proof (foldl_once (rotate_one old new) (slice id w) (slice id (rotate_one old new id w)) id
    (nonDeletedConsumerIds w) w (nonDeleted_NoDup w) (slice_refl id w)) as H.
  case_decide; apply H.
  1, 4: intros j v Hj Hv; by eapply slice_trans, rotate_one_other.
  1, 3: intros v Hv; by apply rotate_one_cong.
  all: intros j v Hj Hv; by eapply slice_trans, rotate_one_other.
Qed.
End one.
End slices.

(** ** The theorems *)
Section rotation.
Context `{X : Externals}.

Lemma covered_slice id w v a h : slice id w v → covered id a h w ↔ covered id a h v.
Proof.
  intros [_ _ H3 H4 _]. unfold covered. setoid_rewrite H3. setoid_rewrite H4. done.
Qed.
Lemma resolve_slice id w v a :
  slice id w v → GetProviderAddrFromConsumerAddr id a v = GetProviderAddrFromConsumerAddr id a w.
Proof. intros [_ H2 _ _ _]. unfold GetProviderAddrFromConsumerAddr. by rewrite H2. Qed.

(** Moving the records of one consumer. *)
Lemma rotate_one_covered old new id k w ca h :
  old ≠ new → GetValidatorConsumerPubKey id old w = Some k →
  (∀ h, s_AcceptedDowntimeWindows w !! (id, new, h) = None) →
  (ca = old → is_Some (GetValidatorByConsumerAddr id ca w)) →
  covered id (GetProviderAddrFromConsumerAddr id ca w) h w →
  covered id (GetProviderAddrFromConsumerAddr id ca (rotate_one old new id w)) h (rotate_one old new id w).
Proof.
  intros Hne Ek Hfresh Hca. destruct (rotate_one_moved old new Hne id k w Ek) as (_ & Hr & Hw & Hf & _).
  set (v := rotate_one old new id w) in *. set (p := GetProviderAddrFromConsumerAddr id ca w).
  assert (GetProviderAddrFromConsumerAddr id ca v = rename old new p) as ->.
  { subst p. unfold GetProviderAddrFromConsumerAddr. rewrite Hr.
    destruct (GetValidatorByConsumerAddr id ca w) as [q|] eqn:E; cbn; [done|]. unfold rename. case_decide; [|done].
    by destruct (Hca H). }
  unfold covered. rewrite Hf. setoid_rewrite Hw. unfold rename.
  intros [(e & x & E & Hh)|(f & E & Hh)]; destruct (decide (p = old)) as [Ep|Ep].
  - left. exists e, x. rewrite decide_True by done. rewrite Ep in E. by rewrite E.
  - left. exists e, x. rewrite (decide_False (P := p = old)) by done.
    destruct (decide (p = new)) as [->|]; [by rewrite Hfresh in E|done].
  - right. rewrite decide_True by done. rewrite Ep in E. rewrite E. cbn.
    destruct (s_DowntimeWindowFloors w !! (id, new)); eexists; (split; [done|lia]).
  - right. rewrite (decide_False (P := p = old)) by done. destruct (decide (p = new)) as [->|]; [|by exists f].
    rewrite E. destruct (s_DowntimeWindowFloors w !! (id, old)); eexists; (split; [done|lia]).
Qed.

(** C27. Downtime heights that are covered for a consumer identity stay covered for it
    through a key rotation, except for the provider address itself when the validator was
    accused under it before it assigned a consumer key: under that identity the covered
    heights are lost. *)
Theorem rotation_and_covered_heights old new id c w :
  old ≠ new → (∀ h, s_AcceptedDowntimeWindows w !! (id, new, h) = None) →
  ∃ w', MigrateStateOnConsPubKeyRotation old new c w = (Ok tt, w') ∧
    (∀ ca h, (ca = old → GetValidatorByConsumerAddr id ca w = None → GetValidatorConsumerPubKey id old w = None) →
       covered id (GetProviderAddrFromConsumerAddr id ca w) h w →
       covered id (GetProviderAddrFromConsumerAddr id ca w') h w') ∧
    (* the one identity it does not hold for *)
    (id ∈ nonDeletedConsumerIds w → is_Some (GetValidatorConsumerPubKey id old w) →
     GetValidatorByConsumerAddr id old w = None →
     ∀ h, ¬ covered id (GetProviderAddrFromConsumerAddr id old w') h w').
Proof.
  intros Hne Hfresh. eexists. split; [apply Migrate_run|].
  pose proof (rotation_slice old new Hne id w) as Hs. set (w' := foldl _ _ _) in *. split.
  - intros ca h Hca Hcov. apply (covered_slice _ _ _ _ _ Hs). rewrite (resolve_slice _ _ _ _ Hs).
    case_decide; [|done]. destruct (GetValidatorConsumerPubKey id old w) as [k|] eqn:Ek.
    + eapply rotate_one_covered; try done. intros E. destruct (GetValidatorByConsumerAddr id ca w) eqn:Er; [done|].
      by specialize (Hca E eq_refl).
    + pose proof (rotate_one_unassigned old new id w Ek) as Hu.
      apply (covered_slice _ _ _ _ _ Hu). by rewrite (resolve_slice _ _ _ _ Hu).
  - intros Hin [k Ek] Er h. rewrite decide_True in Hs by done.
    destruct (rotate_one_moved old new Hne id k w Ek) as (_ & Hr & Hw & Hf & _). intros Hcov.
    apply (covered_slice _ _ _ _ _ Hs) in Hcov. rewrite (resolve_slice _ _ _ _ Hs) in Hcov.
    unfold GetProviderAddrFromConsumerAddr in Hcov. rewrite Hr, Er in Hcov. cbn in Hcov.
    destruct Hcov as [(e & x & E & _)|(f & E & _)]; [rewrite Hw in E|rewrite Hf in E];
      by rewrite decide_False, decide_True in E by done.
Qed.

(** *** The other books *)
Lemma moved_punished_keeps ch old new hs s k :
  k.1.2 ≠ old → k ∈ s → k ∈ moved_punished ch old new hs s.
Proof.
  intros Hk. revert s. induction hs as [|h hs IH]; intros s Hin; [done|]. cbn [moved_punished foldl].
  apply IH. apply elem_of_difference. split; [set_solver|]. intros ->%elem_of_singleton. by cbn in Hk.
Qed.
Lemma moved_punished_moves ch old new hs s h :
  old ≠ new → h ∈ hs → (ch, new, h) ∈ moved_punished ch old new hs s.
Proof.
  intros Hne. revert s. induction hs as [|h0 hs IH]; intros s Hin; [set_solver|]. cbn [moved_punished foldl].
  apply elem_of_cons in Hin as [->|Hin]; [|by apply IH].
  apply moved_punished_keeps; [cbn; congruence|]. set_solver.
Qed.
Lemma moved_punished_others ch old new hs s k :
  k.1.1 ≠ ch → k ∈ s → k ∈ moved_punished ch old new hs s.
Proof.
  intros Hk. revert s. induction hs as [|h hs IH]; intros s Hin; [done|]. cbn [moved_punished foldl].
  apply IH. apply elem_of_difference. split; [set_solver|]. intros ->%elem_of_singleton. by cbn in Hk.
Qed.
Lemma elem_of_punished_heights ch a h w : h ∈ punished_heights ch a w ↔ (ch, a, h) ∈ s_PunishedEquivocations w.
Proof.
  unfold punished_heights. rewrite merge_sort_Permutation, list_elem_of_fmap. split.
  - intros ([[c' a'] h'] & -> & [[= -> ->] Hin]%list_elem_of_filter). by apply elem_of_elements in Hin.
  - intros Hin. exists (ch, a, h). split; [done|]. apply list_elem_of_filter. split; [done|]. by apply elem_of_elements.
Qed.

Lemma rotate_one_frame old new id w :
  let v := rotate_one old new id w in
  s_WithheldFeeRecords v = moved_withheld id old new (s_WithheldFeeRecords w) ∧ w_bank v = w_bank w ∧
  w_lc v = w_lc w ∧ w_staking v = w_staking w ∧
  s_PunishedEquivocations v = match GetConsumerChainId id w with
    | None => s_PunishedEquivocations w
    | Some ch => moved_punished ch old new (punished_heights ch old w) (s_PunishedEquivocations w) end.
Proof.
  unfold rotate_one. cbv zeta.
  match goal with |- context [GetConsumerChainId id ?u] => assert (GetConsumerChainId id u = GetConsumerChainId id w) as -> end.
  { by destruct (GetValidatorConsumerPubKey id old w). }
  destruct (GetConsumerChainId id w); destruct (GetValidatorConsumerPubKey id old w) as [k|]; split_and!; reflexivity.
Qed.

Lemma moved_withheld_escrow old new id id' denom now m :
  old ≠ new →
  map_sum (escrow_term id' denom now) (moved_withheld id old new m) = map_sum (escrow_term id' denom now) m.
Proof.
  intros Hne. unfold moved_withheld. destruct (m !! (id, old)) as [r|] eqn:Eo; [|done].
  destruct (m !! (id, new)) eqn:En; [done|].
  rewrite delete_insert_ne by congruence.
  rewrite map_sum_insert, (delete_id (delete _ _)) by (by rewrite lookup_delete_ne by congruence).
  rewrite (map_sum_delete _ m _ _ Eo). done.
Qed.

Lemma rotation_escrow old new c w id denom :
  old ≠ new → available id denom c (foldl (λ w j, rotate_one old new j w) w (nonDeletedConsumerIds w)) = available id denom c w.
Proof.
  intros Hne. generalize (nonDeletedConsumerIds w). intros l. rewrite !available_escrow.
  assert (∀ w, w_bank (foldl (λ w j, rotate_one old new j w) w l) = w_bank w ∧
    escrow id denom (BlockTime c) (foldl (λ w j, rotate_one old new j w) w l) = escrow id denom (BlockTime c) w) as H.
  { clear w. induction l as [|j l IH]; intros w; [done|]. cbn [foldl]. destruct (IH (rotate_one old new j w)) as [-> ->].
    destruct (rotate_one_frame old new j w) as (E1 & E2 & _). split; [done|]. unfold escrow. rewrite E1.
    by apply moved_withheld_escrow. }
  destruct (H w) as [E ->]. unfold pool_balance. by rewrite E.
Qed.

Lemma rotation_punished old new w l ch id h :
  old ≠ new → NoDup l → id ∈ l → GetConsumerChainId id w = Some ch → (ch, old, h) ∈ s_PunishedEquivocations w →
  (ch, new, h) ∈ s_PunishedEquivocations (foldl (λ w j, rotate_one old new j w) w l).
Proof.
  intros Hne Hnd Hin Hch Hp.
  pose proof (foldl_once (rotate_one old new)
    (λ v, w_lc v = w_lc w ∧ ((ch, old, h) ∈ s_PunishedEquivocations v ∨ (ch, new, h) ∈ s_PunishedEquivocations v))
    (λ v, w_lc v = w_lc w ∧ (ch, new, h) ∈ s_PunishedEquivocations v) id l w Hnd) as H.
  rewrite decide_True in H by done. apply H; clear H.
  - by split; [|left].
  - intros j v _ [Hlc Hv]. destruct (rotate_one_frame old new j v) as (_ & _ & E1 & _ & E2). rewrite E1, E2. split; [done|].
    destruct (GetConsumerChainId j v) as [ch'|]; [|done]. destruct Hv as [Hv|Hv].
    + destruct (decide (ch' = ch)) as [->|Hn].
      * right. apply moved_punished_moves; [done|]. by apply elem_of_punished_heights.
      * left. by apply moved_punished_others.
    + right. apply moved_punished_keeps; [cbn; congruence|done].
  - intros v [Hlc Hv]. destruct (rotate_one_frame old new id v) as (_ & _ & E1 & _ & E2). rewrite E1, E2. split; [done|].
    unfold GetConsumerChainId, s_ConsumerChainId in *. rewrite Hlc, Hch. destruct Hv as [Hv|Hv].
    + apply moved_punished_moves; [done|]. by apply elem_of_punished_heights.
    + apply moved_punished_keeps; [cbn; congruence|done].
  - intros j v _ [Hlc Hv]. destruct (rotate_one_frame old new j v) as (_ & _ & E1 & _ & E2). rewrite E1, E2. split; [done|].
    destruct (GetConsumerChainId j v) as [ch'|]; [|done]. apply moved_punished_keeps; [cbn; congruence|done].
Qed.

(** C26. A consensus-key rotation to another address always succeeds. On every consumer that
    is not deleted and where the validator has an assigned consumer key, the key, the
    reverse entries and the pending downtime slashes move to the new address; where it has
    none, and on deleted consumers, its key maps, pending slashes, accepted windows and
    floors stay as they are (evidence goes on resolving to the old address). Its punished
    infractions are on record under the new address for the chain of every consumer that is
    not deleted, and no pool's escrow changes. *)
Theorem rotation_carries_the_books old new c w :
  old ≠ new →
  ∃ w', MigrateStateOnConsPubKeyRotation old new c w = (Ok tt, w') ∧
    (∀ id k, id ∈ nonDeletedConsumerIds w → GetValidatorConsumerPubKey id old w = Some k →
       GetValidatorConsumerPubKey id new w' = Some k ∧ GetValidatorConsumerPubKey id old w' = None ∧
       (∀ ca, GetValidatorByConsumerAddr id ca w = Some old → GetValidatorByConsumerAddr id ca w' = Some new) ∧
       (∀ h p, s_PendingDowntimeSlashes w !! (id, old, h) = Some p →
          s_PendingDowntimeSlashes w' !! (id, new, h) = Some (with_provider_addr p new)
          ∧ s_PendingDowntimeSlashes w' !! (id, old, h) = None)) ∧
    (* where it has no key of its own, and on deleted consumers, evidence goes on resolving to the
       old address: the key maps, the pending slashes and the accepted windows stay *)
    (∀ id, id ∉ nonDeletedConsumerIds w ∨ GetValidatorConsumerPubKey id old w = None → slice id w w') ∧
    (* no escrow is released or created *)
    (∀ id denom c', available id denom c' w' = available id denom c' w) ∧
    (* no punished infraction becomes punishable again *)
    (∀ id ch h, id ∈ nonDeletedConsumerIds w → GetConsumerChainId id w = Some ch →
       (ch, old, h) ∈ s_PunishedEquivocations w → (ch, new, h) ∈ s_PunishedEquivocations w').
Proof.
  intros Hne. eexists. split; [apply Migrate_run|]. split_and!.
  - intros id k Hin Ek. pose proof (rotation_slice old new Hne id w) as [H1 H2 _ _ H5].
    rewrite decide_True in H1, H2, H5 by done.
    destruct (rotate_one_moved old new Hne id k w Ek) as (A1 & A2 & _ & _ & A5).
    rewrite !H1, !A1. split_and!.
    + by rewrite decide_True by done.
    + by rewrite decide_False, decide_True by done.
    + intros ca E. rewrite H2, A2, E. cbn. unfold rename. by rewrite decide_True.
    + intros h p E. rewrite !H5, !A5, E. by rewrite decide_True, decide_False, decide_True by done.
  - intros id Hid. pose proof (rotation_slice old new Hne id w) as Hs. case_decide as Hin; [|exact Hs].
    destruct Hid as [?|Ek]; [done|]. eapply slice_trans; [by apply rotate_one_unassigned|exact Hs].
  - intros id denom c'. by apply rotation_escrow.
  - intros id ch h Hin Hch Hp. by apply (rotation_punished old new w _ ch id h Hne (nonDeleted_NoDup w)).
Qed.
End rotation.
