(* ===== verification/ConsumerWorld.v ===== *)
(** The consumer keeper's store (x/vaas/consumer/keeper/keeper.go), the keepers
    outside the repository it calls ([ConsumerExternals]), and one setter per
    collection. A queued evidence packet is kept as the packet rather than as
    its JSON bytes; the pending changes keep only the update list, the one field
    the code sets. *)
From S2P Require Import Prelude GoTime Types Externals.

Record ConsumerParams `{LegacyDec} := mkConsumerParams {
  cp_VaasTimeoutPeriod : Duration;
  cp_HistoricalEntries : Z;
  cp_UnbondingPeriod : Duration;
  cp_SafeModeThreshold : Duration;
  cp_SignedBlocksWindow : Z;
  cp_MinSignedPerWindow : dec;
  cp_OwnerAddress : string;
  cp_PhotonFeesEnabled : bool;
}.
Arguments mkConsumerParams {_} _ _ _ _ _ _ _ _.

(** A stored validator (consumer/types/validator.go). *)
Record VaasValidator := mkVaasValidator {
  vv_Address : string;
  vv_Power : Z;
  vv_Pubkey : PubKey;
}.
#[global] Instance VaasValidator_eq_dec : EqDecision VaasValidator.
Proof. solve_decision. Defined.

Class ConsumerExternals `{D : LegacyDec} `{KY : Keys} := {
  c_authority : string;
  (* bech32.DecodeAndConvert: the address bytes *)
  DecodeAndConvert : string → option string;
  HistoricalInfo : Type;
  NewHistoricalInfo : Z → list VaasValidator → HistoricalInfo;
  slashing : Type;
  SlashingAfterValidatorBonded : slashing → string → string → option slashing;
  cibc : Type;
  c_GetClientState : cibc → string → option (option TmClientState);
  c_GetClientStatus : cibc → string → ClientStatus;
  c_GetClientCounterparty : cibc → string → option string;
  (* success flag and the resulting state: client, timeout, signer, payload *)
  c_SendPacket : cibc → string → Z → string → EvidencePacketData → bool * cibc;
}.

Record CWorld `{ConsumerExternals} := mkCWorld {
  ProviderClientID : option string;
  PendingChanges : option (list ValidatorUpdate);
  InitGenesisHeight : option Z;
  CParams : option ConsumerParams;
  CConsumerInDebt : option bool;
  VaasValidators : gmap string VaasValidator;
  HistoricalInfos : gmap Z HistoricalInfo;
  HighestValsetUpdateID : option N;
  PendingEvidencePackets : gmap (string * Z) EvidencePacketData;
  LastVSCRecvTime : option Time;
  MissedBlockBitmaps : gmap string (list Z);
  FirstTrackedHeights : gmap string Z;
  StagedDowntimeParams : option DowntimeParams;
  ProviderChainId : option string;
  c_slashing : slashing;
  c_ibc : cibc;
}.
Arguments mkCWorld {_ _ _} _ _ _ _ _ _ _ _ _ _ _ _ _ _ _ _.

(** A method of the consumer keeper. *)
Abbreviation CK := (M CWorld).

Section csetters.
Context `{CX : ConsumerExternals}.

Definition upd_ProviderClientID (f : option string → option string) (w : CWorld) : CWorld :=
  mkCWorld (f (ProviderClientID w)) (PendingChanges w) (InitGenesisHeight w) (CParams w) (CConsumerInDebt w) (VaasValidators w) (HistoricalInfos w) (HighestValsetUpdateID w) (PendingEvidencePackets w) (LastVSCRecvTime w) (MissedBlockBitmaps w) (FirstTrackedHeights w) (StagedDowntimeParams w) (ProviderChainId w) (c_slashing w) (c_ibc w).
Definition upd_PendingChanges (f : option (list ValidatorUpdate) → option (list ValidatorUpdate)) (w : CWorld) : CWorld :=
  mkCWorld (ProviderClientID w) (f (PendingChanges w)) (InitGenesisHeight w) (CParams w) (CConsumerInDebt w) (VaasValidators w) (HistoricalInfos w) (HighestValsetUpdateID w) (PendingEvidencePackets w) (LastVSCRecvTime w) (MissedBlockBitmaps w) (FirstTrackedHeights w) (StagedDowntimeParams w) (ProviderChainId w) (c_slashing w) (c_ibc w).
Definition upd_InitGenesisHeight (f : option Z → option Z) (w : CWorld) : CWorld :=
  mkCWorld (ProviderClientID w) (PendingChanges w) (f (InitGenesisHeight w)) (CParams w) (CConsumerInDebt w) (VaasValidators w) (HistoricalInfos w) (HighestValsetUpdateID w) (PendingEvidencePackets w) (LastVSCRecvTime w) (MissedBlockBitmaps w) (FirstTrackedHeights w) (StagedDowntimeParams w) (ProviderChainId w) (c_slashing w) (c_ibc w).
Definition upd_CParams (f : option ConsumerParams → option ConsumerParams) (w : CWorld) : CWorld :=
  mkCWorld (ProviderClientID w) (PendingChanges w) (InitGenesisHeight w) (f (CParams w)) (CConsumerInDebt w) (VaasValidators w) (HistoricalInfos w) (HighestValsetUpdateID w) (PendingEvidencePackets w) (LastVSCRecvTime w) (MissedBlockBitmaps w) (FirstTrackedHeights w) (StagedDowntimeParams w) (ProviderChainId w) (c_slashing w) (c_ibc w).
Definition upd_CConsumerInDebt (f : option bool → option bool) (w : CWorld) : CWorld :=
  mkCWorld (ProviderClientID w) (PendingChanges w) (InitGenesisHeight w) (CParams w) (f (CConsumerInDebt w)) (VaasValidators w) (HistoricalInfos w) (HighestValsetUpdateID w) (PendingEvidencePackets w) (LastVSCRecvTime w) (MissedBlockBitmaps w) (FirstTrackedHeights w) (StagedDowntimeParams w) (ProviderChainId w) (c_slashing w) (c_ibc w).
Definition upd_VaasValidators (f : gmap string VaasValidator → gmap string VaasValidator) (w : CWorld) : CWorld :=
  mkCWorld (ProviderClientID w) (PendingChanges w) (InitGenesisHeight w) (CParams w) (CConsumerInDebt w) (f (VaasValidators w)) (HistoricalInfos w) (HighestValsetUpdateID w) (PendingEvidencePackets w) (LastVSCRecvTime w) (MissedBlockBitmaps w) (FirstTrackedHeights w) (StagedDowntimeParams w) (ProviderChainId w) (c_slashing w) (c_ibc w).
Definition upd_HistoricalInfos (f : gmap Z HistoricalInfo → gmap Z HistoricalInfo) (w : CWorld) : CWorld :=
  mkCWorld (ProviderClientID w) (PendingChanges w) (InitGenesisHeight w) (CParams w) (CConsumerInDebt w) (VaasValidators w) (f (HistoricalInfos w)) (HighestValsetUpdateID w) (PendingEvidencePackets w) (LastVSCRecvTime w) (MissedBlockBitmaps w) (FirstTrackedHeights w) (StagedDowntimeParams w) (ProviderChainId w) (c_slashing w) (c_ibc w).
Definition upd_HighestValsetUpdateID (f : option N → option N) (w : CWorld) : CWorld :=
  mkCWorld (ProviderClientID w) (PendingChanges w) (InitGenesisHeight w) (CParams w) (CConsumerInDebt w) (VaasValidators w) (HistoricalInfos w) (f (HighestValsetUpdateID w)) (PendingEvidencePackets w) (LastVSCRecvTime w) (MissedBlockBitmaps w) (FirstTrackedHeights w) (StagedDowntimeParams w) (ProviderChainId w) (c_slashing w) (c_ibc w).
Definition upd_PendingEvidencePackets (f : gmap (string * Z) EvidencePacketData → gmap (string * Z) EvidencePacketData) (w : CWorld) : CWorld :=
  mkCWorld (ProviderClientID w) (PendingChanges w) (InitGenesisHeight w) (CParams w) (CConsumerInDebt w) (VaasValidators w) (HistoricalInfos w) (HighestValsetUpdateID w) (f (PendingEvidencePackets w)) (LastVSCRecvTime w) (MissedBlockBitmaps w) (FirstTrackedHeights w) (StagedDowntimeParams w) (ProviderChainId w) (c_slashing w) (c_ibc w).
Definition upd_LastVSCRecvTime (f : option Time → option Time) (w : CWorld) : CWorld :=
  mkCWorld (ProviderClientID w) (PendingChanges w) (InitGenesisHeight w) (CParams w) (CConsumerInDebt w) (VaasValidators w) (HistoricalInfos w) (HighestValsetUpdateID w) (PendingEvidencePackets w) (f (LastVSCRecvTime w)) (MissedBlockBitmaps w) (FirstTrackedHeights w) (StagedDowntimeParams w) (ProviderChainId w) (c_slashing w) (c_ibc w).
Definition upd_MissedBlockBitmaps (f : gmap string (list Z) → gmap string (list Z)) (w : CWorld) : CWorld :=
  mkCWorld (ProviderClientID w) (PendingChanges w) (InitGenesisHeight w) (CParams w) (CConsumerInDebt w) (VaasValidators w) (HistoricalInfos w) (HighestValsetUpdateID w) (PendingEvidencePackets w) (LastVSCRecvTime w) (f (MissedBlockBitmaps w)) (FirstTrackedHeights w) (StagedDowntimeParams w) (ProviderChainId w) (c_slashing w) (c_ibc w).
Definition upd_FirstTrackedHeights (f : gmap string Z → gmap string Z) (w : CWorld) : CWorld :=
  mkCWorld (ProviderClientID w) (PendingChanges w) (InitGenesisHeight w) (CParams w) (CConsumerInDebt w) (VaasValidators w) (HistoricalInfos w) (HighestValsetUpdateID w) (PendingEvidencePackets w) (LastVSCRecvTime w) (MissedBlockBitmaps w) (f (FirstTrackedHeights w)) (StagedDowntimeParams w) (ProviderChainId w) (c_slashing w) (c_ibc w).
Definition upd_StagedDowntimeParams (f : option DowntimeParams → option DowntimeParams) (w : CWorld) : CWorld :=
  mkCWorld (ProviderClientID w) (PendingChanges w) (InitGenesisHeight w) (CParams w) (CConsumerInDebt w) (VaasValidators w) (HistoricalInfos w) (HighestValsetUpdateID w) (PendingEvidencePackets w) (LastVSCRecvTime w) (MissedBlockBitmaps w) (FirstTrackedHeights w) (f (StagedDowntimeParams w)) (ProviderChainId w) (c_slashing w) (c_ibc w).
Definition upd_ProviderChainId (f : option string → option string) (w : CWorld) : CWorld :=
  mkCWorld (ProviderClientID w) (PendingChanges w) (InitGenesisHeight w) (CParams w) (CConsumerInDebt w) (VaasValidators w) (HistoricalInfos w) (HighestValsetUpdateID w) (PendingEvidencePackets w) (LastVSCRecvTime w) (MissedBlockBitmaps w) (FirstTrackedHeights w) (StagedDowntimeParams w) (f (ProviderChainId w)) (c_slashing w) (c_ibc w).
Definition upd_c_slashing (f : slashing → slashing) (w : CWorld) : CWorld :=
  mkCWorld (ProviderClientID w) (PendingChanges w) (InitGenesisHeight w) (CParams w) (CConsumerInDebt w) (VaasValidators w) (HistoricalInfos w) (HighestValsetUpdateID w) (PendingEvidencePackets w) (LastVSCRecvTime w) (MissedBlockBitmaps w) (FirstTrackedHeights w) (StagedDowntimeParams w) (ProviderChainId w) (f (c_slashing w)) (c_ibc w).
Definition upd_c_ibc (f : cibc → cibc) (w : CWorld) : CWorld :=
  mkCWorld (ProviderClientID w) (PendingChanges w) (InitGenesisHeight w) (CParams w) (CConsumerInDebt w) (VaasValidators w) (HistoricalInfos w) (HighestValsetUpdateID w) (PendingEvidencePackets w) (LastVSCRecvTime w) (MissedBlockBitmaps w) (FirstTrackedHeights w) (StagedDowntimeParams w) (ProviderChainId w) (c_slashing w) (f (c_ibc w)).
End csetters.
