(* ===== verification/Demo.v ===== *)
(** One concrete instance of every interface of the development: 18-digit
    decimals, keys that are their own addresses, a bank that is a finite map,
    a staking keeper that is a list of validators, IBC clients that are a table.
    It shows that the interfaces and the laws assumed of them can be met, and it
    is what the witnesses evaluate on. Nothing here models code of the
    repository. *)
From S2P Require Import Prelude GoTime Types Externals ConsumerWorld.
From Stdlib Require Import Ascii DecimalString DecimalZ.

Module Demo.

Definition scale : Z := 10 ^ 18.

Definition digit (c : ascii) : option Z :=
  let n := Z.of_N (N_of_ascii c) - 48 in if (0 <=? n) && (n <=? 9) then Some n else None.
Fixpoint parse_frac (s : string) (unit : Z) : option Z :=
  match s with
  | EmptyString => Some 0
  | String c s' => d ← digit c; rest ← parse_frac s' (unit / 10); Some (d * unit + rest)
  end.
Definition parse_dec (s : string) : option Z :=
  match s with
  | String "0" (String "." s') => parse_frac s' (scale / 10)
  | String "1" EmptyString => Some scale
  | String "0" EmptyString => Some 0
  | _ => None
  end.

#[export] Instance demo_dec : LegacyDec := {|
  dec := option Z;
  dec_IsNil d := match d with None => true | Some _ => false end;
  dec_LT a b := match a, b with Some a, Some b => a <? b | _, _ => false end;
  dec_Equal a b := match a, b with Some a, Some b => a =? b | _, _ => false end;
  dec_Sub a b := match a, b with Some a, Some b => Some (a - b) | _, _ => None end;
  dec_Mul a b := match a, b with Some a, Some b => Some ((a * b + scale / 2) / scale) | _, _ => None end;
  dec_Quo a b := match a, b with Some a, Some b => Some (Z.quot (a * scale) b) | _, _ => None end;
  dec_MulInt64 a n := match a with Some a => Some (a * n) | None => None end;
  dec_QuoInt64 a n := match a with Some a => Some (Z.quot a n) | None => None end;
  dec_Ceil a := match a with Some a => Some (- ((- a) / scale) * scale) | None => None end;
  dec_TruncateInt a := match a with Some a => Z.quot a scale | None => 0 end;
  dec_RoundInt a := match a with Some a => (a + scale / 2) / scale | None => 0 end;
  dec_NewDec n := Some (n * scale);
  dec_NewDecFromStr s := match parse_dec s with Some z => Some (Some z) | None => None end;
|}.

#[export] Instance demo_dec_laws : LegacyDecLaws.
Proof.
  split.
  - intros [d|]; cbn; [apply Z.ltb_irrefl|done].
  - intros [d|] w; cbn; [|done]. unfold dec_IsPositive, dec_One, dec_Zero; cbn.
    intros Hd H1 Hw. apply Z.ltb_lt in Hd, H1. unfold scale in *.
    rewrite Z.quot_mul by lia.
    assert (- (d * w) / 10 ^ 18 < 0) by (apply Z.div_lt_upper_bound; nia).
    assert (- w ≤ - (d * w) / 10 ^ 18) by (apply Z.div_le_lower_bound; nia). lia.
  - intros [d|] w; cbn; [|done]. unfold dec_IsPositive, dec_One, dec_Zero; cbn.
    intros Hd H1 Hw. apply Z.ltb_lt in Hd, H1. unfold scale in *.
    rewrite Z.quot_div_nonneg by nia.
    split; [apply Z.div_pos; nia|apply Z.div_lt_upper_bound; nia].
Qed.

#[export] Instance demo_keys : Keys := {|
  PubKeyFromProto _ := Some tt;
  SdkPubKey := string;
  FromCmtProtoPublicKey k := Some k;
  GetConsAddress k := k;
|}.

(** *** A bank *)
Abbreviation Bank := (gmap (string * string) N).
Definition bal (b : Bank) (a d : string) : Z := Z.of_N (default 0%N (b !! (a, d))).
Definition put (b : Bank) (a d : string) (n : Z) : Bank := <[(a, d) := Z.to_N n]> b.
Definition credit (a : string) (b : option Bank) (c : Coin) : option Bank :=
  b ← b; if Amount c <? 0 then None else Some (put b a (Denom c) (bal b a (Denom c) + Amount c)).
Definition debit (a : string) (b : option Bank) (c : Coin) : option Bank :=
  b ← b; if (Amount c <? 0) || (bal b a (Denom c) <? Amount c) then None
         else Some (put b a (Denom c) (bal b a (Denom c) - Amount c)).
Definition credits (b : option Bank) (a : string) (cs : list Coin) : option Bank :=
  foldl (credit a) b cs.
Definition debits (b : option Bank) (a : string) (cs : list Coin) : option Bank :=
  foldl (debit a) b cs.
Definition transfer (b : Bank) (from to : string) (cs : list Coin) : option Bank :=
  credits (debits (Some b) from cs) to cs.
Definition modaddr (m : string) : string := "module/" ++ m.

Lemma bal_put b a d n a' d' :
  0 ≤ n → bal (put b a d n) a' d' = if decide (a' = a ∧ d' = d) then n else bal b a' d'.
Proof.
  intros Hn. unfold bal, put. case_decide as E.
  - destruct E as [-> ->]. rewrite lookup_insert_eq. cbn. lia.
  - rewrite lookup_insert_ne; [done|naive_solver].
Qed.
Lemma bal_nonneg b a d : 0 ≤ bal b a d.
Proof. unfold bal. lia. Qed.

Lemma AmountOf_snoc cs c d :
  AmountOf (cs ++ [c]) d = AmountOf cs d + if decide (Denom c = d) then Amount c else 0.
Proof. unfold AmountOf. rewrite sumZ_app. cbn. lia. Qed.

Lemma credits_bal b a cs b' :
  credits (Some b) a cs = Some b' →
  ∀ a' d, bal b' a' d = bal b a' d + if decide (a' = a) then AmountOf cs d else 0.
Proof.
  revert b'. induction cs as [|c cs IH] using rev_ind; intros b'.
  - intros [= <-] a' d. case_decide; cbn; lia.
  - unfold credits. rewrite foldl_app. cbn. fold (credits (Some b) a cs).
    destruct (credits (Some b) a cs) as [b1|]; cbn; [|done].
    destruct (Z.ltb_spec (Amount c) 0); [done|]. intros [= <-] a' d.
    pose proof (bal_nonneg b1 a (Denom c)). rewrite bal_put, AmountOf_snoc by lia.
    rewrite !(IH b1 eq_refl), (decide_True (P := a = a)) by done.
    destruct (decide (a' = a)) as [->|], (decide (d = Denom c)) as [->|];
      repeat case_decide; try naive_solver lia; naive_solver.
Qed.

Lemma debits_bal b a cs b' :
  debits (Some b) a cs = Some b' →
  ∀ a' d, bal b' a' d = bal b a' d - if decide (a' = a) then AmountOf cs d else 0.
Proof.
  revert b'. induction cs as [|c cs IH] using rev_ind; intros b'.
  - intros [= <-] a' d. case_decide; cbn; lia.
  - unfold debits. rewrite foldl_app. cbn. fold (debits (Some b) a cs).
    destruct (debits (Some b) a cs) as [b1|]; cbn; [|done].
    destruct (Z.ltb_spec (Amount c) 0); [done|].
    destruct (Z.ltb_spec (bal b1 a (Denom c)) (Amount c)); [done|]. cbn. intros [= <-] a' d.
    rewrite bal_put, AmountOf_snoc by lia.
    rewrite !(IH b1 eq_refl), (decide_True (P := a = a)) by done.
    destruct (decide (a' = a)) as [->|], (decide (d = Denom c)) as [->|];
      repeat case_decide; try naive_solver lia; naive_solver.
Qed.

Lemma debits_None a cs : debits None a cs = None.
Proof. induction cs; [done|exact IHcs]. Qed.
Lemma credits_None a cs : credits None a cs = None.
Proof. induction cs; [done|exact IHcs]. Qed.

Lemma transfer_bal b from to cs b' :
  transfer b from to cs = Some b' →
  ∀ a d, bal b' a d = bal b a d - (if decide (a = from) then AmountOf cs d else 0)
                     + (if decide (a = to) then AmountOf cs d else 0).
Proof.
  unfold transfer. destruct (debits (Some b) from cs) as [b1|] eqn:E1; [|by rewrite credits_None].
  intros E2 a d. rewrite (credits_bal _ _ _ _ E2), (debits_bal _ _ _ _ E1). lia.
Qed.

Fixpoint pay_outputs (b : option Bank) (outs : list (string * list Coin)) : option Bank :=
  match outs with
  | [] => b
  | (a, cs) :: outs' => pay_outputs (credits b a cs) outs'
  end.
Lemma pay_outputs_None outs : pay_outputs None outs = None.
Proof. induction outs as [|[a cs] outs IH]; cbn; [done|]. by rewrite credits_None. Qed.
Lemma pay_outputs_bal b outs b' :
  pay_outputs (Some b) outs = Some b' →
  ∀ a d, bal b' a d = bal b a d
    + sumZ (λ o, if decide (o.1 = a) then AmountOf o.2 d else 0) outs.
Proof.
  unfold sumZ. revert b. induction outs as [|[a0 cs] outs IH]; intros b; cbn [pay_outputs foldr fst snd].
  - intros [= <-] a d. lia.
  - destruct (credits (Some b) a0 cs) as [b1|] eqn:E; [|by rewrite pay_outputs_None].
    intros E2 a d. rewrite (IH b1 E2), (credits_bal _ _ _ _ E). repeat case_decide; subst; try congruence; lia.
Qed.

(** *** Staking *)
Record Staking := mkStaking {
  st_bonded : list Validator;          (* by power, largest first *)
  st_power : list (string * Z);        (* operator, last power *)
  st_max : Z;
  st_unbonding : Duration;
  st_slashed : list (string * Z * Z);  (* address, height, power *)
  st_tombs : list string;
}.
Definition assoc {A} (k : string) (l : list (string * A)) : option A :=
  snd <$> head (filter (λ kv, kv.1 = k) l).

(** *** IBC clients *)
Record Client := mkClient {
  cl_id : string;
  cl_status : ClientStatus;
  cl_state : TmClientState;
  cl_counterparty : option string;
  cl_heights : list (Z * Time);
}.
Definition find_client (cs : list Client) (id : string) : option Client :=
  head (filter (λ c, cl_id c = id) cs).
Record Ibc := mkIbc {
  ibc_clients : list Client;
  ibc_log : list (string * ValidatorSetChangePacketData);
}.
Definition ibc_status (i : Ibc) (id : string) : ClientStatus :=
  match find_client (ibc_clients i) id with Some c => cl_status c | None => Unknown end.

Definition freeze (id : string) (c : Client) : Client :=
  if String.eqb (cl_id c) id then mkClient (cl_id c) Frozen (cl_state c) (cl_counterparty c) (cl_heights c) else c.
(** One validator, "key1", in every set; two votes that conflict. *)
Definition demo_vote (block : string) : Vote := mkVote 12 0 1 block "key1" "sig1" "".

#[export] Instance demo : Externals := {|
  authority := "gov";
  feeDenom := "uphoton";
  NewModuleAddress := modaddr;
  AccAddressFromBech32 s := if String.eqb s "" then None else Some s;
  ValAddressFromBech32 s := if String.eqb s "" then None else Some s;
  EqualFold := String.eqb;
  AddressCodec_StringToBytes s := if String.eqb s "" then None else Some s;
  AccAddressString s := s;
  NewIntFromString s := Z.of_int <$> NilZero.int_of_string s;
  ValidateDenom d := negb (String.eqb d "");
  Coin_Validate c := negb (String.eqb (Denom c) "") && (0 <=? Amount c);
  Coins_Validate := forallb (λ c, negb (String.eqb (Denom c) "") && (0 <? Amount c));
  Coins_Add cs c := if Amount c =? 0 then cs else cs ++ [c];
  staking := Staking;
  GetBondedValidatorsByPower s := Some (st_bonded s);
  MaxValidators s := Some (st_max s);
  UnbondingTime s := Some (st_unbonding s);
  GetLastValidatorPower s v := Some (default 0 (assoc v (st_power s)));
  GetValidator s v := head (filter (λ x, OperatorAddress x = v) (st_bonded s));
  GetValidatorByConsAddr s a :=
    head (filter (λ v, GetConsAddr v = Some a) (st_bonded s));
  GetBlockConsPubKeyRotationHistory _ := Some [];
  IsTombstoned s a := bool_decide (a ∈ st_tombs s);
  PowerReduction _ := 1000000;
  SlashableUndelegations _ _ := Some [];
  SlashableRedelegations _ _ := Some [];
  SlashWithInfractionReason s op h p _ _ :=
    Some (mkStaking (st_bonded s) (st_power s) (st_max s) (st_unbonding s)
            (st_slashed s ++ [(op, h, p)]) (st_tombs s));
  Jail s _ := Some s;
  JailUntil s _ _ := Some s;
  Tombstone_ s a := Some (mkStaking (st_bonded s) (st_power s) (st_max s) (st_unbonding s)
                            (st_slashed s) (a :: st_tombs s));
  bank := Bank;
  GetBalance := bal;
  GetAllBalances b a :=
    (λ kv, mkCoin kv.1.2 (Z.of_N kv.2)) <$> filter (λ kv, kv.1.1 = a ∧ kv.2 ≠ 0%N) (iterate b);
  InputOutputCoins b '(from, ins) outs :=
    match pay_outputs (debits (Some b) from ins) outs with Some b' => (true, b') | None => (false, b) end;
  SendCoinsFromAccountToModule b from m cs := transfer b from (modaddr m) cs;
  SendCoinsFromModuleToAccount b m to cs := transfer b (modaddr m) to cs;
  FundCommunityPool b cs from := transfer b from (modaddr "distribution") cs;
  DistributeFromFeePool b cs to := transfer b (modaddr "distribution") to cs;
  ConversionRate _ := Some (Some scale);
  ibc := Ibc;
  GetClientState i id := Some <$> (cl_state <$> find_client (ibc_clients i) id);
  GetClientStatus := ibc_status;
  GetClientCounterparty i id := find_client (ibc_clients i) id ≫= cl_counterparty;
  ConsensusHeights i id :=
    match find_client (ibc_clients i) id with Some c => (cl_heights c).*1 | None => [] end;
  ConsensusTimestamp i id h :=
    find_client (ibc_clients i) id ≫= λ c, snd <$> head (filter (λ e, e.1 = h) (cl_heights c));
  VerifyClientMessage i id _ := bool_decide (ibc_status i id = Active);
  SendPacket i id _ _ p :=
    if decide (ibc_status i id = Active) then (true, mkIbc (ibc_clients i) (ibc_log i ++ [(id, p)]))
    else (false, i);
  ParseChainID chain := if String.eqb chain "consumer-2" then 2 else 1;
  SelfConsensusAvailable _ _ _ := true;
  CheckForMisbehaviour i id mb := negb (String.eqb (mh_SignedHeader (Header1 mb)) (mh_SignedHeader (Header2 mb)));
  VerifyMisbehaviour i id _ := bool_decide (ibc_status i id = Active);
  UpdateClient i id _ := Some (mkIbc (freeze id <$> ibc_clients i) (ibc_log i));
  CommitFromProto s :=
    if String.eqb s "commit"
    then Some (mkCommit 9 [mkCommitSig BlockIDFlagCommit "key1" "sig1"] "") else None;
  CommitHash _ := "hash";
  Ed25519Address k := k;
  VoteSignBytes _ _ _ := "vote";
  VerifySignature _ _ sig := String.eqb sig "sig1";
  VoteBytes _ _ := "vote";
  LightVoteSignBytes _ _ _ := "vote";
  PubKeyAddress k := k;
  PubKeyVerify _ _ sig := String.eqb sig "sig1";
  FromCmtPubKey k := Some k;
  SignedHeaderFromProto s :=
    Some (mkLightHeader "consumer-1" s "" "" "" "", mkLightCommit 0 [mkCommitSig BlockIDFlagCommit "key1" "sig1"] "");
  ValidatorSetFromProto _ := Some [mkCmtValidator "key1" "key1"];
  DuplicateVoteEvidenceFromProto s := Some (mkDuplicateVote (demo_vote "a") (demo_vote s));
  GetByAddress vs a := prod_map id id <$> list_find (λ v, val_Address v = a) vs;
  DuplicateVoteEvidence_ValidateBasic _ := true;
  InfractionHeader_ValidateBasic _ := true;
  Misbehaviour_ValidateBasic _ := true;
  Vote_Verify _ _ _ := true;
|}.

#[export] Instance demo_bank_laws : BankLaws.
Proof.
  split; cbn.
  - intros. apply bal_nonneg.
  - intros b from ins outs b' E a d.
    destruct (debits (Some b) from ins) as [b1|] eqn:E1; [|by rewrite pay_outputs_None in E].
    destruct (pay_outputs (Some b1) outs) as [b2|] eqn:E2; [injection E as <-; rename E2 into E|done].
    rewrite (pay_outputs_bal _ _ _ E), (debits_bal _ _ _ _ E1). done.
  - intros b from m cs b' E a d. by apply transfer_bal.
  - intros b m to cs b' E a d. by apply transfer_bal.
  - intros b cs from b' E a d. by apply transfer_bal.
  - intros b cs to b' E a d. by apply transfer_bal.
Qed.

Lemma transfer_single b from to c :
  0 < Amount c ≤ bal b from (Denom c) → is_Some (transfer b from to [c]).
Proof.
  intros Hc. unfold transfer. cbn [debits credits foldl].
  destruct (debit from (Some b) c) as [b1|] eqn:E.
  - unfold credits. cbn [foldl]. unfold credit. cbn.
    destruct (Z.ltb_spec (Amount c) 0); [lia|]. eauto.
  - exfalso. unfold debit in E. cbn in E.
    destruct (Z.ltb_spec (Amount c) 0), (Z.ltb_spec (bal b from (Denom c)) (Amount c)); try lia. done.
Qed.
#[export] Instance demo_payout_laws : PayoutLaws.
Proof.
  split; cbn.
  - unfold modaddr. intros m m' [= E]. done.
  - intros. by apply transfer_single.
  - intros b m to c _. apply transfer_single.
  - intros. by apply transfer_single.
Qed.

#[export] Instance demo_slashing_laws : SlashingLaws.
Proof.
  split; cbn; intros.
  - by simplify_eq.
  - by simplify_eq.
  - simplify_eq. apply bool_decide_eq_true. cbn. set_solver.
Qed.

#[export] Program Instance demo_log : PacketLog := {|
  sent_packets (i : Ibc) client := (filter (λ e, e.1 = client) (ibc_log i)).*2;
|}.
Next Obligation.
  cbn. intros i client _ _ p i'. case_decide; [|done]. intros [= <-]. cbn.
  rewrite filter_app, filter_cons_True by done. by rewrite fmap_app.
Qed.
Next Obligation. cbn. intros i client _ _ p i'. case_decide; [done|]. by intros [= <-]. Qed.
Next Obligation.
  cbn. intros i client _ _ p ok i' other Hne. case_decide; intros [= _ <-]; [cbn|done].
  rewrite filter_app, filter_cons_False by (cbn; congruence). by rewrite filter_nil, app_nil_r.
Qed.

(** *** The consumer's keepers *)
#[export] Instance demo_consumer : ConsumerExternals := {|
  c_authority := "gov";
  DecodeAndConvert s := if String.eqb s "" then None else Some s;
  HistoricalInfo := list VaasValidator;
  NewHistoricalInfo _ vals := vals;
  slashing := list string;
  SlashingAfterValidatorBonded s a _ := Some (a :: s);
  cibc := list Client;
  c_GetClientState i id := Some <$> (cl_state <$> find_client i id);
  c_GetClientStatus i id :=
    match find_client i id with Some c => cl_status c | None => Unknown end;
  c_GetClientCounterparty i id := find_client i id ≫= cl_counterparty;
  c_SendPacket i _ _ _ _ := (true, i);
|}.
End Demo.
