(* ===== verification/Consumer.v ===== *)
(** The consumer module (x/vaas/consumer): the keeper's accessors
    (keeper/keeper.go, debt.go, params.go), receiving VSC packets
    (keeper/relay.go), the validator store (keeper/validators.go), downtime
    tracking (keeper/downtime.go), the evidence queue
    (keeper/evidence_packet.go), the messages (keeper/msg_server.go), and the
    block and packet callbacks (module.go, ibc_module.go). *)
From S2P Require Import Prelude GoTime Types Externals ConsumerWorld ValSets.

Section consumer.
Context `{CX : ConsumerExternals}.

(** *** keeper.go, debt.go, params.go *)
Definition GetAuthority : string := c_authority.
Definition SetProviderClientID (clientID : string) : CK unit :=
  modify (upd_ProviderClientID (λ _, Some clientID)).
Definition GetProviderClientID (w : CWorld) : option string := ProviderClientID w.
Definition HasRoutableProviderClient (w : CWorld) : bool :=
  match GetProviderClientID w with
  | None => false
  | Some pinned => bool_decide (is_Some (c_GetClientCounterparty (c_ibc w) pinned))
  end.
Definition SetProviderChainId (chainID : string) : CK unit :=
  modify (upd_ProviderChainId (λ _, Some chainID)).
Definition GetProviderChainId (w : CWorld) : option string := ProviderChainId w.
Definition SetPendingChanges (updates : list ValidatorUpdate) : CK unit :=
  modify (upd_PendingChanges (λ _, Some updates)).
Definition GetPendingChanges (w : CWorld) : option (list ValidatorUpdate) := PendingChanges w.
Definition DeletePendingChanges : CK unit := modify (upd_PendingChanges (λ _, None)).
Definition GetInitGenesisHeight : CK Z := o ← gets InitGenesisHeight; or_panic o.
Definition SetInitGenesisHeight (height : Z) : CK unit :=
  modify (upd_InitGenesisHeight (λ _, Some height)).
Definition SetVaasValidator (v : VaasValidator) : CK unit :=
  modify (upd_VaasValidators (insert (vv_Address v) v)).
Definition GetVaasValidator (addr : string) (w : CWorld) : option VaasValidator :=
  VaasValidators w !! addr.
Definition DeleteVaasValidator (addr : string) : CK unit :=
  modify (upd_VaasValidators (delete addr)).
Definition GetAllVaasValidator (w : CWorld) : list VaasValidator := (iterate (VaasValidators w)).*2.
Definition SetHighestValsetUpdateID (id : N) : CK unit :=
  modify (upd_HighestValsetUpdateID (λ _, Some id)).
Definition GetHighestValsetUpdateID (w : CWorld) : option N := HighestValsetUpdateID w.
Definition SetLastVSCRecvTime (t : Time) : CK unit :=
  modify (upd_LastVSCRecvTime (λ _, Some t)).
Definition GetLastVSCRecvTime : CK Time :=
  now ← asks BlockTime; gets (λ w, default now (LastVSCRecvTime w)).
Definition GetConsumerParams : CK ConsumerParams := o ← gets CParams; or_panic o.
Definition SetParams (params : ConsumerParams) : CK unit := modify (upd_CParams (λ _, Some params)).
Definition PhotonFeesEnabled : CK bool := cp_PhotonFeesEnabled <$> GetConsumerParams.
Definition GetVAASTimeoutPeriod : CK Duration := cp_VaasTimeoutPeriod <$> GetConsumerParams.
Definition GetHistoricalEntries : CK Z := cp_HistoricalEntries <$> GetConsumerParams.
Definition GetUnbondingPeriod : CK Duration := cp_UnbondingPeriod <$> GetConsumerParams.
Definition IsConsumerInDebt (w : CWorld) : bool := default false (CConsumerInDebt w).
Definition SetConsumerInDebt (inDebt : bool) : CK unit :=
  modify (upd_CConsumerInDebt (λ _, Some inDebt)).

Definition ArmVSCStalenessClock : CK unit :=
  height ← asks BlockHeight;
  init ← GetInitGenesisHeight;
  if height <=? init then mret tt else
  o ← gets LastVSCRecvTime;
  match o with
  | Some _ => mret tt
  | None => now ← asks BlockTime; SetLastVSCRecvTime now
  end.
Definition IsVSCStale : CK bool :=
  now ← asks BlockTime;
  last ← GetLastVSCRecvTime;
  params ← GetConsumerParams;
  mret (cp_SafeModeThreshold params <? time_Sub now last).

(** *** validators.go *)
Definition apply_change (ret : list ValidatorUpdate) (change : ValidatorUpdate)
  : CK (list ValidatorUpdate) :=
  addr ← or_panic (TMCryptoPublicKeyToConsAddr (PubKey_ change));
  val ← gets (GetVaasValidator addr);
  match val with
  | Some val =>
      (if Power change <? 1 then DeleteVaasValidator addr
       else SetVaasValidator (mkVaasValidator (vv_Address val) (Power change) (vv_Pubkey val)));;
      mret (ret ++ [change])
  | None =>
      if 0 <? Power change then
        SetVaasValidator (mkVaasValidator addr (Power change) (PubKey_ change));;
        o ← gets (λ w, SlashingAfterValidatorBonded (c_slashing w) addr addr);
        s ← or_panic o;
        modify (upd_c_slashing (λ _, s));;
        mret (ret ++ [change])
      else mret ret
  end.
Definition ApplyVaasValidatorChanges (changes : list ValidatorUpdate) : CK (list ValidatorUpdate) :=
  fold_each changes apply_change [].

Definition MustGetCurrentValidatorsAsABCIUpdates (w : CWorld) : list ValidatorUpdate :=
  (λ v, mkUpdate (vv_Pubkey v) (vv_Power v)) <$> GetAllVaasValidator w.

Definition computeReplaceUpdates (target : list ValidatorUpdate) (w : CWorld)
  : list ValidatorUpdate :=
  let inTarget (v : VaasValidator) := existsb (λ u, String.eqb (PubKey_ u) (vv_Pubkey v)) target in
  target ++ ((λ v, mkUpdate (vv_Pubkey v) 0) <$>
             filter (λ v, inTarget v = false) (GetAllVaasValidator w)).

(** [for i := height - entries; i >= 0; i--], leaving at the first absent
    entry; [fuel] is [i + 1]. *)
Fixpoint prune_historical (fuel : nat) : CK unit :=
  match fuel with
  | O => mret tt
  | S fuel' =>
      let i := Z.of_nat fuel' in
      o ← gets (λ w, HistoricalInfos w !! i);
      match o with
      | None => mret tt
      | Some _ => modify (upd_HistoricalInfos (delete i));; prune_historical fuel'
      end
  end.
Definition TrackHistoricalInfo : CK unit :=
  numHistoricalEntries ← GetHistoricalEntries;
  height ← asks BlockHeight;
  prune_historical (Z.to_nat (wrap64 (height - numHistoricalEntries) + 1));;
  if numHistoricalEntries =? 0 then mret tt else
  lastVals ← gets GetAllVaasValidator;
  modify (upd_HistoricalInfos (insert height (NewHistoricalInfo height lastVals))).

(** *** relay.go *)
Definition hasPositivePower (updates : list ValidatorUpdate) : bool :=
  existsb (λ u, 0 <? Power u) updates.

Definition wouldEmptyValidatorSet (newChanges : ValidatorSetChangePacketData) (w : CWorld) : bool :=
  if IsSnapshot newChanges then negb (hasPositivePower (ValidatorUpdates newChanges))
  else
    let resulting := MustGetCurrentValidatorsAsABCIUpdates w in
    let resulting := match GetPendingChanges w with
                     | Some pending => AccumulateChanges resulting pending
                     | None => resulting
                     end in
    negb (hasPositivePower (AccumulateChanges resulting (ValidatorUpdates newChanges))).

(** The client state is absent, not a tendermint one ([Some None]), or its
    readable part. *)
Definition authenticateProviderChainID (consumerClientID : string) : CK unit :=
  o ← gets (λ w, c_GetClientState (c_ibc w) consumerClientID);
  cs ← of_option o ErrInvalidProviderClient;
  tmClientState ← of_option cs ErrInvalidProviderClient;
  pinned ← gets GetProviderChainId;
  match pinned with
  | None => SetProviderChainId (cs_ChainId tmClientState)
  | Some pinned => guard_err (String.eqb pinned (cs_ChainId tmClientState)) ErrInvalidProviderClient
  end.

Definition enforcePinnedProviderClient (consumerClientID : string) : CK unit :=
  o ← gets GetProviderClientID;
  match o with
  | None => raise ErrInvalidProviderClient
  | Some pinned =>
      guard_err (negb (String.eqb pinned "")) ErrInvalidProviderClient;;
      guard_err (String.eqb pinned consumerClientID) ErrInvalidProviderClient
  end.

(** *** downtime.go *)
Definition GetDowntimeParams : CK (Z * dec) :=
  params ← GetConsumerParams;
  mret (cp_SignedBlocksWindow params, cp_MinSignedPerWindow params).

Definition validDowntimeParams (p : DowntimeParams) : bool :=
  if dp_SignedBlocksWindow p <=? 0 then false
  else if dec_IsNil (dp_MinSignedPerWindow p) || negb (dec_IsPositive (dp_MinSignedPerWindow p))
          || negb (dec_LT (dp_MinSignedPerWindow p) dec_One) then false
  else true.

Definition StageDowntimeParams (p : DowntimeParams) : CK unit :=
  if negb (validDowntimeParams p) then mret tt else
  current ← GetConsumerParams;
  if (cp_SignedBlocksWindow current =? dp_SignedBlocksWindow p)
     && dec_Equal (cp_MinSignedPerWindow current) (dp_MinSignedPerWindow p)
  then modify (upd_StagedDowntimeParams (λ _, None))
  else modify (upd_StagedDowntimeParams (λ _, Some p)).

Definition with_downtime (params : ConsumerParams) (window : Z) (minSigned : dec) : ConsumerParams :=
  mkConsumerParams (cp_VaasTimeoutPeriod params) (cp_HistoricalEntries params)
    (cp_UnbondingPeriod params) (cp_SafeModeThreshold params) window minSigned
    (cp_OwnerAddress params) (cp_PhotonFeesEnabled params).

Definition applyStagedDowntimeParams : CK unit :=
  o ← gets StagedDowntimeParams;
  match o with
  | None => mret tt
  | Some staged =>
      params ← GetConsumerParams;
      SetParams (with_downtime params (dp_SignedBlocksWindow staged) (dp_MinSignedPerWindow staged));;
      modify (upd_StagedDowntimeParams (λ _, None))
  end.

(** The state changes of an accepted packet (relay.go 75-111). *)
Definition accept_packet (newChanges : ValidatorSetChangePacketData) : CK unit :=
  now ← asks BlockTime;
  SetLastVSCRecvTime now;;
  match VSC_DowntimeParams newChanges with
  | Some p => StageDowntimeParams p
  | None => mret tt
  end;;
  SetConsumerInDebt (ConsumerInDebt newChanges);;
  pendingChanges ← (if IsSnapshot newChanges
                    then gets (computeReplaceUpdates (ValidatorUpdates newChanges))
                    else gets (λ w, AccumulateChanges (default [] (GetPendingChanges w))
                                      (ValidatorUpdates newChanges)));
  SetPendingChanges pendingChanges;;
  SetHighestValsetUpdateID (ValsetUpdateId newChanges).

Definition OnRecvVSCPacketV2 (consumerClientID : string) (newChanges : ValidatorSetChangePacketData)
  : CK unit :=
  match ValidatorSetChangePacketData_Validate newChanges with
  | Ok _ => mret tt
  | _ => raise ErrInvalidPacketData
  end;;
  authenticateProviderChainID consumerClientID;;
  enforcePinnedProviderClient consumerClientID;;
  highest ← gets GetHighestValsetUpdateID;
  if match highest with Some highestID => (ValsetUpdateId newChanges <=? highestID)%N | None => false end
  then mret tt else
  empties ← gets (wouldEmptyValidatorSet newChanges);
  if (empties : bool) then raise ErrEmptyValidatorSet else
  accept_packet newChanges.

(** *** evidence_packet.go *)
Definition maxPendingEvidencePerValidator : nat := 16.
Definition maxEvidenceSendsPerBlock : nat := 50.
Definition pendingEvidenceKey (packet : EvidencePacketData) : string * Z :=
  (ValidatorAddr packet, WindowEndHeight packet).

Definition evidence_keys (validatorAddr : string) (w : CWorld) : list (string * Z) :=
  filter (λ k, k.1 = validatorAddr) (iterate (PendingEvidencePackets w)).*1.
Definition evictOldestPendingEvidence (validatorAddr : string) : CK unit :=
  keys ← gets (evidence_keys validatorAddr);
  for_each (take (length keys - maxPendingEvidencePerValidator)%nat keys)
    (λ key, modify (upd_PendingEvidencePackets (delete key))).
Definition QueueEvidencePacket (packet : EvidencePacketData) : CK unit :=
  modify (upd_PendingEvidencePackets (insert (pendingEvidenceKey packet) packet));;
  evictOldestPendingEvidence (ValidatorAddr packet).
Definition RequeueEvidencePacket (payload : option EvidencePacketData) : CK unit :=
  match payload with
  | None => raise ErrInvalidPacketData
  | Some packet =>
      match EvidencePacketData_Validate packet with
      | Ok _ => mret tt
      | _ => raise ErrInvalidPacketData
      end;;
      QueueEvidencePacket packet
  end.

(** The send loop: [sent] packets so far and the keys to delete. *)
Fixpoint send_evidence_loop (providerClientID : string) (entries : list (string * Z * EvidencePacketData))
    (sent : nat) : CK (list (string * Z)) :=
  match entries with
  | [] => mret []
  | (key, packet) :: rest =>
      if Nat.leb maxEvidenceSendsPerBlock sent then mret [] else
      vaasTimeout ← GetVAASTimeoutPeriod;
      let timeoutPeriod := Z.min vaasTimeout MaxTimeoutDelta in
      now ← asks BlockTime;
      let timeoutTimestamp := (time_Unix (time_Add now timeoutPeriod)) mod 2 ^ 64 in
      '(ok, ibc') ← gets (λ w, c_SendPacket (c_ibc w) providerClientID timeoutTimestamp c_authority packet);
      modify (upd_c_ibc (λ _, ibc'));;
      if (ok : bool) then
        keysToDelete ← send_evidence_loop providerClientID rest (S sent);
        mret (key :: keysToDelete)
      else send_evidence_loop providerClientID rest sent
  end.
Definition SendEvidencePackets : CK unit :=
  o ← gets GetProviderClientID;
  match o with
  | None => mret tt
  | Some providerClientID =>
      active ← gets (λ w, bool_decide (c_GetClientStatus (c_ibc w) providerClientID = Active));
      if negb active then mret tt else
      routable ← gets (λ w, bool_decide (is_Some (c_GetClientCounterparty (c_ibc w) providerClientID)));
      if negb routable then mret tt else
      entries ← gets (λ w, iterate (PendingEvidencePackets w));
      keysToDelete ← send_evidence_loop providerClientID entries 0;
      for_each keysToDelete (λ key, modify (upd_PendingEvidencePackets (delete key)))
  end.
Definition GetPendingEvidencePacketCount (w : CWorld) : nat :=
  length (iterate (PendingEvidencePackets w)).

(** *** downtime.go: the tumbling window *)
Definition rebaseBitmap (bitmap : Bitmap.t) (offset span : Z) : option Bitmap.t :=
  foldl (λ out i,
      out ← out;
      if Bitmap.BitmapIsSet bitmap (offset + i) then Bitmap.BitmapSet out i else Some out)
    (Some (Bitmap.zeros (Z.quot (span + 7) 8))) (seqZ 0 span).

(** The packet [closeWindow] reports for one tracked validator, if any. *)
Definition window_packet (windowStart window : Z) (minSigned : dec) (firstTracked : Z)
    (addr : string) (bitmap : Bitmap.t) : CK (option EvidencePacketData) :=
  let maxMissed := MaxMissed (mkDowntimeParams window minSigned) in
  let first := Z.max windowStart firstTracked in
  let span := windowStart + window - first in
  let offset := first - windowStart in
  let missed := Bitmap.countMissedBits bitmap offset window in
  if missed <=? maxMissed then mret None
  else
    rebased ← or_panic (rebaseBitmap bitmap offset span);
    mret (Some (NewEvidencePacketData addr first rebased span window minSigned)).

Definition closeWindow (windowStart window : Z) (minSigned : dec) : CK unit :=
  trackedVals ← gets (λ w, iterate (MissedBlockBitmaps w));
  for_each trackedVals (λ '(addr, bitmap),
    firstTracked ← gets (λ w, default windowStart (FirstTrackedHeights w !! addr));
    packet ← window_packet windowStart window minSigned firstTracked addr bitmap;
    match packet with
    | None => mret tt
    | Some packet => QueueEvidencePacket packet
    end);;
  modify (upd_MissedBlockBitmaps (λ _, ∅));;
  modify (upd_FirstTrackedHeights (λ _, ∅));;
  applyStagedDowntimeParams.

(** [copy(make([]byte, wantLen), bitmap)], when the stored one is shorter. An
    overflown, negative length yields no byte, and [BitmapSet] then panics as
    [make] would have. *)
Definition padded (wantLen : Z) (bitmap : option Bitmap.t) : Bitmap.t :=
  match bitmap with
  | Some bm => if Z.of_nat (length bm) <? wantLen
               then bm ++ Bitmap.zeros (wantLen - Z.of_nat (length bm)) else bm
  | None => Bitmap.zeros wantLen
  end.

Definition track_vote (voteHeight window idx : Z) (vote : string * BlockIDFlag) : CK unit :=
  let '(addr, flag) := vote in
  tracked ← gets (λ w, FirstTrackedHeights w !! addr);
  match tracked with
  | Some _ => mret tt
  | None => modify (upd_FirstTrackedHeights (insert addr voteHeight))
  end;;
  if decide (flag = BlockIDFlagAbsent) then
    bitmap ← gets (λ w, padded (Z.quot (wrap64 (window + 7)) 8) (MissedBlockBitmaps w !! addr));
    bitmap ← or_panic (Bitmap.BitmapSet bitmap idx);
    modify (upd_MissedBlockBitmaps (insert addr bitmap))
  else mret tt.

Definition TrackMissedBlocks (VoteInfos : list (string * BlockIDFlag)) : CK unit :=
  height ← asks BlockHeight;
  let voteHeight := height - 1 in
  if voteHeight <=? 0 then mret tt else
  '(window, minSigned) ← GetDowntimeParams;
  if window <=? 0 then mret tt else
  let windowStart := Z.quot voteHeight window * window in
  let idx := voteHeight - windowStart in
  for_each VoteInfos (track_vote voteHeight window idx);;
  when (voteHeight =? windowStart + window - 1) (closeWindow windowStart window minSigned).

(** *** module.go, ibc_module.go *)
Definition BeginBlock (VoteInfos : list (string * BlockIDFlag)) : CK unit :=
  try TrackHistoricalInfo;;
  ArmVSCStalenessClock;;
  TrackMissedBlocks VoteInfos.
Definition EndBlock : CK (list ValidatorUpdate) :=
  try SendEvidencePackets;;
  o ← gets GetPendingChanges;
  match o with
  | None => mret []
  | Some data =>
      tendermintUpdates ← ApplyVaasValidatorChanges data;
      DeletePendingChanges;;
      mret tendermintUpdates
  end.
Definition OnSendPacket {A} (payload : Payload A) (signer : string) : CK unit :=
  guard_err (String.eqb (SourcePort payload) ConsumerAppID) ErrInvalidRequest;;
  guard_err (String.eqb (DestinationPort payload) ProviderAppID) ErrInvalidRequest;;
  guard_err (String.eqb signer GetAuthority) ErrUnauthorized.
(** [true] is [PacketStatus_Success]. *)
Definition OnRecvPacket (destinationClient : string) (payload : Payload ValidatorSetChangePacketData) : CK bool :=
  if negb (String.eqb (DestinationPort payload) ConsumerAppID) then mret false else
  if negb (String.eqb (SourcePort payload) ProviderAppID) then mret false else
  match Value payload with
  | None => mret false
  | Some data =>
      r ← try (OnRecvVSCPacketV2 destinationClient data);
      mret (match r with inl _ => false | inr _ => true end)
  end.
Definition OnTimeoutPacket (payload : Payload EvidencePacketData) : CK unit :=
  try (RequeueEvidencePacket (Value payload));; mret tt.
(** What a rejection leaves is an event. *)
Definition ReportRejectedEvidencePacket (payload : option EvidencePacketData) : CK unit := mret tt.
Definition OnAcknowledgementPacket (errorAck : bool) (payload : Payload EvidencePacketData) : CK unit :=
  if errorAck then ReportRejectedEvidencePacket (Value payload);; mret tt else mret tt.

(** *** msg_server.go *)
Definition ConsumerParams_Validate (p : ConsumerParams) : bool :=
  ValidateDuration (cp_VaasTimeoutPeriod p)
  && ValidatePositiveInt64 (cp_HistoricalEntries p)
  && ValidateDuration (cp_UnbondingPeriod p)
  && ValidateDuration (cp_SafeModeThreshold p)
  && ValidatePositiveInt64 (cp_SignedBlocksWindow p)
  && negb (dec_IsNil (cp_MinSignedPerWindow p) || negb (dec_IsPositive (cp_MinSignedPerWindow p))
           || negb (dec_LT (cp_MinSignedPerWindow p) dec_One))
  && (String.eqb (cp_OwnerAddress p) ""
      || bool_decide (is_Some (DecodeAndConvert (cp_OwnerAddress p)))).

Definition isProviderClientAuthority (signer : string) : CK bool :=
  if String.eqb signer GetAuthority then mret true else
  params ← GetConsumerParams;
  let owner := cp_OwnerAddress params in
  if String.eqb owner "" then mret false
  else match DecodeAndConvert owner, DecodeAndConvert signer with
       | Some ownerBytes, Some signerBytes => mret (String.eqb ownerBytes signerBytes)
       | _, _ => mret false
       end.
Definition MsgSetProviderClient_ValidateBasic (signer clientId : string) : bool :=
  bool_decide (is_Some (DecodeAndConvert signer)) && negb (String.eqb clientId "").
Definition SetProviderClient (signer clientId : string) : CK unit :=
  allowed ← isProviderClientAuthority signer;
  guard_err allowed ErrInvalidProviderClient;;
  pinned ← gets GetProviderClientID;
  guard_err (match pinned with Some p => String.eqb p "" | None => true end) ErrInvalidProviderClient;;
  providerChainID ← (o ← gets GetProviderChainId; of_option o ErrInvalidProviderClient);
  cs ← (o ← gets (λ w, c_GetClientState (c_ibc w) clientId); of_option o ErrInvalidProviderClient);
  tmClientState ← of_option cs ErrInvalidProviderClient;
  guard_err (String.eqb (cs_ChainId tmClientState) providerChainID) ErrInvalidProviderClient;;
  status ← gets (λ w, c_GetClientStatus (c_ibc w) clientId);
  guard_err (bool_decide (status = Active)) ErrInvalidProviderClient;;
  cp ← gets (λ w, c_GetClientCounterparty (c_ibc w) clientId);
  guard_err (match cp with Some cpId => negb (String.eqb cpId "") | None => false end)
    ErrInvalidProviderClient;;
  SetProviderClientID clientId.
Definition UpdateParams (msgAuthority : string) (msgParams : ConsumerParams) : CK unit :=
  guard_err (String.eqb GetAuthority msgAuthority) ErrInvalidSigner;;
  guard_err (ConsumerParams_Validate msgParams) ErrInvalidRequest;;
  current ← GetConsumerParams;
  SetParams (with_downtime msgParams (cp_SignedBlocksWindow current) (cp_MinSignedPerWindow current)).
End consumer.
