(* ===== verification/ConsumerQuery.v ===== *)
(** What a consumer node answers: its own queries (consumer/keeper/grpc_query.go,
    provider_info.go), the staking query a relayer reads
    (grpc_staking_query.go), and the staking keeper the consumer shows to
    x/slashing and x/evidence (validators.go). The historical infos it serves
    are exactly those of the blocks that none since dropped. *)
From S2P Require Import Prelude GoTime Types Externals ConsumerWorld Consumer.

Record ChainInfo := mkChainInfo { ci_ChainID : string; ci_ClientID : string }.
Record QueryProviderInfoResponse := mkProviderInfo { pi_Consumer : ChainInfo; pi_Provider : ChainInfo }.

(** [stakingtypes.Params], as far as a consumer fills it. *)
Record StakingParams `{LegacyDec} := mkStakingParams {
  sp_UnbondingTime : Duration;
  sp_MaxValidators : Z;
  sp_MaxEntries : Z;
  sp_HistoricalEntries : Z;
  sp_BondDenom : string;
  sp_MinCommissionRate : dec;
}.
Arguments mkStakingParams {_} _ _ _ _ _ _.
Record stubValidator := mkStubValidator { consAddr : string }.

Section queries.
Context `{CX : ConsumerExternals}.

Definition QueryParams (req : option unit) : CK ConsumerParams :=
  of_option req (ErrOther "InvalidArgument");;
  GetConsumerParams.
Definition GetProviderInfoV2 : CK QueryProviderInfoResponse :=
  o ← gets GetProviderClientID;
  providerClientID ← of_option o (ErrOther "client not found");
  cs ← gets (λ w, c_GetClientState (c_ibc w) providerClientID);
  providerClientState ← of_option cs (ErrOther "client not found");
  tmClientState ← of_option providerClientState ErrInvalidProviderClient;
  chainID ← asks ChainID;
  mret (mkProviderInfo (mkChainInfo chainID providerClientID) (mkChainInfo (cs_ChainId tmClientState) "")).
Definition QueryProviderInfo (req : option unit) : CK QueryProviderInfoResponse :=
  of_option req (ErrOther "InvalidArgument");;
  wrap_err (ErrOther "NotFound") GetProviderInfoV2.

(** [StakingQueryServer.Params]; the uint32 conversion drops the high bits. *)
Definition StakingQueryServer_Params (req : option unit) : CK StakingParams :=
  of_option req (ErrOther "InvalidArgument");;
  params ← GetConsumerParams;
  mret (mkStakingParams (cp_UnbondingPeriod params) 0 0 (cp_HistoricalEntries params mod 2 ^ 32) "" dec_Zero).

(** *** The staking keeper of a chain without staking

    Validators come from the provider: lookups are stubs that satisfy x/slashing
    and x/evidence, and what would jail or slash does nothing. *)
Definition unimplemented : error := ErrOther "unimplemented on the VAAS consumer keeper".
Definition IterateValidators : CK unit := mret tt.
Definition Validator_ (addr : string) : CK unit := raise unimplemented.
Definition IsValidatorJailed (addr : string) : CK bool := mret false.
Definition GetConsAddr (v : stubValidator) : string := consAddr v.
Definition ValidatorByConsAddr (addr : string) : CK stubValidator := mret (mkStubValidator addr).
Definition ValidatorIdentifier (consAddr : string) : CK string := mret consAddr.
Definition SlashWithInfractionReason (addr : string) (infractionHeight power : Z) (slashFactor : dec) (infraction : Infraction)
  : CK Z := mret 0.
Definition Jail (addr : string) : CK unit := mret tt.
Definition Unjail (addr : string) : CK unit := mret tt.
Definition Delegation (addr valAddr : string) : CK unit := raise unimplemented.
Definition MaxValidators : CK Z := panic.
Definition UnbondingTime : CK Duration := GetUnbondingPeriod.
Definition ApplyAndReturnValidatorSetUpdates : CK (list ValidatorUpdate) := mret [].
Definition GetAllValidators : CK (list stubValidator) := mret [].
Definition GetBondedValidatorsByPower : CK (list stubValidator) := mret [].
Definition GetHistoricalInfo (height : Z) : CK HistoricalInfo :=
  o ← gets (λ w, HistoricalInfos w !! height);
  of_option o (ErrOther "no historical info").
Definition SetHistoricalInfo (height : Z) (hi : HistoricalInfo) : CK unit :=
  modify (upd_HistoricalInfos (insert height hi)).
Definition DeleteHistoricalInfo (height : Z) : CK unit := modify (upd_HistoricalInfos (delete height)).

(** ** The heights that are served *)

(** Before the block at [height], what is stored is an unbroken run of the
    heights just below it. *)
Definition history_below (height : Z) (w : CWorld) : Prop :=
  ∀ i, is_Some (HistoricalInfos w !! i) → 0 ≤ i < height ∧ ∀ j, i ≤ j < height → is_Some (HistoricalInfos w !! j).

Lemma upd_HistoricalInfos_same f w : f (HistoricalInfos w) = HistoricalInfos w → upd_HistoricalInfos f w = w.
Proof. intros E. unfold upd_HistoricalInfos. rewrite E. by destruct w. Qed.
Lemma prune_historical_run fuel c w :
  (∀ i, is_Some (HistoricalInfos w !! i) → i < Z.of_nat fuel →
    0 ≤ i ∧ ∀ j, i ≤ j < Z.of_nat fuel → is_Some (HistoricalInfos w !! j)) →
  prune_historical fuel c w = (Ok tt, upd_HistoricalInfos (filter (λ kv, Z.of_nat fuel ≤ kv.1)) w).
Proof.
  revert w. induction fuel as [|fuel IH]; intros w Hrun.
  - rewrite upd_HistoricalInfos_same; [done|]. apply map_filter_id. intros i x Hi.
    destruct (Z.le_gt_cases 0 i); [done|]. destruct (Hrun i) as [? _]; [by eexists|lia|lia].
  - cbn [prune_historical]. rewrite bind_run. cbn [gets]. destruct (HistoricalInfos w !! Z.of_nat fuel) as [hi|] eqn:E.
    + rewrite bind_run. cbn [modify]. rewrite IH.
      * unfold upd_HistoricalInfos at 1 2 3. cbn. do 3 f_equal. apply map_eq. intros i.
        apply option_eq. intros x. rewrite !map_lookup_filter_Some, lookup_delete_Some. cbn. split; intros Hi; [|naive_solver lia].
        destruct Hi as [[? ?] ?]. split; [done|lia].
      * cbn. intros i Hs Hi. destruct (Hrun i) as [H0 Hj]; [|lia|].
        { destruct Hs as [x [_ Hx]%lookup_delete_Some]. by eexists. }
        split; [done|]. intros j Hj'. rewrite lookup_delete_ne by lia. apply Hj. lia.
    + rewrite upd_HistoricalInfos_same; [done|]. apply map_filter_id. intros i x Hi.
      destruct (Z.le_gt_cases (Z.of_nat (S fuel)) i); [done|].
      destruct (Hrun i) as [_ Hj]; [by eexists|lia|]. destruct (Hj (Z.of_nat fuel)) as [y Hy]; [lia|]. congruence.
Qed.
Lemma TrackHistoricalInfo_run c w params :
  CParams w = Some params → 0 < cp_HistoricalEntries params → 0 ≤ BlockHeight c → in_int64 (BlockHeight c) →
  in_int64 (cp_HistoricalEntries params) → history_below (BlockHeight c) w →
  TrackHistoricalInfo c w =
  (Ok tt, upd_HistoricalInfos (λ m, <[BlockHeight c := NewHistoricalInfo (BlockHeight c) (GetAllVaasValidator w)]>
     (filter (λ kv, BlockHeight c - cp_HistoricalEntries params < kv.1) m)) w).
Proof.
  intros Ep Hn Hh Hh64 Hn64 Hrun. unfold TrackHistoricalInfo, GetHistoricalEntries. rewrite bind_run.
  unfold fmap, M_fmap, GetConsumerParams. rewrite !bind_run. cbn [gets]. rewrite Ep. cbn [or_panic mret M_ret].
  rewrite bind_run. cbn [asks]. rewrite bind_run. unfold in_int64, int64_min, int64_max in *.
  rewrite wrap64_id by (unfold in_int64, int64_min, int64_max; lia).
  rewrite prune_historical_run.
  - rewrite (proj2 (Z.eqb_neq _ 0)) by lia. rewrite bind_run. cbn [gets].
    unfold modify, upd_HistoricalInfos, GetAllVaasValidator. cbn. do 4 f_equal. apply map_filter_ext. intros i x Hi. cbn.
    destruct (Hrun i) as [? _]; [by eexists|]. lia.
  - intros i Hs Hi. destruct (Hrun i Hs) as [? Hj]. split; [lia|]. intros j Hj'. apply Hj. lia.
Qed.

(** The history of a chain whose first block is [first]: each of its blocks
    tracks with the parameters and the validators of the moment, which [blocks]
    lists, and what else happens leaves the history alone. *)
Definition next_height (first : Z) (blocks : list (Z * list VaasValidator)) : Z := first + Z.of_nat (length blocks).
Inductive tracked (first : Z) : list (Z * list VaasValidator) → CWorld → Prop :=
  | tracked_start w : HistoricalInfos w = ∅ → tracked first [] w
  | tracked_block blocks c w params w1 w2 :
      tracked first blocks w → BlockHeight c = next_height first blocks → in_int64 (BlockHeight c) →
      CParams w = Some params → 0 < cp_HistoricalEntries params → in_int64 (cp_HistoricalEntries params) →
      TrackHistoricalInfo c w = (Ok tt, w1) → HistoricalInfos w2 = HistoricalInfos w1 →
      tracked first (blocks ++ [(cp_HistoricalEntries params, GetAllVaasValidator w)]) w2.
(** No block dropped [i]: each looked back further than that. *)
Definition kept (first : Z) (blocks : list (Z * list VaasValidator)) (i : Z) : Prop :=
  ∀ k b, blocks !! k = Some b → first + Z.of_nat k - b.1 < i.
Lemma kept_snoc first blocks b i :
  kept first (blocks ++ [b]) i ↔ kept first blocks i ∧ next_height first blocks - b.1 < i.
Proof.
  unfold kept, next_height. split.
  - intros H. split; [intros k b' Hk; by apply H, lookup_app_l_Some|]. apply (H (length blocks)).
    by rewrite lookup_app_r, Nat.sub_diag.
  - intros [H1 H2] k b' [Hk|[Hk E]]%lookup_app_Some; [by apply H1|].
    apply list_lookup_singleton_Some in E as [E <-]. by replace k with (length blocks) by lia.
Qed.

Lemma tracked_entries first blocks w : tracked first blocks w → ∀ k b, blocks !! k = Some b → 0 < b.1.
Proof.
  induction 1 as [|blocks c w params w1 w2 _ IH _ _ _ He]; intros k b; [done|].
  intros [Hk|[_ [_ <-]%list_lookup_singleton_Some]]%lookup_app_Some; [by eapply IH|done].
Qed.

Lemma tracked_window first blocks w :
  0 ≤ first → tracked first blocks w →
  ∀ i hi, HistoricalInfos w !! i = Some hi ↔
    ∃ k entries vals, blocks !! k = Some (entries, vals) ∧ i = first + Z.of_nat k ∧ kept first blocks i ∧
      hi = NewHistoricalInfo i vals.
Proof.
  intros Hf. induction 1 as [w Ew|blocks c w params w1 w2 Ht IH Eh Hh64 Ep He He64 Erun E2]; intros i hi.
  { rewrite Ew, lookup_empty. split; [done|]. by intros (k & n & vals & ? & _). }
  assert (∀ j, is_Some (HistoricalInfos w !! j) ↔ first ≤ j < BlockHeight c ∧ kept first blocks j) as Hw.
  { intros j. rewrite Eh. unfold next_height. split.
    - intros [x (k & n & vals & Hk & -> & Hkept & _)%IH]. apply lookup_lt_Some in Hk. split; [lia|done].
    - intros [Hj Hkept]. destruct (lookup_lt_is_Some_2 blocks (Z.to_nat (j - first))) as [[n vals] Hk]; [lia|].
      eexists. apply IH. exists (Z.to_nat (j - first)), n, vals. split_and!; [done|lia|done|done]. }
  assert (history_below (BlockHeight c) w) as Hrun.
  { intros j [Hj Hkept]%Hw. split; [lia|]. intros j' Hj'. apply Hw. split; [lia|].
    intros k b Hk. specialize (Hkept k b Hk). lia. }
  rewrite (TrackHistoricalInfo_run c w params) in Erun; [|done|done|rewrite Eh; unfold next_height; lia|done..].
  injection Erun as <-. rewrite E2. cbn. rewrite lookup_insert_Some, map_lookup_filter_Some. cbn.
  rewrite (IH i hi). rewrite Eh. split.
  - intros [[<- <-]|(Hne & (k & n & vals & Hk & -> & Hkept & ->) & Hlt)].
    + exists (length blocks), (cp_HistoricalEntries params), (GetAllVaasValidator w). split_and!; [|done| |done].
      * by rewrite lookup_app_r, Nat.sub_diag.
      * rewrite kept_snoc. split; [|cbn; lia]. intros k b Hk. unfold next_height. pose proof (lookup_lt_Some _ _ _ Hk).
        assert (0 < b.1); [|lia]. by eapply tracked_entries.
    + exists k, n, vals. split_and!; [by apply lookup_app_l_Some|done| |done]. by rewrite kept_snoc.
  - intros (k & n & vals & [Hk|[Hk E]]%lookup_app_Some & -> & [Hkept Hlt]%kept_snoc & ->).
    + right. unfold next_height. pose proof (lookup_lt_Some _ _ _ Hk). split; [lia|]. split; [by exists k, n, vals|done].
    + apply list_lookup_singleton_Some in E as [E [= <- <-]]. left. unfold next_height. by replace k with (length blocks) by lia.
Qed.

(** C36. The historical infos a consumer that started without any serves are those its
    blocks kept, whatever the positive HistoricalEntries parameter is from block to block:
    GetHistoricalInfo answers a block's height with the info of exactly the validators that
    block saw, as long as no block since looked back no further than to it, and refuses
    every other height (raising the parameter brings no dropped height back). While the
    parameter stays the same, these are the heights from the first block or the configured
    number of entries back, whichever is later, up to the last block. *)
Theorem history_serves_the_last_heights first blocks c w :
  0 ≤ first → tracked first blocks w →
  (* every height that no block dropped is answered with the validators of its block *)
  (∀ k entries vals, blocks !! k = Some (entries, vals) → let i := first + Z.of_nat k in
     kept first blocks i → GetHistoricalInfo i c w = (Ok (NewHistoricalInfo i vals), w)) ∧
  (* and every other one is refused *)
  (∀ i, ¬ (first ≤ i < next_height first blocks ∧ kept first blocks i) →
     GetHistoricalInfo i c w = (Err (ErrOther "no historical info"), w)) ∧
  (* as long as the parameter stays the same, these are the last so many heights *)
  (∀ entries i, (∀ b, b ∈ blocks → b.1 = entries) → first ≤ i < next_height first blocks →
     kept first blocks i ↔ next_height first blocks - entries ≤ i).
Proof.
  intros Hf Ht. pose proof (tracked_window first blocks w Hf Ht) as Hw.
  assert (∀ i o, HistoricalInfos w !! i = o →
    GetHistoricalInfo i c w = match o with Some hi => (Ok hi, w) | None => (Err (ErrOther "no historical info"), w) end) as Hget.
  { intros i o <-. unfold GetHistoricalInfo. rewrite bind_run. cbn [gets]. by destruct (HistoricalInfos w !! i). }
  split_and!.
  - intros k n vals Hk i Hkept. rewrite (Hget i (Some (NewHistoricalInfo i vals))); [done|]. apply Hw. by exists k, n, vals.
  - intros i Hi. rewrite (Hget i None); [done|]. apply eq_None_not_Some. intros [hi (k & n & vals & Hk & -> & Hkept & _)%Hw].
    apply Hi. split; [|done]. apply lookup_lt_Some in Hk. unfold next_height. lia.
  - intros n i Hn Hi. unfold next_height in *. split.
    + intros Hkept. destruct (lookup_lt_is_Some_2 blocks (length blocks - 1)) as [b Hb]; [lia|].
      specialize (Hkept _ b Hb). rewrite (Hn b) in Hkept by (by eapply list_elem_of_lookup_2). lia.
    + intros Hle k b Hk. rewrite (Hn b) by (by eapply list_elem_of_lookup_2). apply lookup_lt_Some in Hk. lia.
Qed.
End queries.
