(* ===== verification/AppModules.v ===== *)
(** The parts of the two applications that decide something about this
    program's state: the validators a consumer's exported genesis document
    names (app/consumer/export.go), the import of the IBC counterparties
    (app/ibcshim/module.go), and the SDK modules wrapped so that they hand
    CometBFT no validator updates (x/vaas/no_valupdates_genutil,
    x/vaas/no_valupdates_staking). The modules they wrap are parameters. *)
From S2P Require Import Prelude GoTime Types Externals ConsumerWorld Consumer.

(** ** The consumer's genesis document *)
Record GenesisValidator := mkGenesisValidator { gv_Address : string; gv_PubKey : PubKey; gv_Power : Z }.

Section consumer_app.
Context `{CX : ConsumerExternals}.

(** A stored key always unpacks: it is kept as the key it packs. *)
Definition GetValidatorSet (w : CWorld) : list GenesisValidator :=
  (λ v, mkGenesisValidator (vv_Address v) (vv_Pubkey v) (vv_Power v)) <$> GetAllVaasValidator w.

(** What baseapp compares the genesis document with at InitChain: the updates
    the modules hand out, as sets of key and power. *)
Definition named_by_document (vals : list GenesisValidator) : list ValidatorUpdate :=
  (λ v, mkUpdate (gv_PubKey v) (gv_Power v)) <$> vals.
Lemma document_names_the_validators w :
  named_by_document (GetValidatorSet w) = MustGetCurrentValidatorsAsABCIUpdates w.
Proof. unfold named_by_document, GetValidatorSet. by rewrite <-list_fmap_compose. Qed.
End consumer_app.

(** ** ibcshim *)
Record CounterpartyInfo := mkCounterpartyInfo { cp_MerklePrefix : list string; cp_ClientId : string }.
Record GenesisCounterpartyInfo := mkGenesisCounterparty { gc_ClientId : string; gc_CounterpartyInfo : CounterpartyInfo }.

Section ibcshim.
Context {S : Type} (SetClientCounterparty : string → CounterpartyInfo → S → S).

Definition init_counterparty (seenIDs : gset string) (info : GenesisCounterpartyInfo) : M S (gset string) :=
  if String.eqb (gc_ClientId info) "" then panic else
  if bool_decide (cp_MerklePrefix (gc_CounterpartyInfo info) = []) then panic else
  if bool_decide (gc_ClientId info ∈ seenIDs) then panic else
  modify (SetClientCounterparty (gc_ClientId info) (gc_CounterpartyInfo info));;
  mret ({[gc_ClientId info]} ∪ seenIDs).
Definition initClientV2Genesis (infos : list GenesisCounterpartyInfo) : M S unit :=
  fold_each infos init_counterparty ∅;; mret tt.

Definition importable (infos : list GenesisCounterpartyInfo) : Prop :=
  NoDup (gc_ClientId <$> infos) ∧
  ∀ info, info ∈ infos → gc_ClientId info ≠ "" ∧ cp_MerklePrefix (gc_CounterpartyInfo info) ≠ [].
Definition with_counterparties (infos : list GenesisCounterpartyInfo) (s : S) : S :=
  foldl (λ s info, SetClientCounterparty (gc_ClientId info) (gc_CounterpartyInfo info) s) s infos.

Lemma init_counterparties_run infos seen c s :
  (∀ info, info ∈ infos → gc_ClientId info ∉ seen) → importable infos →
  ∃ seen', fold_each infos init_counterparty seen c s = (Ok seen', with_counterparties infos s).
Proof.
  revert seen s. induction infos as [|info infos IH]; intros seen s Hseen [Hnd Hok]; [by exists seen|].
  rewrite fmap_cons, NoDup_cons in Hnd. destruct Hnd as [Hnew Hnd]. destruct (Hok info) as [Hid Hpre]; [by left|].
  cbn [fold_each]. rewrite bind_run. unfold init_counterparty at 1.
  rewrite (proj2 (String.eqb_neq _ _)) by done. rewrite bool_decide_false by done.
  rewrite bool_decide_false by (apply Hseen; by left). rewrite bind_run. cbn [modify mret M_ret].
  apply IH; [|split; [done|intros x Hx; apply Hok; by right]].
  intros x Hx. apply not_elem_of_union. split; [|apply Hseen; by right].
  intros E%elem_of_singleton. apply Hnew. rewrite <-E. by apply list_elem_of_fmap_2.
Qed.
Lemma init_counterparties_ok infos seen c s r s' :
  fold_each infos init_counterparty seen c s = (Ok r, s') → importable infos ∧ ∀ info, info ∈ infos → gc_ClientId info ∉ seen.
Proof.
  revert seen s. induction infos as [|info infos IH]; intros seen s.
  { intros _. split; [split; [constructor|]|]; by intros x ?%elem_of_nil. }
  cbn [fold_each]. rewrite bind_run. unfold init_counterparty at 1.
  destruct (String.eqb_spec (gc_ClientId info) "") as [|Hid]; [done|].
  case_bool_decide as Hpre; [done|]. case_bool_decide as Hseen; [done|]. rewrite bind_run. cbn [modify mret M_ret].
  intros [[Hnd Hok] Hnew]%IH. split; [split|].
  - rewrite fmap_cons, NoDup_cons. split; [|done]. intros (x & E & Hx)%list_elem_of_fmap. specialize (Hnew x Hx). set_solver.
  - by intros x [->|Hx]%elem_of_cons; [|apply Hok].
  - intros x [->|Hx]%elem_of_cons; [done|]. specialize (Hnew x Hx). set_solver.
Qed.
(** The import succeeds exactly on the entries with an id and a prefix whose ids
    differ, and sets each counterparty in order; that a counterparty may bear
    the id of its own client, as on two fresh chains, is no obstacle. *)
Lemma initClientV2Genesis_spec infos c s :
  (importable infos → initClientV2Genesis infos c s = (Ok tt, with_counterparties infos s)) ∧
  (∀ s', initClientV2Genesis infos c s = (Ok tt, s') → importable infos).
Proof.
  unfold initClientV2Genesis. split.
  - intros Hok. rewrite bind_run. destruct (init_counterparties_run infos ∅ c s) as (seen & ->); [set_solver|done|done].
  - intros s' E. apply bind_Ok in E as (r & s1 & E & _). by apply init_counterparties_ok in E as [? _].
Qed.
End ibcshim.

(** ** Modules without validator updates *)
Section no_valupdates.
Context {S G : Type} (UnmarshalJSON : string → option G).

(** no_valupdates_genutil *)
Context (genutil_InitGenesis : G → M S (list ValidatorUpdate)).
Definition genutil_AppModule_InitGenesis (data : string) : M S (list ValidatorUpdate) :=
  genesisState ← or_panic (UnmarshalJSON data);
  must (genutil_InitGenesis genesisState);;
  mret [].

(** no_valupdates_staking *)
Context (staking_InitGenesis : G → M S (list ValidatorUpdate)) (staking_EndBlocker : M S (list ValidatorUpdate)).
Definition staking_AppModule_InitGenesis (data : string) : M S (list ValidatorUpdate) :=
  genesisState ← or_panic (UnmarshalJSON data);
  staking_InitGenesis genesisState;;
  mret [].
Definition staking_AppModule_EndBlock : M S (list ValidatorUpdate) :=
  staking_EndBlocker;;
  mret [].

(** The wrapped modules move the store as the modules themselves do, and leave
    the validator set to the provider module. *)
Lemma wrapped_staking_writes_alike c s us s' :
  staking_EndBlocker c s = (Ok us, s') → staking_AppModule_EndBlock c s = (Ok [], s').
Proof. intros E. unfold staking_AppModule_EndBlock. by rewrite bind_run, E. Qed.
Lemma wrapped_genesis_writes_alike data g c s us s' :
  UnmarshalJSON data = Some g →
  (genutil_InitGenesis g c s = (Ok us, s') → genutil_AppModule_InitGenesis data c s = (Ok [], s')) ∧
  (staking_InitGenesis g c s = (Ok us, s') → staking_AppModule_InitGenesis data c s = (Ok [], s')).
Proof.
  intros Eg. unfold genutil_AppModule_InitGenesis, staking_AppModule_InitGenesis.
  split; intros E; rewrite bind_run, Eg; cbn [or_panic mret M_ret]; rewrite bind_run; unfold must; by rewrite E.
Qed.
End no_valupdates.
