(* ===== verification/ConsumerGenesis.v ===== *)
(** The consumer's genesis: validation (consumer/types/genesis.go), import and
    export (consumer/keeper/genesis.go).

    The bytes of a pending evidence packet appear as what they decode to, [None]
    when they do not; the provider's client and consensus state are opaque but
    for the chain id the import reads. The field preVAAS, which nothing reads, is
    left out. *)
From S2P Require Import Prelude GoTime Types Externals ConsumerWorld Consumer.

Class CGenesisExternals `{CX : ConsumerExternals} := {
  c_ConsensusState : Type;
  ClientState_Validate : TmClientState → bool;
  ConsensusState_ValidateBasic : c_ConsensusState → bool;
}.

Record ProviderInfo `{CGenesisExternals} := mkProviderInfo {
  pi_ClientState : option TmClientState;
  pi_ConsensusState : option c_ConsensusState;
  pi_InitialValSet : list ValidatorUpdate;
}.
Arguments mkProviderInfo {_ _ _ _} _ _ _.
Record MissedBlockBitmapEntry := mkBitmapEntry { be_Addr : string; be_Bitmap : Bitmap.t }.
Record FirstTrackedHeightEntry := mkHeightEntry { he_Addr : string; he_Height : Z }.
Record PendingEvidencePacketEntry `{LegacyDec} := mkPacketEntry {
  pk_Addr : string;
  pk_Packet : option EvidencePacketData;
}.
Arguments mkPacketEntry {_} _ _.

Record GenesisState `{CGenesisExternals} := mkGenesisState {
  cn_Params : ConsumerParams;
  cn_NewChain : bool;
  cn_Provider : ProviderInfo;
  cn_ProviderClientId : string;
  cn_LastVscRecvTime : option Time;
  cn_MissedBlockBitmaps : list MissedBlockBitmapEntry;
  cn_FirstTrackedHeights : list FirstTrackedHeightEntry;
  cn_StagedDowntimeParams : option DowntimeParams;
  cn_HighestValsetUpdateId : N;
  cn_ProviderChainId : string;
  cn_PendingEvidencePackets : list PendingEvidencePacketEntry;
  cn_ConsumerInDebt : bool;
}.
Arguments mkGenesisState {_ _ _ _} _ _ _ _ _ _ _ _ _ _ _ _.

Section consumer_genesis.
Context `{CG : CGenesisExternals}.

(** *** consumer/types/genesis.go *)
Definition NewConsumerParams (vaasTimeoutPeriod : Duration) (historicalEntries : Z)
    (consumerUnbondingPeriod safeModeThreshold : Duration) : ConsumerParams :=
  mkConsumerParams vaasTimeoutPeriod historicalEntries consumerUnbondingPeriod safeModeThreshold 600
    (default dec_Zero (dec_NewDecFromStr "0.5")) "" false.
Definition DefaultConsumerParams : ConsumerParams :=
  NewConsumerParams Hour 10000 DefaultConsumerUnbondingPeriod (3 * Hour).
Definition DefaultGenesisState : GenesisState :=
  mkGenesisState DefaultConsumerParams false (mkProviderInfo None None []) "" None [] [] None 0 "" [] false.
Definition NewRestartGenesisState (clientID : string) (initValSet : list ValidatorUpdate) (params : ConsumerParams)
  : GenesisState :=
  mkGenesisState params false (mkProviderInfo None None initValSet) clientID None [] [] None 0 "" [] false.
Definition NewInitialGenesisState (cs : option TmClientState) (consState : option c_ConsensusState)
    (initValSet : list ValidatorUpdate) (params : ConsumerParams) : GenesisState :=
  mkGenesisState params true (mkProviderInfo cs consState initValSet) "" None [] [] None 0 "" [] false.

Definition holds {A} (f : A → bool) (o : option A) : bool := match o with Some a => f a | None => false end.
Definition bitmap_ok (wantBitmapLen : Z) (e : MissedBlockBitmapEntry) : bool :=
  negb (String.eqb (be_Addr e) "") && (Z.of_nat (length (be_Bitmap e)) =? wantBitmapLen).
Definition height_ok (e : FirstTrackedHeightEntry) : bool :=
  negb (String.eqb (he_Addr e) "") && (0 <? he_Height e).
Definition packet_ok (e : PendingEvidencePacketEntry) : bool :=
  negb (String.eqb (pk_Addr e) "")
  && holds (λ packet, is_ok (EvidencePacketData_Validate packet) && String.eqb (pk_Addr e) (ValidatorAddr packet))
       (pk_Packet e).
Definition Validate (gs : GenesisState) : bool :=
  let p := cn_Provider gs in
  negb (bool_decide (pi_InitialValSet p = []))
  && ConsumerParams_Validate (cn_Params gs)
  && (if cn_NewChain gs
      then holds ClientState_Validate (pi_ClientState p)
           && holds ConsensusState_ValidateBasic (pi_ConsensusState p)
           && String.eqb (cn_ProviderClientId gs) "" && negb (cn_ConsumerInDebt gs)
      else match pi_ClientState p, pi_ConsensusState p with None, None => true | _, _ => false end)
  && forallb (bitmap_ok (Z.quot (wrap64 (cp_SignedBlocksWindow (cn_Params gs) + 7)) 8)) (cn_MissedBlockBitmaps gs)
  && forallb height_ok (cn_FirstTrackedHeights gs)
  && forallb packet_ok (cn_PendingEvidencePackets gs)
  && match cn_StagedDowntimeParams gs with
     | None => true
     | Some p =>
         (0 <? dp_SignedBlocksWindow p)
         && negb (dec_IsNil (dp_MinSignedPerWindow p) || negb (dec_IsPositive (dp_MinSignedPerWindow p))
                  || negb (dec_LT (dp_MinSignedPerWindow p) dec_One))
     end.

(** *** InitGenesis *)
(** The branch of a chain that starts anew: only the provider's chain id. *)
Definition init_new_chain (state : GenesisState) : CK unit :=
  cs ← or_panic (pi_ClientState (cn_Provider state));
  SetProviderChainId (cs_ChainId cs).
Definition init_restart (state : GenesisState) : CK unit :=
  if_some (nonempty (cn_ProviderClientId state)) (λ clientId,
    found ← gets (λ w, c_GetClientState (c_ibc w) clientId);
    or_panic (match found with Some _ => Some tt | None => None end);;
    SetProviderClientID clientId);;
  if_some (nonempty (cn_ProviderChainId state)) SetProviderChainId;;
  when (cn_ConsumerInDebt state) (SetConsumerInDebt true);;
  when (negb (cn_HighestValsetUpdateId state =? 0)%N) (SetHighestValsetUpdateID (cn_HighestValsetUpdateId state)).
Definition init_packet (entry : PendingEvidencePacketEntry) : CK unit :=
  packet ← or_panic (pk_Packet entry);
  modify (upd_PendingEvidencePackets (insert (pendingEvidenceKey packet) packet)).
Definition init_staged (p : DowntimeParams) : CK unit :=
  or_panic (if validDowntimeParams p then Some tt else None);;
  modify (upd_StagedDowntimeParams (λ _, Some p)).

Definition InitGenesis (state : GenesisState) : CK (list ValidatorUpdate) :=
  height ← asks BlockHeight;
  SetInitGenesisHeight height;;
  SetParams (cn_Params state);;
  (if cn_NewChain state then init_new_chain state else init_restart state);;
  if_some (cn_LastVscRecvTime state) SetLastVSCRecvTime;;
  for_each (cn_MissedBlockBitmaps state) (λ entry,
    modify (upd_MissedBlockBitmaps (insert (be_Addr entry) (be_Bitmap entry))));;
  for_each (cn_FirstTrackedHeights state) (λ entry,
    modify (upd_FirstTrackedHeights (insert (he_Addr entry) (he_Height entry))));;
  for_each (cn_PendingEvidencePackets state) init_packet;;
  if_some (cn_StagedDowntimeParams state) init_staged;;
  ApplyVaasValidatorChanges (pi_InitialValSet (cn_Provider state));;
  mret (pi_InitialValSet (cn_Provider state)).

(** *** ExportGenesis *)
Definition exportMissedBlockBitmaps (w : CWorld) : list MissedBlockBitmapEntry :=
  (λ kv, mkBitmapEntry kv.1 kv.2) <$> iterate (MissedBlockBitmaps w).
Definition exportFirstTrackedHeights (w : CWorld) : list FirstTrackedHeightEntry :=
  (λ kv, mkHeightEntry kv.1 kv.2) <$> iterate (FirstTrackedHeights w).
Definition exportPendingEvidencePackets (w : CWorld) : list PendingEvidencePacketEntry :=
  (λ kv : string * Z * EvidencePacketData, mkPacketEntry kv.1.1 (Some kv.2)) <$> iterate (PendingEvidencePackets w).
Definition ExportGenesis : CK GenesisState :=
  params ← GetConsumerParams;
  valset ← gets MustGetCurrentValidatorsAsABCIUpdates;
  clientID ← gets GetProviderClientID;
  let genesis := NewRestartGenesisState (default "" clientID) valset params in
  highest ← gets GetHighestValsetUpdateID;
  chainId ← gets GetProviderChainId;
  last ← gets LastVSCRecvTime;
  inDebt ← gets IsConsumerInDebt;
  bitmaps ← gets exportMissedBlockBitmaps;
  heights ← gets exportFirstTrackedHeights;
  packets ← gets exportPendingEvidencePackets;
  staged ← gets StagedDowntimeParams;
  mret (mkGenesisState (cn_Params genesis) (cn_NewChain genesis) (cn_Provider genesis) (cn_ProviderClientId genesis)
          last bitmaps heights staged (default 0%N highest) (default "" chainId) packets inDebt).
End consumer_genesis.
