(* ===== verification/ConsumerDowntimeProofs.v ===== *)
(** The consumer's downtime tracking: over a tumbling window it records which
    of its blocks each validator missed, and the evidence it queues at the end
    of the window says exactly that. *)
From S2P Require Import Prelude GoTime Types Externals ConsumerWorld Consumer.

Abbreviation VoteInfo := (string * BlockIDFlag)%type.

(** ** What happened: the votes of each height, oldest first *)
Definition absent (hist : list (Z * list VoteInfo)) (addr : string) (h : Z) : bool :=
  existsb (λ b, (b.1 =? h) && bool_decide ((addr, BlockIDFlagAbsent) ∈ b.2)) hist.
Definition first_seen (hist : list (Z * list VoteInfo)) (addr : string) : option Z :=
  fst <$> head (filter (λ b, addr ∈ b.2.*1) hist).
Definition misses (hist : list (Z * list VoteInfo)) (addr : string) (from to : Z) : Z :=
  Z.of_nat (length (filter (λ h, absent hist addr h = true) (seqZ from (to - from)))).

Lemma absent_snoc hist h vs addr h' :
  absent (hist ++ [(h, vs)]) addr h' = absent hist addr h' || (h =? h') && bool_decide ((addr, BlockIDFlagAbsent) ∈ vs).
Proof. unfold absent. rewrite existsb_app. cbn. by rewrite orb_false_r. Qed.
Lemma first_seen_snoc hist h vs addr :
  first_seen (hist ++ [(h, vs)]) addr =
  match first_seen hist addr with
  | Some f => Some f
  | None => if decide (addr ∈ vs.*1) then Some h else None
  end.
Proof.
  unfold first_seen. rewrite filter_app. destruct (filter _ hist) as [|b l]; cbn; [|done].
  by destruct (decide (addr ∈ vs.*1)).
Qed.
Lemma absent_after hist addr h : absent hist addr h = true → h ∈ hist.*1.
Proof.
  unfold absent. rewrite existsb_exists. intros ([h' vs] & Hin%list_elem_of_In & [E%Z.eqb_eq _]%andb_true_iff).
  apply list_elem_of_fmap. by exists (h', vs).
Qed.
Lemma first_seen_cons h vs hist addr :
  first_seen ((h, vs) :: hist) addr = if decide (addr ∈ vs.*1) then Some h else first_seen hist addr.
Proof.
  unfold first_seen. destruct (decide (addr ∈ vs.*1)); [by rewrite filter_cons_True|by rewrite filter_cons_False].
Qed.
(** Nobody is absent before he is first seen. *)
Lemma absent_first hist addr h :
  StronglySorted Z.lt hist.*1 → absent hist addr h = true → ∃ f, first_seen hist addr = Some f ∧ f ≤ h.
Proof.
  induction hist as [|[h' vs] hist IH]; [done|]. rewrite fmap_cons. intros [Hs Hall]%StronglySorted_inv Ha.
  rewrite first_seen_cons. unfold absent in Ha. cbn [existsb fst snd] in Ha.
  apply orb_true_iff in Ha as [[->%Z.eqb_eq Hin%bool_decide_eq_true]%andb_true_iff|Ha].
  - rewrite decide_True; [exists h; split; [done|lia]|]. apply list_elem_of_fmap. by exists (addr, BlockIDFlagAbsent).
  - destruct (decide (addr ∈ vs.*1)); [|by apply IH]. exists h'. split; [done|].
    apply absent_after in Ha. rewrite Forall_forall in Hall. apply Hall in Ha. cbn in Ha. lia.
Qed.

Section tracking.
Context `{CX : ConsumerExternals}.

(** ** The tracking state of a window that starts at [s] *)
Record tracked (s window : Z) (hist : list (Z * list VoteInfo)) (w : CWorld) : Prop := {
  tr_first addr : FirstTrackedHeights w !! addr = first_seen hist addr;
  tr_bits addr bm i : MissedBlockBitmaps w !! addr = Some bm → 0 ≤ i < window →
    Bitmap.BitmapIsSet bm i = absent hist addr (s + i);
  tr_size addr bm : MissedBlockBitmaps w !! addr = Some bm → Z.of_nat (length bm) = (window + 7) / 8;
  tr_none addr h : MissedBlockBitmaps w !! addr = None → absent hist addr h = false;
}.
Definition fresh (w : CWorld) : Prop := MissedBlockBitmaps w = ∅ ∧ FirstTrackedHeights w = ∅.
Lemma fresh_tracked s window w : fresh w → tracked s window [] w.
Proof. intros [E1 E2]. split; rewrite ?E1, ?E2; try done. Qed.

(** A height whose votes are being read. *)
Lemma tracked_start s window hist h w : tracked s window hist w → tracked s window (hist ++ [(h, [])]) w.
Proof.
  intros [H1 H2 H3 H4]. split; intros.
  - rewrite first_seen_snoc, decide_False by (cbn; set_solver). rewrite H1. by destruct (first_seen hist addr).
  - rewrite absent_snoc, bool_decide_false, andb_false_r, orb_false_r by set_solver. by apply H2.
  - by eapply H3.
  - rewrite absent_snoc, bool_decide_false, andb_false_r, orb_false_r by set_solver. by apply H4.
Qed.

Lemma padded_IsSet len o i :
  Bitmap.BitmapIsSet (padded len o) i = match o with Some bm => Bitmap.BitmapIsSet bm i | None => false end.
Proof.
  unfold padded. destruct o as [bm|]; [|apply Bitmap.zeros_unset].
  destruct (_ <? _); [apply Bitmap.app_zeros_IsSet|done].
Qed.
Lemma padded_length len o :
  0 ≤ len → (∀ bm, o = Some bm → Z.of_nat (length bm) = len) → Z.of_nat (length (padded len o)) = len.
Proof.
  intros Hlen Ho. unfold padded. destruct o as [bm|]; [|by apply Bitmap.zeros_length].
  rewrite (Ho bm eq_refl). by rewrite Z.ltb_irrefl, (Ho bm eq_refl).
Qed.

Lemma first_seen_vote hist h vs a f addr :
  first_seen (hist ++ [(h, vs ++ [(a, f)])]) addr =
  match first_seen (hist ++ [(h, vs)]) addr with
  | Some x => Some x
  | None => if decide (addr = a) then Some h else None
  end.
Proof.
  rewrite !first_seen_snoc. destruct (first_seen hist addr); [done|]. rewrite fmap_app. cbn.
  repeat case_decide; set_solver.
Qed.
Lemma absent_vote hist h vs a f addr h' :
  absent (hist ++ [(h, vs ++ [(a, f)])]) addr h' =
  absent (hist ++ [(h, vs)]) addr h' || bool_decide (h = h' ∧ addr = a ∧ f = BlockIDFlagAbsent).
Proof.
  rewrite !absent_snoc, <-orb_assoc. f_equal. destruct (Z.eqb_spec h h'); cbn [andb orb].
  - apply Bool.eq_iff_eq_true. rewrite orb_true_iff, !bool_decide_eq_true. set_solver.
  - symmetry. apply bool_decide_eq_false. naive_solver.
Qed.

(** The height a vote is first seen at. *)
Definition seen_at (h : Z) (a : string) (w : CWorld) : CWorld :=
  match FirstTrackedHeights w !! a with Some _ => w | None => upd_FirstTrackedHeights (insert a h) w end.

(** Every vote makes its validator tracked ... *)
Lemma tracked_seen s window hist vs h a w :
  tracked s window (hist ++ [(h, vs)]) w →
  tracked s window (hist ++ [(h, vs ++ [(a, BlockIDFlagCommit)])]) (seen_at h a w).
Proof.
  intros [H1 H2 H3 H4]. unfold seen_at. split.
  - intros addr. rewrite first_seen_vote, <-H1. destruct (FirstTrackedHeights w !! a) as [x|] eqn:Ea; cbn.
    + case_decide as E; [subst; by rewrite Ea|by destruct (FirstTrackedHeights w !! addr)].
    + case_decide as E; [subst; by rewrite lookup_insert_eq, Ea|].
      rewrite lookup_insert_ne by done. by destruct (FirstTrackedHeights w !! addr).
  - intros addr bm i E. rewrite absent_vote, bool_decide_false, orb_false_r by naive_solver.
    apply H2. by destruct (FirstTrackedHeights w !! a).
  - intros addr bm E. apply (H3 addr). by destruct (FirstTrackedHeights w !! a).
  - intros addr h' E. rewrite absent_vote, bool_decide_false, orb_false_r by naive_solver.
    apply H4. by destruct (FirstTrackedHeights w !! a).
Qed.

(** ... a vote that is not absent does nothing else, whatever its flag ... *)
Lemma tracked_flag s window hist vs h a f w :
  f ≠ BlockIDFlagAbsent →
  tracked s window (hist ++ [(h, vs ++ [(a, BlockIDFlagCommit)])]) w →
  tracked s window (hist ++ [(h, vs ++ [(a, f)])]) w.
Proof.
  intros Hf [H1 H2 H3 H4]. split; intros.
  - by rewrite H1, !first_seen_vote.
  - rewrite (H2 _ _ _ H H0), !absent_vote, !bool_decide_false by naive_solver. done.
  - by eapply H3.
  - specialize (H4 _ h0 H). rewrite absent_vote, bool_decide_false in * by naive_solver. done.
Qed.

(** ... and an absent one sets its bit. *)
Lemma tracked_missed s window hist vs h a bm w :
  tracked s window (hist ++ [(h, vs ++ [(a, BlockIDFlagCommit)])]) w →
  Bitmap.BitmapSet (padded ((window + 7) / 8) (MissedBlockBitmaps w !! a)) (h - s) = Some bm →
  Z.of_nat (length bm) = (window + 7) / 8 →
  tracked s window (hist ++ [(h, vs ++ [(a, BlockIDFlagAbsent)])]) (upd_MissedBlockBitmaps (insert a bm) w).
Proof.
  intros [H1 H2 H3 H4] Eset Hlen. split.
  - intros addr. cbn. by rewrite H1, !first_seen_vote.
  - intros addr b i. cbn. rewrite absent_vote. destruct (decide (addr = a)) as [->|Hne].
    + rewrite lookup_insert_eq. intros [= <-] Hi. rewrite (Bitmap.BitmapSet_IsSet _ _ _ _ Eset).
      case_decide as Ei; [rewrite bool_decide_true by (split_and!; [lia|done..]); by rewrite orb_true_r|].
      rewrite (bool_decide_false (h = s + i ∧ _)), orb_false_r by (intros (? & _); lia).
      rewrite padded_IsSet. destruct (MissedBlockBitmaps w !! a) as [b|] eqn:Eb.
      * rewrite (H2 _ _ _ Eb Hi), absent_vote, bool_decide_false, orb_false_r by naive_solver. done.
      * specialize (H4 _ (s + i) Eb). rewrite absent_vote, bool_decide_false, orb_false_r in H4 by naive_solver. done.
    + rewrite lookup_insert_ne by done. intros Eb Hi. rewrite (H2 _ _ _ Eb Hi), absent_vote, !bool_decide_false by naive_solver. done.
  - intros addr b. cbn. destruct (decide (addr = a)) as [->|Hne];
      [rewrite lookup_insert_eq; by intros [= <-]|rewrite lookup_insert_ne by done; apply H3].
  - intros addr h'. cbn. destruct (decide (addr = a)) as [->|Hne]; [by rewrite lookup_insert_eq|].
    rewrite lookup_insert_ne by done. intros Eb. specialize (H4 _ h' Eb).
    rewrite absent_vote, bool_decide_false, orb_false_r in * by naive_solver. done.
Qed.

Lemma track_vote_tracked s window hist vs h v c w :
  0 < window → in_int64 (window + 7) → s ≤ h < s + window →
  tracked s window (hist ++ [(h, vs)]) w →
  ∃ w', track_vote h window (h - s) v c w = (Ok tt, w') ∧ tracked s window (hist ++ [(h, vs ++ [v])]) w' ∧
    CParams w' = CParams w ∧ PendingEvidencePackets w' = PendingEvidencePackets w ∧
    StagedDowntimeParams w' = StagedDowntimeParams w.
Proof.
  intros Hw H64 Hh Htr. destruct v as [a f]. unfold track_vote.
  apply (tracked_seen _ _ _ _ _ a) in Htr.
  rewrite bind_run. cbn [gets]. rewrite bind_run.
  match goal with |- context [match FirstTrackedHeights w !! a with Some _ => ?x | None => ?y end c w] =>
    assert ((match FirstTrackedHeights w !! a with Some _ => x | None => y end) c w = (Ok tt, seen_at h a w)) as ->
      by (unfold seen_at; by destruct (FirstTrackedHeights w !! a)) end.
  assert (CParams (seen_at h a w) = CParams w ∧ PendingEvidencePackets (seen_at h a w) = PendingEvidencePackets w ∧
    StagedDowntimeParams (seen_at h a w) = StagedDowntimeParams w) as Hsame by (unfold seen_at; by destruct (_ !! a)).
  destruct (decide (f = BlockIDFlagAbsent)) as [->|Hf].
  2: { exists (seen_at h a w). split; [done|]. by split; [apply tracked_flag|]. }
  rewrite wrap64_id, Z.quot_div_nonneg by (done || lia).
  pose proof (Z.div_pos (window + 7) 8 ltac:(lia) ltac:(lia)).
  rewrite bind_run. cbn [gets].
  assert (Z.of_nat (length (padded ((window + 7) / 8) (MissedBlockBitmaps (seen_at h a w) !! a))) = (window + 7) / 8) as Hlen.
  { apply padded_length; [done|]. intros b Eb. by eapply (tr_size _ _ _ _ Htr). }
  destruct (Bitmap.BitmapSet_Some (padded ((window + 7) / 8) (MissedBlockBitmaps (seen_at h a w) !! a)) (h - s))
    as (bm & Eset & Hlen'); [lia|..].
  { rewrite Hlen. apply Z.div_lt_upper_bound; [lia|].
    pose proof (Z.div_mod (window + 7) 8 ltac:(lia)). pose proof (Z.mod_pos_bound (window + 7) 8 ltac:(lia)). lia. }
  rewrite bind_run, Eset. cbn [or_panic mret M_ret modify].
  eexists. split; [done|]. split; [|done]. apply tracked_missed; [done..|lia].
Qed.

(** ** The evidence queue *)
Lemma elem_of_pending addr k w :
  k ∈ evidence_keys addr w ↔ k.1 = addr ∧ is_Some (PendingEvidencePackets w !! k).
Proof.
  unfold evidence_keys. rewrite list_elem_of_filter, list_elem_of_fmap. split.
  - intros (? & [k' p] & -> & Hin%elem_of_iterate). by split; [|exists p].
  - intros (? & p & Hp). split; [done|]. exists (k, p). split; [done|]. by apply elem_of_iterate.
Qed.
Lemma NoDup_evidence_keys addr w : NoDup (evidence_keys addr w).
Proof. apply NoDup_filter, NoDup_fst_iterate. Qed.
(** Oldest first. *)
Lemma evidence_keys_sorted addr w : StronglySorted (λ k k', k.2 ≤ k'.2) (evidence_keys addr w).
Proof.
  assert (StronglySorted key_le (evidence_keys addr w)) as H.
  { apply StronglySorted_filter. generalize (iterate_sorted (PendingEvidencePackets w)).
    generalize (iterate (PendingEvidencePackets w)). induction 1 as [|x l Hs IH Hx]; [constructor|].
    rewrite fmap_cons. constructor; [done|]. rewrite Forall_fmap. exact Hx. }
  assert (∀ k, k ∈ evidence_keys addr w → k.1 = addr) as Ha by (intros k Hk; by apply elem_of_pending in Hk as []).
  revert H Ha. generalize (evidence_keys addr w). induction 1 as [|x l Hs IH Hx]; intros Ha; [constructor|].
  constructor; [apply IH; set_solver|]. rewrite Forall_forall in *. intros y Hy. specialize (Hx y Hy).
  unfold key_le in Hx. cbn in Hx. unfold pair_le in Hx. rewrite decide_True in Hx; [exact Hx|].
  rewrite (Ha x), (Ha y); set_solver.
Qed.

(** The largest of a sorted list is among its last. *)
Lemma newest_not_taken (l : list (string * Z)) k n :
  StronglySorted (λ k k', k.2 ≤ k'.2) l → NoDup l → k ∈ l → (∀ k', k' ∈ l → k' ≠ k → k'.2 < k.2) →
  (n < length l)%nat → k ∉ take n l.
Proof.
  intros Hs Hnd Hin Hmax Hn Ht. rewrite <-(take_drop n l) in Hs, Hnd.
  apply NoDup_app in Hnd as (_ & Hd & _). destruct (drop n l) as [|x rest] eqn:Ed.
  { apply (f_equal length) in Ed. rewrite length_drop in Ed. cbn in Ed. lia. }
  assert (x ≠ k) as Hne by (intros ->; apply (Hd k Ht); set_solver).
  assert (x ∈ l) as Hx by (rewrite <-(take_drop n l), Ed; set_solver).
  pose proof (Hmax x Hx Hne).
  pose proof (StronglySorted_app_1_elem_of _ _ _ k x Hs Ht ltac:(set_solver)) as Hle. cbn in Hle. lia.
Qed.

Definition evicted (addr : string) (w : CWorld) : list (string * Z) :=
  take (length (evidence_keys addr w) - maxPendingEvidencePerValidator)%nat (evidence_keys addr w).
Lemma evict_run addr c w :
  evictOldestPendingEvidence addr c w =
  (Ok tt, upd_PendingEvidencePackets (λ m, foldl (λ m k, delete k m) m (evicted addr w)) w).
Proof.
  unfold evictOldestPendingEvidence. rewrite bind_run. cbn [gets]. rewrite for_each_modify. f_equal.
  unfold evicted. generalize (take (length (evidence_keys addr w) - maxPendingEvidencePerValidator)%nat (evidence_keys addr w)).
  intros l. revert w. induction l as [|k l IH]; intros w; [by destruct w|]. cbn [foldl]. rewrite IH. by destruct w.
Qed.

Definition queued (packet : EvidencePacketData) (w : CWorld) : CWorld :=
  upd_PendingEvidencePackets (insert (pendingEvidenceKey packet) packet) w.
Lemma QueueEvidencePacket_run packet c w :
  ∃ w', QueueEvidencePacket packet c w = (Ok tt, w') ∧
    (∃ m, w' = upd_PendingEvidencePackets (λ _, m) w) ∧
    (∀ k, PendingEvidencePackets w' !! k =
      if decide (k ∈ evicted (ValidatorAddr packet) (queued packet w)) then None
      else <[pendingEvidenceKey packet := packet]> (PendingEvidencePackets w) !! k).
Proof.
  unfold QueueEvidencePacket. rewrite bind_run. cbn [modify]. rewrite evict_run. fold (queued packet w).
  eexists. split; [done|]. split; [by eexists|]. intros k. cbn. apply foldl_delete_lookup.
Qed.
Lemma elem_of_evicted addr k w : k ∈ evicted addr w → k.1 = addr.
Proof. intros Hk. by apply (subseteq_take _ (evidence_keys addr w)), elem_of_pending in Hk as []. Qed.

(** A packet newer than everything pending for its validator is kept. *)
Lemma newest_kept packet w :
  (∀ e, is_Some (PendingEvidencePackets w !! (ValidatorAddr packet, e)) → e ≤ WindowEndHeight packet) →
  pendingEvidenceKey packet ∉ evicted (ValidatorAddr packet) (queued packet w).
Proof.
  intros Hnew. unfold evicted. set (v := queued packet w).
  assert (pendingEvidenceKey packet ∈ evidence_keys (ValidatorAddr packet) v) as Hin.
  { apply elem_of_pending. split; [done|]. cbn. rewrite lookup_insert_eq. eauto. }
  apply newest_not_taken; [apply evidence_keys_sorted|apply NoDup_evidence_keys|done| |].
  - intros [a e] [Ea Hk]%elem_of_pending Hne. cbn in Ea, Hk. subst a. rewrite lookup_insert_ne in Hk by done.
    specialize (Hnew e Hk). unfold pendingEvidenceKey in *. cbn in *. assert (e ≠ WindowEndHeight packet) by congruence. lia.
  - apply list_elem_of_lookup in Hin as (i & Hi%lookup_lt_Some). unfold maxPendingEvidencePerValidator. lia.
Qed.

(** At most [maxPendingEvidencePerValidator] packets wait per validator. *)
Definition queue_bounded (w : CWorld) : Prop :=
  ∀ addr, (length (evidence_keys addr w) ≤ maxPendingEvidencePerValidator)%nat.
Lemma evidence_keys_length addr w (l : list (string * Z)) :
  (∀ k, k.1 = addr → is_Some (PendingEvidencePackets w !! k) → k ∈ l) → (length (evidence_keys addr w) ≤ length l)%nat.
Proof.
  intros Hl. apply NoDup_incl_length; [apply NoDup_ListNoDup, NoDup_evidence_keys|].
  intros k [Hk Hs]%list_elem_of_In%elem_of_pending. apply list_elem_of_In. by apply Hl.
Qed.
Lemma QueueEvidencePacket_bounded packet : preserves queue_bounded (QueueEvidencePacket packet).
Proof.
  intros c w Hb. destruct (QueueEvidencePacket_run packet c w) as (w' & -> & _ & Hl). cbn [snd]. intros addr.
  set (v := queued packet w) in *. set (kept := drop (length (evidence_keys (ValidatorAddr packet) v) - maxPendingEvidencePerValidator)
    (evidence_keys (ValidatorAddr packet) v)).
  destruct (decide (addr = ValidatorAddr packet)) as [->|Hne].
  - etrans; [apply (evidence_keys_length _ _ kept)|subst kept; rewrite length_drop; lia].
    intros k Hk Hs. rewrite Hl in Hs. case_decide as Hev; [by destruct Hs|].
    assert (k ∈ evidence_keys (ValidatorAddr packet) v) as Hin by (by apply elem_of_pending).
    unfold evicted in Hev. rewrite <-(take_drop (length (evidence_keys (ValidatorAddr packet) v) - maxPendingEvidencePerValidator)) in Hin.
    apply elem_of_app in Hin as [?|?]; [done|exact H].
  - etrans; [apply (evidence_keys_length _ _ (evidence_keys addr w))|apply Hb].
    intros k Hk Hs. rewrite Hl in Hs. case_decide; [by destruct Hs|]. apply elem_of_pending. split; [done|].
    rewrite lookup_insert_ne in Hs; [done|]. intros <-. cbn in Hk. congruence.
Qed.
Lemma fewer_bounded (f : gmap (string * Z) EvidencePacketData → gmap (string * Z) EvidencePacketData) w :
  (∀ m k, is_Some (f m !! k) → is_Some (m !! k)) → queue_bounded w → queue_bounded (upd_PendingEvidencePackets f w).
Proof.
  intros Hf Hb addr. etrans; [apply (evidence_keys_length _ _ (evidence_keys addr w))|apply Hb].
  intros k Hk Hs. apply elem_of_pending. split; [done|]. by apply Hf.
Qed.
Lemma delete_bounded k : preserves queue_bounded (modify (upd_PendingEvidencePackets (delete k))).
Proof.
  apply preserves_modify. intros w. apply fewer_bounded. intros m k'. rewrite lookup_delete_is_Some. by intros [].
Qed.
#[local] Hint Resolve QueueEvidencePacket_bounded delete_bounded : vaas.
Lemma send_loop_bounded clientId entries sent : preserves queue_bounded (send_evidence_loop clientId entries sent).
Proof.
  revert sent. induction entries as [|[key packet] entries IH]; intros sent; [pres|].
  cbn [send_evidence_loop]. destruct (Nat.leb _ sent); [pres|]. pres; apply IH.
Qed.
#[local] Hint Resolve send_loop_bounded : vaas.
Lemma prune_bounded fuel : preserves queue_bounded (prune_historical fuel).
Proof. induction fuel; [pres|]. cbn [prune_historical]. pres. Qed.
#[local] Hint Resolve prune_bounded : vaas.

(** Every callback and message of the consumer keeps the evidence queue within 16
    packets per validator, each under the key of its validator and last height. *)
Lemma evidence_queue_is_bounded votes payload client packet signer :
  preserves queue_bounded (BeginBlock votes) ∧ preserves queue_bounded EndBlock ∧
  preserves queue_bounded (OnTimeoutPacket payload) ∧ preserves queue_bounded (OnRecvVSCPacketV2 client packet) ∧
  preserves queue_bounded (SetProviderClient signer client) ∧
  (∀ params, preserves queue_bounded (UpdateParams signer params)).
Proof. split_and!; intros; pres. Qed.

(** ** Closing the window *)
Lemma rebaseBitmap_spec bitmap offset span :
  0 ≤ span →
  ∃ out, rebaseBitmap bitmap offset span = Some out ∧ Z.of_nat (length out) = (span + 7) / 8 ∧
    ∀ i, Bitmap.BitmapIsSet out i = bool_decide (0 ≤ i < span) && Bitmap.BitmapIsSet bitmap (offset + i).
Proof.
  intros Hspan. unfold rebaseBitmap. rewrite Z.quot_div_nonneg by lia.
  pose proof (Z.div_pos (span + 7) 8 ltac:(lia) ltac:(lia)).
  enough (∀ n : nat, Z.of_nat n ≤ span → ∃ out,
    foldl (λ out i, out ← out; if Bitmap.BitmapIsSet bitmap (offset + i) then Bitmap.BitmapSet out i else Some out)
      (Some (Bitmap.zeros ((span + 7) / 8))) (seqZ 0 (Z.of_nat n)) = Some out ∧
    Z.of_nat (length out) = (span + 7) / 8 ∧
    ∀ i, Bitmap.BitmapIsSet out i = bool_decide (0 ≤ i < Z.of_nat n) && Bitmap.BitmapIsSet bitmap (offset + i)) as Hn.
  { specialize (Hn (Z.to_nat span)). rewrite Z2Nat.id in Hn by lia. by apply Hn. }
  induction n as [|n IH]; intros Hle.
  - eexists. split; [done|]. split; [by apply Bitmap.zeros_length|].
    intros i. rewrite Bitmap.zeros_unset, bool_decide_false by lia. done.
  - destruct IH as (out & E & Hlen & Hbits); [lia|].
    rewrite seqZ_S. rewrite foldl_app, E. cbn [foldl mbind option_bind]. rewrite Z.add_0_l.
    destruct (Bitmap.BitmapIsSet bitmap (offset + Z.of_nat n)) eqn:Eb.
    + destruct (Bitmap.BitmapSet_Some out (Z.of_nat n)) as (out' & Es & Hl'); [lia| |].
      { rewrite Hlen. pose proof (Z.div_mod (span + 7) 8 ltac:(lia)). pose proof (Z.mod_pos_bound (span + 7) 8 ltac:(lia)).
        apply Z.div_lt_upper_bound; lia. }
      exists out'. split; [done|]. split; [lia|]. intros i. rewrite (Bitmap.BitmapSet_IsSet _ _ _ _ Es), Hbits.
      case_decide as Ei; [subst i; by rewrite Eb, bool_decide_true by lia|].
      f_equal. apply bool_decide_ext. lia.
    + exists out. split; [done|]. split; [done|]. intros i. rewrite Hbits.
      destruct (decide (i = Z.of_nat n)) as [->|Hne]; [by rewrite Eb, !andb_false_r|].
      f_equal. apply bool_decide_ext. lia.
Qed.

Lemma countMissedBits_misses bm s hist addr from to :
  (∀ i, from ≤ i < to → Bitmap.BitmapIsSet bm i = absent hist addr (s + i)) →
  Bitmap.countMissedBits bm from to = misses hist addr (s + from) (s + to).
Proof.
  intros Hb. unfold Bitmap.countMissedBits, misses. replace (s + to - (s + from)) with (to - from) by lia.
  rewrite <-fmap_add_seqZ. f_equal. symmetry. apply length_filter_fmap.
  intros i Hi%elem_of_seqZ. rewrite Hb by lia. done.
Qed.

Context `{!LegacyDecLaws}.

(** What a report says of the window [s, s + window). *)
Definition exact_report (hist : list (Z * list VoteInfo)) (s window : Z) (minSigned : dec) (addr : string)
    (p : EvidencePacketData) : Prop :=
  ValidatorAddr p = addr ∧ first_seen hist addr = Some (WindowStartHeight p) ∧ WindowEndHeight p = s + window - 1 ∧
  SignedBlocksWindow p = window ∧ MinSignedPerWindow p = minSigned ∧
  (∀ i, 0 ≤ i < Span p → Bitmap.BitmapIsSet (MissedBlocksBitmap p) i = absent hist addr (WindowStartHeight p + i)) ∧
  MaxMissed (mkDowntimeParams window minSigned) < MissedCount p ∧
  EvidencePacketData_Validate p = Ok tt.
Definition few_misses (hist : list (Z * list VoteInfo)) (s window : Z) (minSigned : dec) (addr : string) : Prop :=
  ∀ first, first_seen hist addr = Some first →
    misses hist addr first (s + window) ≤ MaxMissed (mkDowntimeParams window minSigned).
Definition reported hist s window minSigned addr (o : option EvidencePacketData) : Prop :=
  match o with
  | Some p => exact_report hist s window minSigned addr p
  | None => few_misses hist s window minSigned addr
  end.

(** A window of heights the tracker can be in. *)
Record in_window (hist : list (Z * list VoteInfo)) (s window : Z) (minSigned : dec) : Prop := {
  iw_params : validDowntimeParams (mkDowntimeParams window minSigned) = true;
  iw_size : in_int64 (window + 7);
  iw_end : 0 ≤ s ∧ in_int64 (s + window);
  iw_sorted : StronglySorted Z.lt hist.*1;
  iw_heights h : h ∈ hist.*1 → s ≤ h < s + window ∧ 0 < h;
  iw_addr h vs : (h, vs) ∈ hist → "" ∉ vs.*1;
}.
(** Parameters a window can be tracked under: what the code checks, and a
    window whose bitmap length does not overflow. *)
Definition usable (window : Z) (minSigned : dec) : Prop :=
  validDowntimeParams (mkDowntimeParams window minSigned) = true ∧ in_int64 (window + 7).
Lemma usable_limit window minSigned :
  usable window minSigned →
  0 < window ∧ dec_IsNil minSigned = false ∧ dec_IsPositive minSigned = true ∧ dec_LT minSigned dec_One = true ∧
  0 ≤ MaxMissed (mkDowntimeParams window minSigned).
Proof.
  intros [Hv Hs]. unfold validDowntimeParams in Hv. cbn in Hv.
  destruct (Z.leb_spec window 0); [done|]. destruct (dec_IsNil minSigned); [done|]. cbn in Hv.
  destruct (dec_IsPositive minSigned) eqn:Ep; [|done]. destruct (dec_LT minSigned dec_One) eqn:El; [|done].
  split_and!; try done. unfold MaxMissed. cbn.
  pose proof (dec_ceil_fraction minSigned window Ep El ltac:(lia)). unfold in_int64, int64_min, int64_max in *.
  rewrite wrap64_id; unfold in_int64, int64_min, int64_max; lia.
Qed.
Lemma window_limit hist s window minSigned :
  in_window hist s window minSigned →
  0 < window ∧ dec_IsNil minSigned = false ∧ dec_IsPositive minSigned = true ∧ dec_LT minSigned dec_One = true ∧
  0 ≤ MaxMissed (mkDowntimeParams window minSigned).
Proof. intros [Hv Hs _ _ _ _]. by apply usable_limit. Qed.

(** A packet for the part of a window from [first] on passes the wire check. *)
Lemma window_packet_valid addr first out s window minSigned :
  let p := NewEvidencePacketData addr first out (s + window - first) window minSigned in
  addr ≠ "" → usable window minSigned → 0 ≤ s → in_int64 (s + window) → s ≤ first < s + window → 0 < first →
  Z.of_nat (length out) = (s + window - first + 7) / 8 →
  WindowEndHeight p = s + window - 1 ∧ Span p = s + window - first ∧
  (0 < MissedCount p → EvidencePacketData_Validate p = Ok tt).
Proof.
  intros p Hna Hu Hs0 Hend Hrange Hfpos Hlen. destruct (usable_limit _ _ Hu) as (Hw & Hnil & Hpos & Hlt & _).
  destruct Hu as [_ H64]. unfold in_int64, int64_min, int64_max in *.
  assert (WindowEndHeight p = s + window - 1) as Eend.
  { cbn. rewrite wrap64_id; unfold in_int64, int64_min, int64_max; lia. }
  assert (Span p = s + window - first) as Esp.
  { unfold Span. rewrite Eend. cbn. rewrite wrap64_id; unfold in_int64, int64_min, int64_max; lia. }
  split; [done|]. split; [done|]. intros Hcount. unfold EvidencePacketData_Validate. rewrite Esp, Eend.
  change (ValidatorAddr p) with addr. change (WindowStartHeight p) with first. change (Infraction_ p) with INFRACTION_DOWNTIME.
  change (MissedBlocksBitmap p) with out. change (SignedBlocksWindow p) with window. change (MinSignedPerWindow p) with minSigned.
  rewrite (proj2 (String.eqb_neq _ _) Hna), Hnil.
  rewrite wrap64_id, Z.quot_div_nonneg, Hlen by (unfold in_int64, int64_min, int64_max; lia).
  unfold dec_LTE, dec_GTE. fold (dec_IsPositive minSigned). rewrite Hpos, Hlt, Z.eqb_refl. cbn [negb orb bool_decide].
  rewrite bool_decide_true by done. cbn [negb].
  repeat match goal with |- context [?a <=? ?b] => destruct (Z.leb_spec a b); [lia|] end.
  repeat match goal with |- context [?a <? ?b] => destruct (Z.ltb_spec a b); [lia|] end.
  done.
Qed.
Lemma first_seen_in hist addr f : first_seen hist addr = Some f → ∃ vs, (f, vs) ∈ hist ∧ addr ∈ vs.*1.
Proof.
  induction hist as [|[h vs] hist IH]; [done|]. rewrite first_seen_cons. case_decide.
  - intros [= <-]. exists vs. split; [by left|done].
  - intros (vs' & ? & ?)%IH. exists vs'. split; [by right|done].
Qed.
Lemma misses_positive hist addr from to :
  0 < misses hist addr from to → ∃ h, from ≤ h < to ∧ absent hist addr h = true.
Proof.
  unfold misses. intros Hpos. destruct (filter _ (seqZ from (to - from))) as [|h l] eqn:E; [cbn in Hpos; lia|].
  assert (h ∈ filter (λ h, absent hist addr h = true) (seqZ from (to - from))) as Hin by (rewrite E; by left).
  apply list_elem_of_filter in Hin as [Ha Hh%elem_of_seqZ]. exists h. split; [lia|done].
Qed.

Lemma packet_valid hist s window minSigned addr first out :
  in_window hist s window minSigned → first_seen hist addr = Some first →
  Z.of_nat (length out) = (s + window - first + 7) / 8 →
  (∀ i, Bitmap.BitmapIsSet out i = bool_decide (0 ≤ i < s + window - first) && absent hist addr (first + i)) →
  MaxMissed (mkDowntimeParams window minSigned) < misses hist addr first (s + window) →
  exact_report hist s window minSigned addr (NewEvidencePacketData addr first out (s + window - first) window minSigned).
Proof.
  intros Hin Hf Hlen Hbits Hover.
  destruct (window_limit hist s window minSigned Hin) as (_ & _ & _ & _ & Hmax).
  destruct (first_seen_in _ _ _ Hf) as (vs & Hvs & Haddr). destruct Hin as [Hv H64 [Hs0 Hend] _ Hh Hne].
  destruct (Hh first) as [Hrange Hfpos]; [apply list_elem_of_fmap; by exists (first, vs)|].
  assert (addr ≠ "") as Hna by (intros ->; by eapply Hne).
  set (p := NewEvidencePacketData addr first out (s + window - first) window minSigned).
  destruct (window_packet_valid addr first out s window minSigned) as (Eend & Espan & Hval); try done.
  fold p in Eend, Espan, Hval.
  assert (MissedCount p = misses hist addr first (s + window)) as Ecount.
  { unfold MissedCount. rewrite Espan. change (MissedBlocksBitmap p) with out.
    rewrite (countMissedBits_misses out first hist addr); [f_equal; lia|].
    intros i Hi. rewrite Hbits, bool_decide_true by lia. done. }
  unfold exact_report. rewrite Ecount, Espan. split_and!; try done; [|apply Hval; lia].
  intros i Hi. change (MissedBlocksBitmap p) with out. by rewrite Hbits, bool_decide_true by lia.
Qed.

Lemma window_packet_spec hist s window minSigned addr bm c w :
  in_window hist s window minSigned → tracked s window hist w → MissedBlockBitmaps w !! addr = Some bm →
  ∃ o, window_packet s window minSigned (default s (FirstTrackedHeights w !! addr)) addr bm c w = (Ok o, w) ∧
    reported hist s window minSigned addr o.
Proof.
  intros Hin Htr Hbm. pose proof (window_limit hist s window minSigned Hin) as (Hw & _ & _ & _ & Hmax).
  set (first := Z.max s (default s (FirstTrackedHeights w !! addr))).
  assert (∀ f, first_seen hist addr = Some f → first = f ∧ s ≤ f < s + window) as Hfirst.
  { intros f Hf. destruct (first_seen_in _ _ _ Hf) as (vs & Hvs & _).
    destruct (iw_heights _ _ _ _ Hin f) as [? _]; [apply list_elem_of_fmap; by exists (f, vs)|].
    subst first. rewrite (tr_first _ _ _ _ Htr), Hf. cbn. lia. }
  assert (s ≤ first) as Hge by lia.
  assert (Bitmap.countMissedBits bm (first - s) window = misses hist addr first (s + window)) as Ecount.
  { rewrite (countMissedBits_misses bm s hist addr); [f_equal; lia|].
    intros i Hi. eapply tr_bits; [done..|lia]. }
  unfold window_packet. cbv zeta. fold first. rewrite Ecount.
  destruct (Z.leb_spec (misses hist addr first (s + window)) (MaxMissed (mkDowntimeParams window minSigned))) as [Hle|Hgt].
  - exists None. split; [done|]. intros f Hf. by destruct (Hfirst f Hf) as [<- _].
  - destruct (misses_positive hist addr first (s + window)) as (h & Hh & Ha); [lia|].
    destruct (absent_first hist addr h (iw_sorted _ _ _ _ Hin) Ha) as (f & Hf & _).
    destruct (Hfirst f Hf) as [-> Hfr].
    destruct (rebaseBitmap_spec bm (f - s) (s + window - f)) as (out & Eout & Hlen & Hbits); [lia|].
    rewrite bind_run, Eout. cbn [or_panic mret M_ret]. eexists. split; [done|].
    apply packet_valid; try done. intros i. rewrite Hbits. case_bool_decide; [cbn|done].
    rewrite (tr_bits _ _ _ _ Htr _ _ _ Hbm) by lia. f_equal. lia.
Qed.

(** The tracker's state, which nothing but the tracker writes. *)
Definition same_tracker (w v : CWorld) : Prop :=
  MissedBlockBitmaps v = MissedBlockBitmaps w ∧ FirstTrackedHeights v = FirstTrackedHeights w ∧
  CParams v = CParams w ∧ StagedDowntimeParams v = StagedDowntimeParams w.
Lemma queue_report hist s window minSigned addr p c v :
  exact_report hist s window minSigned addr p →
  (∀ k, is_Some (PendingEvidencePackets v !! k) → k.2 ≤ s + window - 1) →
  ∃ v', QueueEvidencePacket p c v = (Ok tt, v') ∧ same_tracker v v' ∧
    (∀ k, is_Some (PendingEvidencePackets v' !! k) → k.2 ≤ s + window - 1) ∧
    PendingEvidencePackets v' !! (addr, s + window - 1) = Some p ∧
    ∀ k, k.1 ≠ addr → PendingEvidencePackets v' !! k = PendingEvidencePackets v !! k.
Proof.
  intros (Ea & _ & Ee & _) Hold. destruct (QueueEvidencePacket_run p c v) as (v' & E & [m ->] & Hl).
  exists (upd_PendingEvidencePackets (λ _, m) v). split; [done|]. split; [done|].
  assert (pendingEvidenceKey p = (addr, s + window - 1)) as Ek by (unfold pendingEvidenceKey; by rewrite Ea, Ee).
  rewrite Ek, Ea in Hl. split_and!.
  - intros k. rewrite Hl. case_decide; [by intros []|]. destruct (decide (k = (addr, s + window - 1))) as [->|Hne]; [cbn; lia|].
    rewrite lookup_insert_ne by done. apply Hold.
  - rewrite Hl, decide_False, lookup_insert_eq; [done|]. rewrite <-Ek, <-Ea. apply newest_kept.
    intros e He. rewrite Ee. apply (Hold _ He).
  - intros k Hk. rewrite Hl, decide_False by (by intros ?%elem_of_evicted).
    rewrite lookup_insert_ne; [done|]. by intros <-.
Qed.

Definition after_staged (w : CWorld) : option ConsumerParams :=
  match StagedDowntimeParams w, CParams w with
  | Some st, Some params => Some (with_downtime params (dp_SignedBlocksWindow st) (dp_MinSignedPerWindow st))
  | _, o => o
  end.

(** Applying the staged parameters: they replace the current ones and are dropped. *)
Lemma applyStagedDowntimeParams_run c w :
  is_Some (CParams w) →
  ∃ w', applyStagedDowntimeParams c w = (Ok tt, w') ∧ StagedDowntimeParams w' = None ∧
    CParams w' = after_staged w ∧ MissedBlockBitmaps w' = MissedBlockBitmaps w ∧
    FirstTrackedHeights w' = FirstTrackedHeights w ∧ PendingEvidencePackets w' = PendingEvidencePackets w.
Proof.
  intros [params Hpar]. unfold applyStagedDowntimeParams, after_staged. rewrite bind_run. cbn [gets]. rewrite Hpar.
  destruct (StagedDowntimeParams w) as [st|] eqn:Es.
  - unfold GetConsumerParams. rewrite bind_run, bind_run. cbn [gets]. rewrite Hpar. cbn [or_panic mret M_ret].
    unfold SetParams. rewrite bind_run. cbn [modify]. eexists. by split_and!.
  - eexists. by split_and!.
Qed.

Lemma closeWindow_spec hist s window minSigned c w :
  in_window hist s window minSigned → tracked s window hist w → is_Some (CParams w) →
  (∀ k, is_Some (PendingEvidencePackets w !! k) → k.2 < s + window - 1) →
  ∃ w', closeWindow s window minSigned c w = (Ok tt, w') ∧ fresh w' ∧
    StagedDowntimeParams w' = None ∧ CParams w' = after_staged w ∧
    ∀ addr, reported hist s window minSigned addr (PendingEvidencePackets w' !! (addr, s + window - 1)).
Proof.
  intros Hin Htr [params Hpar] Hold. unfold closeWindow. rewrite bind_run. cbn [gets]. rewrite bind_run.
  match goal with |- context [for_each ?l ?f c w] => edestruct (for_each_runs (λ dn v, same_tracker w v ∧
    (∀ k, is_Some (PendingEvidencePackets v !! k) → k.2 ≤ s + window - 1) ∧
    ∀ addr, if decide (addr ∈ dn.*1) then reported hist s window minSigned addr (PendingEvidencePackets v !! (addr, s + window - 1))
            else PendingEvidencePackets v !! (addr, s + window - 1) = None) f c l w) as (w1 & E1 & Hs1 & Hk1 & Hrep) end.
  - split; [done|]. split; [intros k Hk; specialize (Hold k Hk); lia|].
    intros addr. rewrite decide_False by (cbn; set_solver). destruct (_ !! _) eqn:E; [|done].
    exfalso. specialize (Hold (addr, s + window - 1) ltac:(eauto)). cbn in Hold. lia.
  - intros dn [addr bm] rest v El ((Eb & Ef & Ec & Est) & Hk & Hdn).
    assert (MissedBlockBitmaps v !! addr = Some bm) as Hbm.
    { rewrite Eb. apply elem_of_iterate. rewrite El. set_solver. }
    assert (addr ∉ dn.*1) as Hfresh.
    { pose proof (NoDup_fst_iterate (MissedBlockBitmaps w)) as Hnd. rewrite El, fmap_app in Hnd.
      apply NoDup_app in Hnd as (_ & Hd & _). intros Ha. apply (Hd _ Ha). by left. }
    assert (tracked s window hist v) as Htrv.
    { destruct Htr as [H1 H2 H3 H4]. split; rewrite ?Eb, ?Ef; done. }
    destruct (window_packet_spec hist s window minSigned addr bm c v Hin Htrv Hbm) as (o & Eo & Ho).
    rewrite bind_run. cbn [gets]. rewrite bind_run, Eo. destruct o as [p|].
    + destruct (queue_report hist s window minSigned addr p c v Ho Hk) as (v' & Eq & (Eb' & Ef' & Ec' & Est') & Hk' & Hp & Hoth).
      exists v'. split; [exact Eq|]. split; [split_and!; congruence|]. split; [done|].
      intros a. rewrite fmap_app. cbn [fmap list_fmap fst]. destruct (decide (a = addr)) as [->|Hne].
      * rewrite decide_True by set_solver. by rewrite Hp.
      * rewrite (Hoth (a, _)) by done. specialize (Hdn a).
        destruct (decide (a ∈ dn.*1)); [rewrite decide_True by set_solver|rewrite decide_False by set_solver]; done.
    + exists v. split; [done|]. split; [done|]. split; [done|].
      intros a. rewrite fmap_app. cbn [fmap list_fmap fst]. specialize (Hdn a) as Hda. destruct (decide (a = addr)) as [->|Hne].
      * rewrite decide_True by set_solver. rewrite decide_False in Hda by done. by rewrite Hda.
      * destruct (decide (a ∈ dn.*1)); [rewrite decide_True by set_solver|rewrite decide_False by set_solver]; done.
  - rewrite E1. rewrite bind_run. cbn [modify]. rewrite bind_run. cbn [modify].
    destruct Hs1 as (_ & _ & Ec & Est).
    assert (∀ addr, reported hist s window minSigned addr (PendingEvidencePackets w1 !! (addr, s + window - 1))) as Hall.
    { intros addr. specialize (Hrep addr). case_decide as Ha; [done|]. rewrite Hrep. intros f _.
      pose proof (window_limit hist s window minSigned Hin) as (_ & _ & _ & _ & Hmax).
      assert (misses hist addr f (s + window) = 0) as ->; [|lia]. unfold misses.
      rewrite list_filter_none; [done|]. intros h _. rewrite (tr_none _ _ _ _ Htr addr h); [done|].
      destruct (MissedBlockBitmaps w !! addr) as [bm|] eqn:E; [|done]. destruct Ha.
      apply list_elem_of_fmap. exists (addr, bm). split; [done|by apply elem_of_iterate]. }
    destruct (applyStagedDowntimeParams_run c
      (upd_FirstTrackedHeights (λ _, ∅) (upd_MissedBlockBitmaps (λ _, ∅) w1))) as (w2 & E2 & Hn & Hp & Hb & Hf & He).
    { cbn. rewrite Ec. by exists params. }
    exists w2. split; [exact E2|]. split; [by split|]. split; [done|]. split; [|by rewrite He].
    rewrite Hp. unfold after_staged. cbn. by rewrite Ec, Est.
Qed.

(** ** A whole window *)
Definition downtime_of (w : CWorld) : option (Z * dec) :=
  (λ p, (cp_SignedBlocksWindow p, cp_MinSignedPerWindow p)) <$> CParams w.
Definition undisturbed (w v : CWorld) : Prop :=
  MissedBlockBitmaps v = MissedBlockBitmaps w ∧ FirstTrackedHeights v = FirstTrackedHeights w ∧ downtime_of v = downtime_of w.
Definition heights (bs : list (Ctx * list VoteInfo)) : list (Z * list VoteInfo) :=
  (λ b, (BlockHeight b.1 - 1, b.2)) <$> bs.

Lemma in_window_prefix hist h s window minSigned :
  in_window (hist ++ h) s window minSigned → in_window hist s window minSigned.
Proof.
  intros [H1 H2 H3 H4 H5 H6]. rewrite fmap_app in H4, H5. split; try done.
  - by eapply StronglySorted_app_1_l.
  - intros x Hx. apply H5. set_solver.
  - intros x vs Hx. apply (H6 x vs). set_solver.
Qed.
Lemma tracked_undisturbed s window hist w v : undisturbed w v → tracked s window hist w → tracked s window hist v.
Proof. intros (E1 & E2 & _) [H1 H2 H3 H4]. split; rewrite ?E1, ?E2; done. Qed.

Lemma track_votes_spec s window hist h votes c w :
  0 < window → in_int64 (window + 7) → s ≤ h < s + window → tracked s window hist w →
  ∃ w', for_each votes (track_vote h window (h - s)) c w = (Ok tt, w') ∧ tracked s window (hist ++ [(h, votes)]) w' ∧
    CParams w' = CParams w ∧ PendingEvidencePackets w' = PendingEvidencePackets w ∧
    StagedDowntimeParams w' = StagedDowntimeParams w.
Proof.
  intros Hw H64 Hh Htr.
  apply (for_each_runs (λ dn v, tracked s window (hist ++ [(h, dn)]) v ∧ CParams v = CParams w ∧
    PendingEvidencePackets v = PendingEvidencePackets w ∧ StagedDowntimeParams v = StagedDowntimeParams w)).
  - by split; [apply tracked_start|].
  - intros dn x rest v _ (Hv & E1 & E2 & E3).
    destruct (track_vote_tracked s window hist dn h x c v Hw H64 Hh Hv) as (v' & E & Hv' & E1' & E2' & E3').
    exists v'. split; [done|]. split; [done|]. split_and!; congruence.
Qed.

(** One block of the window. *)
Lemma track_block_spec s window minSigned hist votes c w :
  let h := BlockHeight c - 1 in
  in_window (hist ++ [(h, votes)]) s window minSigned → (window | s) →
  tracked s window hist w → downtime_of w = Some (window, minSigned) →
  ∃ w1, tracked s window (hist ++ [(h, votes)]) w1 ∧ CParams w1 = CParams w ∧
    PendingEvidencePackets w1 = PendingEvidencePackets w ∧ StagedDowntimeParams w1 = StagedDowntimeParams w ∧
    TrackMissedBlocks votes c w =
      when (h =? s + window - 1) (closeWindow s window minSigned) c w1.
Proof.
  intros h Hin [k Hk] Htr Hdt. pose proof (window_limit _ _ _ _ Hin) as (Hw & _).
  destruct (iw_heights _ _ _ _ Hin h) as [Hh Hpos]; [rewrite fmap_app; set_solver|].
  destruct (track_votes_spec s window hist h votes c w Hw (iw_size _ _ _ _ Hin) Hh Htr) as (w1 & E & Htr1 & E1 & E2 & E3).
  exists w1. split_and!; try done. unfold TrackMissedBlocks. rewrite bind_run. cbn [asks]. fold h.
  destruct (Z.leb_spec h 0); [lia|]. unfold GetDowntimeParams, GetConsumerParams, downtime_of in *.
  destruct (CParams w) as [params|] eqn:Ep; [|done]. injection Hdt as Edw Edm.
  repeat (rewrite bind_run; cbn [gets]). rewrite Ep. cbn [or_panic mret M_ret]. rewrite Edw, Edm.
  destruct (Z.leb_spec window 0); [lia|]. cbv zeta. rewrite Z.quot_div_nonneg by lia.
  assert (h / window * window = s) as ->.
  { subst s. f_equal. symmetry. apply (Z.div_unique _ _ _ (h - k * window)); lia. }
  rewrite bind_run, E. done.
Qed.

(** What else the chain does leaves the tracker alone. *)
Lemma UpdateParams_undisturbed w signer params : preserves (undisturbed w) (UpdateParams signer params).
Proof.
  unfold UpdateParams. intros c v (E1 & E2 & E3).
  rewrite bind_run. destruct (String.eqb GetAuthority signer); [|done]. cbn [guard_err mret M_ret].
  rewrite bind_run. destruct (ConsumerParams_Validate params); [|done]. cbn [guard_err mret M_ret].
  rewrite bind_run. unfold GetConsumerParams. rewrite bind_run. cbn [gets].
  destruct (CParams v) as [current|] eqn:Ep; [|done]. cbn. split_and!; [done|done|].
  rewrite <-E3. unfold downtime_of. by rewrite Ep.
Qed.
Lemma send_loop_undisturbed w clientId entries sent : preserves (undisturbed w) (send_evidence_loop clientId entries sent).
Proof.
  revert sent. induction entries as [|[key packet] entries IH]; intros sent; [pres|].
  cbn [send_evidence_loop]. destruct (Nat.leb _ sent); [pres|]. pres; apply IH.
Qed.
#[local] Hint Resolve UpdateParams_undisturbed send_loop_undisturbed : vaas.
Lemma others_undisturbed w payload client packet signer params :
  preserves (undisturbed w) EndBlock ∧ preserves (undisturbed w) (OnTimeoutPacket payload) ∧
  preserves (undisturbed w) (OnRecvVSCPacketV2 client packet) ∧ preserves (undisturbed w) (SetProviderClient signer client) ∧
  preserves (undisturbed w) (UpdateParams signer params).
Proof. split_and!; pres. Qed.

(** The blocks of a window, with whatever else happens between them. *)
Inductive window_run : list (Ctx * list VoteInfo) → CWorld → CWorld → Prop :=
  | run_start w v : undisturbed w v → window_run [] w v
  | run_block bs c votes w w1 w2 w3 :
      window_run bs w w1 → TrackMissedBlocks votes c w1 = (Ok tt, w2) → undisturbed w2 w3 →
      window_run (bs ++ [(c, votes)]) w w3.

Lemma window_run_tracked bs w0 w s window minSigned :
  window_run bs w0 w → fresh w0 → downtime_of w0 = Some (window, minSigned) → (window | s) →
  in_window (heights bs) s window minSigned → (∀ h, h ∈ (heights bs).*1 → h < s + window - 1) →
  tracked s window (heights bs) w ∧ downtime_of w = Some (window, minSigned).
Proof.
  induction 1 as [w v Hu|bs c votes w w1 w2 w3 Hr IH E Hu]; intros Hf Hdt Hs Hin Hlast.
  - split; [by eapply tracked_undisturbed, fresh_tracked|]. destruct Hu as (_ & _ & ->). done.
  - unfold heights in *. rewrite fmap_app in *. cbn [fmap list_fmap fst snd] in *.
    destruct IH as [Htr Hd]; try done; [by eapply in_window_prefix|intros h Hh; apply Hlast; rewrite fmap_app; set_solver|].
    destruct (track_block_spec s window minSigned _ votes c w1 Hin Hs Htr Hd) as (v & Hv & Ec & _ & _ & Et).
    rewrite E in Et. assert (BlockHeight c - 1 < s + window - 1) by (apply Hlast; rewrite fmap_app; set_solver).
    rewrite (proj2 (Z.eqb_neq _ _)) in Et by lia. injection Et as ->.
    split; [by eapply tracked_undisturbed|]. destruct Hu as (_ & _ & ->). unfold downtime_of in *. by rewrite Ec.
Qed.

(** C38. When a tumbling downtime window closes, a validator is reported exactly if it
    missed more blocks than allowed among those since it was first seen in the window; the
    report passes the wire check, starts at that height, spans to the window's end, and its
    bitmap marks exactly the missed heights. The tracker then starts afresh under the staged
    parameters. *)
Theorem window_reports_are_exact bs c votes w0 w s window minSigned :
  let hist := heights (bs ++ [(c, votes)]) in
  (* the tracker starts a window and follows its blocks to the last one *)
  fresh w0 → downtime_of w0 = Some (window, minSigned) → window_run bs w0 w →
  (window | s) → in_window hist s window minSigned → BlockHeight c - 1 = s + window - 1 →
  (* what is pending is about earlier windows *)
  (∀ k, is_Some (PendingEvidencePackets w !! k) → k.2 < s + window - 1) →
  ∃ w', TrackMissedBlocks votes c w = (Ok tt, w') ∧ fresh w' ∧
    StagedDowntimeParams w' = None ∧ CParams w' = after_staged w ∧
    ∀ addr, reported hist s window minSigned addr (PendingEvidencePackets w' !! (addr, s + window - 1)).
Proof.
  intros hist Hf Hdt Hr Hs Hin Hc Hold. subst hist. unfold heights in *. rewrite fmap_app in *. cbn [fmap list_fmap fst snd] in *.
  assert (∀ h, h ∈ (heights bs).*1 → h < s + window - 1) as Hlast.
  { intros h Hh. pose proof (iw_sorted _ _ _ _ Hin) as Hsort. rewrite fmap_app in Hsort. rewrite <-Hc.
    eapply (StronglySorted_app_1_elem_of Z.lt); [exact Hsort|exact Hh|cbn; set_solver]. }
  destruct (window_run_tracked bs w0 w s window minSigned Hr Hf Hdt Hs) as [Htr Hd]; [by eapply in_window_prefix|done|].
  destruct (track_block_spec s window minSigned _ votes c w Hin Hs Htr Hd) as (v & Hv & Ec & Ep & Est & Et).
  rewrite Et, (proj2 (Z.eqb_eq _ _) Hc). cbn [when].
  assert (after_staged w = after_staged v) as -> by (unfold after_staged; by rewrite Ec, Est).
  apply closeWindow_spec; try done.
  - rewrite Ec. unfold downtime_of in Hd. destruct (CParams w); [eauto|done].
  - intros k. rewrite Ep. apply Hold.
Qed.
End tracking.
