(* ===== verification/Ante.v ===== *)
(** The consumer's transaction admission (x/vaas/consumer/ante and
    app/consumer/ante_handler.go): the decorators that refuse disabled modules,
    that filter messages while the chain is unpinned, in debt or stale, and that
    demand photon fees, the fee checker, and the chain of handlers the app
    builds of them.

    An [AnteHandler] takes the transaction and the simulation flag; a decorator
    also takes the next handler. The SDK's own decorators are the parameters
    [SdkDecorators]; the context they hand on (gas meter, priority) is not
    modelled. *)
From S2P Require Import Prelude GoTime Types Externals ConsumerWorld Consumer.

(** A message: an authz [MsgExec] with what its [GetMessages] returns, [None]
    when an inner message does not decode, or any other by its type URL. *)
Inductive Msg :=
  | MsgExec (inner : option (list Msg))
  | MsgOf (typeURL : string).
Definition MsgTypeURL (msg : Msg) : string :=
  match msg with
  | MsgExec _ => "/cosmos.authz.v1beta1.MsgExec"
  | MsgOf url => url
  end.
(** [tx_Fee] is the fee and the gas limit of an [sdk.FeeTx]; any other
    transaction has [None]. *)
Record Tx := mkTx {
  GetMsgs : list Msg;
  tx_Fee : option (list Coin * Z);
}.
Definition HasPrefix (s prefix : string) : bool := String.prefix prefix s.

(** What the fee checks use of ibc-go and the SDK: the voucher denom of a base
    denom and its trace, [NewCoin]'s validation, and [Coins.IsAnyGTE]. *)
Class AnteExternals := {
  IBCDenom : string → list (string * string) → string;
  NewCoin_ok : Coin → bool;
  IsAnyGTE : list Coin → list Coin → bool;
}.
(** The node's own settings, and the mode it runs the transaction in. *)
Record NodeCtx `{LegacyDec} := mkNodeCtx {
  IsCheckTx : bool;
  MinGasPrices : list (string * dec);
}.
Arguments mkNodeCtx {_} _ _.

(** *** disabled_modules_ante.go *)
Definition hasDisabledModuleMsgs (prefixes : list string) (msg : Msg) : bool :=
  existsb (HasPrefix (MsgTypeURL msg)) prefixes.
Fixpoint nestedAuthzMsgExecCheck (prefixes : list string) (msg : Msg) : bool :=
  match msg with
  | MsgOf _ => false
  | MsgExec None => false
  | MsgExec (Some sdkMsgs) =>
      existsb (λ msg, hasDisabledModuleMsgs prefixes msg || nestedAuthzMsgExecCheck prefixes msg) sdkMsgs
  end.

(** *** photon_fee_ante.go and msg_filter_ante.go: the classes of transactions *)
Definition MsgSendPacketURL : string := "/ibc.core.channel.v2.MsgSendPacket".
Definition MsgSetProviderClientURL : string := "/vaas.consumer.v1.MsgSetProviderClient".
Definition isInfrastructureTx (msgs : list Msg) : bool :=
  match msgs with
  | [] => false
  | _ => forallb (λ msg, let url := MsgTypeURL msg in
           if String.eqb url MsgSendPacketURL then false
           else HasPrefix url "/ibc.core." || HasPrefix url "/cosmos.gov.") msgs
  end.
Definition isAllowedBootstrapTx (msgs : list Msg) : bool :=
  forallb (λ msg, let url := MsgTypeURL msg in
    HasPrefix url "/ibc." || HasPrefix url "/cosmos.gov." || String.eqb url MsgSetProviderClientURL) msgs.
Definition isAllowedRestrictedTx (msgs : list Msg) : bool :=
  forallb (λ msg, let url := MsgTypeURL msg in
    HasPrefix url "/ibc.core." || HasPrefix url "/cosmos.gov.") msgs.

Section ante.
Context `{CX : ConsumerExternals} `{AX : AnteExternals}.

Definition AnteHandler : Type := Tx → bool → CK unit.
Definition Decorator : Type := Tx → bool → AnteHandler → CK unit.

Definition DisabledModulesDecorator (prefixes : list string) : Decorator := λ tx simulate next,
  for_each (GetMsgs tx) (λ msg,
    guard_err (negb (hasDisabledModuleMsgs prefixes msg)) (ErrOther "disabled module");;
    guard_err (negb (nestedAuthzMsgExecCheck prefixes msg)) (ErrOther "disabled module"));;
  next tx simulate.

Definition MsgFilterDecorator : Decorator := λ tx simulate next,
  pinned ← gets GetProviderClientID;
  match pinned with
  | None =>
      guard_err (isAllowedBootstrapTx (GetMsgs tx)) (ErrOther "unsupported message types");;
      next tx simulate
  | Some _ =>
      inDebt ← gets IsConsumerInDebt;
      restricted ← (if (inDebt : bool) then mret true else IsVSCStale);
      if (restricted : bool) then
        if isAllowedRestrictedTx (GetMsgs tx) then next tx simulate else raise ErrConsumerInDebt
      else next tx simulate
  end.

Definition PhotonBaseDenom : string := "uphoton".
Definition ExpectedPhotonDenom (providerClientID : string) : string :=
  IBCDenom PhotonBaseDenom [("transfer", providerClientID)].
Definition PhotonFeeDecorator : Decorator := λ tx simulate next,
  match tx_Fee tx with
  | None => next tx simulate
  | Some (fee, _) =>
      enabled ← PhotonFeesEnabled;
      if negb enabled then next tx simulate else
      if isInfrastructureTx (GetMsgs tx) then next tx simulate else
      pinned ← gets GetProviderClientID;
      routable ← gets HasRoutableProviderClient;
      match pinned with
      | None => next tx simulate
      | Some providerClientID =>
          if negb routable then next tx simulate else
          let expected := ExpectedPhotonDenom providerClientID in
          guard_err (negb (Coins_IsZero fee && negb simulate)) ErrInvalidFeeDenom;;
          for_each fee (λ coin, guard_err (String.eqb (Denom coin) expected) ErrInvalidFeeDenom);;
          next tx simulate
      end
  end.

(** *** fee_checker.go *)
Definition txPriority (fee : list Coin) (gas : Z) : Z :=
  if gas =? 0 then 0 else
  foldl (λ priority c,
    let gasPrice := Z.quot (Amount c) gas in
    let p := if (- 2 ^ 63 <=? gasPrice) && (gasPrice <=? int64_max) then gasPrice else int64_max in
    if (priority =? 0) || (p <? priority) then p else priority) 0 fee.
Definition requiredFee (gas : Z) (gp : string * dec) : Coin :=
  let glDec := dec_NewDec (wrap64 gas) in
  mkCoin gp.1 (dec_RoundInt (dec_Ceil (dec_Mul gp.2 glDec))).
Definition InfrastructureExemptTxFeeChecker (node : NodeCtx) (tx : Tx) : CK (list Coin * Z) :=
  '(feeCoins, gas) ← of_option (tx_Fee tx) ErrTxDecode;
  (if IsCheckTx node && negb (isInfrastructureTx (GetMsgs tx))
      && negb (forallb (λ gp, dec_IsZero gp.2) (MinGasPrices node)) then
     requiredFees ← map_each (λ gp,
       let coin := requiredFee gas gp in
       or_panic (if NewCoin_ok coin then Some coin else None)) (MinGasPrices node);
     guard_err (IsAnyGTE feeCoins requiredFees) ErrInsufficientFee
   else mret tt);;
  mret (feeCoins, txPriority feeCoins (wrap64 gas)).

(** *** app/consumer/ante_handler.go

    [ChainAnteDecorators] of the SDK: each decorator is given the rest of the
    chain; the end of it succeeds. *)
Fixpoint ChainAnteDecorators (chain : list Decorator) : AnteHandler :=
  match chain with
  | [] => λ _ _, mret tt
  | d :: rest => λ tx simulate, d tx simulate (ChainAnteDecorators rest)
  end.
Record SdkDecorators := mkSdkDecorators {
  SetUpContext : Decorator;
  ExtensionOptions : Decorator;
  ValidateBasic : Decorator;
  TxTimeoutHeight : Decorator;
  ValidateMemo : Decorator;
  ConsumeGasForTxSize : Decorator;
  DeductFee : (Tx → CK (list Coin * Z)) → Decorator;
  SetPubKey : Decorator;
  ValidateSigCount : Decorator;
  SigGasConsume : Decorator;
  SigVerification : Decorator;
  IncrementSequence : Decorator;
  RedundantRelay : Decorator;
}.
Definition txFeeCheckerOrDefault (node : NodeCtx) (checker : option (Tx → CK (list Coin * Z)))
  : Tx → CK (list Coin * Z) :=
  default (InfrastructureExemptTxFeeChecker node) checker.
Definition NewAnteHandler (node : NodeCtx) (TxFeeChecker : option (Tx → CK (list Coin * Z)))
    (sdk : SdkDecorators) : AnteHandler :=
  ChainAnteDecorators [
    SetUpContext sdk;
    ExtensionOptions sdk;
    DisabledModulesDecorator ["/cosmos.evidence"; "/cosmos.slashing"];
    ValidateBasic sdk;
    MsgFilterDecorator;
    TxTimeoutHeight sdk;
    ValidateMemo sdk;
    ConsumeGasForTxSize sdk;
    PhotonFeeDecorator;
    DeductFee sdk (txFeeCheckerOrDefault node TxFeeChecker);
    SetPubKey sdk;
    ValidateSigCount sdk;
    SigGasConsume sdk;
    SigVerification sdk;
    IncrementSequence sdk;
    RedundantRelay sdk].
End ante.
