(* ===== verification/AnteProofs.v ===== *)
(** Proofs about the consumer's admission of transactions: what the app's chain
    of handlers lets through, in each state of the consumer. *)
From S2P Require Import Prelude GoTime Types Externals ConsumerWorld Consumer Ante.

(** [carries msg m]: [m] is [msg], or a message wrapped in it at any depth of
    authz executions that decode. *)
Inductive carries : Msg → Msg → Prop :=
  | carries_self m : carries m m
  | carries_exec msgs x m : x ∈ msgs → carries x m → carries (MsgExec (Some msgs)) m.

Fixpoint Msg_ind' (P : Msg → Prop) (Hurl : ∀ url, P (MsgOf url)) (Hnone : P (MsgExec None))
    (Hsome : ∀ msgs, Forall P msgs → P (MsgExec (Some msgs))) (m : Msg) : P m :=
  match m with
  | MsgOf url => Hurl url
  | MsgExec None => Hnone
  | MsgExec (Some msgs) => Hsome msgs
      ((fix go l : Forall P l := match l with
        | [] => Forall_nil_2 P
        | x :: l' => Forall_cons_2 P x l' (Msg_ind' P Hurl Hnone Hsome x) (go l')
        end) msgs)
  end.

Lemma existsb_elem {A} (f : A → bool) l : existsb f l = true ↔ ∃ x, x ∈ l ∧ f x = true.
Proof. rewrite existsb_exists. by setoid_rewrite list_elem_of_In. Qed.
Lemma forallb_elem {A} (f : A → bool) l : forallb f l = true ↔ ∀ x, x ∈ l → f x = true.
Proof. rewrite forallb_forall. by setoid_rewrite list_elem_of_In. Qed.

(** The recursion of [DisabledModulesDecorator] reaches what a message carries. *)
Definition disabled (prefixes : list string) (msg : Msg) : bool :=
  hasDisabledModuleMsgs prefixes msg || nestedAuthzMsgExecCheck prefixes msg.
Lemma disabled_iff prefixes msg :
  disabled prefixes msg = true ↔ ∃ m, carries msg m ∧ hasDisabledModuleMsgs prefixes m = true.
Proof.
  unfold disabled. rewrite orb_true_iff. split.
  - intros [H|H]; [exists msg; by split; [constructor|]|]. revert H.
    induction msg as [url| |msgs IH] using Msg_ind'; [done..|]. cbn.
    intros (x & Hx & [H|H]%orb_true_iff)%existsb_elem.
    + exists x. split; [|done]. eapply carries_exec; [done|constructor].
    + rewrite Forall_forall in IH. destruct (IH x Hx H) as (m & Hm & Hd).
      exists m. split; [by eapply carries_exec|done].
  - intros (m & Hc & Hd). induction Hc as [m|msgs x m Hx Hc IH]; [by left|right].
    cbn. apply existsb_elem. exists x. split; [done|]. apply orb_true_iff. by apply IH.
Qed.

Section ante.
Context `{CX : ConsumerExternals} `{AX : AnteExternals}.

(** *** The policy, as predicates *)
Definition bootstrap_message (msg : Msg) : Prop :=
  HasPrefix (MsgTypeURL msg) "/ibc." = true ∨ HasPrefix (MsgTypeURL msg) "/cosmos.gov." = true ∨
  MsgTypeURL msg = MsgSetProviderClientURL.
Definition recovery_message (msg : Msg) : Prop :=
  HasPrefix (MsgTypeURL msg) "/ibc.core." = true ∨ HasPrefix (MsgTypeURL msg) "/cosmos.gov." = true.
Definition infrastructure (tx : Tx) : Prop :=
  GetMsgs tx ≠ [] ∧ ∀ msg, msg ∈ GetMsgs tx → recovery_message msg ∧ MsgTypeURL msg ≠ MsgSendPacketURL.
Definition restricted (params : ConsumerParams) (c : Ctx) (w : CWorld) : Prop :=
  IsConsumerInDebt w = true ∨
  cp_SafeModeThreshold params < time_Sub (BlockTime c) (default (BlockTime c) (LastVSCRecvTime w)).

Record policy (node : NodeCtx) (params : ConsumerParams) (tx : Tx) (simulate : bool) (c : Ctx) (w : CWorld) : Prop := {
  (* nothing of a disabled module, wrapped in executions or not *)
  no_disabled_module msg m : msg ∈ GetMsgs tx → carries msg m →
    HasPrefix (MsgTypeURL m) "/cosmos.evidence" = false ∧ HasPrefix (MsgTypeURL m) "/cosmos.slashing" = false;
  (* the state of the consumer decides which messages pass *)
  bootstrap_only msg : ProviderClientID w = None → msg ∈ GetMsgs tx → bootstrap_message msg;
  recovery_only msg : is_Some (ProviderClientID w) → restricted params c w → msg ∈ GetMsgs tx → recovery_message msg;
  (* with the policy on, a user's fee is in photon vouchers *)
  photon_fee fee gas client : tx_Fee tx = Some (fee, gas) → cp_PhotonFeesEnabled params = true →
    ¬ infrastructure tx → ProviderClientID w = Some client → is_Some (c_GetClientCounterparty (c_ibc w) client) →
    (simulate = false → ∃ coin, coin ∈ fee ∧ Amount coin ≠ 0) ∧
    ∀ coin, coin ∈ fee → Denom coin = ExpectedPhotonDenom client;
  (* unless the transaction is only simulated, its fee can be deducted, and
     meets the node's floor while it is checked *)
  fee_tx : simulate = false → is_Some (tx_Fee tx);
  fee_floor fee gas : simulate = false → tx_Fee tx = Some (fee, gas) → IsCheckTx node = true →
    ¬ infrastructure tx → (∃ gp, gp ∈ MinGasPrices node ∧ dec_IsZero gp.2 = false) →
    (∀ gp, gp ∈ MinGasPrices node → NewCoin_ok (requiredFee gas gp) = true) ∧
    IsAnyGTE fee (requiredFee gas <$> MinGasPrices node) = true;
}.

(** *** The decorators as gates *)
Definition hands_on (d : Decorator) (tx : Tx) (simulate : bool) (c : Ctx) (w : CWorld) : Prop :=
  ∀ next, d tx simulate next c w = next tx simulate c w.
Definition refuses (d : Decorator) (tx : Tx) (simulate : bool) (c : Ctx) (w : CWorld) : Prop :=
  ∃ r, is_ok r = false ∧ ∀ next, d tx simulate next c w = (r, w).
Definition gate (d : Decorator) (P : Prop) (tx : Tx) (simulate : bool) (c : Ctx) (w : CWorld) : Prop :=
  (P ∧ hands_on d tx simulate c w) ∨ (¬ P ∧ refuses d tx simulate c w).

Lemma for_each_guard {A} (f : A → bool) e (l : list A) c (w : CWorld) :
  for_each l (λ x, guard_err (f x) e) c w = (if forallb f l then Ok tt else Err e, w).
Proof.
  induction l as [|x l IH]; [done|]. cbn [for_each forallb]. rewrite bind_run.
  destruct (f x); cbn [guard_err mret M_ret raise andb]; [apply IH|done].
Qed.

Lemma DisabledModules_gate prefixes tx simulate c w :
  gate (DisabledModulesDecorator prefixes) (∀ msg, msg ∈ GetMsgs tx → disabled prefixes msg = false) tx simulate c w.
Proof.
  unfold gate, hands_on, refuses, DisabledModulesDecorator, disabled.
  assert (∀ msgs, for_each msgs (λ msg,
      guard_err (negb (hasDisabledModuleMsgs prefixes msg)) (ErrOther "disabled module");;
      guard_err (negb (nestedAuthzMsgExecCheck prefixes msg)) (ErrOther "disabled module")) c w =
    (if forallb (λ msg, negb (disabled prefixes msg)) msgs then Ok tt else Err (ErrOther "disabled module"), w)) as E.
  { induction msgs as [|m msgs IH]; [done|]. cbn [for_each forallb]. unfold disabled at 1.
    rewrite bind_run, bind_run. destruct (hasDisabledModuleMsgs prefixes m); [done|].
    destruct (nestedAuthzMsgExecCheck prefixes m); [done|]. apply IH. }
  destruct (forallb (λ msg, negb (disabled prefixes msg)) (GetMsgs tx)) eqn:Ef.
  - left. rewrite forallb_elem in Ef. split.
    + intros msg Hm. by apply negb_true_iff, (Ef msg).
    + intros next. by rewrite bind_run, E, (proj2 (forallb_elem _ _) Ef).
  - right. split.
    + intros H. apply not_true_iff_false in Ef. apply Ef, forallb_elem. intros m Hm. by apply negb_true_iff, H.
    + exists (Err (ErrOther "disabled module")). split; [done|]. intros next. by rewrite bind_run, E, Ef.
Qed.

Lemma isAllowedBootstrapTx_iff msgs :
  isAllowedBootstrapTx msgs = true ↔ ∀ msg, msg ∈ msgs → bootstrap_message msg.
Proof.
  unfold isAllowedBootstrapTx, bootstrap_message. rewrite forallb_elem. cbn.
  setoid_rewrite orb_true_iff. setoid_rewrite orb_true_iff. setoid_rewrite String.eqb_eq.
  split; intros H msg Hm; specialize (H msg Hm); tauto.
Qed.
Lemma isAllowedRestrictedTx_iff msgs :
  isAllowedRestrictedTx msgs = true ↔ ∀ msg, msg ∈ msgs → recovery_message msg.
Proof.
  unfold isAllowedRestrictedTx, recovery_message. rewrite forallb_elem. cbn.
  by setoid_rewrite orb_true_iff.
Qed.
Lemma isInfrastructureTx_iff tx : isInfrastructureTx (GetMsgs tx) = true ↔ infrastructure tx.
Proof.
  unfold isInfrastructureTx, infrastructure, recovery_message.
  destruct (GetMsgs tx) as [|m ms]; [naive_solver|]. rewrite forallb_elem. cbn zeta.
  split.
  - intros H. split; [done|]. intros msg Hm. specialize (H msg Hm).
    destruct (String.eqb_spec (MsgTypeURL msg) MsgSendPacketURL); [done|]. split; [by apply orb_true_iff|done].
  - intros [_ H] msg Hm. destruct (H msg Hm) as [H1 H2].
    destruct (String.eqb_spec (MsgTypeURL msg) MsgSendPacketURL); [done|]. by apply orb_true_iff.
Qed.

(** A check, and the condition it decides. *)
Lemma gate_guard (d : Decorator) (b : bool) (P : Prop) e tx simulate c w :
  (b = true ↔ P) → (∀ next, d tx simulate next c w = if b then next tx simulate c w else (e, w)) →
  is_ok e = false → gate d P tx simulate c w.
Proof.
  intros HP Hd He. destruct b.
  - left. split; [by apply HP|]. intros next. by rewrite Hd.
  - right. split; [by intros H%HP|]. exists e. split; [done|]. intros next. by rewrite Hd.
Qed.
Lemma gate_equiv (d : Decorator) (P Q : Prop) tx simulate c w :
  (P ↔ Q) → gate d P tx simulate c w → gate d Q tx simulate c w.
Proof. unfold gate. tauto. Qed.
Lemma gate_open (d : Decorator) (P : Prop) tx simulate c w : P → hands_on d tx simulate c w → gate d P tx simulate c w.
Proof. by left. Qed.

Lemma IsVSCStale_run params c w :
  CParams w = Some params →
  IsVSCStale c w = (Ok (cp_SafeModeThreshold params <? time_Sub (BlockTime c) (default (BlockTime c) (LastVSCRecvTime w))), w).
Proof.
  intros Hp. unfold IsVSCStale, GetLastVSCRecvTime, GetConsumerParams.
  repeat (rewrite bind_run; cbn [asks gets]). by rewrite Hp.
Qed.

Lemma MsgFilter_gate params tx simulate c w :
  CParams w = Some params →
  gate MsgFilterDecorator
    (∀ msg, msg ∈ GetMsgs tx → (ProviderClientID w = None → bootstrap_message msg) ∧
       (is_Some (ProviderClientID w) → restricted params c w → recovery_message msg)) tx simulate c w.
Proof.
  intros Hp. unfold restricted. pose proof (IsVSCStale_run params c w Hp) as Es.
  destruct (ProviderClientID w) as [client|] eqn:Ec.
  - set (stale := cp_SafeModeThreshold params <? _) in Es.
    destruct (IsConsumerInDebt w || stale) eqn:Er.
    + eapply (gate_guard _ (isAllowedRestrictedTx (GetMsgs tx)) _ (Err ErrConsumerInDebt)); [|intros next|done].
      * rewrite isAllowedRestrictedTx_iff. split; intros H msg Hm; [split; [done|intros _ _; by apply H]|].
        apply (H msg Hm); [by eexists|]. apply orb_true_iff in Er as [Er|Er]; [by left|right; by apply Z.ltb_lt].
      * unfold MsgFilterDecorator, GetProviderClientID. rewrite bind_run. cbn [gets]. rewrite Ec, bind_run. cbn [gets].
        rewrite bind_run. destruct (IsConsumerInDebt w); cbn [orb] in Er; [|rewrite Es, Er]; cbn [mret M_ret];
          by destruct (isAllowedRestrictedTx _).
    + apply gate_open.
      * intros msg _. split; [done|]. intros _ [Hd|Hs]; apply orb_false_iff in Er as [Er1 Er2]; [congruence|].
        apply Z.ltb_ge in Er2. lia.
      * intros next. unfold MsgFilterDecorator, GetProviderClientID. rewrite bind_run. cbn [gets]. rewrite Ec, bind_run.
        cbn [gets]. apply orb_false_iff in Er as [-> Er]. by rewrite bind_run, Es, Er.
  - eapply (gate_guard _ (isAllowedBootstrapTx (GetMsgs tx)) _ (Err (ErrOther "unsupported message types"))); [|intros next|done].
    + rewrite isAllowedBootstrapTx_iff. split; intros H msg Hm; [split; [intros _; by apply H|by intros []]|].
      by apply (H msg Hm).
    + unfold MsgFilterDecorator, GetProviderClientID. rewrite bind_run. cbn [gets]. rewrite Ec, bind_run.
      by destruct (isAllowedBootstrapTx _).
Qed.

Definition photon_policy (params : ConsumerParams) (tx : Tx) (simulate : bool) (w : CWorld) : Prop :=
  ∀ fee gas client, tx_Fee tx = Some (fee, gas) → cp_PhotonFeesEnabled params = true →
    ¬ infrastructure tx → ProviderClientID w = Some client → is_Some (c_GetClientCounterparty (c_ibc w) client) →
    (simulate = false → ∃ coin, coin ∈ fee ∧ Amount coin ≠ 0) ∧
    ∀ coin, coin ∈ fee → Denom coin = ExpectedPhotonDenom client.

Lemma Coins_IsZero_false fee : Coins_IsZero fee = false ↔ ∃ coin, coin ∈ fee ∧ Amount coin ≠ 0.
Proof.
  unfold Coins_IsZero. rewrite <-not_true_iff_false, forallb_elem. split.
  - intros H. induction fee as [|x fee IH]; [destruct H; set_solver|].
    destruct (Z.eqb_spec (Amount x) 0) as [E|E]; [|exists x; set_solver].
    destruct IH as (y & Hy & Hn); [|exists y; set_solver]. intros H'. apply H. intros y [->|Hy]%elem_of_cons; [by apply Z.eqb_eq|by apply H'].
  - intros (x & Hx & Hn) H. specialize (H x Hx). by apply Z.eqb_eq in H.
Qed.

Lemma PhotonFee_gate params tx simulate c w :
  CParams w = Some params → gate PhotonFeeDecorator (photon_policy params tx simulate w) tx simulate c w.
Proof.
  intros Hp. unfold photon_policy.
  assert (PhotonFeesEnabled c w = (Ok (cp_PhotonFeesEnabled params), w)) as Ee.
  { unfold PhotonFeesEnabled, GetConsumerParams, fmap, M_fmap. by rewrite !bind_run; cbn [gets]; rewrite Hp. }
  destruct (tx_Fee tx) as [[fee gas]|] eqn:Ef;
    [|apply gate_open; [done|]; intros next; unfold PhotonFeeDecorator; by rewrite Ef].
  destruct (cp_PhotonFeesEnabled params) eqn:Een;
    [|apply gate_open; [done|]; intros next; unfold PhotonFeeDecorator; by rewrite Ef, bind_run, Ee].
  pose proof (isInfrastructureTx_iff tx) as Hi. destruct (isInfrastructureTx (GetMsgs tx)) eqn:Ei;
    [apply gate_open; [by intros ??? _ _ []; apply Hi|]; intros next; unfold PhotonFeeDecorator; by rewrite Ef, bind_run, Ee, Ei|].
  assert (¬ infrastructure tx) as Hni by (by intros H%Hi). clear Hi.
  destruct (ProviderClientID w) as [client|] eqn:Ec;
    [|apply gate_open; [done|]; intros next; unfold PhotonFeeDecorator, GetProviderClientID;
      rewrite Ef, bind_run, Ee, Ei; cbn [negb]; repeat (rewrite bind_run; cbn [gets]); by rewrite Ec].
  destruct (c_GetClientCounterparty (c_ibc w) client) as [cp|] eqn:Er;
    [|apply gate_open; [intros ??? _ _ _ [= <-] [? ?]; congruence|]; intros next; unfold PhotonFeeDecorator, HasRoutableProviderClient, GetProviderClientID;
      rewrite Ef, bind_run, Ee, Ei; cbn [negb]; repeat (rewrite bind_run; cbn [gets]); by rewrite Ec, Er].
  eapply (gate_guard _ (negb (Coins_IsZero fee && negb simulate) &&
    forallb (λ coin, String.eqb (Denom coin) (ExpectedPhotonDenom client)) fee) _ (Err ErrInvalidFeeDenom)); [|intros next|done].
  - rewrite andb_true_iff, forallb_elem. setoid_rewrite String.eqb_eq. split.
    + intros [Hz Hd] ??? [= <- <-] _ _ [= <-] _. split; [|done]. intros ->. apply Coins_IsZero_false.
      by destruct (Coins_IsZero fee).
    + intros H. destruct (H fee gas client) as [Hz Hd]; [done..|by eexists|]. split; [|done].
      destruct simulate; [by rewrite andb_false_r|]. by rewrite (proj2 (Coins_IsZero_false fee) (Hz eq_refl)).
  - unfold PhotonFeeDecorator, HasRoutableProviderClient, GetProviderClientID.
    rewrite Ef, bind_run, Ee, Ei. cbn [negb]. repeat (rewrite bind_run; cbn [gets]). rewrite Ec, Er. rewrite bool_decide_true by (by eexists).
    cbn [negb]. rewrite bind_run. destruct (negb (Coins_IsZero fee && _)); [|done]. cbn [guard_err mret M_ret andb negb].
    rewrite bind_run, for_each_guard. by destruct (forallb _ _).
Qed.

(** *** The fee checker *)
Definition floor_policy (node : NodeCtx) (tx : Tx) : Prop :=
  ∀ fee gas, tx_Fee tx = Some (fee, gas) → IsCheckTx node = true →
    ¬ infrastructure tx → (∃ gp, gp ∈ MinGasPrices node ∧ dec_IsZero gp.2 = false) →
    (∀ gp, gp ∈ MinGasPrices node → NewCoin_ok (requiredFee gas gp) = true) ∧
    IsAnyGTE fee (requiredFee gas <$> MinGasPrices node) = true.

Lemma required_run gas (prices : list (string * dec)) c (w : CWorld) :
  map_each (λ gp, or_panic (if NewCoin_ok (requiredFee gas gp) then Some (requiredFee gas gp) else None)) prices c w =
  (if forallb (λ gp, NewCoin_ok (requiredFee gas gp)) prices then Ok (requiredFee gas <$> prices) else Panic, w).
Proof.
  induction prices as [|gp prices IH]; [done|]. cbn [map_each forallb fmap list_fmap]. rewrite bind_run.
  destruct (NewCoin_ok (requiredFee gas gp)); [|done]. cbn [or_panic mret M_ret andb]. rewrite bind_run, IH.
  by destruct (forallb _ prices).
Qed.
Lemma some_price (prices : list (string * dec)) :
  forallb (λ gp, dec_IsZero gp.2) prices = false ↔ ∃ gp, gp ∈ prices ∧ dec_IsZero gp.2 = false.
Proof.
  rewrite <-not_true_iff_false, forallb_elem. split.
  - intros H. induction prices as [|x l IH]; [destruct H; set_solver|].
    destruct (dec_IsZero x.2) eqn:E; [|exists x; set_solver].
    destruct IH as (y & Hy & Hn); [|exists y; set_solver]. intros H'. apply H. intros y [->|Hy]%elem_of_cons; [done|by apply H'].
  - intros (x & Hx & Hn) H. specialize (H x Hx). congruence.
Qed.

(** The checker reads only, and accepts what the floor allows. *)
Lemma checker_run node tx c w :
  ∃ r, InfrastructureExemptTxFeeChecker node tx c w = (r, w) ∧
    (is_ok r = true ↔ is_Some (tx_Fee tx) ∧ floor_policy node tx).
Proof.
  unfold InfrastructureExemptTxFeeChecker, floor_policy. destruct (tx_Fee tx) as [[fee gas]|];
    [|eexists; split; [done|]; split; [done|by intros [[] _]]].
  rewrite bind_run. cbn [of_option mret M_ret]. rewrite bind_run. pose proof (isInfrastructureTx_iff tx) as Hi.
  destruct (IsCheckTx node && negb (isInfrastructureTx (GetMsgs tx)) && negb (forallb (λ gp, dec_IsZero gp.2) (MinGasPrices node))) eqn:Eb.
  - cbv zeta. rewrite bind_run, required_run. apply andb_true_iff in Eb as [[Ec Ein]%andb_true_iff Ez].
    apply negb_true_iff in Ein. apply negb_true_iff, some_price in Ez.
    assert (¬ infrastructure tx) as Hni by (intros H%Hi; congruence).
    destruct (forallb _ (MinGasPrices node)) eqn:Eok.
    + rewrite forallb_elem in Eok. destruct (IsAnyGTE fee _) eqn:Eg; cbn [guard_err mret M_ret raise].
      * eexists. split; [done|]. split; [|done]. intros _. split; [by eexists|]. intros ?? [= <- <-] _ _ _. by split.
      * eexists. split; [done|]. split; [done|]. intros [_ H]. destruct (H fee gas) as [_ H2]; [done..|congruence].
    + eexists. split; [done|]. split; [done|]. intros [_ H]. destruct (H fee gas) as [H1 _]; [done..|].
      apply not_true_iff_false in Eok. destruct Eok. by apply forallb_elem.
  - cbn [mret M_ret]. eexists. split; [done|]. split; [|done]. intros _. split; [by eexists|].
    intros ?? [= <- <-] Hc Hni Hz. exfalso. apply some_price in Hz. rewrite Hc, Hz in Eb.
    destruct (isInfrastructureTx (GetMsgs tx)); [by apply Hni, Hi|done].
Qed.

(** *** The SDK's decorators

    Each of them refuses a transaction or hands it on, without touching the
    consumer module's store; fee deduction asks the checker, unless the
    transaction is only simulated. [can_deduct] stands for the payer's means. *)
Definition plain_decorators (sdk : SdkDecorators) : list Decorator :=
  [SetUpContext sdk; ExtensionOptions sdk; ValidateBasic sdk; TxTimeoutHeight sdk; ValidateMemo sdk;
   ConsumeGasForTxSize sdk; SetPubKey sdk; ValidateSigCount sdk; SigGasConsume sdk; SigVerification sdk;
   IncrementSequence sdk; RedundantRelay sdk].
Class SdkLaws (sdk : SdkDecorators) (can_deduct : Tx → bool → Ctx → CWorld → Prop) : Prop := {
  plain_decorator d tx simulate c w :
    d ∈ plain_decorators sdk → hands_on d tx simulate c w ∨ refuses d tx simulate c w;
  deduct_fee checker tx simulate c w r :
    checker tx c w = (r, w) →
    gate (DeductFee sdk checker) ((simulate = false → is_ok r = true) ∧ can_deduct tx simulate c w) tx simulate c w;
}.
Definition sdk_accepts (sdk : SdkDecorators) (can_deduct : Tx → bool → Ctx → CWorld → Prop)
    (tx : Tx) (simulate : bool) (c : Ctx) (w : CWorld) : Prop :=
  can_deduct tx simulate c w ∧
  Forall (λ d, hands_on d tx simulate c w) (plain_decorators sdk).

Lemma refuses_not_hands_on d tx simulate c w : refuses d tx simulate c w → ¬ hands_on d tx simulate c w.
Proof.
  intros (r & Hr & E) H. specialize (H (λ _ _, mret tt)). rewrite E in H.
  cbn in H. unfold mret, M_ret in H. by injection H as ->.
Qed.

(** A chain of gates admits a transaction that passes each of them. *)
Definition admits (chain : list Decorator) (P : Prop) (tx : Tx) (simulate : bool) (c : Ctx) (w : CWorld) : Prop :=
  ∃ r, ChainAnteDecorators chain tx simulate c w = (r, w) ∧ (r = Ok tt ↔ P).
Lemma admits_nil tx simulate c w : admits [] True tx simulate c w.
Proof. by exists (Ok tt). Qed.
Lemma admits_cons d chain P Q tx simulate c w :
  gate d P tx simulate c w → admits chain Q tx simulate c w → admits (d :: chain) (P ∧ Q) tx simulate c w.
Proof.
  intros [[HP Hd]|[HP (e & He & Hd)]] (r & E & Hr); unfold admits; cbn [ChainAnteDecorators]; rewrite Hd.
  - exists r. split; [done|]. tauto.
  - exists e. split; [done|]. split; [by intros ->|tauto].
Qed.
Lemma admits_equiv chain (P Q : Prop) tx simulate c w :
  (P ↔ Q) → admits chain P tx simulate c w → admits chain Q tx simulate c w.
Proof. intros H (r & E & Hr). exists r. split; [done|]. tauto. Qed.

Lemma plain_gate sdk can_deduct `{!SdkLaws sdk can_deduct} d tx simulate c w :
  d ∈ plain_decorators sdk → gate d (hands_on d tx simulate c w) tx simulate c w.
Proof.
  intros Hd. destruct (plain_decorator d tx simulate c w Hd) as [H|H]; [by left|right].
  split; [by apply refuses_not_hands_on|done].
Qed.

Lemma policy_split node params tx simulate c w :
  policy node params tx simulate c w ↔
  (∀ msg, msg ∈ GetMsgs tx → disabled ["/cosmos.evidence"; "/cosmos.slashing"] msg = false) ∧
  (∀ msg, msg ∈ GetMsgs tx → (ProviderClientID w = None → bootstrap_message msg) ∧
     (is_Some (ProviderClientID w) → restricted params c w → recovery_message msg)) ∧
  photon_policy params tx simulate w ∧ (simulate = false → is_Some (tx_Fee tx) ∧ floor_policy node tx).
Proof.
  assert (∀ msg, disabled ["/cosmos.evidence"; "/cosmos.slashing"] msg = false ↔
    ∀ m, carries msg m → HasPrefix (MsgTypeURL m) "/cosmos.evidence" = false ∧ HasPrefix (MsgTypeURL m) "/cosmos.slashing" = false) as Hd.
  { intros msg. rewrite <-not_true_iff_false, disabled_iff. split.
    - intros H m Hm. split; apply not_true_iff_false; intros E; apply H; exists m; split; [done| |done|];
        unfold hasDisabledModuleMsgs; apply existsb_elem; eexists; (split; [|exact E]); set_solver.
    - intros H (m & Hm & (p & Hp & E)%existsb_elem). destruct (H m Hm) as [H1 H2].
      apply elem_of_cons in Hp as [->|[->|[]%elem_of_nil]%elem_of_cons]; congruence. }
  split.
  - intros [H1 H2 H3 H4 H5 H6]. split_and!.
    + intros msg Hm. apply Hd. intros m. by apply H1.
    + intros msg Hm. split; [by intros; apply H2|by intros; apply H3].
    + exact H4.
    + intros Hs. split; [by apply H5|]. intros fee gas. by apply H6.
  - intros (H1 & H2 & H3 & H4). split.
    + intros msg m Hm Hc. exact (proj1 (Hd msg) (H1 msg Hm) m Hc).
    + intros msg Hn Hm. by apply (H2 msg Hm).
    + intros msg Hs Hr Hm. by apply (H2 msg Hm).
    + exact H3.
    + intros Hs. by apply (H4 Hs).
    + intros fee gas Hs. destruct (H4 Hs) as [_ H]. apply H.
Qed.

(** The app's chain, gate by gate. *)
Lemma handler_spec sdk can_deduct `{!SdkLaws sdk can_deduct} node params tx simulate c w :
  CParams w = Some params →
  ∃ r, NewAnteHandler node None sdk tx simulate c w = (r, w) ∧
    (r = Ok tt ↔ policy node params tx simulate c w ∧ sdk_accepts sdk can_deduct tx simulate c w).
Proof.
  intros Hp. destruct (checker_run node tx c w) as (res & Eres & Hres).
  pose proof (deduct_fee (InfrastructureExemptTxFeeChecker node) tx simulate c w res Eres) as Hdeduct.
  eapply (admits_equiv _ _ _ tx simulate c w); [|unfold NewAnteHandler, txFeeCheckerOrDefault; cbn [default];
    repeat (apply admits_cons; [first [apply DisabledModules_gate|by apply MsgFilter_gate|by apply PhotonFee_gate
      |exact Hdeduct|apply (plain_gate sdk can_deduct); repeat constructor]|]); apply admits_nil].
  rewrite policy_split, Hres. unfold sdk_accepts, plain_decorators.
  split; intros H; destruct_and? H; decompose_Forall_hyps; split_and?; auto. all: repeat constructor; auto.
Qed.

(** C39. The consumer's ante chain writes nothing, and admits a transaction exactly if the
    SDK's decorators do and the policy allows it: nothing of a disabled module at any depth
    of authz executions; only bootstrap messages while no client is pinned, only ibc.core
    and governance messages while in debt or stale; photon vouchers as the only fee of a
    user transaction once the policy is on and the client routable; and the node's fee floor
    while checking. *)
Theorem admission_policy sdk can_deduct `{!SdkLaws sdk can_deduct} node params tx simulate c w r w' :
  CParams w = Some params → NewAnteHandler node None sdk tx simulate c w = (r, w') →
  w' = w ∧ (r = Ok tt ↔ policy node params tx simulate c w ∧ sdk_accepts sdk can_deduct tx simulate c w).
Proof.
  intros Hp E. destruct (handler_spec sdk can_deduct node params tx simulate c w Hp) as (r' & E' & H).
  rewrite E in E'. by injection E' as -> ->.
Qed.

Lemma prefix_longer p q s : String.prefix p s = true → String.prefix q p = true → String.prefix q s = true.
Proof.
  revert q s. induction p as [|a p IH]; intros [|b q] [|d s]; cbn; try done.
  destruct (Ascii.ascii_dec a d) as [->|]; [|done]. destruct (Ascii.ascii_dec b d); [|done]. apply IH.
Qed.
Lemma prefix_clash p q s :
  String.prefix p s = true → String.prefix p q = false → String.prefix q p = false → String.prefix q s = false.
Proof.
  revert q s. induction p as [|a p IH]; intros [|b q] [|d s]; cbn; try done.
  destruct (Ascii.ascii_dec a d) as [->|]; [|done]. destruct (Ascii.ascii_dec d b), (Ascii.ascii_dec b d); try congruence. apply IH.
Qed.

(** A recovery message wraps nothing: it is no authz execution. *)
Lemma recovery_carries_itself msg m : recovery_message msg → carries msg m → m = msg.
Proof. intros [H|H] Hc; destruct Hc; try done; by vm_compute in H. Qed.

(** C40. A transaction of relayer and governance messages alone passes the module's gates in
    every state of the consumer (unpinned, in debt, stale, photon fees enforced) and under
    every fee floor, whatever its fee. *)
Theorem recovery_is_never_locked_out sdk can_deduct `{!SdkLaws sdk can_deduct} node tx simulate c w :
  is_Some (CParams w) → infrastructure tx → is_Some (tx_Fee tx) → sdk_accepts sdk can_deduct tx simulate c w →
  NewAnteHandler node None sdk tx simulate c w = (Ok tt, w).
Proof.
  intros [params Hp] Hi Hf Hsdk.
  destruct (handler_spec sdk can_deduct node params tx simulate c w Hp) as (r & E & H). rewrite E.
  enough (policy node params tx simulate c w) as Hpol by (by rewrite (proj2 H (conj Hpol Hsdk))).
  pose proof Hi as [_ Hm]. split; [..|by intros|by intros].
  - intros msg m Hin ->%(recovery_carries_itself msg m (proj1 (Hm msg Hin))). destruct (Hm msg Hin) as [[Hr|Hr] _]; unfold HasPrefix in *;
      split; eapply prefix_clash; try exact Hr; reflexivity.
  - intros msg _ Hin. destruct (Hm msg Hin) as [[Hr|Hr] _]; [left|right; by left]. by eapply prefix_longer.
  - intros msg _ _ Hin. by apply (Hm msg Hin).
  - by intros ??? _ _ [].
Qed.
End ante.
