(* ===== verification/ConsumerValset.v ===== *)
(** Proofs about the consumer's validator set: a received VSC packet and the
    following [EndBlock] move the stored set, and what CometBFT is told, to what
    the packet says. *)
From S2P Require Import Prelude GoTime Types Externals ConsumerWorld ValSets Consumer.

(** Addresses of keys: distinct keys have distinct addresses (a truncated hash
    of the key), and a key CometBFT decodes has one. *)
Class KeyLaws `{Keys} : Prop := {
  addr_inj k k' a :
    TMCryptoPublicKeyToConsAddr k = Some a → TMCryptoPublicKeyToConsAddr k' = Some a → k = k';
  decodable_addr k u : PubKeyFromProto k = Some u → is_Some (TMCryptoPublicKeyToConsAddr k);
}.

Section sets.
Context `{CX : ConsumerExternals}.

(** The stored set, by key. *)
Definition cc_set (w : CWorld) : gmap PubKey Z :=
  list_to_map ((λ v, (vv_Pubkey v, vv_Power v)) <$> GetAllVaasValidator w).

(** The set the next [EndBlock] will leave. *)
Definition effective_set (w : CWorld) : gmap PubKey Z :=
  apply_updates (default [] (PendingChanges w)) (cc_set w).

Definition sound_update (u : ValidatorUpdate) : Prop :=
  0 ≤ Power u ∧ is_Some (TMCryptoPublicKeyToConsAddr (PubKey_ u)).

Record store_ok (w : CWorld) : Prop := {
  store_addr a v : VaasValidators w !! a = Some v →
    vv_Address v = a ∧ TMCryptoPublicKeyToConsAddr (vv_Pubkey v) = Some a ∧ 0 < vv_Power v;
  pending_sound us u : PendingChanges w = Some us → u ∈ us → sound_update u;
}.

Context {KL : KeyLaws}.

Lemma elem_of_GetAllVaasValidator w v :
  v ∈ GetAllVaasValidator w ↔ ∃ a, VaasValidators w !! a = Some v.
Proof. apply elem_of_iterate_values. Qed.

Lemma cc_keys_NoDup w : store_ok w → NoDup (vv_Pubkey <$> GetAllVaasValidator w).
Proof.
  intros Hok. unfold GetAllVaasValidator. rewrite <-list_fmap_compose.
  pose proof (NoDup_fst_iterate (VaasValidators w)) as Hnd. revert Hnd.
  assert (∀ av, av ∈ iterate (VaasValidators w) →
    TMCryptoPublicKeyToConsAddr (vv_Pubkey av.2) = Some av.1) as Hav.
  { intros [a v] Hin%elem_of_iterate. by destruct (store_addr w Hok a v Hin) as (_ & ? & _). }
  revert Hav. generalize (iterate (VaasValidators w)) as l. intros l Hav.
  induction l as [|av l IH]; [constructor|]. cbn. rewrite !NoDup_cons. intros [Hnot Hnd].
  split; [|apply IH; [set_solver|done]].
  intros (av' & E & Hin)%list_elem_of_fmap. destruct Hnot. apply list_elem_of_fmap. exists av'.
  split; [|done]. pose proof (Hav av ltac:(set_solver)) as Ha. pose proof (Hav av' ltac:(set_solver)) as Ha'.
  cbn in E. rewrite E in Ha. congruence.
Qed.

(** A key's power is what the store holds at its address. *)
Lemma cc_set_lookup w k a :
  store_ok w → TMCryptoPublicKeyToConsAddr k = Some a →
  cc_set w !! k = vv_Power <$> VaasValidators w !! a.
Proof.
  intros Hok Hk. destruct (VaasValidators w !! a) as [v|] eqn:Hv; cbn.
  - destruct (store_addr w Hok a v Hv) as (_ & Hva & _).
    rewrite (addr_inj k (vv_Pubkey v) a) by done. unfold cc_set.
    apply elem_of_list_to_map_1.
    + rewrite <-list_fmap_compose. by apply cc_keys_NoDup.
    + apply list_elem_of_fmap. exists v. split; [done|]. apply elem_of_GetAllVaasValidator. by exists a.
  - unfold cc_set. apply not_elem_of_list_to_map_1. rewrite <-list_fmap_compose.
    intros (v & -> & (a' & Ha')%elem_of_GetAllVaasValidator)%list_elem_of_fmap. cbn in Hk.
    destruct (store_addr w Hok a' v Ha') as (_ & Hva & _). congruence.
Qed.

Lemma cc_set_lookup_None w k :
  store_ok w → TMCryptoPublicKeyToConsAddr k = None → cc_set w !! k = None.
Proof.
  intros Hok Hk. unfold cc_set. apply not_elem_of_list_to_map_1. rewrite <-list_fmap_compose.
  intros (v & -> & (a' & Ha')%elem_of_GetAllVaasValidator)%list_elem_of_fmap. cbn in Hk.
  destruct (store_addr w Hok a' v Ha') as (_ & Hva & _). congruence.
Qed.

Lemma cc_set_positive w k p : store_ok w → cc_set w !! k = Some p → 0 < p.
Proof.
  intros Hok Hk. destruct (TMCryptoPublicKeyToConsAddr k) as [a|] eqn:Ha.
  - rewrite (cc_set_lookup w k a) in Hk by done.
    apply fmap_Some in Hk as (v & Hv & ->). by apply (store_addr w Hok a v Hv).
  - by rewrite cc_set_lookup_None in Hk.
Qed.

(** What [ApplyVaasValidatorChanges] writes besides the validators. *)
Definition same_but_store (w w' : CWorld) : Prop :=
  PendingChanges w' = PendingChanges w ∧ HighestValsetUpdateID w' = HighestValsetUpdateID w
  ∧ ProviderClientID w' = ProviderClientID w ∧ ProviderChainId w' = ProviderChainId w
  ∧ c_ibc w' = c_ibc w ∧ CParams w' = CParams w.

(** Writing a key's new power at its address, and nothing else, updates the set at the key. *)
Lemma cc_set_after_write u a w w1 :
  store_ok w → store_ok w1 → TMCryptoPublicKeyToConsAddr (PubKey_ u) = Some a →
  (∀ a', a' ≠ a → VaasValidators w1 !! a' = VaasValidators w !! a') →
  vv_Power <$> VaasValidators w1 !! a = (if Power u =? 0 then None else Some (Power u)) →
  cc_set w1 = apply_update (cc_set w) u.
Proof.
  intros Hok Hok1 Ha Hoth Hu. rewrite <-(cc_set_lookup w1 _ a) in Hu by done.
  apply map_eq. intros k. unfold apply_update. destruct (decide (k = PubKey_ u)) as [->|Hne].
  - rewrite Hu. destruct (Power u =? 0); [by rewrite lookup_delete_eq|by rewrite lookup_insert_eq].
  - transitivity (cc_set w !! k); [|by destruct (Power u =? 0);
      rewrite ?lookup_delete_ne, ?lookup_insert_ne by done].
    destruct (TMCryptoPublicKeyToConsAddr k) as [a'|] eqn:Ha'.
    + rewrite (cc_set_lookup w1 k a'), (cc_set_lookup w k a') by done.
      rewrite Hoth; [done|]. intros ->. destruct Hne. by eapply addr_inj.
    + by rewrite !cc_set_lookup_None.
Qed.

Lemma store_ok_delete a w : store_ok w → store_ok (upd_VaasValidators (delete a) w).
Proof.
  intros Hok. split; [|apply (pending_sound w Hok)].
  intros a' v' Hl. cbn in Hl. apply lookup_delete_Some in Hl as [_ Hl]. by apply (store_addr w Hok).
Qed.

Lemma store_ok_put a p k w :
  store_ok w → TMCryptoPublicKeyToConsAddr k = Some a → 0 < p →
  store_ok (upd_VaasValidators (insert a (mkVaasValidator a p k)) w).
Proof.
  intros Hok Ha Hp. split; [|apply (pending_sound w Hok)]. intros a' v'. cbn.
  intros [[<- <-]|[Hne Hv']]%lookup_insert_Some; [by split_and!|by apply (store_addr w Hok)].
Qed.

(** The set after an entry is put, and after one is deleted. *)
Lemma cc_set_put u a w :
  store_ok w → TMCryptoPublicKeyToConsAddr (PubKey_ u) = Some a → 0 < Power u →
  cc_set (upd_VaasValidators (insert a (mkVaasValidator a (Power u) (PubKey_ u))) w)
    = apply_update (cc_set w) u.
Proof.
  intros Hok Ha Hp. apply (cc_set_after_write u a); [done|by apply store_ok_put|done| |].
  - intros a' Hne. cbn. by rewrite lookup_insert_ne.
  - cbn. rewrite lookup_insert_eq. cbn. by rewrite (proj2 (Z.eqb_neq _ _)) by lia.
Qed.

Lemma cc_set_delete u a w :
  store_ok w → TMCryptoPublicKeyToConsAddr (PubKey_ u) = Some a → Power u = 0 →
  cc_set (upd_VaasValidators (delete a) w) = apply_update (cc_set w) u.
Proof.
  intros Hok Ha Hp. apply (cc_set_after_write u a); [done|by apply store_ok_delete|done| |].
  - intros a' Hne. cbn. by rewrite lookup_delete_ne.
  - cbn. by rewrite lookup_delete_eq, Hp.
Qed.

Lemma apply_change_ok ret u c w ret' w' :
  store_ok w → sound_update u → apply_change ret u c w = (Ok ret', w') →
  store_ok w' ∧ same_but_store w w' ∧ cc_set w' = apply_update (cc_set w) u
  ∧ ret' = (if decide (Power u = 0 ∧ cc_set w !! PubKey_ u = None) then ret else ret ++ [u]).
Proof.
  intros Hok [Hpow [a Ha]] E. unfold apply_change, DeleteVaasValidator, SetVaasValidator in E. rewrite Ha in E. cbn [or_panic] in E.
  rewrite bind_run in E. cbn [mret M_ret] in E. rewrite bind_run in E. cbn [gets] in E.
  unfold GetVaasValidator in E. rewrite (cc_set_lookup w _ a) by done.
  destruct (VaasValidators w !! a) as [v|] eqn:Hv.
  - rewrite decide_False by naive_solver. destruct (store_addr w Hok a v Hv) as (Hva & Hvk & _).
    rewrite Hva, (addr_inj (vv_Pubkey v) (PubKey_ u) a) in E by done.
    destruct (Z.ltb_spec (Power u) 1) as [Hz|Hz]; run_inv; cbn [vv_Address].
    + split_and!; [by apply store_ok_delete|by repeat split|apply cc_set_delete; by (done || lia)|done].
    + split_and!; [apply store_ok_put; by (done || lia)|by repeat split|apply cc_set_put; by (done || lia)|done].
  - destruct (Z.ltb_spec 0 (Power u)) as [Hz|Hz]; run_inv; cbn [vv_Address].
    + rewrite decide_False by lia. destruct (store_ok_put a (Power u) (PubKey_ u) w Hok Ha Hz) as [Hs Hp].
      split_and!; [by split|by repeat split|by apply cc_set_put|done].
    + rewrite decide_True by (split; [lia|done]). split_and!; [done|by repeat split| |done].
      apply (cc_set_after_write u a); [done..|]. rewrite Hv. by replace (Power u) with 0 by lia.
Qed.

(** The updates CometBFT receives: those that do not remove an absent key. *)
Lemma ApplyVaasValidatorChanges_ok us c w ret w' :
  store_ok w → (∀ u, u ∈ us → sound_update u) →
  ApplyVaasValidatorChanges us c w = (Ok ret, w') →
  store_ok w' ∧ same_but_store w w' ∧ cc_set w' = apply_updates us (cc_set w)
  ∧ apply_updates ret (cc_set w) = cc_set w' ∧ ret `sublist_of` us
  ∧ (NoDup (PubKey_ <$> us) → ∀ u, u ∈ ret → Power u = 0 → is_Some (cc_set w !! PubKey_ u)).
Proof.
  intros Hok Hus E.
  apply (fold_each_Ok_ind (λ dn ret w1, store_ok w1 ∧ same_but_store w w1
    ∧ cc_set w1 = apply_updates dn (cc_set w)
    ∧ apply_updates ret (cc_set w) = cc_set w1 ∧ ret `sublist_of` dn
    ∧ (NoDup (PubKey_ <$> dn) → ∀ u, u ∈ ret → Power u = 0 → is_Some (cc_set w !! PubKey_ u)))) in E;
    [done| |].
  { split_and!; try done. set_solver. }
  clear E ret w'. intros dn u rest ret w1 ret' w2 -> (Hok1 & Hs & Hcc & Hret & Hsub & Hrm) E.
  apply apply_change_ok in E as (Hok2 & Hs2 & Hcc2 & ->); [|done|apply Hus; set_solver].
  assert (same_but_store w w2) by (unfold same_but_store in *; intuition congruence).
  split_and!; try done.
  - by rewrite Hcc2, apply_updates_app, Hcc.
  - case_decide as Hd.
    + rewrite Hret, Hcc2. unfold apply_update. destruct Hd as [-> Hd]. by rewrite delete_id.
    + rewrite apply_updates_app, Hret. by rewrite Hcc2.
  - case_decide; [by apply sublist_inserts_r|by apply sublist_app].
  - rewrite fmap_app, NoDup_app. intros (Hnd & Hdis & _) u' Hin H0.
    assert (u' ∈ ret → is_Some (cc_set w !! PubKey_ u')) as Hold by (intros; by apply Hrm).
    case_decide as Hd; [by auto|].
    apply elem_of_app in Hin as [Hin|Hin]; [by auto|]. apply list_elem_of_singleton in Hin as ->.
    destruct (cc_set w1 !! PubKey_ u) as [p|] eqn:Hp; [|naive_solver].
    rewrite Hcc, apply_updates_lookup in Hp.
    rewrite (proj2 (update_map_None dn (PubKey_ u))) in Hp; [by rewrite Hp|].
    intros Hin. apply (Hdis (PubKey_ u)); set_solver.
Qed.

Lemma in_target (target : list ValidatorUpdate) (k : PubKey) :
  existsb (λ u, String.eqb (PubKey_ u) k) target = bool_decide (k ∈ PubKey_ <$> target).
Proof.
  apply eq_true_iff_eq. rewrite existsb_exists, bool_decide_eq_true, list_elem_of_fmap.
  setoid_rewrite <-list_elem_of_In. setoid_rewrite String.eqb_eq. naive_solver.
Qed.

(** A snapshot's pending changes take the stored set to the packet's. *)
Lemma computeReplaceUpdates_apply target w :
  store_ok w → apply_updates (computeReplaceUpdates target w) (cc_set w) = apply_updates target ∅.
Proof.
  intros Hok. apply map_eq. intros k. rewrite !apply_updates_lookup, lookup_empty.
  unfold computeReplaceUpdates. rewrite update_map_app, update_map_lookup_or.
  set (rem := _ <$> filter _ _).
  assert (∀ k, k ∈ PubKey_ <$> rem ↔ ¬ k ∈ (PubKey_ <$> target) ∧ is_Some (cc_set w !! k)) as Hrem.
  { intros k'. unfold rem. rewrite <-list_fmap_compose, list_elem_of_fmap. split.
    - intros (v & -> & Hin). apply list_elem_of_filter in Hin as [Ht (a & Ha)%elem_of_GetAllVaasValidator].
      rewrite in_target, bool_decide_eq_false in Ht. split; [done|]. cbn.
      destruct (store_addr w Hok a v Ha) as (_ & Hk & _).
      rewrite (cc_set_lookup w _ a), Ha by done. by eexists.
    - intros [Ht [p Hp]].
      destruct (TMCryptoPublicKeyToConsAddr k') as [a|] eqn:Hk; [|by rewrite cc_set_lookup_None in Hp].
      rewrite (cc_set_lookup w k' a) in Hp by done. apply fmap_Some in Hp as (v & Ha & _).
      destruct (store_addr w Hok a v Ha) as (_ & Hvk & _). exists v. cbn.
      assert (k' = vv_Pubkey v) as -> by (by eapply addr_inj). split; [done|].
      apply list_elem_of_filter. rewrite in_target, bool_decide_eq_false. split; [done|].
      apply elem_of_GetAllVaasValidator. by exists a. }
  destruct (update_map rem ∅ !! k) as [u|] eqn:E.
  - apply update_map_key in E as [<- Hin].
    destruct (proj1 (Hrem (PubKey_ u))) as [Hnt _]; [by apply list_elem_of_fmap_2|].
    rewrite (proj2 (update_map_None target _)) by done.
    unfold rem in Hin. apply list_elem_of_fmap in Hin as (v & -> & _). done.
  - destruct (update_map target ∅ !! k) as [u|] eqn:Et; [done|].
    apply update_map_None in E, Et. destruct (cc_set w !! k) as [p|] eqn:Hp; [|done].
    destruct E. apply Hrem. by rewrite Hp.
Qed.

Lemma computeReplaceUpdates_sound target w u :
  store_ok w → (∀ u, u ∈ target → sound_update u) → u ∈ computeReplaceUpdates target w →
  sound_update u.
Proof.
  intros Hok Ht. unfold computeReplaceUpdates. intros [Hin|Hin]%elem_of_app; [by apply Ht|].
  apply list_elem_of_fmap in Hin as (v & -> & Hin). apply list_elem_of_filter in Hin as [_ Hin].
  apply elem_of_GetAllVaasValidator in Hin as (a & Ha).
  destruct (store_addr w Hok a v Ha) as (_ & Hk & _). split; cbn; [lia|by rewrite Hk].
Qed.

Lemma Validate_sound p u :
  ValidatorSetChangePacketData_Validate p = Ok tt → u ∈ ValidatorUpdates p → sound_update u.
Proof.
  unfold ValidatorSetChangePacketData_Validate. destruct (_ =? 0)%N; [done|].
  destruct (forallb _ _) eqn:E; [|done]. intros _ Hin. rewrite forallb_forall in E.
  specialize (E u (proj1 (list_elem_of_In _ _) Hin)). cbn in E.
  destruct (PubKeyFromProto (PubKey_ u)) eqn:Hk; [|done].
  split; [destruct (Z.ltb_spec (Power u) 0); naive_solver lia|by eapply decodable_addr].
Qed.

(** A packet is dropped as stale, or becomes the highest one processed. *)
Definition stale (p : ValidatorSetChangePacketData) (w : CWorld) : bool :=
  match HighestValsetUpdateID w with Some h => (ValsetUpdateId p <=? h)%N | None => false end.

Definition same_valset (w w' : CWorld) : Prop :=
  VaasValidators w' = VaasValidators w ∧ PendingChanges w' = PendingChanges w
  ∧ HighestValsetUpdateID w' = HighestValsetUpdateID w ∧ ProviderClientID w' = ProviderClientID w.

Lemma auth_frame client c w u w' :
  authenticateProviderChainID client c w = (Ok u, w') → same_valset w w'.
Proof.
  apply (preserves_run (same_valset w)); [unfold same_valset; pres|by repeat split].
Qed.

Lemma enforcePinned_ok client c w u w' :
  enforcePinnedProviderClient client c w = (Ok u, w') → ProviderClientID w = Some client ∧ w' = w.
Proof.
  unfold enforcePinnedProviderClient, GetProviderClientID. intros E.
  apply bind_Ok in E as (o & w1 & [<- <-]%gets_Ok & E).
  destruct (ProviderClientID w) as [pinned|] eqn:Hp; [|by apply raise_Ok in E].
  run_inv. match goal with H : (_ =? _)%string = true |- _ => apply String.eqb_eq in H; by subst end.
Qed.

Lemma stage_frame w p : preserves (same_valset w) (StageDowntimeParams p).
Proof. unfold same_valset. pres. Qed.

Lemma same_valset_cc w w' : same_valset w w' → cc_set w' = cc_set w.
Proof. intros (E & _). unfold cc_set, GetAllVaasValidator. by rewrite E. Qed.
Lemma same_valset_ok w w' : same_valset w w' → store_ok w → store_ok w'.
Proof. intros (E & Ep & _) [Ha Hp]. split; rewrite ?E, ?Ep; eauto. Qed.

Lemma computeReplaceUpdates_NoDup target w :
  store_ok w → NoDup (PubKey_ <$> target) → NoDup (PubKey_ <$> computeReplaceUpdates target w).
Proof.
  intros Hok Hnd. unfold computeReplaceUpdates. rewrite fmap_app, NoDup_app.
  rewrite <-list_fmap_compose. split_and!; [done| |].
  - intros k Hk (v & -> & Hin)%list_elem_of_fmap. apply list_elem_of_filter in Hin as [Ht _].
    by rewrite in_target, bool_decide_eq_false in Ht.
  - eapply sublist_NoDup; [apply (cc_keys_NoDup w Hok)|]. apply fmap_sublist, sublist_filter.
Qed.

Definition distinct_pending (w : CWorld) : Prop :=
  ∀ us, PendingChanges w = Some us → NoDup (PubKey_ <$> us).

Lemma accept_packet_ok p c w u w' :
  store_ok w → ValidatorSetChangePacketData_Validate p = Ok tt →
  accept_packet p c w = (Ok u, w') →
  store_ok w' ∧ VaasValidators w' = VaasValidators w ∧ ProviderClientID w' = ProviderClientID w
  ∧ HighestValsetUpdateID w' = Some (ValsetUpdateId p)
  ∧ effective_set w' = apply_updates (ValidatorUpdates p)
      (if IsSnapshot p then ∅ else effective_set w)
  ∧ ((IsSnapshot p = true → NoDup (PubKey_ <$> ValidatorUpdates p)) → distinct_pending w').
Proof.
  intros Hok Hval E. unfold accept_packet in E.
  apply bind_Ok in E as (now & w0 & [_ <-]%asks_Ok & E).
  apply bind_Ok in E as ([] & w1 & E1 & E).
  apply bind_Ok in E as ([] & w2 & E2 & E).
  apply bind_Ok in E as ([] & w3 & E3 & E).
  assert (same_valset w w3) as Hs.
  { unfold SetLastVSCRecvTime in E1. apply modify_Ok in E1. unfold SetConsumerInDebt in E3.
    apply modify_Ok in E3. assert (same_valset w1 w2) as Hs.
    { revert E2. apply (preserves_run (same_valset w1)); [|by repeat split].
      destruct (VSC_DowntimeParams p); [apply stage_frame|apply preserves_ret]. }
    subst w1 w3. unfold same_valset in *. cbn in *. done. }
  clear E1 E2 E3. pose proof (same_valset_ok _ _ Hs Hok) as Hok3.
  pose proof (same_valset_cc _ _ Hs) as Hcc.
  apply bind_Ok in E as (pend & w4 & E4 & E).
  assert (w4 = w3 ∧ (∀ u, u ∈ pend → sound_update u) ∧ apply_updates pend (cc_set w3)
    = apply_updates (ValidatorUpdates p) (if IsSnapshot p then ∅ else effective_set w)
    ∧ ((IsSnapshot p = true → NoDup (PubKey_ <$> ValidatorUpdates p)) → NoDup (PubKey_ <$> pend)))
    as (-> & Hsound & Heff & Hnd).
  { destruct (IsSnapshot p); apply gets_Ok in E4 as [<- <-]; (split; [done|]).
    - split_and!; [|by apply computeReplaceUpdates_apply|intros; apply computeReplaceUpdates_NoDup; auto].
      intros u'. apply computeReplaceUpdates_sound; [done|]. intros u''. by apply Validate_sound.
    - split_and!; [| |intros; apply AccumulateChanges_NoDup].
      + intros u'. rewrite elem_of_AccumulateChanges. intros [_ [Hin|Hin]%elem_of_app]%update_map_key;
          [|by eapply Validate_sound].
        unfold GetPendingChanges in Hin. destruct (PendingChanges w3) as [us|] eqn:Hp; [|set_solver].
        by eapply (pending_sound w3 Hok3).
      + rewrite (proj1 (AccumulateChanges_apply _ _ _)). unfold effective_set, GetPendingChanges.
        destruct Hs as (_ & -> & _). by rewrite Hcc. }
  unfold SetPendingChanges, SetHighestValsetUpdateID in E. run_inv.
  destruct Hs as (Hv & _ & _ & Hpc). split_and!; try done.
  - split; [apply (store_addr w3 Hok3)|]. cbn. intros us u' [= <-] Hin. by apply Hsound.
  - intros Hp us [= <-]. by apply Hnd.
Qed.

Lemma OnRecvPacket_true client payload c w w' :
  OnRecvPacket client payload c w = (Ok true, w') →
  SourcePort payload = ProviderAppID ∧ DestinationPort payload = ConsumerAppID ∧
  ∃ p, Value payload = Some p ∧ OnRecvVSCPacketV2 client p c w = (Ok tt, w').
Proof.
  unfold OnRecvPacket. destruct (String.eqb_spec (DestinationPort payload) ConsumerAppID) as [Hd|]; [|done].
  destruct (String.eqb_spec (SourcePort payload) ProviderAppID) as [Hs|]; [|done]. cbn [negb].
  destruct (Value payload) as [p|]; [|done]. rewrite bind_run. unfold try.
  destruct (OnRecvVSCPacketV2 client p c w) as [[[]|e|] w1] eqn:E; [|done..]. intros [= <-]. split_and!; [done..|by exists p].
Qed.

Lemma OnRecvVSCPacketV2_ok client p c w u w' :
  store_ok w → OnRecvVSCPacketV2 client p c w = (Ok u, w') →
  ProviderClientID w = Some client ∧ ValidatorSetChangePacketData_Validate p = Ok tt
  ∧ store_ok w' ∧ VaasValidators w' = VaasValidators w ∧ ProviderClientID w' = ProviderClientID w
  ∧ if stale p w then PendingChanges w' = PendingChanges w ∧ HighestValsetUpdateID w' = HighestValsetUpdateID w
    else HighestValsetUpdateID w' = Some (ValsetUpdateId p)
      ∧ effective_set w' = apply_updates (ValidatorUpdates p)
          (if IsSnapshot p then ∅ else effective_set w)
      ∧ ((IsSnapshot p = true → NoDup (PubKey_ <$> ValidatorUpdates p)) → distinct_pending w')
      ∧ ∃ w1, same_valset w w1 ∧ wouldEmptyValidatorSet p w1 = false.
Proof.
  intros Hok E. unfold OnRecvVSCPacketV2 in E.
  apply bind_Ok in E as ([] & w1 & E1 & E).
  assert (ValidatorSetChangePacketData_Validate p = Ok tt ∧ w1 = w) as [Hval ->].
  { destruct (ValidatorSetChangePacketData_Validate p) as [[]|e|]; run_inv; done. }
  apply bind_Ok in E as ([] & w1 & Hs1%auth_frame & E).
  apply bind_Ok in E as ([] & w2 & [Hpin ->]%enforcePinned_ok & E).
  apply bind_Ok in E as (h & w2 & [<- <-]%gets_Ok & E).
  pose proof (same_valset_ok _ _ Hs1 Hok) as Hok1. pose proof (same_valset_cc _ _ Hs1) as Hcc1.
  assert (effective_set w1 = effective_set w) as Heff
    by (unfold effective_set; destruct Hs1 as (_ & -> & _); by rewrite Hcc1).
  pose proof Hs1 as (Hv1 & Hp1 & Hh1 & Hc1). split; [congruence|]. split; [done|].
  unfold GetHighestValsetUpdateID in E. rewrite Hh1 in E. unfold stale.
  destruct (match HighestValsetUpdateID w with Some _ => _ | None => _ end).
  - apply ret_Ok in E as [_ <-]. split_and!; done.
  - apply bind_Ok in E as (empties & w2 & [He <-]%gets_Ok & E).
    destruct empties; [by apply raise_Ok in E|].
    apply accept_packet_ok in E as (Hok' & Hv' & Hpc' & Hh' & Heff' & Hnd'); [|done..].
    split_and!; [done|congruence|congruence|done|by rewrite Heff', Heff|done|by exists w1].
Qed.

Lemma preserves_send_evidence_loop (P : CWorld → Prop) client entries n :
  (∀ f w, P w → P (upd_c_ibc f w)) → preserves P (send_evidence_loop client entries n).
Proof.
  intros HP. revert n. induction entries as [|[k p] entries IH]; intros n;
    cbn [send_evidence_loop]; [apply preserves_ret|].
  repeat first [apply IH | apply preserves_modify; intros ? ?; by apply HP | pres1].
Qed.

Lemma EndBlock_ok c w ret w' :
  store_ok w → EndBlock c w = (Ok ret, w') →
  store_ok w' ∧ PendingChanges w' = None ∧ HighestValsetUpdateID w' = HighestValsetUpdateID w
  ∧ ProviderClientID w' = ProviderClientID w
  ∧ cc_set w' = effective_set w ∧ apply_updates ret (cc_set w) = cc_set w'
  ∧ ((∀ us, PendingChanges w = Some us → NoDup (PubKey_ <$> us)) →
      NoDup (PubKey_ <$> ret) ∧ ∀ u, u ∈ ret → Power u = 0 → is_Some (cc_set w !! PubKey_ u)).
Proof.
  intros Hok E. unfold EndBlock in E. apply bind_Ok in E as (r & w1 & E1 & E).
  assert (same_valset w w1) as Hs.
  { revert E1. apply (preserves_run (same_valset w)); [|by repeat split]. unfold same_valset.
    apply preserves_try. unfold SendEvidencePackets. pres. by apply preserves_send_evidence_loop. }
  pose proof (same_valset_ok _ _ Hs Hok) as Hok1. pose proof (same_valset_cc _ _ Hs) as Hcc1.
  destruct Hs as (Hv & Hp & Hh & Hc).
  apply bind_Ok in E as (o & w2 & [<- <-]%gets_Ok & E). unfold GetPendingChanges in E.
  rewrite Hp in E. unfold effective_set. destruct (PendingChanges w) as [us|] eqn:Hpend.
  - apply bind_Ok in E as (upd & w2 & E2 & E).
    apply ApplyVaasValidatorChanges_ok in E2 as (Hok2 & Hs2 & Hcc2 & Hret & Hsub & Hrm);
      [|done|by intros u; apply (pending_sound w Hok)].
    unfold DeletePendingChanges in E. run_inv. destruct Hs2 as (Hp2 & Hh2 & Hc2 & _).
    rewrite Hcc1 in *. split_and!; try done; try (cbn; congruence).
    + split; [apply (store_addr w2 Hok2)|done].
    + intros Hnd. specialize (Hnd us eq_refl). split; [|by apply Hrm].
      eapply sublist_NoDup; [exact Hnd|]. by apply fmap_sublist.
  - apply ret_Ok in E as [<- <-]. split_and!; try done; try congruence.
    intros _. split; [constructor|set_solver].
Qed.

Lemma hasPositivePower_nonempty us m :
  NoDup (PubKey_ <$> us) → hasPositivePower us = true → apply_updates us m ≠ ∅.
Proof.
  unfold hasPositivePower. rewrite existsb_exists. intros Hnd (u & Hin & Hp) E.
  apply list_elem_of_In in Hin. apply Z.ltb_lt in Hp.
  apply (f_equal (lookup (PubKey_ u))) in E. rewrite apply_updates_lookup, lookup_empty in E.
  rewrite update_map_NoDup in E by done. by rewrite (proj2 (Z.eqb_neq _ _)) in E by lia.
Qed.

Lemma MustGet_apply w :
  store_ok w → apply_updates (MustGetCurrentValidatorsAsABCIUpdates w) ∅ = cc_set w.
Proof.
  intros Hok. apply map_eq. intros k. rewrite apply_updates_lookup, lookup_empty.
  destruct (update_map _ ∅ !! k) as [u|] eqn:E.
  - apply update_map_key in E as [<- Hin]. unfold MustGetCurrentValidatorsAsABCIUpdates in Hin.
    apply list_elem_of_fmap in Hin as (v & -> & (a & Ha)%elem_of_GetAllVaasValidator).
    destruct (store_addr w Hok a v Ha) as (_ & Hk & Hp). cbn.
    rewrite (cc_set_lookup w _ a), Ha by done. cbn. by rewrite (proj2 (Z.eqb_neq _ _)) by lia.
  - apply update_map_None in E. symmetry. unfold cc_set. apply not_elem_of_list_to_map_1.
    rewrite <-list_fmap_compose. intros Hin. destruct E.
    unfold MustGetCurrentValidatorsAsABCIUpdates. by rewrite <-list_fmap_compose.
Qed.

Lemma wouldEmpty_false p w :
  store_ok w → (IsSnapshot p = true → NoDup (PubKey_ <$> ValidatorUpdates p)) →
  wouldEmptyValidatorSet p w = false →
  apply_updates (ValidatorUpdates p) (if IsSnapshot p then ∅ else effective_set w) ≠ ∅.
Proof.
  intros Hok Hnd. unfold wouldEmptyValidatorSet. destruct (IsSnapshot p).
  - intros H%negb_false_iff. apply hasPositivePower_nonempty; auto.
  - intros H%negb_false_iff. apply (hasPositivePower_nonempty _ ∅) in H; [|apply AccumulateChanges_NoDup].
    rewrite (proj1 (AccumulateChanges_apply _ _ _)) in H. unfold effective_set, GetPendingChanges in *.
    destruct (PendingChanges w); cbn; [rewrite (proj1 (AccumulateChanges_apply _ _ _)) in H|];
      by rewrite MustGet_apply in H.
Qed.

(** When a consumer receives a snapshot and reaches its next EndBlock, its validator
    store holds exactly the snapshot's positive-power entries, is not empty, and the updates
    handed to CometBFT turn the old set into the new one without duplicates and without
    deleting a validator that was not in the set. *)
Lemma snapshot_converges client p c c' w w1 w2 updates :
  store_ok w → IsSnapshot p = true → stale p w = false → NoDup (PubKey_ <$> ValidatorUpdates p) →
  OnRecvVSCPacketV2 client p c w = (Ok tt, w1) → EndBlock c' w1 = (Ok updates, w2) →
  cc_set w2 = apply_updates (ValidatorUpdates p) ∅
  ∧ cc_set w2 ≠ ∅
  ∧ apply_updates updates (cc_set w) = cc_set w2
  ∧ NoDup (PubKey_ <$> updates)
  ∧ (∀ u, u ∈ updates → Power u = 0 → is_Some (cc_set w !! PubKey_ u)).
Proof.
  intros Hok Hsnap Hst Hnd E1 E2.
  apply OnRecvVSCPacketV2_ok in E1 as (_ & _ & Hok1 & Hv & _ & E1); [|done].
  rewrite Hst, Hsnap in E1. destruct E1 as (_ & Heff & Hdist & w0 & Hs & Hne).
  apply wouldEmpty_false in Hne; [|by eapply same_valset_ok|by intros]. rewrite Hsnap in Hne.
  assert (cc_set w1 = cc_set w) as Hcc by (unfold cc_set, GetAllVaasValidator; by rewrite Hv).
  apply EndBlock_ok in E2 as (_ & _ & _ & _ & Hcc2 & Hret & Hupd); [|done].
  destruct Hupd as [Hndu Hrm]; [by apply Hdist|]. rewrite Hcc in *.
  split_and!; try done; congruence.
Qed.

(** A packet the consumer accepts moves its effective set (the store with the pending
    changes) by exactly the packet's updates, from the empty set for a snapshot, and never
    leaves it empty. *)
Lemma accepted_packet_keeps_set_nonempty client p c w w' :
  store_ok w → stale p w = false → (IsSnapshot p = true → NoDup (PubKey_ <$> ValidatorUpdates p)) →
  OnRecvVSCPacketV2 client p c w = (Ok tt, w') →
  effective_set w' = apply_updates (ValidatorUpdates p) (if IsSnapshot p then ∅ else effective_set w)
  ∧ effective_set w' ≠ ∅.
Proof.
  intros Hok Hst Hnd E. apply OnRecvVSCPacketV2_ok in E as (_ & _ & Hok1 & Hv & _ & E1); [|done].
  rewrite Hst in E1. destruct E1 as (_ & Heff & Hdist & w0 & Hs & Hne).
  apply wouldEmpty_false in Hne; [|by eapply same_valset_ok|done]. split; [done|].
  rewrite Heff. destruct Hs as (Hv0 & Hp0 & Hrest).
  assert (effective_set w0 = effective_set w) as E; [|by rewrite E in Hne].
  unfold effective_set, cc_set, GetAllVaasValidator. by rewrite Hv0, Hp0.
Qed.

(** C15. A packet that arrives over another client than the pinned one, or one not newer
    than the highest id processed, changes neither the validator set, the pending changes,
    the highest id, the parameters, the staged downtime parameters, the staleness clock nor
    the debt flag. *)
Theorem unauthenticated_packet_changes_nothing client p c w r w' :
  ProviderClientID w ≠ Some client ∨ stale p w = true →
  OnRecvVSCPacketV2 client p c w = (r, w') →
  VaasValidators w' = VaasValidators w ∧ PendingChanges w' = PendingChanges w
  ∧ HighestValsetUpdateID w' = HighestValsetUpdateID w ∧ CParams w' = CParams w
  ∧ StagedDowntimeParams w' = StagedDowntimeParams w ∧ LastVSCRecvTime w' = LastVSCRecvTime w
  ∧ CConsumerInDebt w' = CConsumerInDebt w.
Proof.
  intros Hbad E. set (P w1 := VaasValidators w1 = VaasValidators w ∧ PendingChanges w1 = PendingChanges w
  ∧ HighestValsetUpdateID w1 = HighestValsetUpdateID w ∧ CParams w1 = CParams w
  ∧ StagedDowntimeParams w1 = StagedDowntimeParams w ∧ LastVSCRecvTime w1 = LastVSCRecvTime w
  ∧ CConsumerInDebt w1 = CConsumerInDebt w ∧ ProviderClientID w1 = ProviderClientID w).
  enough (P w') as (? & ? & ? & ? & ? & ? & ? & _) by done.
  unfold OnRecvVSCPacketV2 in E. rewrite bind_run in E.
  destruct (ValidatorSetChangePacketData_Validate p); cbn in E;
    [|injection E as <- <-; by repeat split..].
  rewrite bind_run in E.
  assert (P (snd (authenticateProviderChainID client c w))) as HP.
  { assert (preserves P (authenticateProviderChainID client)) as Hpres by (unfold P; pres).
    apply Hpres. by repeat split. }
  destruct (authenticateProviderChainID client c w) as [[[]|e|] w1]; cbn in HP;
    [|by injection E as <- <-..].
  rewrite bind_run in E. destruct HP as (HP1 & HP2 & HP3 & HP4 & HP5 & HP6 & HP7 & HP8).
  unfold enforcePinnedProviderClient, GetProviderClientID in E. rewrite bind_run in E. cbn in E.
  destruct (ProviderClientID w1) as [pinned|] eqn:Hpin; cbn in E;
    [|injection E as <- <-; by unfold P; rewrite Hpin].
  rewrite bind_run in E. destruct (negb _); cbn in E; [|injection E as <- <-; by unfold P; rewrite Hpin].
  destruct (String.eqb_spec pinned client) as [->|Hne]; cbn in E;
    [|injection E as <- <-; by unfold P; rewrite Hpin].
  destruct Hbad as [Hbad|Hbad]; [congruence|]. unfold stale in Hbad.
  rewrite bind_run in E. cbn in E. unfold GetHighestValsetUpdateID in E. rewrite HP3 in E.
  destruct (HighestValsetUpdateID w); [|done]. rewrite Hbad in E. injection E as <- <-.
  by unfold P; rewrite Hpin.
Qed.
End sets.
