(* ===== verification/ConsumerRun.v ===== *)
(** A consumer that runs: the well-formedness of its store, that every callback
    and message keeps it, and that its block hooks then return, with a validator
    set CometBFT can go on with. *)
From S2P Require Import Prelude GoTime Types Externals ConsumerWorld ValSets Consumer ConsumerDowntimeProofs ConsumerValset.

(** What is documented of x/slashing and ibc-go: a bonded validator gets or
    keeps its signing info, and sending a packet changes no client. *)
Class ConsumerLaws `{CX : ConsumerExternals} : Prop := {
  bonded_hook s a : is_Some (SlashingAfterValidatorBonded s a a);
  send_keeps_clients i client t signer p id :
    c_GetClientState (c_SendPacket i client t signer p).2 id = c_GetClientState i id;
}.

(** ibc-go names no client by the empty string, and validates that a client
    state names its chain. *)
Definition clients_ok `{ConsumerExternals} (i : cibc) : Prop :=
  c_GetClientState i "" = None ∧ ∀ id cs, c_GetClientState i id = Some (Some cs) → cs_ChainId cs ≠ "".
(** Every client of [i] is one of [i']. *)
Definition clients_kept `{ConsumerExternals} (i i' : cibc) : Prop :=
  ∀ id, is_Some (c_GetClientState i id) → is_Some (c_GetClientState i' id).

Section run.
Context `{CX : ConsumerExternals} {CL : ConsumerLaws} {KL : KeyLaws} {DL : LegacyDecLaws}.

(** Parameters that pass validation, with a window whose bitmap length does not
    overflow. *)
Definition good_params (params : ConsumerParams) : Prop :=
  ConsumerParams_Validate params = true ∧ in_int64 (cp_SignedBlocksWindow params + 7).
Definition good_packet (k : string * Z) (p : EvidencePacketData) : Prop :=
  pendingEvidenceKey p = k ∧ EvidencePacketData_Validate p = Ok tt.
Definition bitmap_length (window : Z) : Z := (window + 7) / 8.

(** The trackers of a window of the given size. *)
Record trackers_ok (window : Z) (bitmaps : gmap string Bitmap.t) (heights : gmap string Z) : Prop := {
  to_bitmap a bm : bitmaps !! a = Some bm → a ≠ "" ∧ Z.of_nat (length bm) = bitmap_length window ∧ is_Some (heights !! a);
  to_height a h : heights !! a = Some h → a ≠ "" ∧ 0 < h;
}.

Record running (w : CWorld) : Prop := {
  run_started : is_Some (InitGenesisHeight w);
  run_params : ∃ params, CParams w = Some params ∧ good_params params ∧
    trackers_ok (cp_SignedBlocksWindow params) (MissedBlockBitmaps w) (FirstTrackedHeights w);
  run_store : store_ok w;
  run_set : effective_set w ≠ ∅;
  run_pin id : ProviderClientID w = Some id → id ≠ "" ∧ is_Some (c_GetClientState (c_ibc w) id);
  run_chain : ProviderChainId w ≠ Some "";
  run_highest : HighestValsetUpdateID w ≠ Some 0%N;
  run_evidence : map_Forall good_packet (PendingEvidencePackets w);
  run_staged p : StagedDowntimeParams w = Some p → usable (dp_SignedBlocksWindow p) (dp_MinSignedPerWindow p);
  run_clients : clients_ok (c_ibc w);
}.

Lemma good_params_usable params :
  good_params params → usable (cp_SignedBlocksWindow params) (cp_MinSignedPerWindow params).
Proof.
  intros [Hv H64]. split; [|done]. unfold ConsumerParams_Validate, ValidatePositiveInt64 in Hv. repeat apply andb_true_iff in Hv as [Hv ?].
  unfold validDowntimeParams. cbn. destruct (Z.leb_spec (cp_SignedBlocksWindow params) 0); [lia|].
  by destruct (_ || _).
Qed.
(** Only the downtime parameters change. *)
Lemma with_downtime_good params window minSigned :
  ConsumerParams_Validate params = true → usable window minSigned → good_params (with_downtime params window minSigned).
Proof.
  intros Hv Hu. destruct (usable_limit _ _ Hu) as (Hw & Hnil & Hpos & Hlt & _). destruct Hu as [_ H64].
  split; [|done]. unfold ConsumerParams_Validate, ValidatePositiveInt64 in *. cbn.
  rewrite Hnil, Hpos, Hlt. repeat (apply andb_true_iff in Hv as [Hv ?]). rewrite !andb_true_iff. split_and!; try done. lia.
Qed.
Lemma no_trackers window : trackers_ok window ∅ ∅.
Proof. split; intros ? ?; by rewrite lookup_empty. Qed.

(** The parts of the store an operation leaves alone keep their share of the
    invariant. *)
Definition same_core (w v : CWorld) : Prop :=
  InitGenesisHeight v = InitGenesisHeight w ∧ CParams v = CParams w ∧ VaasValidators v = VaasValidators w ∧
  PendingChanges v = PendingChanges w ∧ ProviderClientID v = ProviderClientID w ∧ ProviderChainId v = ProviderChainId w ∧
  HighestValsetUpdateID v = HighestValsetUpdateID w ∧ StagedDowntimeParams v = StagedDowntimeParams w ∧ c_ibc v = c_ibc w.
Lemma running_core w v :
  same_core w v → running w → map_Forall good_packet (PendingEvidencePackets v) →
  (∀ params, CParams w = Some params →
     trackers_ok (cp_SignedBlocksWindow params) (MissedBlockBitmaps w) (FirstTrackedHeights w) →
     trackers_ok (cp_SignedBlocksWindow params) (MissedBlockBitmaps v) (FirstTrackedHeights v)) →
  running v.
Proof.
  intros (E1 & E2 & E3 & E4 & E5 & E6 & E7 & E8 & E9) [H1 (params & Ep & Hg & Ht) [Hs1 Hs2] H4 H5 H6 H7 H8 H9 H10] He Htr.
  split; rewrite ?E1, ?E5, ?E6, ?E7, ?E8, ?E9; try done.
  - exists params. split; [congruence|]. split; [done|auto].
  - split; rewrite ?E3, ?E4; done.
  - unfold effective_set, cc_set, GetAllVaasValidator. by rewrite E3, E4.
Qed.

Lemma running_rest w v :
  same_core w v → PendingEvidencePackets v = PendingEvidencePackets w → MissedBlockBitmaps v = MissedBlockBitmaps w →
  FirstTrackedHeights v = FirstTrackedHeights w → running w → running v.
Proof. intros Hc E1 E2 E3 Hr. apply (running_core w); rewrite ?E1, ?E2, ?E3; auto. by apply run_evidence. Qed.

(** New parameters, under which the trackers still make sense. *)
Lemma running_params w params :
  running w → good_params params → trackers_ok (cp_SignedBlocksWindow params) (MissedBlockBitmaps w) (FirstTrackedHeights w) →
  running (upd_CParams (λ _, Some params) w).
Proof.
  intros [H1 _ [Hs1 Hs2] H4 H5 H6 H7 H8 H9 H10] Hg Ht. split; try done; by exists params.
Qed.
Lemma running_staged w o :
  running w → (∀ p, o = Some p → usable (dp_SignedBlocksWindow p) (dp_MinSignedPerWindow p)) →
  running (upd_StagedDowntimeParams (λ _, o) w).
Proof. intros [H1 H2 [Hs1 Hs2] H4 H5 H6 H7 H8 _ H10] Ho. by split. Qed.

(** *** BeginBlock *)
Lemma params_runs c w params (Q : ConsumerParams → CWorld → Prop) :
  CParams w = Some params → Q params w → runs GetConsumerParams c w Q.
Proof. intros E HQ. unfold GetConsumerParams. repeat runs_step. by eapply runs_or_panic. Qed.

Lemma prune_runs fuel c w : running w → runs (prune_historical fuel) c w (λ _, running).
Proof.
  revert w. induction fuel as [|fuel IH]; intros w Hr; cbn [prune_historical]; [by runs_step|].
  repeat runs_step. destruct (HistoricalInfos w !! Z.of_nat fuel); [|by runs_step].
  repeat runs_step. by apply IH, (running_rest w).
Qed.
Lemma TrackHistoricalInfo_runs c w : running w → runs TrackHistoricalInfo c w (λ _, running).
Proof.
  intros Hr. destruct (run_params w Hr) as (params & Ep & _). unfold TrackHistoricalInfo, GetHistoricalEntries.
  repeat runs_step. eapply params_runs; [done|]. repeat runs_step.
  eapply runs_mono; [|by apply prune_runs]. intros [] v Hv. destruct (_ =? 0); repeat runs_step; [done|].
  by apply (running_rest v).
Qed.
Lemma ArmVSCStalenessClock_runs c w : running w → runs ArmVSCStalenessClock c w (λ _, running).
Proof.
  intros Hr. destruct (run_started w Hr) as [init Ei]. unfold ArmVSCStalenessClock, GetInitGenesisHeight.
  repeat runs_step. eapply runs_or_panic; [done|]. destruct (_ <=? _); repeat runs_step; [done|].
  destruct (LastVSCRecvTime w); unfold SetLastVSCRecvTime; repeat runs_step; [done|].
  by apply (running_rest w).
Qed.

Lemma bitmap_length_pos window : 0 < window → 0 < bitmap_length window ∧ ∀ i, 0 ≤ i < window → i / 8 < bitmap_length window.
Proof.
  intros Hw. unfold bitmap_length. pose proof (Z.div_mod (window + 7) 8 ltac:(lia)).
  pose proof (Z.mod_pos_bound (window + 7) 8 ltac:(lia)). split; [lia|].
  intros i Hi. apply Z.div_lt_upper_bound; lia.
Qed.
(** A vote puts its validator under tracking, and a missed block in its bitmap. *)
Lemma track_vote_runs params h idx v c w :
  let window := cp_SignedBlocksWindow params in
  good_params params → 0 < h → 0 ≤ idx < window → v.1 ≠ "" → running w → CParams w = Some params →
  runs (track_vote h window idx v) c w (λ _ w', running w' ∧ CParams w' = Some params).
Proof.
  destruct v as [a f]. intros window Hg Hh Hi Ha Hr Ep. cbn [fst] in Ha.
  destruct (good_params_usable _ Hg) as [_ H64]. destruct (usable_limit _ _ (good_params_usable _ Hg)) as (Hw & _).
  fold window in H64, Hw. destruct (bitmap_length_pos window Hw) as [Hlen Hfit].
  destruct (run_params w Hr) as (params' & Ep' & _ & Ht). rewrite Ep in Ep'. injection Ep' as <-.
  unfold track_vote. repeat runs_step.
  set (w1 := match FirstTrackedHeights w !! a with Some _ => w | None => upd_FirstTrackedHeights (insert a h) w end).
  assert (running w1 ∧ CParams w1 = Some params ∧ is_Some (FirstTrackedHeights w1 !! a)) as (Hr1 & Ep1 & Hs).
  { subst w1. destruct (FirstTrackedHeights w !! a) eqn:Ea; [by split_and!|]. split_and!; [|done|cbn; by rewrite lookup_insert_eq].
    apply (running_core w); [done|done|exact (run_evidence w Hr)|]. intros params' _ [H1 H2]. split; cbn.
    - intros b bm Hb. destruct (H1 b bm Hb) as (? & ? & [x Hx]). split_and!; [done..|].
      destruct (decide (b = a)) as [->|]; [by rewrite lookup_insert_eq|by rewrite lookup_insert_ne, Hx].
    - intros b x. rewrite lookup_insert_Some. intros [[<- <-]|[_ Hx]]; [done|by apply (H2 b)]. }
  eapply (runs_mono _ _ _ (λ _ w', w' = w1)); [intros [] ? ->|subst w1; by destruct (FirstTrackedHeights w !! a); runs_step].
  clearbody w1. case_decide as Hf; [|by runs_step].
  destruct (run_params w1 Hr1) as (params' & Ep' & _ & [Hb1 _]). rewrite Ep1 in Ep'. injection Ep' as <-. fold window in Hb1.
  repeat runs_step. rewrite wrap64_id, Z.quot_div_nonneg by (done || lia). fold (bitmap_length window).
  assert (Z.of_nat (length (padded (bitmap_length window) (MissedBlockBitmaps w1 !! a))) = bitmap_length window) as Hpad.
  { apply padded_length; [lia|]. intros bm Hbm. by destruct (Hb1 a bm Hbm) as (_ & ? & _). }
  destruct (Bitmap.BitmapSet_Some (padded (bitmap_length window) (MissedBlockBitmaps w1 !! a)) idx (proj1 Hi)) as (bm & Ebm & El); [rewrite Hpad; by apply Hfit|].
  eapply runs_or_panic; [done|]. runs_step. split; [|done].
  apply (running_core w1); [done|done|exact (run_evidence w1 Hr1)|]. intros params' Ep' [H1 H2]. split; cbn; [|done].
  rewrite Ep1 in Ep'. injection Ep' as <-. fold window. intros b bm'. rewrite lookup_insert_Some.
  intros [[<- <-]|[_ Hx]]; [|by apply (H1 b)]. split_and!; [done|lia|done].
Qed.

(** What a closing window reports passes the wire check. *)
Lemma window_packet_runs s window minSigned addr bm c w :
  usable window minSigned → 0 ≤ s → in_int64 (s + window) → addr ≠ "" →
  (∃ h, FirstTrackedHeights w !! addr = Some h ∧ 0 < h) →
  runs (window_packet s window minSigned (default s (FirstTrackedHeights w !! addr)) addr bm) c w
    (λ o w', w' = w ∧ ∀ p, o = Some p → EvidencePacketData_Validate p = Ok tt).
Proof.
  intros Hu Hs Hend Ha (h & -> & Hh). cbn [default from_option id]. unfold window_packet. cbv zeta.
  set (first := Z.max s h). destruct (usable_limit _ _ Hu) as (Hw & _ & _ & _ & Hmax).
  destruct (Z.leb_spec (Bitmap.countMissedBits bm (first - s) window) (MaxMissed (mkDowntimeParams window minSigned))) as [|Hover];
    [by runs_step|].
  assert (first < s + window) as Hlt.
  { destruct (Z.lt_ge_cases first (s + window)) as [|Hge]; [done|]. exfalso.
    unfold Bitmap.countMissedBits in Hover. rewrite seqZ_nil in Hover by lia. cbn in Hover. lia. }
  destruct (rebaseBitmap_spec bm (first - s) (s + window - first)) as (out & Eout & Hlen & Hbits); [lia|].
  runs_step. eapply runs_or_panic; [exact Eout|]. runs_step. split; [done|]. intros p [= <-].
  destruct (window_packet_valid addr first out s window minSigned) as (_ & Esp & Hval); [done|done|done|done|lia|lia|done|].
  apply Hval. unfold MissedCount. rewrite Esp. cbn [MissedBlocksBitmap NewEvidencePacketData].
  enough (Bitmap.countMissedBits out 0 (s + window - first) = Bitmap.countMissedBits bm (first - s) window) as -> by lia.
  unfold Bitmap.countMissedBits. f_equal. replace (window - (first - s)) with (s + window - first - 0) by lia.
  rewrite <-(Z.add_0_r (first - s)). rewrite <-fmap_add_seqZ. symmetry. apply length_filter_fmap.
  intros i Hi%elem_of_seqZ. rewrite Hbits, bool_decide_true by lia. done.
Qed.
Lemma QueueEvidencePacket_runs p c w :
  EvidencePacketData_Validate p = Ok tt → running w →
  runs (QueueEvidencePacket p) c w (λ _ w', running w' ∧ same_tracker w w').
Proof.
  intros Hp Hr. destruct (QueueEvidencePacket_run p c w) as (w' & E & [m ->] & Hl). exists tt, (upd_PendingEvidencePackets (λ _, m) w).
  split; [done|]. split; [|done]. apply (running_core w); [done|done| |done].
  intros k q Hk. cbn in Hk. cbn in Hl. rewrite Hl in Hk. case_decide; [done|].
  apply lookup_insert_Some in Hk as [[<- <-]|[_ Hk]]; [done|by apply (run_evidence w Hr)].
Qed.

Lemma applyStaged_runs c w :
  running w → MissedBlockBitmaps w = ∅ → FirstTrackedHeights w = ∅ → runs applyStagedDowntimeParams c w (λ _, running).
Proof.
  intros Hr E1 E2. destruct (run_params w Hr) as (params & Ep & Hg & _). unfold applyStagedDowntimeParams, SetParams.
  repeat runs_step. destruct (StagedDowntimeParams w) as [staged|] eqn:Es; [|by runs_step].
  runs_step. eapply params_runs; [done|]. repeat runs_step.
  assert (good_params (with_downtime params (dp_SignedBlocksWindow staged) (dp_MinSignedPerWindow staged))) as Hg'
    by (apply with_downtime_good; [apply Hg|by apply (run_staged w Hr)]).
  apply running_staged; [|done]. apply running_params; [done|done|]. rewrite E1, E2. apply no_trackers.
Qed.
Lemma closeWindow_runs s params c w :
  let window := cp_SignedBlocksWindow params in
  running w → CParams w = Some params → good_params params → 0 ≤ s → in_int64 (s + window) →
  runs (closeWindow s window (cp_MinSignedPerWindow params)) c w (λ _, running).
Proof.
  intros window Hr Ep Hg Hs Hend. unfold closeWindow. runs_step. runs_step. runs_step.
  destruct (run_params w Hr) as (params' & Ep' & _ & Ht). rewrite Ep in Ep'. injection Ep' as <-. fold window in Ht.
  eapply (runs_for_each (λ v, running v ∧ same_tracker w v)); [by split| |].
  - intros [addr bm] v Hin%elem_of_iterate [Hv Hsame]. destruct (to_bitmap _ _ _ Ht addr bm Hin) as (Ha & _ & [h Eh]).
    destruct Hsame as (Eb & Ef & Ec & Es). runs_step. runs_step. runs_step.
    eapply runs_mono; [|apply window_packet_runs; [by apply good_params_usable|done|done|done|]].
    2: { exists h. rewrite Ef. split; [done|]. by apply (to_height _ _ _ Ht addr). }
    intros [p|] v' [-> Hp]; [|by runs_step].
    eapply runs_mono; [|by apply QueueEvidencePacket_runs; [apply Hp|]].
    intros [] v' (Hv' & Eb' & Ef' & Ec' & Es'). split; [done|]. split_and!; congruence.
  - intros v [Hv _]. repeat runs_step. apply applyStaged_runs; [|done|done].
    apply (running_core v); [done|done|exact (run_evidence v Hv)|]. intros params' _ _. apply no_trackers.
Qed.

(** A block at an int64 height, with named validators. *)
Definition block_ok (c : Ctx) (votes : list VoteInfo) : Prop := in_int64 (BlockHeight c) ∧ "" ∉ votes.*1.

Lemma TrackMissedBlocks_runs votes c w :
  running w → block_ok c votes → runs (TrackMissedBlocks votes) c w (λ _, running).
Proof.
  intros Hr [H64 Hne]. destruct (run_params w Hr) as (params & Ep & Hg & _).
  destruct (usable_limit _ _ (good_params_usable _ Hg)) as (Hw & _).
  unfold TrackMissedBlocks, GetDowntimeParams. repeat runs_step.
  destruct (Z.leb_spec (BlockHeight c - 1) 0); [by runs_step|]. runs_step. runs_step.
  eapply params_runs; [done|]. runs_step.
  destruct (Z.leb_spec (cp_SignedBlocksWindow params) 0); [by runs_step|].
  set (h := BlockHeight c - 1) in *. set (window := cp_SignedBlocksWindow params) in *.
  rewrite Z.quot_div_nonneg by lia. pose proof (Z.div_mod h window ltac:(lia)). pose proof (Z.mod_pos_bound h window ltac:(lia)).
  set (s := h / window * window) in *. assert (0 ≤ s) by (subst s; pose proof (Z.div_pos h window ltac:(lia) ltac:(lia)); nia).
  assert (h - s = h mod window) as Eidx by (subst s; nia).
  repeat runs_step. eapply (runs_for_each (λ v, running v ∧ CParams v = Some params)); [done| |].
  - intros v u Hin [Hu Eu]. apply track_vote_runs; try done; [fold window; lia|].
    intros E. apply Hne. rewrite <-E. by apply list_elem_of_fmap_2.
  - intros v [Hv Ev]. apply runs_when; [|done]. intros Hlast%Z.eqb_eq.
    apply closeWindow_runs; [done|done|done|done|]. fold window. replace (s + window) with (BlockHeight c) by lia. done.
Qed.
Lemma BeginBlock_runs votes c w :
  running w → block_ok c votes → runs (BeginBlock votes) c w (λ _, running).
Proof.
  intros Hr Hb. unfold BeginBlock. repeat runs_step. eapply runs_mono; [|by apply TrackHistoricalInfo_runs].
  intros [] v Hv. runs_step. eapply runs_mono; [|by apply ArmVSCStalenessClock_runs].
  intros [] u Hu. by apply TrackMissedBlocks_runs.
Qed.

(** *** EndBlock *)
(** The store with other validators and signing infos. *)
Definition with_vals (m : gmap string VaasValidator) (s : slashing) (w : CWorld) : CWorld :=
  upd_VaasValidators (λ _, m) (upd_c_slashing (λ _, s) w).


Lemma vals_with f w : upd_VaasValidators f w = with_vals (f (VaasValidators w)) (c_slashing w) w.
Proof. by destruct w. Qed.

Lemma apply_change_runs ret u c w :
  sound_update u → runs (apply_change ret u) c w (λ _ w', ∃ m s, w' = with_vals m s w).
Proof.
  intros [_ [a Ha]]. unfold apply_change, DeleteVaasValidator, SetVaasValidator. runs_step. eapply runs_or_panic; [exact Ha|].
  runs_step. runs_step. destruct (GetVaasValidator a w).
  - runs_step. destruct (_ <? _); repeat runs_step; eexists _, _; apply vals_with.
  - destruct (_ <? _); [|runs_step; exists (VaasValidators w), (c_slashing w); by destruct w]. repeat runs_step.
    destruct (bonded_hook (c_slashing w) a) as [s Es]. eapply runs_or_panic; [exact Es|]. repeat runs_step.
    exists (<[a := mkVaasValidator a (Power u) (PubKey_ u)]> (VaasValidators w)), s. by destruct w.
Qed.
Lemma ApplyVaasValidatorChanges_runs us c w :
  store_ok w → (∀ u, u ∈ us → sound_update u) →
  runs (ApplyVaasValidatorChanges us) c w (λ _ w', ∃ m s, w' = with_vals m s w).
Proof.
  intros Hok Hus. unfold ApplyVaasValidatorChanges.
  apply (runs_fold_each (λ v, store_ok v ∧ ∃ m s, v = with_vals m s w)).
  - split; [done|]. exists (VaasValidators w), (c_slashing w). by destruct w.
  - intros ret u v Hu [Hv (m & s & ->)].
    destruct (apply_change_runs ret u c (with_vals m s w) (Hus u Hu)) as (ret' & v' & E & m' & s' & ->).
    eexists _, _. split; [exact E|]. apply apply_change_ok in E as (? & _); [|done|by apply Hus]. split; [done|by exists m', s'].
  - by intros ? v [_ ?].
Qed.

Lemma running_sent w client t signer p :
  running w → running (upd_c_ibc (λ _, (c_SendPacket (c_ibc w) client t signer p).2) w).
Proof.
  intros [H1 H2 [Hs1 Hs2] H4 H5 H6 H7 H8 H9 [Hc1 Hc2]]. split; try done.
  - intros id Hid. cbn. rewrite send_keeps_clients. by apply H5.
  - split; [cbn; by rewrite send_keeps_clients|]. intros id cs. cbn. rewrite send_keeps_clients. apply Hc2.
Qed.
Lemma send_loop_runs client entries sent c w :
  running w → runs (send_evidence_loop client entries sent) c w (λ _, running).
Proof.
  revert sent w. induction entries as [|[key packet] entries IH]; intros sent w Hr; cbn [send_evidence_loop]; [by runs_step|].
  destruct (Nat.leb _ _); [by runs_step|]. destruct (run_params w Hr) as (params & Ep & _).
  unfold GetVAASTimeoutPeriod. repeat runs_step. eapply params_runs; [done|]. cbv zeta. repeat runs_step.
  match goal with |- context [c_SendPacket ?i ?cl ?t ?s ?p] => pose proof (running_sent w cl t s p Hr) as Hs; revert Hs; destruct (c_SendPacket i cl t s p) as [ok i'] end.
  intros Hs. cbn in Hs. repeat runs_step. destruct ok; [|by apply IH]. repeat runs_step.
  eapply runs_mono; [|by apply IH]. intros keys v Hv. by runs_step.
Qed.
Lemma SendEvidencePackets_runs c w : running w → runs SendEvidencePackets c w (λ _, running).
Proof.
  intros Hr. unfold SendEvidencePackets. repeat runs_step. destruct (GetProviderClientID w) as [client|]; [|by runs_step].
  repeat runs_step. destruct (negb _); [by runs_step|]. repeat runs_step. destruct (negb _); [by runs_step|]. repeat runs_step.
  eapply runs_mono; [|by apply send_loop_runs]. intros keys v Hv.
  apply (runs_for_each running); [done| |done]. intros key u _ Hu. repeat runs_step.
  apply (running_core u); [done|done| |done]. cbn. apply map_Forall_delete, (run_evidence u Hu).
Qed.

(** What EndBlock hands CometBFT, and the state it leaves: the effective set is
    in force, and it is not empty. *)
Definition block_done (w : CWorld) (us : list ValidatorUpdate) (w' : CWorld) : Prop :=
  running w' ∧ PendingChanges w' = None ∧ cc_set w' = effective_set w ∧ apply_updates us (cc_set w) = cc_set w'.
Lemma running_applied w m s :
  let w' := upd_PendingChanges (λ _, None) (with_vals m s w) in
  running w → store_ok w' → cc_set w' ≠ ∅ → running w'.
Proof. intros w' [H1 H2 _ _ H5 H6 H7 H8 H9 H10] Hok Hne. by split. Qed.
Lemma EndBlock_runs c w : running w → runs EndBlock c w (block_done w).
Proof.
  intros Hr. assert (runs EndBlock c w (λ us w', cc_set w' ≠ ∅ → PendingChanges w' = None → store_ok w' → running w')) as (us & w' & E & Hrun).
  { unfold EndBlock, DeletePendingChanges. repeat runs_step. eapply runs_mono; [|by apply SendEvidencePackets_runs]. intros [] v Hv.
    repeat runs_step. unfold GetPendingChanges. destruct (PendingChanges v) as [us|] eqn:Ep; [|by runs_step].
    runs_step. eapply runs_mono; [|apply ApplyVaasValidatorChanges_runs; [apply Hv|]].
    - intros ret u (m & s & ->). repeat runs_step. intros Hne _ Hok. by apply (running_applied v).
    - intros u. by apply (pending_sound v (run_store v Hv)). }
  exists us, w'. split; [done|]. apply EndBlock_ok in E as (Hok & Hp & _ & _ & Hcc & Hus & _); [|apply Hr].
  split_and!; [|done..]. apply Hrun; [rewrite Hcc; by apply run_set|done|done].
Qed.

(** *** Packets and messages *)
(** A packet whose window, if it carries one, has a bitmap length that does not
    overflow (the parameter checks of both chains let the seven largest int64
    windows pass, which governance of the provider could set), and which names a
    key once if it is a snapshot, as every snapshot of the provider does. *)
Definition well_formed (p : ValidatorSetChangePacketData) : Prop :=
  (∀ q, VSC_DowntimeParams p = Some q → in_int64 (dp_SignedBlocksWindow q + 7)) ∧
  (IsSnapshot p = true → NoDup (PubKey_ <$> ValidatorUpdates p)).

Lemma running_chain w id : running w → id ≠ "" → running (upd_ProviderChainId (λ _, Some id) w).
Proof. intros [H1 H2 [Hs1 Hs2] H4 H5 _ H7 H8 H9 H10] Hne. split; try done. intros [= ?]. done. Qed.
Lemma authenticate_running client c w w' :
  running w → authenticateProviderChainID client c w = (Ok tt, w') → running w'.
Proof.
  intros Hr E. unfold authenticateProviderChainID in E. run_inv.
  destruct (GetProviderChainId _) eqn:?; unfold SetProviderChainId in *; run_inv; [done|]. apply running_chain; [done|]. by eapply (run_clients _ Hr).
Qed.

Lemma stage_running q c w w' :
  running w → in_int64 (dp_SignedBlocksWindow q + 7) → StageDowntimeParams q c w = (Ok tt, w') → running w'.
Proof.
  intros Hr H64 E. unfold StageDowntimeParams in E. destruct (validDowntimeParams q) eqn:Eq; cbn [negb] in E; [|by run_inv].
  apply bind_Ok in E as (params & w1 & E1 & E). unfold GetConsumerParams in E1. run_inv.
  destruct (_ && _); run_inv; apply running_staged; try done. intros q' [= <-]. split; [by destruct q|done].
Qed.
Lemma running_accepted w pend id debt :
  let w' := upd_HighestValsetUpdateID (λ _, Some id) (upd_PendingChanges (λ _, Some pend) (upd_CConsumerInDebt (λ _, Some debt) w)) in
  running w → id ≠ 0%N → store_ok w' → effective_set w' ≠ ∅ → running w'.
Proof. intros w' [H1 H2 _ _ H5 H6 H7 H8 H9 H10] Hid Hok Hne. split; try done. intros [= ?]. done. Qed.
Lemma accept_packet_running p c w w' :
  running w → well_formed p → ValidatorSetChangePacketData_Validate p = Ok tt → store_ok w' → effective_set w' ≠ ∅ →
  accept_packet p c w = (Ok tt, w') → running w'.
Proof.
  intros Hr [H64 _] Hval Hok Hne E. unfold accept_packet in E.
  apply bind_Ok in E as (now & w0 & [_ <-]%(asks_Ok _ c) & E). apply bind_Ok in E as ([] & w1 & E1%(modify_Ok _ c) & E).
  assert (running w1) as Hr1 by (subst w1; by apply (running_rest w)).
  apply bind_Ok in E as ([] & w2 & E2 & E).
  assert (running w2) as Hr2.
  { destruct (VSC_DowntimeParams p) as [q|] eqn:Eq; [|by run_inv]. apply (stage_running q c w1); [done|by apply H64|done]. }
  clear E1 E2. apply bind_Ok in E as ([] & w3 & E3%(modify_Ok _ c) & E). apply bind_Ok in E as (pend & w4 & E4 & E).
  assert (w4 = w3) as -> by (destruct (IsSnapshot p); by run_inv).
  unfold SetPendingChanges, SetHighestValsetUpdateID in E. run_inv. apply running_accepted; try done.
  unfold ValidatorSetChangePacketData_Validate in Hval. by destruct (N.eqb_spec (ValsetUpdateId p) 0).
Qed.

Lemma OnRecvVSCPacketV2_running client p c w w' :
  running w → well_formed p → OnRecvVSCPacketV2 client p c w = (Ok tt, w') → running w'.
Proof.
  intros Hr Hwf E. pose proof E as E0. apply OnRecvVSCPacketV2_ok in E0 as (_ & Hval & Hok & _ & _ & Hcase); [|apply Hr].
  unfold OnRecvVSCPacketV2 in E. rewrite Hval in E. apply bind_Ok in E as ([] & w1 & [_ <-]%ret_Ok & E).
  apply bind_Ok in E as ([] & w1 & E1 & E). pose proof (auth_frame _ _ _ _ _ E1) as (_ & _ & Hh & _).
  apply authenticate_running in E1; [|done]. apply bind_Ok in E as ([] & w2 & [Hpin ->]%enforcePinned_ok & E).
  apply bind_Ok in E as (h & w2 & [<- <-]%gets_Ok & E). unfold GetHighestValsetUpdateID in E. rewrite Hh in E.
  unfold stale in Hcase. destruct (match HighestValsetUpdateID w with Some _ => _ | None => _ end); [by run_inv|].
  apply bind_Ok in E as (empties & w2 & [He <-]%gets_Ok & E). destruct empties; [by apply raise_Ok in E|].
  eapply accept_packet_running; [done|done|done|done| |done].
  destruct Hcase as (_ & Heff & _ & v & Hv & Hne). rewrite Heff. apply wouldEmpty_false in Hne; [|by eapply same_valset_ok, Hr|apply Hwf].
  assert (effective_set v = effective_set w) as <-; [|done].
  unfold effective_set. rewrite (same_valset_cc _ _ Hv). by destruct Hv as (_ & -> & _).
Qed.

(** ** The packet callbacks *)
Definition has_params (w : CWorld) : Prop := is_Some (CParams w).
Lemma GetConsumerParams_answers : answers has_params GetConsumerParams.
Proof. by apply answers_read. Qed.
Lemma OnRecvVSCPacketV2_answers client p : answers has_params (OnRecvVSCPacketV2 client p).
Proof.
  unfold OnRecvVSCPacketV2, authenticateProviderChainID, enforcePinnedProviderClient, accept_packet, StageDowntimeParams,
    SetProviderChainId, SetLastVSCRecvTime, SetConsumerInDebt, SetPendingChanges, SetHighestValsetUpdateID.
  answer; try done; apply GetConsumerParams_answers.
Qed.
(** A payload whose packet, if it decodes to one, is such a packet. *)
Definition well_formed_payload (payload : Payload ValidatorSetChangePacketData) : Prop :=
  ∀ p, Value payload = Some p → well_formed p.
Lemma OnRecvPacket_running client payload c w w' :
  running w → well_formed_payload payload → OnRecvPacket client payload c w = (Ok true, w') → running w'.
Proof.
  intros Hr Hwf (_ & _ & p & Ep & E)%OnRecvPacket_true. eapply OnRecvVSCPacketV2_running; [exact Hr|by apply Hwf|exact E].
Qed.
(** Every receive ends in a status, whatever the payload; one that fails is
    rolled back. *)
Lemma OnRecvPacket_answered client payload c w :
  running w → ∃ ok w', OnRecvPacket client payload c w = (Ok ok, w').
Proof.
  intros Hr. assert (runs (OnRecvPacket client payload) c w (λ _ _, True)) as (ok & w' & E & _); [|by exists ok, w'].
  destruct (run_params w Hr) as (params & Ep & _). unfold OnRecvPacket.
  destruct (negb _); [by apply runs_ret|]. destruct (negb _); [by apply runs_ret|].
  destruct (Value payload) as [p|]; [|by apply runs_ret]. runs_step.
  eapply runs_mono; [|apply (answers_try has_params); [apply OnRecvVSCPacketV2_answers|by eexists]].
  intros a v _. by apply runs_ret.
Qed.

Lemma OnTimeoutPacket_running payload c w : running w → runs (OnTimeoutPacket payload) c w (λ _, running).
Proof.
  intros Hr. unfold OnTimeoutPacket, RequeueEvidencePacket. runs_step.
  destruct (Value payload) as [packet|]; [|exists (inl ErrInvalidPacketData), w; split; [done|by runs_step]].
  destruct (EvidencePacketData_Validate packet) as [[]|e|] eqn:Ev; [|exists (inl ErrInvalidPacketData), w; split; [done|by runs_step]..].
  repeat runs_step. eapply runs_mono; [|by apply QueueEvidencePacket_runs]. intros [] v [Hv _]. by runs_step.
Qed.
Lemma SetProviderClient_running signer client c w w' :
  running w → SetProviderClient signer client c w = (Ok tt, w') → running w'.
Proof.
  intros Hr E. unfold SetProviderClient in E. apply ro_bind in E as [(allowed & _ & E)|[-> _]]; [|done|unfold isProviderClientAuthority; pres].
  unfold SetProviderClientID in E. run_inv. destruct Hr as [R1 R2 [Hs1 Hs2] R4 _ R6 R7 R8 R9 R10]. split; try done.
  intros id [= <-]. cbn. split; [|by eexists]. intros ->. destruct R10 as [Hnone _]. cbn in *. congruence.
Qed.
Lemma UpdateParams_running authority params c w w' :
  running w → UpdateParams authority params c w = (Ok tt, w') → running w'.
Proof.
  intros Hr E. destruct (run_params w Hr) as (current & Ep & Hg & Ht). unfold UpdateParams, SetParams, GetConsumerParams in E. run_inv.
  apply running_params; [done| |done]. apply with_downtime_good; [done|by apply good_params_usable].
Qed.

(** Everything that moves the consumer between its genesis and an export: its
    block hooks, the packets and messages that succeed (a failing one is rolled
    back), and the other modules, which forget no client. *)
Inductive cstep : CWorld → CWorld → Prop :=
  | cstep_begin votes c w w' : block_ok c votes → BeginBlock votes c w = (Ok tt, w') → cstep w w'
  | cstep_end c w us w' : EndBlock c w = (Ok us, w') → cstep w w'
  | cstep_recv client payload c w w' :
      well_formed_payload payload → OnRecvPacket client payload c w = (Ok true, w') → cstep w w'
  | cstep_timeout payload c w w' : OnTimeoutPacket payload c w = (Ok tt, w') → cstep w w'
  | cstep_pin signer client c w w' : SetProviderClient signer client c w = (Ok tt, w') → cstep w w'
  | cstep_params authority params c w w' : UpdateParams authority params c w = (Ok tt, w') → cstep w w'
  | cstep_other s i w : clients_kept (c_ibc w) i → clients_ok i → cstep w (upd_c_slashing (λ _, s) (upd_c_ibc (λ _, i) w)).

Lemma runs_result {A} (m : CK A) c w (Q : A → CWorld → Prop) a w' : runs m c w Q → m c w = (Ok a, w') → Q a w'.
Proof. intros (b & v & E & HQ) E'. rewrite E in E'. by injection E' as <- <-. Qed.
Lemma cstep_running w w' : cstep w w' → running w → running w'.
Proof.
  intros Hs Hr. destruct Hs as [votes c w w' Hb E|c w us w' E|client payload c w w' Hwf E|payload c w w' E|signer client c w w' E
    |authority params c w w' E|s i w Hk Hok].
  - by apply (runs_result _ _ _ _ _ _ (BeginBlock_runs votes c w Hr Hb) E).
  - by apply (runs_result _ _ _ _ _ _ (EndBlock_runs c w Hr) E).
  - by eapply OnRecvPacket_running.
  - by apply (runs_result _ _ _ _ _ _ (OnTimeoutPacket_running payload c w Hr) E).
  - by eapply SetProviderClient_running.
  - by eapply UpdateParams_running.
  - destruct Hr as [H1 H2 [Hs1 Hs2] H4 H5 H6 H7 H8 H9 H10]. split; try done.
    intros id Hid. destruct (H5 id Hid) as [Hne Hc]. split; [done|]. by apply Hk.
Qed.
Lemma csteps_running w w' : rtc cstep w w' → running w → running w'.
Proof. induction 1; [done|]. intros. by apply IHrtc, (cstep_running x). Qed.
End run.
