(* ===== verification/ConsumerRestart.v ===== *)
(** The consumer's side of a state-export restart
    (docs/genesis-restart-runbook.md): what is exported comes back, the validator
    store included, and exporting again gives the same genesis. *)
From S2P Require Import Prelude GoTime Types Externals ConsumerWorld ValSets Consumer AppModules ConsumerGenesis ConsumerDowntimeProofs ConsumerValset ConsumerRun.

(** ** Applying a whole set to an empty store *)
Section apply.
Context `{CX : ConsumerExternals} {CL : ConsumerLaws}.

Definition update_of (v : VaasValidator) : ValidatorUpdate := mkUpdate (vv_Pubkey v) (vv_Power v).
Definition storable (v : VaasValidator) : Prop :=
  TMCryptoPublicKeyToConsAddr (vv_Pubkey v) = Some (vv_Address v) ∧ 0 < vv_Power v.
Lemma apply_all_run l ret c (w : CWorld) :
  (∀ v, v ∈ l → storable v ∧ VaasValidators w !! vv_Address v = None) → NoDup (vv_Address <$> l) →
  ∃ s, fold_each (update_of <$> l) apply_change ret c w =
    (Ok (ret ++ (update_of <$> l)), with_vals (puts vv_Address Some l (VaasValidators w)) s w).
Proof.
  revert ret w. induction l as [|v l IH]; intros ret w Hl Hnd.
  { exists (c_slashing w). cbn. rewrite app_nil_r. by destruct w. }
  rewrite fmap_cons, NoDup_cons in Hnd. destruct Hnd as [Hv Hnd].
  destruct (Hl v ltac:(by left)) as [[Ha Hp] Hnone]. destruct (bonded_hook (c_slashing w) (vv_Address v)) as [s Es].
  assert (apply_change ret (update_of v) c w =
    (Ok (ret ++ [update_of v]), with_vals (<[vv_Address v := v]> (VaasValidators w)) s w)) as E.
  { unfold apply_change, update_of, GetVaasValidator, SetVaasValidator. cbn [PubKey_ Power]. rewrite Ha.
    do 2 (rewrite bind_run; cbn [gets or_panic mret M_ret]). rewrite Hnone, (proj2 (Z.ltb_lt _ _) Hp).
    do 2 (rewrite bind_run; cbn [gets modify]). rewrite bind_run.
    change (c_slashing (upd_VaasValidators _ w)) with (c_slashing w). rewrite Es. cbn [or_panic mret M_ret].
    rewrite bind_run. cbn [modify]. destruct v as [a p k], w. reflexivity. }
  destruct (IH (ret ++ [update_of v]) (with_vals (<[vv_Address v := v]> (VaasValidators w)) s w)) as (s' & E').
  { intros u Hu. destruct (Hl u ltac:(by right)) as [Hs Hn]. split; [done|]. cbn. rewrite lookup_insert_ne; [done|].
    intros Eq. apply Hv. rewrite Eq. by apply list_elem_of_fmap_2. }
  { done. }
  exists s'. cbn [fmap list_fmap fold_each]. rewrite bind_run, E. rewrite E', <-app_assoc. by destruct w.
Qed.
End apply.

Section restart.
Context `{CG : CGenesisExternals} {CL : ConsumerLaws} {KL : KeyLaws} {DL : LegacyDecLaws}.

(** What [ExportGenesis] reads. *)
Definition exported (w : CWorld) (params : ConsumerParams) : GenesisState :=
  mkGenesisState params false (mkProviderInfo None None (MustGetCurrentValidatorsAsABCIUpdates w))
    (default "" (ProviderClientID w)) (LastVSCRecvTime w) (exportMissedBlockBitmaps w) (exportFirstTrackedHeights w)
    (StagedDowntimeParams w) (default 0%N (HighestValsetUpdateID w)) (default "" (ProviderChainId w))
    (exportPendingEvidencePackets w) (IsConsumerInDebt w).
Lemma consumer_export_run c w params :
  CParams w = Some params → ExportGenesis c w = (Ok (exported w params), w).
Proof.
  intros E. unfold ExportGenesis, GetConsumerParams. repeat (rewrite bind_run; cbn [gets]). rewrite E.
  cbn [or_panic mret M_ret]. by repeat (rewrite bind_run; cbn [gets]).
Qed.

(** A consumer about to start, and the one an export restarts as. *)
Definition blank (s : slashing) (i : cibc) : CWorld :=
  mkCWorld None None None None None ∅ ∅ None ∅ None ∅ ∅ None None s i.
Definition restored_chain (w : CWorld) (params : ConsumerParams) (height : Z) (s : slashing) : CWorld :=
  mkCWorld (ProviderClientID w) None (Some height) (Some params) (if IsConsumerInDebt w then Some true else None)
    (VaasValidators w) ∅ (HighestValsetUpdateID w) (PendingEvidencePackets w) (LastVSCRecvTime w)
    (MissedBlockBitmaps w) (FirstTrackedHeights w) (StagedDowntimeParams w) (ProviderChainId w) s (c_ibc w).

Lemma packets_run c (w v : CWorld) :
  map_Forall good_packet (PendingEvidencePackets w) → PendingEvidencePackets v = ∅ →
  for_each (exportPendingEvidencePackets w) init_packet c v =
  (Ok tt, upd_PendingEvidencePackets (λ _, PendingEvidencePackets w) v).
Proof.
  intros Hk E0. unfold exportPendingEvidencePackets.
  assert (∀ l v, for_each ((λ kv : string * Z * EvidencePacketData, mkPacketEntry kv.1.1 (Some kv.2)) <$> l) init_packet c v =
    (Ok tt, upd_PendingEvidencePackets (puts (λ kv, pendingEvidenceKey kv.2) (λ kv, Some kv.2) l) v)) as Hrun.
  { induction l as [|kv l IH]; intros u; [by destruct u|]. cbn [fmap list_fmap for_each]. rewrite bind_run.
    unfold init_packet at 1. rewrite bind_run. cbn [pk_Packet or_panic mret M_ret modify]. rewrite IH. by destruct u. }
  rewrite Hrun. f_equal. unfold upd_PendingEvidencePackets. rewrite E0. f_equal.
  rewrite <-(list_fmap_id (iterate _)). apply puts_iterate. intros [k p] Hin%elem_of_iterate. split; [by apply (Hk k p)|done].
Qed.

(** The restart branch: pin, chain id, debt and watermark. *)
Lemma init_restart_run w params c (v : CWorld) :
  running w → c_ibc v = c_ibc w → ProviderClientID v = None → ProviderChainId v = None →
  CConsumerInDebt v = None → HighestValsetUpdateID v = None →
  init_restart (exported w params) c v = (Ok tt,
    upd_HighestValsetUpdateID (λ _, HighestValsetUpdateID w)
    (upd_CConsumerInDebt (λ _, if IsConsumerInDebt w then Some true else None)
    (upd_ProviderChainId (λ _, ProviderChainId w) (upd_ProviderClientID (λ _, ProviderClientID w) v)))).
Proof.
  intros Hex Ei E1 E2 E3 E4. unfold init_restart. cbn [exported cn_ProviderClientId cn_ProviderChainId cn_ConsumerInDebt cn_HighestValsetUpdateId].
  rewrite bind_run.
  assert (if_some (nonempty (default "" (ProviderClientID w))) (λ clientId,
    found ← gets (λ w, c_GetClientState (c_ibc w) clientId);
    or_panic (match found with Some _ => Some tt | None => None end);; SetProviderClientID clientId) c v
    = (Ok tt, upd_ProviderClientID (λ _, ProviderClientID w) v)) as ->.
  { destruct (ProviderClientID w) as [id|] eqn:E; [|destruct v; cbn in *; by subst].
    destruct (run_pin _ Hex id E) as [Hne [st Est]]. cbn. unfold nonempty. destruct (String.eqb_spec id ""); [done|].
    cbn [if_some]. rewrite bind_run. cbn [gets]. rewrite Ei, Est. cbn. by rewrite bind_run. }
  rewrite bind_run.
  set (v1 := upd_ProviderClientID _ v).
  assert (if_some (nonempty (default "" (ProviderChainId w))) SetProviderChainId c v1
    = (Ok tt, upd_ProviderChainId (λ _, ProviderChainId w) v1)) as ->.
  { pose proof (run_chain _ Hex) as Hne. destruct (ProviderChainId w) as [id|]; [|by destruct v; cbn in *; subst].
    cbn. unfold nonempty. by destruct (String.eqb_spec id ""); [subst|]. }
  rewrite bind_run. destruct (IsConsumerInDebt w); cbn [when SetConsumerInDebt modify mret M_ret].
  - pose proof (run_highest _ Hex) as Hne. destruct (HighestValsetUpdateID w) as [n|]; [|by destruct v; cbn in *; subst].
    cbn. by destruct (N.eqb_spec n 0); [subst|].
  - pose proof (run_highest _ Hex) as Hne. destruct v; cbn in *; subst.
    destruct (HighestValsetUpdateID w) as [n|]; [|done]. cbn. by destruct (N.eqb_spec n 0); [subst|].
Qed.

Lemma last_run (w : CWorld) c (v : CWorld) :
  LastVSCRecvTime v = None →
  if_some (LastVSCRecvTime w) SetLastVSCRecvTime c v = (Ok tt, upd_LastVSCRecvTime (λ _, LastVSCRecvTime w) v).
Proof. intros E. destruct (LastVSCRecvTime w); [done|destruct v; cbn in *; by subst]. Qed.
Lemma bitmaps_run (w : CWorld) c (v : CWorld) :
  MissedBlockBitmaps v = ∅ →
  for_each (exportMissedBlockBitmaps w) (λ entry, modify (upd_MissedBlockBitmaps (insert (be_Addr entry) (be_Bitmap entry)))) c v
  = (Ok tt, upd_MissedBlockBitmaps (λ _, MissedBlockBitmaps w) v).
Proof.
  intros E. rewrite (writes_run upd_MissedBlockBitmaps be_Addr be_Bitmap _ _ c v); [|done|by intros []|by intros ? ? []].
  f_equal. unfold upd_MissedBlockBitmaps. rewrite E. f_equal. by apply puts_iterate.
Qed.
Lemma heights_run (w : CWorld) c (v : CWorld) :
  FirstTrackedHeights v = ∅ →
  for_each (exportFirstTrackedHeights w) (λ entry, modify (upd_FirstTrackedHeights (insert (he_Addr entry) (he_Height entry)))) c v
  = (Ok tt, upd_FirstTrackedHeights (λ _, FirstTrackedHeights w) v).
Proof.
  intros E. rewrite (writes_run upd_FirstTrackedHeights he_Addr he_Height _ _ c v); [|done|by intros []|by intros ? ? []].
  f_equal. unfold upd_FirstTrackedHeights. rewrite E. f_equal. by apply puts_iterate.
Qed.
Lemma staged_run w c (v : CWorld) :
  running w → StagedDowntimeParams v = None →
  if_some (StagedDowntimeParams w) init_staged c v = (Ok tt, upd_StagedDowntimeParams (λ _, StagedDowntimeParams w) v).
Proof.
  intros Hex E. destruct (StagedDowntimeParams w) as [p|] eqn:Ep; [|destruct v; cbn in *; by subst].
  cbn [if_some]. unfold init_staged. rewrite bind_run. destruct (run_staged _ Hex p Ep) as [Hv _].
  assert (validDowntimeParams p = true) as -> by (by destruct p). done.
Qed.

Lemma consumer_restart_run w params c s :
  running w →
  ∃ s', InitGenesis (exported w params) c (blank s (c_ibc w)) =
    (Ok (MustGetCurrentValidatorsAsABCIUpdates w), restored_chain w params (BlockHeight c) s').
Proof.
  intros Hex.
  set (u := mkCWorld (ProviderClientID w) None (Some (BlockHeight c)) (Some params) (if IsConsumerInDebt w then Some true else None)
      ∅ ∅ (HighestValsetUpdateID w) (PendingEvidencePackets w) (LastVSCRecvTime w) (MissedBlockBitmaps w)
      (FirstTrackedHeights w) (StagedDowntimeParams w) (ProviderChainId w) s (c_ibc w)).
  destruct (apply_all_run (GetAllVaasValidator w) [] c u) as (s' & E).
  { intros v (a & Ea)%elem_of_GetAllVaasValidator. destruct (store_addr _ (run_store _ Hex) a v Ea) as (<- & Hk & Hp).
    by split. }
  { unfold GetAllVaasValidator. rewrite <-list_fmap_compose. erewrite list_fmap_ext; [apply (NoDup_fst_iterate (VaasValidators w))|].
    intros i [a v] Hi%list_elem_of_lookup_2%elem_of_iterate. cbn. by destruct (store_addr _ (run_store _ Hex) a v Hi). }
  exists s'. unfold InitGenesis. rewrite bind_run. cbn [asks]. do 2 (rewrite bind_run; cbn [SetInitGenesisHeight SetParams modify]).
  rewrite bind_run. cbn [exported cn_NewChain]. rewrite (init_restart_run w params) by done.
  assert (puts vv_Address Some (GetAllVaasValidator w) ∅ = VaasValidators w) as Evals.
  { apply puts_iterate. intros [a v] Hin%elem_of_iterate. by destruct (store_addr _ (run_store _ Hex) a v Hin). }
  change (VaasValidators u) with (∅ : gmap string VaasValidator) in E. rewrite Evals in E.
  rewrite bind_run. cbn [exported cn_LastVscRecvTime cn_MissedBlockBitmaps cn_FirstTrackedHeights cn_PendingEvidencePackets
    cn_StagedDowntimeParams cn_Provider pi_InitialValSet].
  rewrite last_run by done. rewrite bind_run, bitmaps_run by done. rewrite bind_run, heights_run by done.
  rewrite bind_run, packets_run by (try done; apply run_evidence, Hex). rewrite bind_run, (staged_run w) by done.
  rewrite bind_run. unfold ApplyVaasValidatorChanges.
  change (MustGetCurrentValidatorsAsABCIUpdates w) with (update_of <$> GetAllVaasValidator w).
  match goal with |- context [fold_each _ _ _ c ?v] => change v with u end. by rewrite E.
Qed.

(** The export passes the genesis validation. *)
Lemma exported_valid w params :
  running w → PendingChanges w = None → CParams w = Some params → Validate (exported w params) = true.
Proof.
  intros Hr Hpend Ep. destruct (run_params w Hr) as (params' & Ep' & [Hv H64] & [Hb Hh]). rewrite Ep in Ep'. injection Ep' as <-.
  destruct (usable_limit _ _ (good_params_usable params (conj Hv H64))) as (Hw & _).
  unfold Validate. cbn [exported cn_Provider pi_InitialValSet cn_Params cn_NewChain pi_ClientState pi_ConsensusState
    cn_MissedBlockBitmaps cn_FirstTrackedHeights cn_PendingEvidencePackets cn_StagedDowntimeParams].
  rewrite !andb_true_iff, !forallb_forall. split_and!; try done.
  - apply negb_true_iff, bool_decide_eq_false. intros E. destruct (run_set w Hr). unfold effective_set. rewrite Hpend. cbn.
    rewrite <-(MustGet_apply w) by apply Hr. by rewrite E.
  - intros e ([a bm] & -> & Hin%elem_of_iterate)%list_elem_of_In%list_elem_of_fmap. destruct (Hb a bm Hin) as (Ha & El & _).
    unfold bitmap_ok. cbn. rewrite (proj2 (String.eqb_neq _ _) Ha), El, wrap64_id, Z.quot_div_nonneg by (done || lia).
    apply Z.eqb_refl.
  - intros e ([a h] & -> & Hin%elem_of_iterate)%list_elem_of_In%list_elem_of_fmap. destruct (Hh a h Hin) as (Ha & Hpos).
    unfold height_ok. cbn. rewrite (proj2 (String.eqb_neq _ _) Ha). cbn. lia.
  - intros e ([[a h] q] & -> & Hin%elem_of_iterate)%list_elem_of_In%list_elem_of_fmap.
    destruct (run_evidence w Hr _ _ Hin) as [Hk Hq]. unfold packet_ok. cbn. injection Hk as <- _. rewrite Hq. cbn.
    rewrite String.eqb_refl. unfold EvidencePacketData_Validate in Hq. by destruct (String.eqb (ValidatorAddr q) "").
  - destruct (StagedDowntimeParams w) as [q|] eqn:Eq; [|done]. pose proof (run_staged w Hr q Eq) as Hu.
    destruct (usable_limit _ _ Hu) as (Hwq & -> & -> & -> & _). cbn. rewrite andb_true_r. lia.
Qed.

(** A restarted chain is a running one, with the validator set it had. *)
Lemma restored_running w params h s :
  running w → PendingChanges w = None → CParams w = Some params → running (restored_chain w params h s).
Proof.
  intros Hr Hpend Ep. destruct Hr as [H1 (params' & Ep' & Hg & Ht) [Hs1 Hs2] H4 H5 H6 H7 H8 H9 H10].
  rewrite Ep in Ep'. injection Ep' as <-. split; try done.
  - by exists params.
  - unfold effective_set in *. by rewrite Hpend in H4.
Qed.
Lemma restored_set w params h s :
  PendingChanges w = None → effective_set (restored_chain w params h s) = effective_set w.
Proof. intros E. unfold effective_set. by rewrite E. Qed.
(** What is exported is what was imported. *)
Lemma exported_restored w params h s : exported (restored_chain w params h s) params = exported w params.
Proof.
  unfold exported. f_equal. unfold restored_chain, IsConsumerInDebt. cbn. by destruct (default false (CConsumerInDebt w)).
Qed.

(** C6. A state-export restart of a consumer that runs and has applied its pending changes
    is a fixed point: the export passes the genesis validation, its import succeeds and
    hands CometBFT the validators in force, the consumer runs on with the same effective
    set, client, watermark, trackers and queued evidence, and exporting again gives the same
    genesis. The validators handed over are those the exported genesis document names, as
    InitChain requires. *)
Theorem consumer_restart_is_a_fixed_point c c' c'' w s :
  running w → PendingChanges w = None →
  ∃ params gs w', CParams w = Some params ∧
    ExportGenesis c w = (Ok gs, w) ∧ Validate gs = true ∧
    InitGenesis gs c' (blank s (c_ibc w)) = (Ok (MustGetCurrentValidatorsAsABCIUpdates w), w') ∧
    running w' ∧ effective_set w' = effective_set w ∧
    (∃ s', w' = restored_chain w params (BlockHeight c') s') ∧
    ExportGenesis c'' w' = (Ok gs, w') ∧
    named_by_document (GetValidatorSet w) = MustGetCurrentValidatorsAsABCIUpdates w.
Proof.
  intros Hr Hpend. destruct (run_params w Hr) as (params & Ep & _).
  destruct (consumer_restart_run w params c' s Hr) as (s' & E).
  exists params, (exported w params), (restored_chain w params (BlockHeight c') s').
  split; [done|]. split; [by apply consumer_export_run|]. split; [by apply exported_valid|]. split; [done|].
  split; [by apply restored_running|]. split; [by apply restored_set|]. split; [by exists s'|].
  split; [|apply document_names_the_validators].
  rewrite (consumer_export_run c'' _ params) by done. by rewrite exported_restored.
Qed.
End restart.
