(* ===== verification/ConsumerStart.v ===== *)
(** Where consumers come from: a genesis that passes validation starts a running
    consumer. *)
From S2P Require Import Prelude GoTime Types Externals ConsumerWorld ValSets Consumer ConsumerGenesis ConsumerDowntimeProofs ConsumerValset ConsumerRun ConsumerRestart.

Section start.
Context `{CG : CGenesisExternals} {CL : ConsumerLaws} {KL : KeyLaws} {DL : LegacyDecLaws}.

(** What validation leaves unchecked: validators CometBFT takes, clients of the
    IBC genesis, a height for every bitmap, and windows whose bitmap length does
    not overflow. *)
Record startable (gs : GenesisState) (i : cibc) : Prop := {
  st_sound u : u ∈ pi_InitialValSet (cn_Provider gs) → sound_update u;
  st_set : apply_updates (pi_InitialValSet (cn_Provider gs)) ∅ ≠ ∅;
  st_clients : clients_ok i;
  st_chain cs : cn_NewChain gs = true → pi_ClientState (cn_Provider gs) = Some cs → cs_ChainId cs ≠ "";
  st_pin : cn_NewChain gs = false → cn_ProviderClientId gs ≠ "" → is_Some (c_GetClientState i (cn_ProviderClientId gs));
  st_tracked e : e ∈ cn_MissedBlockBitmaps gs → be_Addr e ∈ he_Addr <$> cn_FirstTrackedHeights gs;
  st_window : in_int64 (cp_SignedBlocksWindow (cn_Params gs) + 7);
  st_staged p : cn_StagedDowntimeParams gs = Some p → in_int64 (dp_SignedBlocksWindow p + 7);
}.

(** The import before it writes the validators. *)
Record starting (gs : GenesisState) (i : cibc) (v : CWorld) : Prop := {
  sg_started : is_Some (InitGenesisHeight v);
  sg_params : CParams v = Some (cn_Params gs);
  sg_vals : VaasValidators v = ∅ ∧ PendingChanges v = None;
  sg_pin id : ProviderClientID v = Some id → id ≠ "" ∧ is_Some (c_GetClientState (c_ibc v) id);
  sg_chain : ProviderChainId v ≠ Some "";
  sg_highest : HighestValsetUpdateID v ≠ Some 0%N;
  sg_evidence : map_Forall good_packet (PendingEvidencePackets v);
  sg_staged p : StagedDowntimeParams v = Some p → usable (dp_SignedBlocksWindow p) (dp_MinSignedPerWindow p);
  sg_ibc : c_ibc v = i;
  sg_new : cn_NewChain gs = true → HighestValsetUpdateID v = None;
}.
Lemma starting_running gs i v :
  starting gs i v → clients_ok i → good_params (cn_Params gs) →
  trackers_ok (cp_SignedBlocksWindow (cn_Params gs)) (MissedBlockBitmaps v) (FirstTrackedHeights v) →
  ∀ m s, store_ok (with_vals m s v) → cc_set (with_vals m s v) ≠ ∅ → running (with_vals m s v).
Proof.
  intros [H1 H2 [_ Hp] H4 H5 H6 H7 H8 Hi _] Hc Hg Ht m s Hok Hne. split; try done; try (cbn; by rewrite Hi); [by eexists|].
  unfold effective_set. cbn. by rewrite Hp.
Qed.

(** [Validate], taken apart. *)
Record validated (gs : GenesisState) : Prop := {
  v_params : ConsumerParams_Validate (cn_Params gs) = true;
  v_client : cn_NewChain gs = true → is_Some (pi_ClientState (cn_Provider gs));
  v_bitmaps e : e ∈ cn_MissedBlockBitmaps gs →
    bitmap_ok (Z.quot (wrap64 (cp_SignedBlocksWindow (cn_Params gs) + 7)) 8) e = true;
  v_heights e : e ∈ cn_FirstTrackedHeights gs → height_ok e = true;
  v_packets e : e ∈ cn_PendingEvidencePackets gs → packet_ok e = true;
  v_staged p : cn_StagedDowntimeParams gs = Some p → validDowntimeParams p = true;
}.
Lemma Validate_parts gs : Validate gs = true → validated gs.
Proof.
  unfold Validate. cbv zeta. rewrite !andb_true_iff, !forallb_forall. intros [[[[[[_ Hp] Hc] Hb] Hh] Hk] Hs].
  split; try (by intros e He%list_elem_of_In; auto); [done| |].
  - intros E. rewrite E in Hc. unfold holds in Hc. destruct (pi_ClientState _); [by eexists|done].
  - intros p E. rewrite E in Hs. apply andb_true_iff in Hs as [Hw Hm]. unfold validDowntimeParams.
    destruct (Z.leb_spec (dp_SignedBlocksWindow p) 0); [lia|]. by destruct (_ || _).
Qed.

(** *** The steps of the import *)
Section steps.
Context (gs : GenesisState) (i : cibc) (Hv : validated gs) (Hst : startable gs i).
Implicit Types (v : CWorld).

Definition untracked (v : CWorld) : Prop := MissedBlockBitmaps v = ∅ ∧ FirstTrackedHeights v = ∅.
Lemma branch_runs c v :
  starting gs i v → untracked v →
  runs (if cn_NewChain gs then init_new_chain gs else init_restart gs) c v (λ _ v', starting gs i v' ∧ untracked v').
Proof.
  intros Hg Hu. destruct (cn_NewChain gs) eqn:En.
  - destruct (v_client gs Hv En) as [cs Ecs]. unfold init_new_chain, SetProviderChainId. runs_step.
    eapply runs_or_panic; [exact Ecs|]. runs_step. split; [|done]. destruct Hg as [G1 G2 [G3a G3b] G4 G5 G6 G7 G8 G9 G10].
    split; try done. intros [= E]. by apply (st_chain gs i Hst cs En Ecs).
  - unfold init_restart, SetProviderClientID, SetProviderChainId, SetConsumerInDebt, SetHighestValsetUpdateID. runs_step.
    eapply (runs_mono _ _ _ (λ _ v', starting gs i v' ∧ untracked v')).
    2: { unfold nonempty. destruct (String.eqb_spec (cn_ProviderClientId gs) ""); cbn [if_some]; [by runs_step|]. runs_step. runs_step.
      destruct (st_pin gs i Hst En n) as [st Est]. rewrite (sg_ibc _ _ _ Hg), Est. runs_step.
      eapply runs_or_panic; [done|]. runs_step. split; [|done].
      destruct Hg as [G1 G2 [G3a G3b] G4 G5 G6 G7 G8 G9 G10]. split; try done. intros id [= <-]. split; [done|]. cbn. rewrite G9. by exists st. }
    clear v Hg Hu. intros [] v [Hg Hu]. runs_step. eapply (runs_mono _ _ _ (λ _ v', starting gs i v' ∧ untracked v')).
    2: { unfold nonempty. destruct (String.eqb_spec (cn_ProviderChainId gs) ""); cbn [if_some]; [by runs_step|]. runs_step. split; [|done].
      destruct Hg as [G1 G2 [G3a G3b] G4 G5 G6 G7 G8 G9 G10]. split; try done. by intros [= ?]. }
    clear v Hg Hu. intros [] v [Hg Hu]. runs_step. eapply (runs_mono _ _ _ (λ _ v', starting gs i v' ∧ untracked v')).
    2: { apply runs_when; [|done]. intros _. runs_step. split; [|done]. by destruct Hg as [G1 G2 [G3a G3b] G4 G5 G6 G7 G8 G9 G10]. }
    clear v Hg Hu. intros [] v [Hg Hu]. apply runs_when; [|done]. intros Hid. runs_step. split; [|done].
    destruct Hg as [G1 G2 [G3a G3b] G4 G5 G6 G7 G8 G9 G10]. split; try done; cbn; [|congruence]. intros [= E]. by rewrite E in Hid.
Qed.
Lemma last_runs c v :
  starting gs i v → untracked v →
  runs (if_some (cn_LastVscRecvTime gs) SetLastVSCRecvTime) c v (λ _ v', starting gs i v' ∧ untracked v').
Proof.
  intros Hg Hu. destruct (cn_LastVscRecvTime gs); cbn [if_some]; [|by runs_step]. unfold SetLastVSCRecvTime. runs_step. split; [|done].
  by destruct Hg as [G1 G2 [G3a G3b] G4 G5 G6 G7 G8 G9 G10].
Qed.

Definition imported_bitmaps (m : gmap string Bitmap.t) : Prop :=
  ∀ a bm, m !! a = Some bm → mkBitmapEntry a bm ∈ cn_MissedBlockBitmaps gs.
Lemma bitmaps_runs c v :
  starting gs i v → untracked v →
  runs (for_each (cn_MissedBlockBitmaps gs) (λ entry, modify (upd_MissedBlockBitmaps (insert (be_Addr entry) (be_Bitmap entry)))))
    c v (λ _ v', starting gs i v' ∧ imported_bitmaps (MissedBlockBitmaps v') ∧ FirstTrackedHeights v' = ∅).
Proof.
  intros Hg [Eb Ef].
  apply (runs_for_each (λ v', starting gs i v' ∧ imported_bitmaps (MissedBlockBitmaps v') ∧ FirstTrackedHeights v' = ∅)).
  - split_and!; [done| |done]. intros a bm. by rewrite Eb, lookup_empty.
  - intros e u He (Hu & Hb & E). runs_step. split_and!; [by destruct Hu as [G1 G2 [G3a G3b] G4 G5 G6 G7 G8 G9 G10]| |done].
    intros a bm. cbn. rewrite lookup_insert_Some. intros [[<- <-]|[_ Hx]]; [by destruct e|by apply Hb].
  - done.
Qed.

Definition imported_heights (dn : list FirstTrackedHeightEntry) (m : gmap string Z) : Prop :=
  (∀ a h, m !! a = Some h → mkHeightEntry a h ∈ cn_FirstTrackedHeights gs) ∧ ∀ a, a ∈ he_Addr <$> dn → is_Some (m !! a).
Lemma heights_runs c v :
  starting gs i v → imported_bitmaps (MissedBlockBitmaps v) → FirstTrackedHeights v = ∅ →
  runs (for_each (cn_FirstTrackedHeights gs) (λ entry, modify (upd_FirstTrackedHeights (insert (he_Addr entry) (he_Height entry)))))
    c v (λ _ v', starting gs i v' ∧ imported_bitmaps (MissedBlockBitmaps v') ∧
      imported_heights (cn_FirstTrackedHeights gs) (FirstTrackedHeights v')).
Proof.
  intros Hg Hb Ef. destruct (for_each_runs (λ dn v', starting gs i v' ∧ imported_bitmaps (MissedBlockBitmaps v') ∧
    imported_heights dn (FirstTrackedHeights v'))
    (λ entry, modify (upd_FirstTrackedHeights (insert (he_Addr entry) (he_Height entry)))) c (cn_FirstTrackedHeights gs) v) as (v' & E & Hv').
  - split_and!; [done|done|]. split; [intros a h; by rewrite Ef, lookup_empty|set_solver].
  - intros dn e rest u El (Hu & Hbu & H1 & H2). eexists. split; [done|].
    split_and!; [by destruct Hu as [G1 G2 [G3a G3b] G4 G5 G6 G7 G8 G9 G10]|done|]. split; cbn.
    + intros a h. rewrite lookup_insert_Some. intros [[<- <-]|[_ Hx]]; [|by apply H1]. rewrite El. destruct e. set_solver.
    + intros a. rewrite fmap_app, elem_of_app. cbn. destruct (decide (a = he_Addr e)) as [->|Hne]; [by rewrite lookup_insert_eq|].
      rewrite lookup_insert_ne by done. intros [Ha|Ha]; [by apply H2|set_solver].
  - by exists tt, v'.
Qed.
Lemma imported_trackers b h :
  imported_bitmaps b → imported_heights (cn_FirstTrackedHeights gs) h →
  trackers_ok (cp_SignedBlocksWindow (cn_Params gs)) b h.
Proof.
  intros Hb [Hh1 Hh2]. assert (good_params (cn_Params gs)) as Hg by (split; [apply Hv|apply Hst]).
  destruct (usable_limit _ _ (good_params_usable _ Hg)) as (Hw & _). split.
  - intros a bm E%Hb. pose proof (v_bitmaps gs Hv _ E) as Hok. unfold bitmap_ok in Hok. cbn in Hok.
    rewrite wrap64_id, Z.quot_div_nonneg in Hok by (apply Hst || lia). apply andb_true_iff in Hok as [Ha El%Z.eqb_eq].
    split_and!; [by intros ->|done|]. apply Hh2, (st_tracked gs i Hst _ E).
  - intros a x E%Hh1. pose proof (v_heights gs Hv _ E) as Hok. unfold height_ok in Hok. cbn in Hok.
    apply andb_true_iff in Hok as [Ha Hx]. split; [by intros ->|lia].
Qed.

Definition same_trackers (v v' : CWorld) : Prop :=
  MissedBlockBitmaps v' = MissedBlockBitmaps v ∧ FirstTrackedHeights v' = FirstTrackedHeights v.
Lemma packets_runs c v :
  starting gs i v →
  runs (for_each (cn_PendingEvidencePackets gs) init_packet) c v (λ _ v', starting gs i v' ∧ same_trackers v v').
Proof.
  intros Hg. apply (runs_for_each (λ v', starting gs i v' ∧ same_trackers v v')); [done| |done].
  intros e u He [Hu Hs]. pose proof (v_packets gs Hv e He) as Hok. unfold packet_ok, holds in Hok.
  unfold init_packet. runs_step. destruct (pk_Packet e) as [p|]; [|by rewrite andb_false_r in Hok].
  eapply runs_or_panic; [done|]. runs_step. split; [|done]. apply andb_true_iff in Hok as [_ [Hp _]%andb_true_iff].
  destruct Hu as [G1 G2 [G3a G3b] G4 G5 G6 G7 G8 G9 G10]. split; try done. cbn. apply map_Forall_insert_2; [|done].
  split; [done|]. by destruct (EvidencePacketData_Validate p) as [[]| |].
Qed.
Lemma staged_runs c v :
  starting gs i v →
  runs (if_some (cn_StagedDowntimeParams gs) init_staged) c v (λ _ v', starting gs i v' ∧ same_trackers v v').
Proof.
  intros Hg. destruct (cn_StagedDowntimeParams gs) as [p|] eqn:Ep; cbn [if_some]; [|by runs_step].
  unfold init_staged. runs_step. rewrite (v_staged gs Hv p Ep).
  eapply runs_or_panic; [done|]. runs_step. split; [|done].
  destruct Hg as [G1 G2 [G3a G3b] G4 G5 G6 G7 G8 G9 G10]. split; try done. intros q [= <-].
  split; [destruct p; by apply (v_staged gs Hv)|by apply (st_staged gs i Hst)].
Qed.

Lemma InitGenesis_runs c s :
  runs (InitGenesis gs) c (blank s i) (λ us w, us = pi_InitialValSet (cn_Provider gs) ∧ running w ∧
    PendingChanges w = None ∧ cc_set w = apply_updates us ∅ ∧ (cn_NewChain gs = true → HighestValsetUpdateID w = None)).
Proof.
  unfold InitGenesis, SetInitGenesisHeight, SetParams. repeat runs_step.
  eapply runs_mono; [|apply branch_runs; [by split|done]].
  intros [] v1 [G1 U1]. runs_step. eapply runs_mono; [|by apply last_runs]. clear v1 G1 U1. intros [] v1 [G1 U1].
  runs_step. eapply runs_mono; [|by apply bitmaps_runs]. clear v1 G1 U1. intros [] v1 (G1 & B1 & E1).
  runs_step. eapply runs_mono; [|by apply heights_runs]. clear v1 G1 B1 E1. intros [] v1 (G1 & B1 & H1).
  assert (trackers_ok (cp_SignedBlocksWindow (cn_Params gs)) (MissedBlockBitmaps v1) (FirstTrackedHeights v1)) as T1
    by (by apply imported_trackers). clear B1 H1.
  runs_step. eapply runs_mono; [|by apply packets_runs]. intros [] v2 (G2 & Eb2 & Eh2). rewrite <-Eb2, <-Eh2 in T1. clear v1 G1 Eb2 Eh2.
  runs_step. eapply runs_mono; [|by apply staged_runs]. intros [] v1 (G1 & Eb1 & Eh1). rewrite <-Eb1, <-Eh1 in T1. clear v2 G2 Eb1 Eh1.
  assert (store_ok v1) as Hok.
  { destruct (sg_vals _ _ _ G1) as [E1 E2]. split; intros ? ?; [by rewrite E1, lookup_empty|by rewrite E2]. }
  assert (cc_set v1 = ∅) as Hcc by (unfold cc_set, GetAllVaasValidator; rewrite (proj1 (sg_vals _ _ _ G1)), iterate_empty; done).
  runs_step. destruct (ApplyVaasValidatorChanges_runs (pi_InitialValSet (cn_Provider gs)) c v1 Hok) as (us & w & E & m & s' & ->);
    [apply Hst|]. exists us, (with_vals m s' v1). split; [exact E|]. runs_step.
  apply ApplyVaasValidatorChanges_ok in E as (Hok' & (Ep & _) & Hcc' & _); [|done|apply Hst]. rewrite Hcc in Hcc'.
  split; [done|]. split; [|split; [|split; [done|apply G1]]].
  - apply (starting_running gs i v1); try done; [apply Hst|split; [apply Hv|apply Hst]|]. rewrite Hcc'. apply Hst.
  - by rewrite Ep, (proj2 (sg_vals _ _ _ G1)).
Qed.
End steps.

(** C5. A consumer genesis that passes validation (and names validators CometBFT takes, not
    all of power zero, a client of the IBC genesis, clients with non-empty ids and chain
    ids, a provider chain id for a new chain, a first height for every bitmap and windows
    without overflow, which validation does not check) imports without a panic into a
    running consumer whose validator set is the genesis', with nothing pending. Every state
    a run of its blocks, messages, packets and moves of the other modules that forget no
    client leads to is running too, as long as no accepted packet stages one of the seven
    largest int64 windows (which the parameter checks let pass, see the finding on
    params.go:91) and no accepted snapshot names a key twice. *)
Theorem consumer_genesis_starts_running gs i c s :
  Validate gs = true → startable gs i →
  ∃ w, InitGenesis gs c (blank s i) = (Ok (pi_InitialValSet (cn_Provider gs)), w) ∧
    PendingChanges w = None ∧ effective_set w = apply_updates (pi_InitialValSet (cn_Provider gs)) ∅ ∧
    ∀ w', rtc cstep w w' → running w'.
Proof.
  intros Hv%Validate_parts Hst. destruct (InitGenesis_runs gs i Hv Hst c s) as (us & w & E & -> & Hr & Hp & Hcc & _).
  exists w. split; [done|]. split; [done|]. split; [unfold effective_set; by rewrite Hp|].
  intros w' Hs. by apply (csteps_running w).
Qed.

(** C4. A running consumer (the state a genesis starts it in, see C5) halts on nothing but
    an ill-formed packet: after any run of blocks (no vote naming an empty address),
    messages, moves of the other modules (which forget no client and keep client ids and
    chain ids non-empty) and packets, among which no accepted one staged one of the seven
    largest int64 windows (whose bitmap length overflows; the first missed block then
    panics, see the finding on params.go:91) and no accepted snapshot named a key twice
    (none of the provider's does), the block hooks return at every int64 height, without a
    panic, and what EndBlock hands CometBFT turns the set in force into the effective one,
    which is never empty. Every received packet, ill-formed ones included, is answered with
    a status, every timeout and acknowledgement is handled without an error. *)
Theorem consumer_never_halts c votes w w' :
  running w → rtc cstep w w' → block_ok c votes →
  (∃ w1 us w2, BeginBlock votes c w' = (Ok tt, w1) ∧ EndBlock c w1 = (Ok us, w2) ∧
    PendingChanges w2 = None ∧ effective_set w2 = effective_set w1 ∧
    apply_updates us (cc_set w1) = cc_set w2 ∧ cc_set w2 ≠ ∅) ∧
  (∀ client payload, ∃ ok w1, OnRecvPacket client payload c w' = (Ok ok, w1)) ∧
  (∀ payload, ∃ w1, OnTimeoutPacket payload c w' = (Ok tt, w1)) ∧
  (∀ errorAck payload, OnAcknowledgementPacket errorAck payload c w' = (Ok tt, w')).
Proof.
  intros Hr Hs Hb. apply (csteps_running _ _ Hs) in Hr. split; [|split_and!].
  2: { intros client payload. by apply OnRecvPacket_answered. }
  2: { intros payload. destruct (OnTimeoutPacket_running payload c w' Hr) as ([] & w1 & E & _). by exists w1. }
  2: { by intros []. }
  destruct (BeginBlock_runs votes c w' Hr Hb) as ([] & w1 & E1 & Hr1).
  destruct (EndBlock_runs c w1 Hr1) as (us & w2 & E2 & Hr2 & Hp & Hcc & Hus). exists w1, us, w2.
  split_and!; [done|done|done| |done|rewrite Hcc; by apply run_set]. unfold effective_set at 1. by rewrite Hp, <-Hcc.
Qed.

(** Why the windows are bounded: a window whose bitmap length overflows passes
    every check of the parameters, and the first missed block panics. *)
Lemma overflowing_window_panics params addr votes c w :
  CParams w = Some params → 0 < cp_SignedBlocksWindow params ≤ int64_max → ¬ in_int64 (cp_SignedBlocksWindow params + 7) →
  1 < BlockHeight c → MissedBlockBitmaps w !! addr = None →
  (TrackMissedBlocks ((addr, BlockIDFlagAbsent) :: votes) c w).1 = Panic.
Proof.
  intros Ep Hw H64 Hh Hnone. unfold TrackMissedBlocks, GetDowntimeParams, GetConsumerParams. rewrite bind_run. cbn [asks].
  destruct (Z.leb_spec (BlockHeight c - 1) 0); [lia|]. rewrite bind_run, bind_run, bind_run. cbn [gets]. rewrite Ep. cbn [or_panic mret M_ret].
  destruct (Z.leb_spec (cp_SignedBlocksWindow params) 0); [lia|]. rewrite bind_run. cbn [for_each]. rewrite bind_run.
  assert (wrap64 (cp_SignedBlocksWindow params + 7) = cp_SignedBlocksWindow params + 7 - 2 ^ 64) as Ewrap.
  { unfold wrap64. unfold in_int64, int64_min, int64_max in *.
    rewrite (Z.mod_eq _ (2 ^ 64)) by lia. rewrite <-(Z.div_unique (cp_SignedBlocksWindow params + 7 + 2 ^ 63) (2 ^ 64) 1
      (cp_SignedBlocksWindow params + 7 + 2 ^ 63 - 2 ^ 64)); lia. }
  assert (∀ v idx, MissedBlockBitmaps v !! addr = None →
    Bitmap.BitmapSet (padded (Z.quot (wrap64 (cp_SignedBlocksWindow params + 7)) 8) (MissedBlockBitmaps v !! addr)) idx = None) as Hset.
  { intros v idx ->. rewrite Ewrap. unfold padded, Bitmap.zeros.
    assert (Z.quot (cp_SignedBlocksWindow params + 7 - 2 ^ 64) 8 ≤ 0) as Hq.
    { unfold int64_max in Hw. apply Z.quot_le_upper_bound; lia. }
    replace (Z.to_nat _) with 0%nat by lia. apply Bitmap.BitmapSet_nil. }
  unfold track_vote. repeat (rewrite bind_run; cbn [gets]).
  destruct (FirstTrackedHeights w !! addr); cbn [mret M_ret modify]; rewrite decide_True by done; rewrite bind_run; cbn [gets];
    rewrite bind_run; by rewrite Hset.
Qed.
End start.
