(* ===== verification/Protocol.v ===== *)
(** The cross-chain validator-set protocol: one provider, one launched consumer,
    and a network that may delay, reorder, duplicate or lose packets and
    acknowledgements. The steps are the keeper methods of both modules; the
    invariant is that the consumer's set is always the set the provider stored
    when it queued the highest packet the consumer processed. *)
From S2P Require Import Prelude GoTime Types Externals World Keeper ValSets Valset ValsetProofs ConsumerWorld.
From S2P Require Import Consumer ConsumerValset.

Section protocol.
Context `{X : Externals} {L : PacketLog}.
Context {CX : ConsumerExternals (D := ext_dec) (KY := ext_keys)} {KL : KeyLaws}.
(** The consumer, the provider's client of it and its client of the provider. *)
Context (consumerId : N) (clientId consumerClient : string).

Record Net := mkNet {
  prov : World;
  cons : CWorld;
  acks : list N;   (* ids of the packets the consumer acknowledged *)
}.

(** A packet is received only if the provider committed it; it may be
    received at any later time, and again. A receive that fails changes
    nothing (ibc-go discards its writes) and so is no step. *)
Inductive step : Net → Net → Prop :=
  | step_epoch c w w' cw a :
      bonded_distinct w → consumerId ∈ GetAllLaunchedConsumerIds w →
      (s_ValidatorSetUpdateId w + 1 < 2 ^ 64)%N →
      QueueVSCPackets c w = (Ok tt, w') →
      step (mkNet w cw a) (mkNet w' cw a)
  | step_snapshot c w w' cw a :
      bonded_distinct w → (s_ValidatorSetUpdateId w + 1 < 2 ^ 64)%N →
      QueueImmediateSnapshotVSCPacket consumerId c w = (Ok tt, w') →
      step (mkNet w cw a) (mkNet w' cw a)
  | step_send c w r w' cw a :
      sendVSCPacketsToChainStrict consumerId clientId c w = (r, w') →
      step (mkNet w cw a) (mkNet w' cw a)
  | step_ack c w w' cw a v :
      v ∈ a → OnAcknowledgementPacketV2 clientId v "" c w = (Ok tt, w') →
      step (mkNet w cw a) (mkNet w' cw a)
  | step_provider w w' cw a :
      same_view consumerId w w' → stored_under_address w' →
      sent_packets (w_ibc w') clientId = sent_packets (w_ibc w) clientId →
      (s_ValidatorSetUpdateId w ≤ s_ValidatorSetUpdateId w')%N →
      step (mkNet w cw a) (mkNet w' cw a)
  | step_recv c w cw cw' a p :
      p ∈ sent_packets (w_ibc w) clientId →
      OnRecvPacket consumerClient (mkPayload ProviderAppID ConsumerAppID (Some p)) c cw = (Ok true, cw') →
      step (mkNet w cw a) (mkNet w cw' (ValsetUpdateId p :: a))
  | step_end_block c w cw us cw' a :
      EndBlock c cw = (Ok us, cw') → step (mkNet w cw a) (mkNet w cw' a)
  | step_consumer w cw cw' a :
      same_valset cw cw' → step (mkNet w cw a) (mkNet w cw' a).

Definition highest_processed (cw : CWorld) : N := default 0%N (HighestValsetUpdateID cw).

(** The state after launch: both chains hold the genesis set. *)
Record launched (n : Net) : Prop := {
  l_pending : GetPendingVSCPackets consumerId (prov n) = [];
  l_sent : GetConsumerHighestSentVscId consumerId (prov n) = 0%N;
  l_acked : GetConsumerHighestAckedVscId consumerId (prov n) = 0%N;
  l_log : sent_packets (w_ibc (prov n)) clientId = [];
  l_id : (0 < s_ValidatorSetUpdateId (prov n))%N;
  l_under : stored_under_address (prov n);
  l_keys : NoDup (PublicKey <$> GetConsumerValSet consumerId (prov n));
  l_ok : store_ok (cons n);
  l_highest : highest_processed (cons n) = 0%N;
  l_set : effective_set (cons n) = live (GetConsumerValSet consumerId (prov n));
  l_acks : acks n = [];
}.

(** [H] is the set each packet id stands for, [last] the last id queued. *)
Definition good_packet (H : gmap N (gmap PubKey Z)) (hi : N) (p : ValidatorSetChangePacketData) : Prop :=
  (0 < ValsetUpdateId p)%N ∧ ∃ S, H !! ValsetUpdateId p = Some S ∧
  if IsSnapshot p then apply_updates (ValidatorUpdates p) ∅ = S
  else ∃ b Sb, H !! b = Some Sb ∧ (b < ValsetUpdateId p)%N ∧ (b ≤ hi)%N
    ∧ (∀ k, (b < k < ValsetUpdateId p)%N → H !! k = None)
    ∧ apply_updates (ValidatorUpdates p) Sb = S.

Record inv_with (H : gmap N (gmap PubKey Z)) (last : N) (n : Net) : Prop := {
  i_last : H !! last = Some (live (GetConsumerValSet consumerId (prov n)));
  i_bound k S : H !! k = Some S → (k ≤ last)%N;
  i_id : (last < s_ValidatorSetUpdateId (prov n))%N;
  i_under : stored_under_address (prov n);
  i_keys : NoDup (PublicKey <$> GetConsumerValSet consumerId (prov n));
  i_packets p :
    p ∈ GetPendingVSCPackets consumerId (prov n) ++ sent_packets (w_ibc (prov n)) clientId →
    good_packet H (highest_processed (cons n)) p;
  i_ok : store_ok (cons n);
  i_consumer : H !! highest_processed (cons n) = Some (effective_set (cons n));
  i_acked : (GetConsumerHighestAckedVscId consumerId (prov n) ≤ highest_processed (cons n))%N;
  i_acks v : v ∈ acks n → (v ≤ highest_processed (cons n))%N;
  i_sent_ub p : p ∈ sent_packets (w_ibc (prov n)) clientId →
    (ValsetUpdateId p ≤ GetConsumerHighestSentVscId consumerId (prov n))%N;
  i_sent_max : GetConsumerHighestSentVscId consumerId (prov n) = 0%N ∨
    ∃ p, p ∈ sent_packets (w_ibc (prov n)) clientId
      ∧ ValsetUpdateId p = GetConsumerHighestSentVscId consumerId (prov n);
  i_queued : (last ≤ GetConsumerHighestSentVscId consumerId (prov n))%N ∨
    ∃ p, p ∈ GetPendingVSCPackets consumerId (prov n) ∧ ValsetUpdateId p = last;
}.
Definition inv (n : Net) : Prop := ∃ H last, inv_with H last n.

Lemma inv_stored n : inv n → stored_under_address (prov n) ∧ store_ok (cons n).
Proof. intros (H & last & Hi). by destruct Hi. Qed.

Lemma inv_launched n : launched n → inv n.
Proof.
  intros []. exists {[0%N := effective_set (cons n)]}, 0%N. split; try done.
  - by rewrite lookup_singleton_eq, l_set0.
  - intros k S [<- _]%lookup_singleton_Some. done.
  - rewrite l_pending0, l_log0. set_solver.
  - by rewrite l_highest0, lookup_singleton_eq.
  - by rewrite l_acked0, l_highest0.
  - rewrite l_acks0. set_solver.
  - rewrite l_log0. set_solver.
  - by left.
  - left. lia.
Qed.

Lemma good_extend H hi p V S :
  (∀ k S, H !! k = Some S → (k < V)%N) → good_packet H hi p → good_packet (<[V := S]> H) hi p.
Proof.
  intros Hb (Hpos & S' & HS & Hp). split; [done|]. exists S'.
  pose proof (Hb _ _ HS) as Hlt. split; [by rewrite lookup_insert_ne by lia|].
  destruct (IsSnapshot p); [done|]. destruct Hp as (b & Sb & Hb' & Hlt' & Hhi & Hgap & Happ).
  exists b, Sb. split_and!; try done; [by rewrite lookup_insert_ne by lia|].
  intros k Hk. rewrite lookup_insert_ne by lia. by apply Hgap.
Qed.

Lemma good_hi H hi hi' p : (hi ≤ hi')%N → good_packet H hi p → good_packet H hi' p.
Proof.
  intros Hle (Hpos & S & HS & Hp). split; [done|]. exists S. split; [done|].
  destruct (IsSnapshot p); [done|]. destruct Hp as (b & Sb & ? & ? & ? & ? & ?).
  exists b, Sb. split_and!; try done. lia.
Qed.

(** Queueing one more packet, by the epoch or for a resume or rotation. *)
Lemma inv_enqueued w w' cw a cur vals p :
  inv (mkNet w cw a) → enqueued consumerId (s_ValidatorSetUpdateId w) w w' cur vals p →
  s_ValidatorSetUpdateId w' = u64_succ (s_ValidatorSetUpdateId w) →
  (s_ValidatorSetUpdateId w + 1 < 2 ^ 64)%N → stored_under_address w' →
  inv (mkNet w' cw a).
Proof.
  intros (H & last & Hi) Hen Hid Hu64 Hunder.
  destruct Hi as [Hlast Hbound HidV Hu Hkeys Hpk Hok Hcons Hacked Hacks Hub Hmax Hq].
  cbn [prov cons acks] in *. set (V := s_ValidatorSetUpdateId w) in *.
  assert (s_ValidatorSetUpdateId w' = V + 1)%N as Hid' by (rewrite Hid; unfold u64_succ; by apply N.mod_small).
  assert (∀ k S, H !! k = Some S → (k < V)%N) as HltV by (intros k S ?%Hbound; lia).
  destruct (en_shared _ _ _ _ _ _ _ Hen) as (Hibc & _).
  pose proof (en_stored _ _ _ _ _ _ _ Hen) as Hstored. pose proof (en_keys _ _ _ _ _ _ _ Hen) as Hvk.
  assert (live (GetConsumerValSet consumerId w') = live vals) as Hlive
    by (symmetry; apply live_perm; [by symmetry|done]).
  exists (<[V := live vals]> H), V. split; cbn [prov cons acks].
  - by rewrite lookup_insert_eq, Hlive.
  - intros k S [[<- _]|[_ Hk]]%lookup_insert_Some; [done|]. apply HltV in Hk. lia.
  - lia.
  - done.
  - by rewrite Hstored.
  - rewrite (en_pending _ _ _ _ _ _ _ Hen), Hibc. intros p'.
    rewrite !elem_of_app, list_elem_of_singleton. intros [[Hin| ->]|Hin];
      [apply good_extend; [done|]; apply Hpk; set_solver| |apply good_extend; [done|]; apply Hpk; set_solver].
    split; [rewrite (en_vid _ _ _ _ _ _ _ Hen); lia|]. exists (live vals).
    rewrite (en_vid _ _ _ _ _ _ _ Hen), (en_updates _ _ _ _ _ _ _ Hen).
    split; [by rewrite lookup_insert_eq|]. destruct (IsSnapshot p) eqn:Hsnap; [done|].
    destruct (en_diff _ _ _ _ _ _ _ Hen Hsnap) as (_ & Hsa & Hpend).
    pose proof (en_cur _ _ _ _ _ _ _ Hen) as Hcur.
    exists last, (live cur). split_and!.
    + rewrite lookup_insert_ne by lia. rewrite Hlast. f_equal. symmetry. apply live_perm; [done|by rewrite Hcur].
    + lia.
    + destruct Hq as [Hq|(p' & Hp' & _)]; [lia|]. rewrite Hpend in Hp'. set_solver.
    + intros k Hk. rewrite lookup_insert_ne by lia. destruct (H !! k) eqn:E; [|done].
      apply Hbound in E. lia.
    + apply diff_live; [by rewrite Hcur|done].
  - done.
  - rewrite lookup_insert_ne; [done|]. apply HltV in Hcons. lia.
  - by rewrite (en_acked _ _ _ _ _ _ _ Hen).
  - done.
  - rewrite Hibc, (en_sent _ _ _ _ _ _ _ Hen). done.
  - rewrite Hibc, (en_sent _ _ _ _ _ _ _ Hen). done.
  - right. exists p. rewrite (en_pending _ _ _ _ _ _ _ Hen), (en_vid _ _ _ _ _ _ _ Hen). set_solver.
Qed.

Lemma inv_send c w r w' cw a :
  inv (mkNet w cw a) → sendVSCPacketsToChainStrict consumerId clientId c w = (r, w') →
  inv (mkNet w' cw a).
Proof.
  intros (H & last & Hi) (s & rest & Hpend & Hs & Hcase)%sendStrict_run.
  destruct Hi as [Hlast Hbound HidV Hu Hkeys Hpk Hok Hcons Hacked Hacks Hub Hmax Hq].
  cbn [prov cons acks] in *.
  destruct Hs as [Slog Sother Svals Sacked Sge Sub Smax Sso Sid Sshared].
  assert (GetConsumerValSet consumerId w' = GetConsumerValSet consumerId w) as Hvals
    by (unfold GetConsumerValSet; by rewrite Svals).
  assert (∀ p, p ∈ GetPendingVSCPackets consumerId w' → p ∈ GetPendingVSCPackets consumerId w) as Hsub.
  { destruct Hcase as [(_ & _ & E)|(_ & E)]; unfold GetPendingVSCPackets; rewrite E; [|done].
    rewrite lookup_delete_eq. set_solver. }
  exists H, last. split; cbn [prov cons acks]; try done.
  - by rewrite Hvals.
  - by rewrite Sid.
  - intros id' a'. rewrite Svals. apply Hu.
  - by rewrite Hvals.
  - rewrite Slog. intros p. rewrite !elem_of_app. intros [Hin|[Hin|Hin]]; apply Hpk, elem_of_app;
      [left; by apply Hsub|by right|left; rewrite Hpend; apply elem_of_app; by left].
  - unfold GetConsumerHighestAckedVscId in *. by rewrite Sacked.
  - rewrite Slog. intros p [Hin|Hin]%elem_of_app; [|by apply Sub]. etrans; [by apply Hub|done].
  - rewrite Slog. destruct Smax as [E|(p & Hp & E)].
    + rewrite E. destruct Hmax as [|(p & Hp & E')]; [by left|right; exists p; set_solver].
    + right. exists p. set_solver.
  - destruct Hq as [Hq|(p & Hp & <-)]; [left; lia|].
    destruct Hcase as [(_ & -> & E)|(_ & E)].
    + left. apply Sub. rewrite Hpend, app_nil_r in Hp. done.
    + right. exists p. unfold GetPendingVSCPackets. by rewrite E.
Qed.

Lemma inv_ack c w w' cw a v :
  inv (mkNet w cw a) → v ∈ a → OnAcknowledgementPacketV2 clientId v "" c w = (Ok tt, w') →
  inv (mkNet w' cw a).
Proof.
  intros (H & last & Hi) Hv E.
  destruct Hi as [Hlast Hbound HidV Hu Hkeys Hpk Hok Hcons Hacked Hacks Hub Hmax Hq].
  cbn [prov cons acks] in *.
  assert (s_PendingVSCPackets w' = s_PendingVSCPackets w ∧ s_ConsumerValidators w' = s_ConsumerValidators w
    ∧ w_ibc w' = w_ibc w ∧ s_ValidatorSetUpdateId w' = s_ValidatorSetUpdateId w
    ∧ s_ConsumerHighestSentVscId w' = s_ConsumerHighestSentVscId w) as (E1 & E2 & E3 & E4 & E5).
  { revert E. apply (preserves_run (λ w', s_PendingVSCPackets w' = s_PendingVSCPackets w ∧ s_ConsumerValidators w' = s_ConsumerValidators w
    ∧ w_ibc w' = w_ibc w ∧ s_ValidatorSetUpdateId w' = s_ValidatorSetUpdateId w
    ∧ s_ConsumerHighestSentVscId w' = s_ConsumerHighestSentVscId w)); [pres|done]. }
  assert (GetConsumerHighestAckedVscId consumerId w' = GetConsumerHighestAckedVscId consumerId w
    ∨ GetConsumerHighestAckedVscId consumerId w' = v) as Hacked'.
  { unfold OnAcknowledgementPacketV2 in E. apply bind_Ok in E as (o & w1 & [<- <-]%gets_Ok & E).
    destruct (GetClientIdToConsumerId clientId w) as [id|]; [|apply (ret_Ok _ _ c) in E as [_ <-]; by left].
    cbn [negb String.eqb] in E. apply bind_Ok in E as (now & w1 & [_ <-]%(asks_Ok _ c) & E).
    apply bind_Ok in E as ([] & w1 & E1' & E). unfold SetConsumerLastAckTime in E1'.
    apply modify_Ok in E1' as ->.
    apply bind_Ok in E as (k & w1 & [<- <-]%gets_Ok & E). unfold when in E.
    destruct (_ <? _)%N; [|apply (ret_Ok _ _ c) in E as [_ <-]; by left].
    unfold SetConsumerHighestAckedVscId in E. apply modify_Ok in E as ->. unfold GetConsumerHighestAckedVscId. cbn.
    destruct (decide (id = consumerId)) as [->|]; [right; by rewrite lookup_insert_eq|left].
    by rewrite lookup_insert_ne. }
  exists H, last. unfold GetConsumerValSet, GetPendingVSCPackets, GetConsumerHighestSentVscId, stored_under_address in *.
  split; cbn [prov cons acks]; unfold GetConsumerValSet, GetPendingVSCPackets, GetConsumerHighestSentVscId, stored_under_address;
    rewrite ?E1, ?E2, ?E3, ?E4, ?E5; try done.
  destruct Hacked' as [->| ->]; auto.
Qed.

Lemma inv_provider w w' cw a :
  inv (mkNet w cw a) → same_view consumerId w w' → stored_under_address w' →
  sent_packets (w_ibc w') clientId = sent_packets (w_ibc w) clientId →
  (s_ValidatorSetUpdateId w ≤ s_ValidatorSetUpdateId w')%N → inv (mkNet w' cw a).
Proof.
  intros (H & last & Hi) Hv Hu' Hlog Hid.
  destruct Hi as [Hlast Hbound HidV Hu Hkeys Hpk Hok Hcons Hacked Hacks Hub Hmax Hq].
  cbn [prov cons acks] in *. pose proof (GetConsumerValSet_view _ _ _ Hv Hu Hu') as Hvals.
  destruct Hv as [Vp Vv Vs Va].
  exists H, last. split; cbn [prov cons acks]; rewrite ?Vp, ?Vs, ?Va, ?Hlog; try done.
  - rewrite Hlast. f_equal. symmetry. apply live_perm; [done|by rewrite Hvals].
  - lia.
  - by rewrite Hvals.
Qed.

Lemma inv_consumer w cw cw' a a' :
  inv (mkNet w cw a) → store_ok cw' → effective_set cw' = effective_set cw →
  highest_processed cw' = highest_processed cw → (∀ v, v ∈ a' → (v ≤ highest_processed cw')%N) →
  inv (mkNet w cw' a').
Proof.
  intros (H & last & []) Hok Heff Hh Ha. exists H, last. cbn [prov cons acks] in *.
  split; cbn [prov cons acks]; rewrite ?Hh, ?Heff in *; done.
Qed.

Lemma inv_recv c w cw cw' a p :
  inv (mkNet w cw a) → p ∈ sent_packets (w_ibc w) clientId →
  OnRecvVSCPacketV2 consumerClient p c cw = (Ok tt, cw') →
  inv (mkNet w cw' (ValsetUpdateId p :: a)).
Proof.
  intros Hinv Hp E. pose proof Hinv as (H & last & Hi). pose proof (i_ok _ _ _ Hi) as Hok.
  cbn [cons] in Hok. apply OnRecvVSCPacketV2_ok in E as (_ & _ & Hok' & Hv & _ & E); [|done].
  destruct (stale p cw) eqn:Hst.
  - destruct E as [Epend Eh]. assert (highest_processed cw' = highest_processed cw) as Hh
      by (unfold highest_processed; by rewrite Eh).
    apply (inv_consumer w cw cw' a); try done.
    + unfold effective_set, cc_set, GetAllVaasValidator. by rewrite Epend, Hv.
    + rewrite Hh. intros v [->|Hin]%elem_of_cons; [|by apply (i_acks _ _ _ Hi)].
      unfold stale in Hst. unfold highest_processed. destruct (HighestValsetUpdateID cw); [|done].
      by apply N.leb_le in Hst.
  - destruct E as (Eh & Heff & _).
    destruct Hi as [Hlast Hbound HidV Hu Hkeys Hpk _ Hcons Hacked Hacks Hub Hmax Hq].
    cbn [prov cons acks] in *.
    destruct (Hpk p ltac:(apply elem_of_app; by right)) as (Hpos & S & HS & Hp').
    assert (highest_processed cw' = ValsetUpdateId p) as Hh by (unfold highest_processed; by rewrite Eh).
    assert (highest_processed cw < ValsetUpdateId p)%N as Hlt.
    { unfold stale in Hst. unfold highest_processed. destruct (HighestValsetUpdateID cw); cbn; [|done].
      by apply N.leb_gt in Hst. }
    assert (effective_set cw' = S) as HeffS.
    { rewrite Heff. destruct (IsSnapshot p); [done|].
      destruct Hp' as (b & Sb & Hb & Hblt & Hbhi & Hgap & Happ).
      assert (b = highest_processed cw) as ->; [|congruence].
      destruct (decide (b < highest_processed cw)%N) as [Hlt'|]; [|lia].
      by rewrite Hgap in Hcons by lia. }
    exists H, last. split; cbn [prov cons acks]; rewrite ?Hh; try done.
    + intros p' Hin. eapply good_hi; [|by apply Hpk]. lia.
    + by rewrite HeffS.
    + lia.
    + intros v [->|Hin]%elem_of_cons; [done|]. apply Hacks in Hin. lia.
Qed.

Lemma inv_step n n' : inv n → step n n' → inv n'.
Proof.
  intros Hinv Hstep. destruct Hstep as [c w w' cw a Hd Hin Hu64 E|c w w' cw a Hd Hu64 E|c w r w' cw a E|c w w' cw a v Hv E
    |w w' cw a Hv Hu Hlog Hid|c w cw cw' a p Hp E|c w cw us cw' a E|w cw cw' a Hs].
  - destruct (inv_stored _ Hinv) as [Hu _]; cbn [prov] in Hu.
    apply (QueueVSCPackets_ok consumerId) in E as (cur & vals & p & Hen & Hid & Hu'); [|done..].
    by eapply inv_enqueued.
  - destruct (inv_stored _ Hinv) as [Hu _]; cbn [prov] in Hu.
    apply QueueImmediateSnapshot_ok in E as (vals & p & Hen & _ & Hid & _); [|done].
    pose proof (en_under _ _ _ _ _ _ _ Hen Hu). by eapply inv_enqueued.
  - by eapply inv_send.
  - by eapply inv_ack.
  - by eapply inv_provider.
  - apply OnRecvPacket_true in E as (_ & _ & q & [= <-] & E). by eapply inv_recv.
  - pose proof Hinv as (H & last & Hi). pose proof (i_ok _ _ _ Hi) as Hok. cbn [cons] in Hok.
    apply EndBlock_ok in E as (Hok' & Hp & Hh & _ & Hcc & _); [|done].
    assert (highest_processed cw' = highest_processed cw) as Hhp by (unfold highest_processed; by rewrite Hh).
    apply (inv_consumer w cw cw' a); try done.
    + unfold effective_set at 1. by rewrite Hp, <-Hcc.
    + rewrite Hhp. apply (i_acks _ _ _ Hi).
  - pose proof Hinv as (H & last & Hi). pose proof (i_ok _ _ _ Hi) as Hok. cbn [cons] in Hok.
    assert (highest_processed cw' = highest_processed cw) as Hhp
      by (unfold highest_processed; by destruct Hs as (_ & _ & -> & _)).
    apply (inv_consumer w cw cw' a); try done; [by eapply same_valset_ok| |].
    + unfold effective_set. rewrite (same_valset_cc _ _ Hs). by destruct Hs as (_ & -> & _).
    + rewrite Hhp. apply (i_acks _ _ _ Hi).
Qed.

Lemma inv_reachable n n' : launched n → rtc step n n' → inv n'.
Proof.
  intros Hl Hr. apply inv_launched in Hl. revert Hl. induction Hr; [done|]. intros.
  apply IHHr. by eapply inv_step.
Qed.

Lemma inv_caught_up n :
  inv n →
  (∀ p, p ∈ GetPendingVSCPackets consumerId (prov n) → (ValsetUpdateId p ≤ highest_processed (cons n))%N) →
  (GetConsumerHighestSentVscId consumerId (prov n) ≤ highest_processed (cons n))%N →
  effective_set (cons n) = live (GetConsumerValSet consumerId (prov n)).
Proof.
  intros (H & last & []) Hpend Hsent.
  assert (highest_processed (cons n) ≤ last)%N by (by eapply i_bound0).
  assert (last ≤ highest_processed (cons n))%N.
  { destruct i_queued0 as [|(p & Hp & <-)]; [lia|by apply Hpend]. }
  assert (highest_processed (cons n) = last) as E by lia. rewrite E in i_consumer0. congruence.
Qed.

Lemma caught_up_converges n :
  inv n →
  (∀ p, p ∈ GetPendingVSCPackets consumerId (prov n) ++ sent_packets (w_ibc (prov n)) clientId →
     (ValsetUpdateId p ≤ highest_processed (cons n))%N) →
  effective_set (cons n) = live (GetConsumerValSet consumerId (prov n)).
Proof.
  intros Hinv Hall. apply inv_caught_up; [done|intros p Hp; apply Hall, elem_of_app; by left|].
  destruct Hinv as (H & last & []). destruct i_sent_max0 as [->|(p & Hp & <-)]; [lia|].
  apply Hall, elem_of_app. by right.
Qed.

(** C1. The set-replication protocol implements its specification: starting at the launch of
    a consumer and after any interleaving of epochs, sends, deliveries (stale, duplicate or
    failing ones included), acknowledgements, lost or timed-out packets, resumptions and
    consumer blocks, a consumer that has processed every packet queued or sent so far holds
    exactly the validator set the provider has stored for it. *)
Theorem consumer_converges n n' :
  launched n → rtc step n n' →
  (∀ p, p ∈ GetPendingVSCPackets consumerId (prov n') ++ sent_packets (w_ibc (prov n')) clientId →
     (ValsetUpdateId p ≤ highest_processed (cons n'))%N) →
  effective_set (cons n') = live (GetConsumerValSet consumerId (prov n')).
Proof.
  intros Hl Hr. apply caught_up_converges. by eapply inv_reachable.
Qed.

(** C2. A diff packet is only ever queued when the consumer has processed everything sent to
    it: at that point nothing is pending, the consumer's effective set is the set the
    provider diffed against, and applying the diff to it gives the newly stored set; in
    every other reachable state QueueVSCPackets queues a snapshot. *)
Theorem diff_only_on_delivered_state n n' c w' p :
  launched n → rtc step n n' →
  bonded_distinct (prov n') → consumerId ∈ GetAllLaunchedConsumerIds (prov n') →
  QueueVSCPackets c (prov n') = (Ok tt, w') →
  GetPendingVSCPackets consumerId w' = GetPendingVSCPackets consumerId (prov n') ++ [p] →
  IsSnapshot p = false →
  GetPendingVSCPackets consumerId (prov n') = []
  ∧ highest_processed (cons n') = GetConsumerHighestSentVscId consumerId (prov n')
  ∧ effective_set (cons n') = live (GetConsumerValSet consumerId (prov n'))
  ∧ apply_updates (ValidatorUpdates p) (effective_set (cons n')) = live (GetConsumerValSet consumerId w').
Proof.
  intros Hl Hr Hd Hin E Hp Hsnap. pose proof (inv_reachable _ _ Hl Hr) as Hinv.
  destruct (inv_stored _ Hinv) as [Hu _].
  apply (QueueVSCPackets_ok consumerId) in E as (cur & vals & p' & Hen & Hid & Hu'); [|done..].
  pose proof (en_pending _ _ _ _ _ _ _ Hen) as Hp'. rewrite Hp in Hp'.
  apply app_inj_2 in Hp' as [_ [= <-]]; [|done].
  destruct (en_diff _ _ _ _ _ _ _ Hen Hsnap) as (_ & Hsa & Hpend).
  pose proof (en_updates _ _ _ _ _ _ _ Hen) as Hupd. rewrite Hsnap in Hupd.
  pose proof (en_cur _ _ _ _ _ _ _ Hen) as Hcur. pose proof (en_keys _ _ _ _ _ _ _ Hen) as Hk.
  assert (effective_set (cons n') = live (GetConsumerValSet consumerId (prov n'))) as Heff.
  { apply inv_caught_up; [done|rewrite Hpend; set_solver|].
    destruct Hinv as (H & last & []). lia. }
  destruct Hinv as (H & last & Hi). split_and!; try done.
  - destruct Hi. destruct i_queued0 as [Hq|(p' & Hp' & _)]; [|rewrite Hpend in Hp'; set_solver].
    pose proof (i_bound0 _ _ i_consumer0). lia.
  - rewrite Hupd, Heff. pose proof (i_keys _ _ _ Hi) as Hks.
    rewrite <-(live_perm cur (GetConsumerValSet consumerId (prov n'))) by (done || by rewrite Hcur).
    rewrite diff_live by (done || by rewrite Hcur).
    apply live_perm; [|done]. symmetry. by destruct Hen.
Qed.

(** Processing the newest packet is enough to catch up: when nothing is pending on the
    provider and the consumer accepts the packet with the highest sent id, its effective set
    becomes the provider's stored set, whatever earlier packets were lost. *)
Lemma newest_packet_converges n n' c cw' p :
  launched n → rtc step n n' →
  GetPendingVSCPackets consumerId (prov n') = [] →
  p ∈ sent_packets (w_ibc (prov n')) clientId →
  ValsetUpdateId p = GetConsumerHighestSentVscId consumerId (prov n') →
  stale p (cons n') = false →
  OnRecvVSCPacketV2 consumerClient p c (cons n') = (Ok tt, cw') →
  effective_set cw' = live (GetConsumerValSet consumerId (prov n')).
Proof.
  intros Hl Hr Hpend Hp Hv Hst E. pose proof (inv_reachable _ _ Hl Hr) as Hinv.
  destruct n' as [w cw acks0]. cbn [prov cons] in *.
  destruct (inv_stored _ Hinv) as [_ Hok]; cbn [cons] in Hok.
  pose proof (inv_recv _ _ _ _ _ _ Hinv Hp E) as Hinv'.
  apply (inv_caught_up _ Hinv'); cbn [prov cons]; [rewrite Hpend; set_solver|].
  apply OnRecvVSCPacketV2_ok in E as (_ & _ & _ & _ & _ & E); [|done]. rewrite Hst in E.
  destruct E as (Eh & _). unfold highest_processed. rewrite Eh. cbn. lia.
Qed.
End protocol.
