(* ===== verification/Launch.v ===== *)
(** From the launch of a consumer to the protocol that keeps it in step: the
    genesis the provider makes is the one the consumer imports. *)
From S2P Require Import Prelude GoTime Types Externals World Keeper ValSets Valset ValsetProofs Lifecycle ConsumerWorld.
From S2P Require Import Consumer ConsumerGenesis ConsumerDowntimeProofs ConsumerValset ConsumerRun ConsumerRestart ConsumerStart Protocol.

Section launch.
Context `{X : Externals} {L : PacketLog}.
Context {CX : ConsumerExternals (D := ext_dec) (KY := ext_keys)} {CG : CGenesisExternals}.
Context {CL : ConsumerLaws} {KL : KeyLaws} {DL : LegacyDecLaws}.
Context (consumerId : N) (clientId consumerClient : string).

(** Nothing was ever queued, sent or acknowledged for the consumer. *)
Record unserved (w : World) : Prop := {
  un_pending : GetPendingVSCPackets consumerId w = [];
  un_sent : GetConsumerHighestSentVscId consumerId w = 0%N;
  un_acked : GetConsumerHighestAckedVscId consumerId w = 0%N;
  un_log : sent_packets (w_ibc w) clientId = [];
}.
Definition same_service (w w' : World) : Prop :=
  GetPendingVSCPackets consumerId w' = GetPendingVSCPackets consumerId w ∧
  GetConsumerHighestSentVscId consumerId w' = GetConsumerHighestSentVscId consumerId w ∧
  GetConsumerHighestAckedVscId consumerId w' = GetConsumerHighestAckedVscId consumerId w ∧
  w_ibc w' = w_ibc w ∧ s_ValidatorSetUpdateId w' = s_ValidatorSetUpdateId w.
Lemma unserved_same w w' : same_service w w' → unserved w → unserved w'.
Proof. intros (E1 & E2 & E3 & E4 & _) []. split; congruence. Qed.

(** What a launch stores: the set, and the genesis that carries it. *)
Lemma LaunchConsumer_ok bonded c w w' :
  NoDup (GetConsAddr <$> bonded) → stored_under_address w → LaunchConsumer bonded consumerId c w = (Ok tt, w') →
  ∃ g vals, GetConsumerGenesis consumerId w' = Some g ∧ cg_InitialValSet g = DiffValidators [] vals ∧
    GetConsumerValSet consumerId w' ≡ₚ vals ∧ NoDup (PublicKey <$> vals) ∧ stored_under_address w' ∧
    (unserved w → unserved w') ∧ s_ValidatorSetUpdateId w' = s_ValidatorSetUpdateId w.
Proof.
  intros Hnd Hu E. unfold LaunchConsumer in E. apply ro_bind in E as [(ip & _ & E)|[-> E]]; [|done|pres].
  apply bind_Ok in E as (updates & w1 & (vals & Hrc)%ComputeConsumerNextValSet_ok & E); [|done].
  apply ro_bind in E as [(u & _ & E)|[-> E]]; [|done|pres].
  apply ro_bind in E as [(g & Eg & E)|[-> E]]; [|done|pres].
  assert (cg_InitialValSet g = updates) as Egs.
  { unfold MakeConsumerGenesis in Eg. repeat (apply ro_bind in Eg as [(? & _ & Eg)|[_ Eg]]; [|done|pres]). by run_inv. }
  apply bind_Ok in E as ([] & w2 & E2%(modify_Ok _ c) & E). apply bind_Ok in E as ([] & w3 & E3%(modify_Ok _ c) & E).
  apply bind_Ok in E as ([] & w4 & E4%(modify_Ok _ c) & E). apply bind_Ok in E as (now & w5 & [_ <-]%(asks_Ok _ c) & E).
  apply (modify_Ok _ c) in E. destruct Hrc as [Eup Hk Hst Ep _ Es Ea (Ei & _) Eid Hun].
  assert (same_service w1 w' ∧ s_ConsumerValidators w' = s_ConsumerValidators w1) as [Hs H6] by (subst; repeat split).
  exists g, vals. split; [subst; unfold GetConsumerGenesis; cbn; by rewrite lookup_insert_eq|]. split; [by rewrite Egs, Eup|].
  destruct Hs as (H1 & H2 & H3 & H4 & H5). split_and!.
  - unfold GetConsumerValSet in *. by rewrite H6.
  - done.
  - intros id a v. rewrite H6. by apply Hun.
  - intros Huns. apply (unserved_same w); [|done]. unfold same_service. rewrite H1, H2, H3, H4, H5.
    split_and!; try congruence. unfold GetPendingVSCPackets. by rewrite Ep.
  - congruence.
Qed.

(** C3. From launch to convergence, end to end: when a launch succeeds for a consumer never
    served before, its genesis is on record, and a new chain that imports a valid genesis
    with that validator set starts on exactly the set the provider stored for it. From there
    on, after any interleaving of the steps of both chains and of the network between them,
    the consumer holds the set the provider has stored whenever it has processed every
    packet queued or sent. *)
Theorem launched_consumer_converges bonded c w w' :
  NoDup (GetConsAddr <$> bonded) → stored_under_address w → (0 < s_ValidatorSetUpdateId w)%N → unserved w →
  LaunchConsumer bonded consumerId c w = (Ok tt, w') →
  ∃ g, GetConsumerGenesis consumerId w' = Some g ∧
  ∀ gs i c' s, pi_InitialValSet (cn_Provider gs) = cg_InitialValSet g → cn_NewChain gs = true →
    Validate gs = true → startable gs i →
  ∃ cw, InitGenesis gs c' (blank s i) = (Ok (cg_InitialValSet g), cw) ∧
    effective_set cw = live (GetConsumerValSet consumerId w') ∧
    ∀ n, rtc (step consumerId clientId consumerClient) (mkNet w' cw []) n →
      (∀ p, p ∈ GetPendingVSCPackets consumerId (prov n) ++ sent_packets (w_ibc (prov n)) clientId →
         (ValsetUpdateId p ≤ highest_processed (cons n))%N) →
      effective_set (cons n) = live (GetConsumerValSet consumerId (prov n)).
Proof.
  intros Hnd Hu Hid Hun E. apply LaunchConsumer_ok in E as (g & vals & Eg & Eset & Hst & Hk & Hu' & Hun' & Eid); [|done|done].
  exists g. split; [done|]. intros gs i c' s Eseq Enew Hv%Validate_parts Hstart.
  destruct (InitGenesis_runs gs i Hv Hstart c' s) as (us & cw & E & -> & Hr & Hp & Hcc & Hh). exists cw.
  rewrite Eseq in *. split; [done|].
  assert (effective_set cw = live (GetConsumerValSet consumerId w')) as Heff.
  { unfold effective_set. rewrite Hp. cbn. rewrite Hcc, Eset, <-(live_perm vals) by done.
    rewrite <-(diff_live [] vals) by (done || constructor). done. }
  split; [done|]. intros n Hn Hall. specialize (Hun' Hun).
  assert (launched consumerId clientId (mkNet w' cw [])) as Hl.
  { split; cbn [prov cons acks]; try apply Hun'; try done; [by rewrite Eid|by rewrite Hst|apply Hr|].
    unfold highest_processed. by rewrite Hh. }
  apply (caught_up_converges consumerId clientId n); [by eapply inv_reachable|done].
Qed.
End launch.
