(* ===== verification/Msgs.v ===== *)
(** The provider's messages and their stateless validation:
    provider/types/msg.go. A message field holding JSON or a protobuf message
    of another project appears as what the handler decodes it to. *)
From S2P Require Import Prelude GoTime Types Externals World Downtime.
From Stdlib Require Import Ascii.

(** ** [strings.TrimSpace(s) == ""]

    The encodings of the runes [unicode.IsSpace] accepts. UTF-8 is
    prefix-free, so stripping them greedily from the left decides whether a
    string is white space only. *)
Fixpoint bytes_string (l : list nat) : string :=
  match l with [] => EmptyString | b :: l' => String (ascii_of_nat b) (bytes_string l') end.
Definition space_runes : list string :=
  bytes_string <$> [[9]; [10]; [11]; [12]; [13]; [32]; [194; 133]; [194; 160]; [225; 154; 128];
    [226; 128; 128]; [226; 128; 129]; [226; 128; 130]; [226; 128; 131]; [226; 128; 132]; [226; 128; 133];
    [226; 128; 134]; [226; 128; 135]; [226; 128; 136]; [226; 128; 137]; [226; 128; 138];
    [226; 128; 168]; [226; 128; 169]; [226; 128; 175]; [226; 129; 159]; [227; 128; 128]]%nat.
Fixpoint strip_prefix (p s : string) : option string :=
  match p, s with
  | EmptyString, _ => Some s
  | String a p', String b s' => if Ascii.eqb a b then strip_prefix p' s' else None
  | _, EmptyString => None
  end.
Fixpoint blank_fuel (fuel : nat) (s : string) : bool :=
  match s, fuel with
  | EmptyString, _ => true
  | _, O => false
  | _, S fuel' =>
      match head (omap (λ p, strip_prefix p s) space_runes) with
      | Some s' => blank_fuel fuel' s'
      | None => false
      end
  end.
(** Each round strips at least one byte, so the length is fuel enough. *)
Definition blank (s : string) : bool := blank_fuel (String.length s) s.

Section msgs.
Context `{X : Externals}.

Definition MaxNameLength : Z := 50.
Definition MaxDescriptionLength : Z := 10000.
Definition MaxMetadataLength : Z := 255.
Definition MaxHashLength : Z := 64.
(** cmttypes.MaxChainIDLen *)
Definition MaxChainIDLen : Z := 50.

Definition ValidateStringField (field : string) (maxLength : Z) : bool :=
  negb (blank field) && (Z.of_nat (String.length field) <=? maxLength).
Definition ValidateChainId (chainId : string) : bool := ValidateStringField chainId MaxChainIDLen.

Record ConsumerMetadata := mkMetadata { Name : string; Description : string; Metadata : string }.
Definition ValidateConsumerMetadata (metadata : ConsumerMetadata) : bool :=
  ValidateStringField (Name metadata) MaxNameLength
  && ValidateStringField (Description metadata) MaxDescriptionLength
  && ValidateStringField (Metadata metadata) MaxMetadataLength.

Definition ValidateByteSlice (hash : string) (maxLength : Z) : bool :=
  (Z.of_nat (String.length hash) <=? maxLength).

(** The initialization parameters of a message: those the keeper stores,
    with the two hashes it only announces. *)
Record InitializationMsg := mkInitMsg {
  im_Params : ConsumerInitializationParameters;
  im_GenesisHash : string;
  im_BinaryHash : string;
}.
Definition ValidateInitializationParameters (p : InitializationMsg) : bool :=
  negb ((InitialRevision (im_Params p) =? 0) && (InitialRevisionHeight (im_Params p) =? 0))
  && ValidateByteSlice (im_GenesisHash p) MaxHashLength
  && ValidateByteSlice (im_BinaryHash p) MaxHashLength
  && ValidatePositiveInt64 (HistoricalEntries (im_Params p))
  && ValidateVAASTimeoutPeriod (ci_VaasTimeoutPeriod (im_Params p)) MaxTimeoutDelta
  && ValidateDuration (ci_UnbondingPeriod (im_Params p))
  && ValidateDuration (SafeModeThreshold (im_Params p)).

Definition validateProviderAddress (addr signer : string) : bool :=
  match ValAddressFromBech32 addr with
  | None => false
  | Some valAddr => String.eqb (AccAddressString valAddr) signer
  end.
Definition valid_acc (s : string) : bool := bool_decide (is_Some (AccAddressFromBech32 s)).

(** *** Messages *)
Record MsgUpdateParams := mkMsgUpdateParams { mup_Authority : string; mup_Params : Params }.
Record MsgUpdateInfractionParams := mkMsgUpdateInfractionParams {
  mui_Authority : string;
  mui_InfractionParameters : InfractionParameters;
}.
(** [mak_ParsedKey] is the type and the decoded bytes of the JSON key, [None]
    where it does not parse. *)
Record MsgAssignConsumerKey := mkMsgAssignConsumerKey {
  mak_Signer : string;
  mak_ProviderAddr : string;
  mak_ConsumerId : N;
  mak_ParsedKey : option (string * option PubKey);
}.
Record MsgCreateConsumer := mkMsgCreateConsumer {
  mcc_Submitter : string;
  mcc_ChainId : string;
  mcc_Metadata : ConsumerMetadata;
  mcc_InitializationParameters : option InitializationMsg;
}.
Record MsgUpdateConsumer := mkMsgUpdateConsumer {
  muc_Owner : string;
  muc_ConsumerId : N;
  muc_NewOwnerAddress : string;
  muc_Metadata : option ConsumerMetadata;
  muc_InitializationParameters : option InitializationMsg;
  muc_NewChainId : string;
  muc_ClientId : string;
}.
Record MsgRemoveConsumer := mkMsgRemoveConsumer { mrc_Signer : string; mrc_ConsumerId : N }.
Record MsgSetConsumerFeesPerBlock := mkMsgSetConsumerFeesPerBlock {
  msf_Authority : string;
  msf_ConsumerId : N;
  msf_Amount : string;
}.
Record MsgFundConsumerFeePool := mkMsgFund { mff_Signer : string; mff_ConsumerId : N; mff_Amount : Coin }.
Record MsgWithdrawConsumerFeePool := mkMsgWithdraw {
  mwf_Signer : string;
  mwf_ConsumerId : N;
  mwf_Amount : list Coin;
}.
Record MsgSweepConsumerFeePool := mkMsgSweep {
  msw_Signer : string;
  msw_ConsumerId : N;
  msw_Denoms : list string;
}.
(** Encoded evidence, and a header whose nil parts make it [None]. *)
Record MsgSubmitConsumerDoubleVoting := mkMsgDoubleVoting {
  mdv_Submitter : string;
  mdv_ConsumerId : N;
  mdv_DuplicateVoteEvidence : string;
  mdv_InfractionBlockHeader : option InfractionHeader;
}.
Record MsgSubmitConsumerMisbehaviour := mkMsgMisbehaviour {
  mmb_Submitter : string;
  mmb_ConsumerId : N;
  mmb_Misbehaviour : option Misbehaviour;
}.
Record MsgResumeConsumer := mkMsgResume { mrs_Authority : string; mrs_ConsumerId : N }.

(** *** [ValidateBasic] *)
Definition MsgAssignConsumerKey_ValidateBasic (msg : MsgAssignConsumerKey) : bool :=
  validateProviderAddress (mak_ProviderAddr msg) (mak_Signer msg)
  && bool_decide (is_Some (mak_ParsedKey msg)).
Definition MsgCreateConsumer_ValidateBasic (msg : MsgCreateConsumer) : bool :=
  ValidateChainId (mcc_ChainId msg)
  && ValidateConsumerMetadata (mcc_Metadata msg)
  && match mcc_InitializationParameters msg with
     | Some p => ValidateInitializationParameters p
     | None => true
     end.
Definition MsgUpdateConsumer_ValidateBasic (msg : MsgUpdateConsumer) : bool :=
  match muc_Metadata msg with Some m => ValidateConsumerMetadata m | None => true end
  && match muc_InitializationParameters msg with
     | Some p => ValidateInitializationParameters p
     | None => true
     end.
Definition MsgRemoveConsumer_ValidateBasic (msg : MsgRemoveConsumer) : bool := valid_acc (mrc_Signer msg).
Definition MsgUpdateInfractionParams_ValidateBasic (msg : MsgUpdateInfractionParams) : bool :=
  valid_acc (mui_Authority msg) && InfractionParameters_Validate (mui_InfractionParameters msg).
Definition MsgSetConsumerFeesPerBlock_ValidateBasic (msg : MsgSetConsumerFeesPerBlock) : bool :=
  valid_acc (msf_Authority msg)
  && (String.eqb (msf_Amount msg) ""
      || match NewIntFromString (msf_Amount msg) with Some amt => 0 <? amt | None => false end).
Definition MsgFundConsumerFeePool_ValidateBasic (msg : MsgFundConsumerFeePool) : bool :=
  valid_acc (mff_Signer msg) && Coin_Validate (mff_Amount msg) && (0 <? Amount (mff_Amount msg)).
Definition MsgWithdrawConsumerFeePool_ValidateBasic (msg : MsgWithdrawConsumerFeePool) : bool :=
  valid_acc (mwf_Signer msg)
  && negb (bool_decide (mwf_Amount msg = []))
  && Coins_Validate (mwf_Amount msg)
  && forallb (λ c, 0 <? Amount c) (mwf_Amount msg).
Fixpoint distinct_denoms (denoms : list string) (seen : gset string) : bool :=
  match denoms with
  | [] => true
  | d :: rest => ValidateDenom d && negb (bool_decide (d ∈ seen)) && distinct_denoms rest ({[d]} ∪ seen)
  end.
Definition MsgSweepConsumerFeePool_ValidateBasic (msg : MsgSweepConsumerFeePool) : bool :=
  valid_acc (msw_Signer msg) && distinct_denoms (msw_Denoms msg) ∅.
(** ed25519.PubKeySize *)
Definition PubKeySize : nat := 32.
Definition MsgChallengeConsumerDowntime_ValidateBasic (msg : MsgChallengeConsumerDowntime) : bool :=
  valid_acc (ch_Signer msg)
  && negb (String.eqb (ch_ValidatorAddr msg) "")
  && (0 <? ch_ClaimedHeight msg)
  && bool_decide (is_Some (ch_Header msg))
  && bool_decide (is_Some (ch_LastCommit msg))
  && Nat.eqb (String.length (ch_ValidatorPubkey msg)) PubKeySize.
Definition MsgSubmitConsumerMisbehaviour_ValidateBasic (msg : MsgSubmitConsumerMisbehaviour) : bool :=
  valid_acc (mmb_Submitter msg)
  && match mmb_Misbehaviour msg with Some m => Misbehaviour_ValidateBasic m | None => false end.
Definition ValidateHeaderForConsumerDoubleVoting (header : option InfractionHeader) : bool :=
  match header with
  | None => false
  | Some h => bool_decide (is_Some (ih_ValidatorSet h)) && InfractionHeader_ValidateBasic h
  end.
Definition same_height_round_type (dve : DuplicateVoteEvidence) : bool :=
  (vote_Height (VoteA dve) =? vote_Height (VoteB dve)) && (vote_Round (VoteA dve) =? vote_Round (VoteB dve))
  && (vote_Type (VoteA dve) =? vote_Type (VoteB dve)).
Definition MsgSubmitConsumerDoubleVoting_ValidateBasic (msg : MsgSubmitConsumerDoubleVoting) : bool :=
  valid_acc (mdv_Submitter msg) &&
  match DuplicateVoteEvidenceFromProto (mdv_DuplicateVoteEvidence msg) with
  | None => false
  | Some dve =>
      DuplicateVoteEvidence_ValidateBasic dve
      && ValidateHeaderForConsumerDoubleVoting (mdv_InfractionBlockHeader msg)
      && same_height_round_type dve
      && match mdv_InfractionBlockHeader msg with
         | None => false
         | Some header =>
             (ih_Height header =? vote_Height (VoteA dve)) &&
             match ih_ValidatorSet header ≫= ValidatorSetFromProto with
             | None => false
             | Some valset =>
                 match GetByAddress valset (vote_ValidatorAddress (VoteA dve)) with
                 | None => false
                 | Some (_, validator) =>
                     Vote_Verify (ih_ChainID header) (val_PubKey validator) (VoteA dve)
                     && Vote_Verify (ih_ChainID header) (val_PubKey validator) (VoteB dve)
                 end
             end
         end
  end.
Definition MsgResumeConsumer_ValidateBasic (msg : MsgResumeConsumer) : bool := valid_acc (mrs_Authority msg).
End msgs.
