(* ===== verification/Genesis.v ===== *)
(** The provider's genesis: the exported state and its validation
    (provider/types/genesis.go, the key-assignment check of
    types/key_assignment.go), and the export and import of keeper/genesis.go.

    An optional pointer field is an [option]; the consumer genesis, a value the
    import compares with its zero value, is [None] when it is that zero value.
    The two fields of ConsumerState that nothing reads or writes (initial_height
    and slash_downtime_ack) are left out. The export's consistency check of the
    fee pool totals only writes to the log. *)
From S2P Require Import Prelude GoTime Types Externals World Keeper Queues FeePool Msgs.

(** *** The exported records *)
Record ConsumerState `{Externals} := mkConsumerState {
  cs_ConsumerId : N;
  cs_ChainId : string;
  cs_ClientId : string;
  cs_ConsumerGenesis : option ConsumerGenesisState;
  cs_PendingValsetChanges : list ValidatorSetChangePacketData;
  cs_Phase : ConsumerPhase;
  cs_OwnerAddress : string;
  cs_Metadata : option (string * string * string);
  cs_InitParams : option ConsumerInitializationParameters;
  cs_RemovalTime : option Time;
  cs_LastAckTime : option Time;
  cs_HighestSentVscId : N;
  cs_HighestAckedVscId : N;
  cs_PauseExpirationTime : option Time;
  cs_InDebt : bool;
  cs_PauseReason : PauseReason;
  cs_PausedAt : option Time;
}.
Arguments mkConsumerState {_} _ _ _ _ _ _ _ _ _ _ _ _ _ _ _ _ _.

Record ConsumerFeesPerBlockOverride_ := mkOverride { ov_ConsumerId : N; ov_Amount : string }.
Record ConsumerFeePoolShare := mkFeePoolShare {
  fs_ConsumerId : N;
  fs_Depositor : string;
  fs_Denom : string;
  fs_Shares : Z;
}.
Record AcceptedDowntimeWindowRecord := mkWindowRecord {
  wr_ConsumerId : N;
  wr_ProviderConsAddr : string;
  wr_WindowEndHeight : Z;
  wr_WindowStartHeight : Z;
  wr_AcceptedAt : Time;
}.
Record DowntimeWindowFloor := mkWindowFloor {
  fl_ConsumerId : N;
  fl_ProviderConsAddr : string;
  fl_WindowEndHeight : Z;
}.
Record PunishedEquivocation := mkPunished {
  pe_ChainId : string;
  pe_ProviderConsAddr : string;
  pe_InfractionHeight : Z;
}.
Record EpochDowntimeEntry := mkEpochDowntime { ed_ConsumerId : N; ed_ProviderConsAddr : string }.
Record EpochShareRecord := mkEpochShare { es_ConsumerId : N; es_DistributedAtUnixNano : Z; es_Share : Z }.

Record GenesisState `{Externals} := mkGenesisState {
  gs_ValsetUpdateId : N;
  gs_ConsumerStates : list ConsumerState;
  gs_Params : Params;
  gs_ValidatorConsumerPubkeys : list (N * string * PubKey);
  gs_ValidatorsByConsumerAddr : list (N * string * string);
  gs_ConsumerAddrsToPrune : list (N * Time * list string);
  gs_ConsumerFeesPerBlockOverrides : list ConsumerFeesPerBlockOverride_;
  gs_ConsumerFeePoolShares : list ConsumerFeePoolShare;
  gs_PendingDowntimeSlashes : list PendingDowntimeSlash;
  gs_PreviousDowntimeParams : option PreviousDowntimeParams;
  gs_EpochShareRecords : list EpochShareRecord;
  gs_InfractionParameters : option InfractionParameters;
  gs_WithheldFeeRecords : list WithheldFeeRecord;
  gs_AcceptedDowntimeWindows : list AcceptedDowntimeWindowRecord;
  gs_EpochDowntimeEntries : list EpochDowntimeEntry;
  gs_DowntimeWindowFloors : list DowntimeWindowFloor;
  gs_PunishedEquivocations : list PunishedEquivocation;
}.
Arguments mkGenesisState {_} _ _ _ _ _ _ _ _ _ _ _ _ _ _ _ _ _.

(** What the genesis code uses of the SDK and ibc-go besides [Externals]:
    [Int.String], the format check of addresses, bech32 decoding, and the
    validation of the client and consensus state of a consumer genesis. *)
Class GenesisExternals `{X : Externals} := {
  Int_String : Z → string;
  VerifyAddressFormat : string → bool;
  bech32_decodes : string → bool;
  client_states_valid : ConsumerGenesisState → bool;
}.

Section genesis.
Context `{GX : GenesisExternals}.

(** *** ExportGenesis *)
Definition export_consumer (w : World) (consumerId : N) : ConsumerState :=
  mkConsumerState consumerId
    (default "" (GetConsumerChainId consumerId w))
    (default "" (GetConsumerClientId consumerId w))
    (GetConsumerGenesis consumerId w)
    (GetPendingVSCPackets consumerId w)
    (GetConsumerPhase consumerId w)
    (default "" (GetConsumerOwnerAddress consumerId w))
    (GetConsumerMetadata consumerId w)
    (GetConsumerInitializationParameters consumerId w)
    (GetConsumerRemovalTime consumerId w)
    (s_ConsumerLastAckTime w !! consumerId)
    (GetConsumerHighestSentVscId consumerId w)
    (GetConsumerHighestAckedVscId consumerId w)
    (GetConsumerPauseExpirationTime consumerId w)
    (IsConsumerInDebt consumerId w)
    (GetConsumerPauseReason consumerId w)
    (GetConsumerPausedAt consumerId w).

Definition export_overrides (w : World) : list ConsumerFeesPerBlockOverride_ :=
  (λ kv, mkOverride kv.1 (Int_String kv.2)) <$> iterate (s_ConsumerFeesPerBlockOverride w).
Definition exportFeePoolShares (w : World) : list ConsumerFeePoolShare :=
  (λ kv : N * string * string * Z, mkFeePoolShare kv.1.1.1 (AccAddressString kv.1.2) kv.1.1.2 kv.2)
    <$> iterate (s_ConsumerFeePoolShares w).
Definition exportPendingDowntimeSlashes (w : World) : list PendingDowntimeSlash :=
  (iterate (s_PendingDowntimeSlashes w)).*2.
Definition exportEpochShareRecords (w : World) : list EpochShareRecord :=
  (λ kv : N * Z * Z, mkEpochShare kv.1.1 kv.1.2 kv.2) <$> iterate (s_EpochShareRecords w).
Definition exportWithheldFeeRecords (w : World) : list WithheldFeeRecord :=
  (iterate (s_WithheldFeeRecords w)).*2.
Definition exportAcceptedDowntimeWindows (w : World) : list AcceptedDowntimeWindowRecord :=
  (λ kv : N * string * Z * AcceptedDowntimeWindow,
    mkWindowRecord kv.1.1.1 kv.1.1.2 kv.1.2 (aw_WindowStart kv.2) (aw_AcceptedAt kv.2))
    <$> iterate (s_AcceptedDowntimeWindows w).
Definition exportDowntimeWindowFloors (w : World) : list DowntimeWindowFloor :=
  (λ kv : N * string * Z, mkWindowFloor kv.1.1 kv.1.2 kv.2) <$> iterate (s_DowntimeWindowFloors w).
(** A [KeySet] is iterated in key order. *)
Definition exportPunishedEquivocations (w : World) : list PunishedEquivocation :=
  (λ k : string * string * Z, mkPunished k.1.1 k.1.2 k.2)
    <$> (merge_sort key_le (elements (s_PunishedEquivocations w))).
Definition exportEpochDowntimeEntries (w : World) : list EpochDowntimeEntry :=
  (λ kv : N * string * bool, mkEpochDowntime kv.1.1 kv.1.2) <$> iterate (s_EpochDowntime w).

Definition ExportGenesis : K GenesisState :=
  allConsumerIds ← gets GetAllConsumerIds;
  consumerStates ← gets (λ w, export_consumer w <$> allConsumerIds);
  consumerAddrsToPrune ← gets (λ w, concat ((λ id, GetAllConsumerAddrsToPrune id w) <$> allConsumerIds));
  overrides ← gets export_overrides;
  feePoolShares ← gets exportFeePoolShares;
  pendingDowntimeSlashes ← gets exportPendingDowntimeSlashes;
  previousDowntimeParams ← gets s_PreviousDowntimeParams_;
  epochShareRecords ← gets exportEpochShareRecords;
  withheldFeeRecords ← gets exportWithheldFeeRecords;
  acceptedDowntimeWindows ← gets exportAcceptedDowntimeWindows;
  downtimeWindowFloors ← gets exportDowntimeWindowFloors;
  punishedEquivocations ← gets exportPunishedEquivocations;
  epochDowntimeEntries ← gets exportEpochDowntimeEntries;
  infractionParams ← gets s_InfractionParams_;
  valsetUpdateId ← gets GetValidatorSetUpdateId;
  params ← GetParams;
  pubkeys ← gets (GetAllValidatorConsumerPubKeys None);
  byConsumerAddr ← gets (GetAllValidatorsByConsumerAddr None);
  mret (mkGenesisState valsetUpdateId consumerStates params pubkeys byConsumerAddr consumerAddrsToPrune
          overrides feePoolShares pendingDowntimeSlashes previousDowntimeParams epochShareRecords
          infractionParams withheldFeeRecords acceptedDowntimeWindows epochDowntimeEntries
          downtimeWindowFloors punishedEquivocations).

(** *** InitGenesis: the first pass *)

Definition import_consumer (cs : ConsumerState) : K unit :=
  let consumerId := cs_ConsumerId cs in
  if_some (nonempty (cs_ChainId cs)) (SetConsumerChainId consumerId);;
  SetConsumerPhase consumerId (cs_Phase cs);;
  if_some (nonempty (cs_OwnerAddress cs)) (SetConsumerOwnerAddress consumerId);;
  if_some (cs_Metadata cs) (SetConsumerMetadata consumerId);;
  if_some (cs_InitParams cs) (λ p, must (SetConsumerInitializationParameters consumerId p));;
  if_some (nonempty (cs_ClientId cs)) (SetConsumerClientId consumerId);;
  if_some (cs_ConsumerGenesis cs) (SetConsumerGenesis consumerId);;
  if_some (cs_RemovalTime cs) (SetConsumerRemovalTime consumerId);;
  if_some (cs_PauseExpirationTime cs) (SetConsumerPauseExpirationTime consumerId);;
  when (negb (bool_decide (cs_PauseReason cs = PAUSE_REASON_UNSPECIFIED)))
    (SetConsumerPauseReason consumerId (cs_PauseReason cs));;
  if_some (cs_PausedAt cs) (SetConsumerPausedAt consumerId);;
  if_some (cs_LastAckTime cs) (SetConsumerLastAckTime consumerId);;
  when (negb (cs_HighestSentVscId cs =? 0)%N) (SetConsumerHighestSentVscId consumerId (cs_HighestSentVscId cs));;
  when (negb (cs_HighestAckedVscId cs =? 0)%N) (SetConsumerHighestAckedVscId consumerId (cs_HighestAckedVscId cs));;
  when (cs_InDebt cs) (SetConsumerInDebt consumerId true);;
  when (Nat.ltb 0 (length (cs_PendingValsetChanges cs)))
    (AppendPendingVSCPackets consumerId (cs_PendingValsetChanges cs)).

(** *** The second pass: what is derived from the phase *)
Definition derive_consumer (cs : ConsumerState) : K unit :=
  let consumerId := cs_ConsumerId cs in
  let min_height := if_some (cs_InitParams cs) (λ p,
    SetEquivocationEvidenceMinHeight consumerId (InitialRevisionHeight p)) in
  match cs_Phase cs with
  | CONSUMER_PHASE_INITIALIZED =>
      if_some (cs_InitParams cs) (λ p, AppendConsumerToBeLaunched consumerId (SpawnTime p))
  | CONSUMER_PHASE_LAUNCHED => min_height
  | CONSUMER_PHASE_STOPPED => min_height;; if_some (cs_RemovalTime cs) (AppendConsumerToBeRemoved consumerId)
  | CONSUMER_PHASE_PAUSED =>
      min_height;; if_some (cs_PauseExpirationTime cs) (AppendConsumerToBeAutoStopped consumerId)
  | _ => mret tt
  end.

(** *** Keys, fee pools, downtime *)
Definition import_override (ov : ConsumerFeesPerBlockOverride_) : K unit :=
  modify (upd_ConsumerFeesPerBlockOverride (insert (ov_ConsumerId ov) (default 0 (NewIntFromString (ov_Amount ov))))).
Definition import_prune (item : N * Time * list string) : K unit :=
  for_each item.2 (AppendConsumerAddrsToPrune item.1.1 item.1.2).

Definition add_share (totals : gmap (N * string) Z) (s : ConsumerFeePoolShare) : gmap (N * string) Z :=
  let k := (fs_ConsumerId s, fs_Denom s) in
  <[k := match totals !! k with Some cur => cur + fs_Shares s | None => fs_Shares s end]> totals.
Definition import_share (s : ConsumerFeePoolShare) : K unit :=
  addr ← or_panic (AccAddressFromBech32 (fs_Depositor s));
  modify (upd_ConsumerFeePoolShares (insert (fs_ConsumerId s, fs_Denom s, addr) (fs_Shares s))).
Definition absorb_orphan (totals : gmap (N * string) Z) (consumerId : N) (coin : Coin) : K unit :=
  match totals !! (consumerId, Denom coin) with
  | Some _ => mret tt
  | None => must (absorbUnaccountedBalance consumerId (Denom coin) (Amount coin))
  end.
Definition import_pool (totals : gmap (N * string) Z) (e : N * ConsumerPhase) : K unit :=
  let '(consumerId, phase) := e in
  if decide (phase = CONSUMER_PHASE_DELETED) then mret tt else
  let poolAddr := GetConsumerFeePoolAddress consumerId in
  modify (upd_FeePoolAddressToConsumerId (insert poolAddr consumerId));;
  balances ← gets (λ w, GetAllBalances (w_bank w) poolAddr);
  for_each balances (absorb_orphan totals consumerId).

Definition DefaultInfractionParameters : InfractionParameters :=
  let dec_of s := default dec_Zero (dec_NewDecFromStr s) in
  mkInfractionParams
    (Some (mkSlashJail (dec_of "0.05") int64_max true))
    (Some (mkSlashJail (dec_of "0.0001") 0 false))
    (7 * 24 * Hour) 600 (dec_of "0.5") (7 * 24 * Hour) (72 * Hour).
Definition DefaultParams : Params :=
  mkParams "0.66" "0.66" Hour 600 1000 14400 (1080 * Hour).
Definition DefaultGenesisState : GenesisState :=
  mkGenesisState 1 [] DefaultParams [] [] [] [] [] [] None [] None [] [] [] [] [].
Definition import_params (gs : GenesisState) : K unit :=
  SetParams (gs_Params gs);;
  let infractionParams := default DefaultInfractionParameters (gs_InfractionParameters gs) in
  or_panic (if InfractionParameters_Validate infractionParams then Some tt else None);;
  or_panic (if ValidateInfractionParamsAgainst infractionParams (TrustingPeriodFraction (gs_Params gs))
            then Some tt else None);;
  SetInfractionParams infractionParams.

Definition pending_key (p : PendingDowntimeSlash) : N * string * Z :=
  (ps_ConsumerId p, ps_ProviderConsAddr p, wrap64 (ps_WindowStartHeight p + ps_Span p - 1)).
Definition import_withheld (rec : WithheldFeeRecord) : K unit :=
  or_panic (if String.eqb (Denom (wf_Amount rec)) feeDenom then Some tt else None);;
  modify (upd_WithheldFeeRecords (insert (wf_ConsumerId rec, wf_ProviderConsAddr rec) rec)).
Definition import_downtime (gs : GenesisState) : K unit :=
  for_each (gs_PendingDowntimeSlashes gs) (λ p, modify (upd_PendingDowntimeSlashes (insert (pending_key p) p)));;
  if_some (gs_PreviousDowntimeParams gs) (λ p, modify (upd_PreviousDowntimeParams_ (λ _, Some p)));;
  for_each (gs_EpochShareRecords gs) (λ r,
    modify (upd_EpochShareRecords (insert (es_ConsumerId r, es_DistributedAtUnixNano r) (es_Share r))));;
  for_each (gs_WithheldFeeRecords gs) import_withheld;;
  for_each (gs_AcceptedDowntimeWindows gs) (λ e,
    modify (upd_AcceptedDowntimeWindows (insert (wr_ConsumerId e, wr_ProviderConsAddr e, wr_WindowEndHeight e)
      (mkAcceptedDowntimeWindow (wr_WindowStartHeight e) (wr_AcceptedAt e)))));;
  for_each (gs_DowntimeWindowFloors gs) (λ e,
    modify (upd_DowntimeWindowFloors (insert (fl_ConsumerId e, fl_ProviderConsAddr e) (fl_WindowEndHeight e))));;
  for_each (gs_PunishedEquivocations gs) (λ e,
    modify (upd_PunishedEquivocations (λ s, {[(pe_ChainId e, pe_ProviderConsAddr e, pe_InfractionHeight e)]} ∪ s)));;
  for_each (gs_EpochDowntimeEntries gs) (λ e,
    modify (upd_EpochDowntime (insert (ed_ConsumerId e, ed_ProviderConsAddr e) true))).

Definition InitGenesisValUpdates : K (list ValidatorUpdate) :=
  valSet ← (o ← gets (λ w, GetBondedValidatorsByPower (w_staking w)); or_panic o);
  consensusValSet ← map_each (λ val, o ← gets (CreateProviderConsensusValidator val); or_panic o) valSet;
  SetLastProviderConsensusValSet consensusValSet;;
  mret ((λ val, mkUpdate (PublicKey val) (cv_Power val)) <$> consensusValSet).

Definition InitGenesis (genState : GenesisState) : K (list ValidatorUpdate) :=
  SetValidatorSetUpdateId (gs_ValsetUpdateId genState);;
  for_each (gs_ConsumerStates genState) import_consumer;;
  for_each (gs_ConsumerStates genState) derive_consumer;;
  when (Nat.ltb 0 (length (gs_ConsumerStates genState)))
    (let maxConsumerId := foldr N.max 0%N (cs_ConsumerId <$> gs_ConsumerStates genState) in
     modify (upd_ConsumerIdSeq (λ _, u64_succ maxConsumerId)));;
  for_each (gs_ConsumerFeesPerBlockOverrides genState) import_override;;
  for_each (gs_ValidatorConsumerPubkeys genState) (λ item, SetValidatorConsumerPubKey item.1.1 item.1.2 item.2);;
  for_each (gs_ValidatorsByConsumerAddr genState) (λ item, SetValidatorByConsumerAddr item.1.1 item.1.2 item.2);;
  for_each (gs_ConsumerAddrsToPrune genState) import_prune;;
  for_each (gs_ConsumerFeePoolShares genState) import_share;;
  let totals := foldl add_share ∅ (gs_ConsumerFeePoolShares genState) in
  for_each (iterate totals) (λ kv, modify (upd_ConsumerFeePoolTotalShares (insert kv.1 kv.2)));;
  phases ← gets (λ w, iterate (s_ConsumerPhases w));
  for_each phases (import_pool totals);;
  import_params genState;;
  import_downtime genState;;
  InitGenesisValUpdates.

(** *** Validate (provider/types/genesis.go)

    A loop over entries that checks each, then its key against those seen. *)
Fixpoint each_once {A K} `{EqDecision K} (ok : A → bool) (key : A → K) (seen : list K) (l : list A) : bool :=
  match l with
  | [] => true
  | e :: l' => ok e && negb (bool_decide (key e ∈ seen)) && each_once ok key (key e :: seen) l'
  end.

(** The windows of each pair, sorted by start, must not meet. *)
Definition by_start (a b : Z * Z) : Prop := a.1 ≤ b.1.
#[global] Instance by_start_dec : RelDecision by_start.
Proof. intros a b. unfold by_start. apply _. Defined.
Fixpoint apart (windows : list (Z * Z)) : bool :=
  match windows with
  | a :: ((b :: _) as rest) => negb (b.1 <=? a.2) && apart rest
  | _ => true
  end.
Definition windows_apart {A} (pair : A → N * string) (window : A → Z * Z) (l : list A) : bool :=
  forallb (λ e, apart (merge_sort by_start (window <$> filter (λ e', pair e' = pair e) l))) l.

Definition KeyAssignmentValidateBasic (assignedKeys : list (N * string * PubKey))
    (byConsumerAddrs : list (N * string * string)) (consumerAddrsToPrune : list (N * Time * list string)) : bool :=
  forallb (λ e, VerifyAddressFormat e.1.2) assignedKeys
  && forallb (λ e, VerifyAddressFormat e.2 && VerifyAddressFormat e.1.2) byConsumerAddrs
  && forallb (λ e, forallb VerifyAddressFormat e.2) consumerAddrsToPrune.

Definition known_id (ids : list N) (id : N) : bool := bool_decide (id ∈ ids).
Definition validateConsumerFeePoolShares (ids : list N) : list ConsumerFeePoolShare → bool :=
  each_once (λ s, bool_decide (is_Some (AccAddressFromBech32 (fs_Depositor s))) && ValidateDenom (fs_Denom s)
                  && (0 <? fs_Shares s) && known_id ids (fs_ConsumerId s))
    (λ s, (fs_ConsumerId s, fs_Depositor s, fs_Denom s)) [].

Definition pending_window (p : PendingDowntimeSlash) : Z * Z :=
  (ps_WindowStartHeight p, wrap64 (ps_WindowStartHeight p + ps_Span p - 1)).
Definition validatePendingDowntimeSlashes (ids : list N) (slashes : list PendingDowntimeSlash) : bool :=
  each_once (λ p, negb (String.eqb (ps_ProviderConsAddr p) "") && negb (String.eqb (ps_ConsumerConsAddr p) "")
                  && (0 <=? ps_SlashTokens p) && (0 <? ps_Span p)
                  && (Z.of_nat (length (ps_MissedBlocksBitmap p)) =? Z.quot (wrap64 (ps_Span p + 7)) 8)
                  && known_id ids (ps_ConsumerId p))
    pending_key [] slashes
  && windows_apart (λ p, (ps_ConsumerId p, ps_ProviderConsAddr p)) pending_window slashes.

Definition start_by_entry (accepted : list AcceptedDowntimeWindowRecord) : gmap (N * string * Z) Z :=
  foldl (λ m a, <[(wr_ConsumerId a, wr_ProviderConsAddr a, wr_WindowEndHeight a) := wr_WindowStartHeight a]> m)
    ∅ accepted.
Definition validatePendingDowntimeSlashesAgainstAcceptedWindows (slashes : list PendingDowntimeSlash)
    (accepted : list AcceptedDowntimeWindowRecord) : bool :=
  forallb (λ p, match start_by_entry accepted !! pending_key p with
                | None => false
                | Some start => start =? ps_WindowStartHeight p
                end) slashes.

Definition validateWithheldFeeRecords (ids : list N) : list WithheldFeeRecord → bool :=
  each_once (λ r, negb (String.eqb (wf_ProviderConsAddr r) "") && Coin_Validate (wf_Amount r)
                  && negb (time_IsZero (wf_ExpiresAt r)) && known_id ids (wf_ConsumerId r))
    (λ r, (wf_ConsumerId r, wf_ProviderConsAddr r)) [].

Definition floor_by_pair (floors : list DowntimeWindowFloor) : gmap (N * string) Z :=
  foldl (λ m f, <[(fl_ConsumerId f, fl_ProviderConsAddr f) := fl_WindowEndHeight f]> m) ∅ floors.
Definition validateAcceptedDowntimeWindows (entries : list AcceptedDowntimeWindowRecord)
    (floors : list DowntimeWindowFloor) (ids : list N) : bool :=
  each_once (λ e, negb (String.eqb (wr_ProviderConsAddr e) "") && known_id ids (wr_ConsumerId e)
                  && negb (wr_WindowEndHeight e <? wr_WindowStartHeight e) && negb (time_IsZero (wr_AcceptedAt e))
                  && match floor_by_pair floors !! (wr_ConsumerId e, wr_ProviderConsAddr e) with
                     | Some floor => negb (wr_WindowStartHeight e <=? floor)
                     | None => true
                     end)
    (λ e, (wr_ConsumerId e, wr_ProviderConsAddr e, wr_WindowEndHeight e)) [] entries
  && windows_apart (λ e, (wr_ConsumerId e, wr_ProviderConsAddr e))
       (λ e, (wr_WindowStartHeight e, wr_WindowEndHeight e)) entries.
Definition validateDowntimeWindowFloors (ids : list N) : list DowntimeWindowFloor → bool :=
  each_once (λ f, negb (String.eqb (fl_ProviderConsAddr f) "") && known_id ids (fl_ConsumerId f))
    (λ f, (fl_ConsumerId f, fl_ProviderConsAddr f)) [].
Definition validatePunishedEquivocations : list PunishedEquivocation → bool :=
  each_once (λ e, negb (blank (pe_ChainId e)) && negb (String.eqb (pe_ProviderConsAddr e) "")
                  && (0 <? pe_InfractionHeight e))
    (λ e, (pe_ChainId e, pe_ProviderConsAddr e, pe_InfractionHeight e)) [].
Definition validateEpochDowntimeEntries (ids : list N) : list EpochDowntimeEntry → bool :=
  each_once (λ e, negb (String.eqb (ed_ProviderConsAddr e) "") && known_id ids (ed_ConsumerId e))
    (λ e, (ed_ConsumerId e, ed_ProviderConsAddr e)) [].

(** The consumer genesis: the checks of x/vaas/types/genesis.go and params.go.
    The zero genesis has no initial validator. *)
Definition ConsumerGenesisState_Validate (o : option ConsumerGenesisState) : bool :=
  match o with
  | None => false
  | Some gs =>
      negb (bool_decide (cg_InitialValSet gs = []))
      && (ValidateDuration (cg_VaasTimeoutPeriod gs) && ValidatePositiveInt64 (cg_HistoricalEntries gs)
          && ValidateDuration (cg_ConsumerUnbondingPeriod gs) && ValidateDuration (cg_SafeModeThreshold gs)
          && ValidatePositiveInt64 (cg_SignedBlocksWindow gs)
          && negb (dec_IsNil (cg_MinSignedPerWindow gs) || negb (dec_IsPositive (cg_MinSignedPerWindow gs))
                   || negb (dec_LT (cg_MinSignedPerWindow gs) dec_One))
          && (String.eqb (cg_OwnerAddress gs) "" || bech32_decodes (cg_OwnerAddress gs)))
      && client_states_valid gs
  end.

Definition absent {A} (o : option A) : bool := match o with None => true | Some _ => false end.
Definition present {A} (o : option A) : bool := negb (absent o).
Definition ConsumerState_Validate (cs : ConsumerState) : bool :=
  let no_client := String.eqb (cs_ClientId cs) "" in
  let paused := bool_decide (cs_Phase cs = CONSUMER_PHASE_PAUSED) in
  (if decide (cs_Phase cs = CONSUMER_PHASE_DELETED) then String.eqb (cs_ChainId cs) ""
   else negb (String.eqb (cs_ChainId cs) ""))
  && negb (String.eqb (cs_OwnerAddress cs) "")
  && bool_decide (is_Some (AccAddressFromBech32 (cs_OwnerAddress cs)))
  && forallb (λ pVSC, negb (ValsetUpdateId pVSC =? 0)%N) (cs_PendingValsetChanges cs)
  && match cs_Phase cs with
     | CONSUMER_PHASE_REGISTERED => no_client && absent (cs_InitParams cs) && absent (cs_RemovalTime cs)
     | CONSUMER_PHASE_INITIALIZED => present (cs_InitParams cs) && no_client && absent (cs_RemovalTime cs)
     | CONSUMER_PHASE_LAUNCHED =>
         present (cs_InitParams cs) && negb no_client
         && ConsumerGenesisState_Validate (cs_ConsumerGenesis cs) && absent (cs_RemovalTime cs)
     | CONSUMER_PHASE_STOPPED =>
         present (cs_InitParams cs) && negb no_client
         && ConsumerGenesisState_Validate (cs_ConsumerGenesis cs) && present (cs_RemovalTime cs)
     | CONSUMER_PHASE_PAUSED =>
         present (cs_InitParams cs) && negb no_client && ConsumerGenesisState_Validate (cs_ConsumerGenesis cs)
         && absent (cs_RemovalTime cs) && present (cs_PauseExpirationTime cs)
     | CONSUMER_PHASE_DELETED =>
         present (cs_InitParams cs) && present (cs_Metadata cs) && no_client && absent (cs_RemovalTime cs)
     | CONSUMER_PHASE_UNSPECIFIED => false
     end
  && Bool.eqb paused (negb (bool_decide (cs_PauseReason cs = PAUSE_REASON_UNSPECIFIED)))
  && Bool.eqb paused (present (cs_PausedAt cs)).

Definition override_ok (ids : list N) (floor : Z) (ov : ConsumerFeesPerBlockOverride_) : bool :=
  match NewIntFromString (ov_Amount ov) with
  | None => false
  | Some amt => known_id ids (ov_ConsumerId ov) && (floor <? amt)
  end.
Definition GenesisState_Validate (gs : GenesisState) : bool :=
  let ids := cs_ConsumerId <$> gs_ConsumerStates gs in
  negb (gs_ValsetUpdateId gs =? 0)%N
  && each_once ConsumerState_Validate cs_ConsumerId [] (gs_ConsumerStates gs)
  && Params_Validate (gs_Params gs)
  && KeyAssignmentValidateBasic (gs_ValidatorConsumerPubkeys gs) (gs_ValidatorsByConsumerAddr gs)
       (gs_ConsumerAddrsToPrune gs)
  && forallb (override_ok ids (FeesPerBlockAmount (gs_Params gs))) (gs_ConsumerFeesPerBlockOverrides gs)
  && validateConsumerFeePoolShares ids (gs_ConsumerFeePoolShares gs)
  && validatePendingDowntimeSlashes ids (gs_PendingDowntimeSlashes gs)
  && validatePendingDowntimeSlashesAgainstAcceptedWindows (gs_PendingDowntimeSlashes gs) (gs_AcceptedDowntimeWindows gs)
  && forallb (λ r, negb (es_Share r <? 0)) (gs_EpochShareRecords gs)
  && validateWithheldFeeRecords ids (gs_WithheldFeeRecords gs)
  && validateAcceptedDowntimeWindows (gs_AcceptedDowntimeWindows gs) (gs_DowntimeWindowFloors gs) ids
  && validateDowntimeWindowFloors ids (gs_DowntimeWindowFloors gs)
  && validatePunishedEquivocations (gs_PunishedEquivocations gs)
  && validateEpochDowntimeEntries ids (gs_EpochDowntimeEntries gs)
  && match gs_InfractionParameters gs with
     | None => true
     | Some ip => InfractionParameters_Validate ip
                  && ValidateInfractionParamsAgainst ip (TrustingPeriodFraction (gs_Params gs))
     end.
End genesis.
