(* ===== verification/MsgServer.v ===== *)
(** The provider's message handlers: keeper/msg_server.go. Each handler is one
    definition over the keeper methods it calls; a transaction runs it in a
    cached context ([commit] in [Provider]), so a handler that fails leaves no trace. *)
From S2P Require Import Prelude GoTime Types Externals World Keeper Queues Valset FeePool Fees KeyAssignment.
From S2P Require Import Lifecycle Downtime Equivocation Msgs.

Section msg_server.
Context `{X : Externals}.

Definition UpdateParams (msg : MsgUpdateParams) : K unit :=
  guard_err (String.eqb authority (mup_Authority msg)) ErrInvalidSigner;;
  guard_err (Params_Validate (mup_Params msg)) (ErrOther "invalid params");;
  ip ← GetInfractionParams;
  guard_err (ValidateInfractionParamsAgainst ip (TrustingPeriodFraction (mup_Params msg)))
    (ErrOther "infraction parameters do not fit");;
  oldFloor ← Amount <$> GetFeesPerBlock;
  SetParams (mup_Params msg);;
  when (oldFloor <? FeesPerBlockAmount (mup_Params msg))
    (reconcileFeesPerBlockOverrides (FeesPerBlockAmount (mup_Params msg))).

Definition UpdateInfractionParams (msg : MsgUpdateInfractionParams) : K unit :=
  guard_err (String.eqb authority (mui_Authority msg)) ErrInvalidSigner;;
  guard_err (InfractionParameters_Validate (mui_InfractionParameters msg)) (ErrOther "invalid infraction params");;
  params ← GetParams;
  guard_err (ValidateInfractionParamsAgainst (mui_InfractionParameters msg) (TrustingPeriodFraction params))
    (ErrOther "infraction parameters do not fit");;
  SetInfractionParams (mui_InfractionParameters msg).

(** keeper/key_assignment.go: ed25519 keys only. *)
Definition ParseConsumerKey (parsed : option (string * option PubKey)) : K PubKey :=
  '(pkType, bytes) ← of_option parsed (ErrOther "invalid consumer key json");
  guard_err (String.eqb pkType "/cosmos.crypto.ed25519.PubKey") (ErrOther "validator pubkey type is not supported");;
  of_option bytes (ErrOther "invalid base64").

Definition AssignConsumerKey_msg (msg : MsgAssignConsumerKey) : K unit :=
  providerValidatorAddr ← of_option (ValAddressFromBech32 (mak_ProviderAddr msg)) (ErrOther "invalid address");
  validator ← (o ← gets (λ w, GetValidator (w_staking w) providerValidatorAddr); of_option o ErrExternal);
  consumerTMPublicKey ← ParseConsumerKey (mak_ParsedKey msg);
  AssignConsumerKey (mak_ConsumerId msg) validator consumerTMPublicKey;;
  _ ← (o ← gets (GetConsumerChainId (mak_ConsumerId msg)); of_option o ErrInvalidConsumerState);
  mret tt.

Definition validateConsumerInitParams (p : ConsumerInitializationParameters) : K unit :=
  providerUnbonding ← (o ← gets (λ w, UnbondingTime (w_staking w)); of_option o ErrExternal);
  guard_err (negb (providerUnbonding <? ci_UnbondingPeriod p)) ErrInvalidConsumerInitializationParameters;;
  horizon ← ChallengeableInterval <$> GetInfractionParams;
  guard_err (negb (ci_UnbondingPeriod p <=? horizon)) ErrInvalidConsumerInitializationParameters;;
  params ← GetParams;
  grace ← of_option (CalculateTrustPeriod providerUnbonding (LivenessGraceFraction params))
            (ErrOther "liveness grace fraction");
  guard_err (SafeModeThreshold p <? grace) ErrInvalidConsumerInitializationParameters.

(** types/params.go; 10000 is staking's [DefaultHistoricalEntries]. *)
Definition DefaultConsumerInitializationParameters : ConsumerInitializationParameters :=
  mkInitParams 1 1 0 DefaultConsumerUnbondingPeriod Hour 10000 (3 * Hour).

Definition metadata_record (m : ConsumerMetadata) : string * string * string :=
  (Name m, Description m, Metadata m).

(** The common end of creating and updating: a consumer whose spawn time is
    set is initialized and put in the launch queue. *)
Definition initializeAndSchedule (consumerId : N) (previousSpawnTime : Time) : K unit :=
  initialized ← InitializeConsumer consumerId;
  match initialized with
  | Some spawnTime =>
      wrap_err ErrInvalidConsumerState (PrepareConsumerForLaunch consumerId previousSpawnTime spawnTime)
  | None => mret tt
  end.

Definition CreateConsumer (msg : MsgCreateConsumer) : K N :=
  consumerId ← FetchAndIncrementConsumerId;
  SetConsumerOwnerAddress consumerId (mcc_Submitter msg);;
  ValidateConsumerChainIdFree (mcc_ChainId msg);;
  SetConsumerChainId consumerId (mcc_ChainId msg);;
  SetConsumerPhase consumerId CONSUMER_PHASE_REGISTERED;;
  SetConsumerMetadata consumerId (metadata_record (mcc_Metadata msg));;
  let initializationParameters :=
    match mcc_InitializationParameters msg with
    | Some p => im_Params p
    | None => DefaultConsumerInitializationParameters
    end in
  validateConsumerInitParams initializationParameters;;
  wrap_err ErrInvalidConsumerInitializationParameters
    (SetConsumerInitializationParameters consumerId initializationParameters);;
  initializeAndSchedule consumerId 0;;
  modify (upd_FeePoolAddressToConsumerId (insert (GetConsumerFeePoolAddress consumerId) consumerId));;
  mret consumerId.

Definition updatable (p : ConsumerPhase) : bool :=
  bool_decide (p = CONSUMER_PHASE_REGISTERED) || bool_decide (p = CONSUMER_PHASE_INITIALIZED)
  || bool_decide (p = CONSUMER_PHASE_LAUNCHED).

(** The part of an update that replaces the initialization parameters. *)
Definition updateInitializationParameters (consumerId : N) (previousSpawnTime : Time)
    (parameters : option InitializationMsg) : K unit :=
  match parameters with
  | None => mret tt
  | Some p =>
      prelaunched ← gets (IsConsumerPrelaunched consumerId);
      guard_err prelaunched ErrInvalidMsgUpdateConsumer;;
      phase ← gets (GetConsumerPhase consumerId);
      when (time_IsZero (SpawnTime (im_Params p)) && bool_decide (phase = CONSUMER_PHASE_INITIALIZED))
        (wrap_err ErrInvalidMsgUpdateConsumer (RemoveConsumerToBeLaunched consumerId previousSpawnTime);;
         SetConsumerPhase consumerId CONSUMER_PHASE_REGISTERED);;
      validateConsumerInitParams (im_Params p);;
      wrap_err ErrInvalidConsumerInitializationParameters
        (SetConsumerInitializationParameters consumerId (im_Params p))
  end.

Definition UpdateConsumer (msg : MsgUpdateConsumer) : K unit :=
  let consumerId := muc_ConsumerId msg in
  updatePhase ← gets (GetConsumerPhase consumerId);
  guard_err (updatable updatePhase) ErrInvalidPhase;;
  ownerAddress ← (o ← gets (GetConsumerOwnerAddress consumerId); of_option o ErrNoOwnerAddress);
  guard_err (String.eqb (muc_Owner msg) ownerAddress) ErrUnauthorized;;
  when (negb (blank (muc_ClientId msg))) (SetConsumerClient consumerId (muc_ClientId msg));;
  chainId ← (o ← gets (GetConsumerChainId consumerId); of_option o ErrInvalidConsumerState);
  phase ← gets (GetConsumerPhase consumerId);
  when (bool_decide (phase = CONSUMER_PHASE_LAUNCHED))
    (guard_err (blank (muc_NewChainId msg)) ErrInvalidPhase;;
     guard_err (bool_decide (muc_InitializationParameters msg = None)) ErrInvalidPhase);;
  when (negb (blank (muc_NewChainId msg)) && negb (String.eqb (muc_NewChainId msg) chainId))
    (guard_err (ValidateChainId (muc_NewChainId msg)) ErrInvalidMsgUpdateConsumer;;
     prelaunched ← gets (IsConsumerPrelaunched consumerId);
     if prelaunched : bool
     then ValidateConsumerChainIdFree (muc_NewChainId msg);;
          SetConsumerChainId consumerId (muc_NewChainId msg)
     else raise ErrInvalidPhase);;
  when (negb (blank (muc_NewOwnerAddress msg)))
    (guard_err (bool_decide (is_Some (AddressCodec_StringToBytes (muc_NewOwnerAddress msg))))
       ErrInvalidNewOwnerAddress;;
     SetConsumerOwnerAddress consumerId (muc_NewOwnerAddress msg));;
  match muc_Metadata msg with
  | Some metadata => SetConsumerMetadata consumerId (metadata_record metadata)
  | None => mret tt
  end;;
  previousInitializationParameters ←
    (o ← gets (GetConsumerInitializationParameters consumerId); of_option o ErrInvalidConsumerState);
  let previousSpawnTime := SpawnTime previousInitializationParameters in
  updateInitializationParameters consumerId previousSpawnTime (muc_InitializationParameters msg);;
  _ ← (o ← gets (GetConsumerOwnerAddress consumerId); of_option o ErrInvalidConsumerState);
  initializeAndSchedule consumerId previousSpawnTime.

Definition consumer_exists (consumerId : N) (w : World) : bool :=
  bool_decide (is_Some (s_ConsumerPhases w !! consumerId)).

Definition RemoveConsumer (msg : MsgRemoveConsumer) : K unit :=
  let consumerId := mrc_ConsumerId msg in
  exist ← gets (consumer_exists consumerId);
  guard_err exist ErrUnknownConsumerId;;
  _ ← (o ← gets (GetConsumerChainId consumerId); of_option o ErrInvalidConsumerState);
  phase ← gets (GetConsumerPhase consumerId);
  let isGov := String.eqb authority (mrc_Signer msg) in
  if Prelaunched phase then
    when (negb isGov)
      (ownerAddress ← (o ← gets (GetConsumerOwnerAddress consumerId); of_option o ErrNoOwnerAddress);
       guard_err (EqualFold (mrc_Signer msg) ownerAddress) ErrUnauthorized);;
    DeleteConsumerChain consumerId
  else if bool_decide (phase = CONSUMER_PHASE_LAUNCHED) || bool_decide (phase = CONSUMER_PHASE_PAUSED) then
    guard_err isGov ErrInvalidSigner;;
    StopAndPrepareForConsumerRemoval consumerId
  else raise ErrInvalidPhase.

(** An amount that does not parse leaves Go's zero [math.Int]; comparing it
    dereferences a nil pointer. *)
Definition SetConsumerFeesPerBlock (msg : MsgSetConsumerFeesPerBlock) : K unit :=
  guard_err (String.eqb authority (msf_Authority msg)) ErrInvalidSigner;;
  phase ← gets (GetConsumerPhase (msf_ConsumerId msg));
  guard_err (negb (bool_decide (phase = CONSUMER_PHASE_UNSPECIFIED) || bool_decide (phase = CONSUMER_PHASE_DELETED)))
    ErrUnknownConsumerId;;
  if String.eqb (msf_Amount msg) "" then
    modify (upd_ConsumerFeesPerBlockOverride (delete (msf_ConsumerId msg)))
  else
    defaultAmt ← Amount <$> GetFeesPerBlock;
    amt ← or_panic (NewIntFromString (msf_Amount msg));
    guard_err (defaultAmt <? amt) ErrInvalidRequest;;
    modify (upd_ConsumerFeesPerBlockOverride (insert (msf_ConsumerId msg) amt)).

(** The depositor of a fee-pool message: the distribution module's account
    for the governance authority, the signer otherwise. *)
Definition FundConsumerFeePool (msg : MsgFundConsumerFeePool) : K unit :=
  let id := mff_ConsumerId msg in
  let amount := mff_Amount msg in
  exist ← gets (consumer_exists id);
  guard_err exist ErrUnknownConsumerId;;
  phase ← gets (GetConsumerPhase id);
  guard_err (negb (bool_decide (phase = CONSUMER_PHASE_DELETED))) ErrInvalidPhase;;
  params ← GetParams;
  guard_err (String.eqb (Denom amount) GetFeeDenom) ErrInvalidFundDenom;;
  when (0 <? MinDepositBlocks params)
    ('(effectiveFees, _) ← GetEffectiveFeesPerBlock id;
     let floor := Amount effectiveFees * MinDepositBlocks params in
     guard_err (negb (Amount amount <? floor)) ErrDepositBelowMinimum);;
  let poolAddr := GetConsumerFeePoolAddress id in
  let coins := NewCoins amount in
  let isGov := IsAuthority (mff_Signer msg) in
  depositor ←
    (if isGov then mret (NewModuleAddress dist_ModuleName)
     else signerAddr ← of_option (AccAddressFromBech32 (mff_Signer msg)) (ErrOther "invalid signer");
          bank_call (λ b, SendCoinsFromAccountToModule b signerAddr ModuleName coins);;
          mret signerAddr);
  MintShares id depositor amount;;
  if isGov then bank_call (λ b, DistributeFromFeePool b coins poolAddr)
  else bank_call (λ b, SendCoinsFromModuleToAccount b ModuleName poolAddr coins).

Definition locked (p : ConsumerPhase) : bool :=
  bool_decide (p = CONSUMER_PHASE_LAUNCHED) || bool_decide (p = CONSUMER_PHASE_PAUSED).

Definition WithdrawConsumerFeePool (msg : MsgWithdrawConsumerFeePool) : K (list Coin) :=
  let id := mwf_ConsumerId msg in
  exist ← gets (consumer_exists id);
  guard_err exist ErrUnknownConsumerId;;
  phase ← gets (GetConsumerPhase id);
  guard_err (negb (bool_decide (phase = CONSUMER_PHASE_DELETED))) ErrInvalidPhase;;
  let isGov := IsAuthority (mwf_Signer msg) in
  guard_err (isGov || negb (locked phase)) ErrFeePoolLocked;;
  depositor ← (if isGov then mret (NewModuleAddress dist_ModuleName)
               else of_option (AccAddressFromBech32 (mwf_Signer msg)) (ErrOther "invalid signer"));
  delivered ← fold_each (mwf_Amount msg)
    (λ delivered amt, tokens ← WithdrawShares id depositor amt; mret (Coins_Add delivered tokens)) [];
  when (negb (Coins_IsZero delivered))
    (let poolAddr := GetConsumerFeePoolAddress id in
     let providerAddr := NewModuleAddress ModuleName in
     bank_call (λ b, SendCoinsFromAccountToModule b poolAddr ModuleName delivered);;
     if isGov then bank_call (λ b, FundCommunityPool b delivered providerAddr)
     else bank_call (λ b, SendCoinsFromModuleToAccount b ModuleName depositor delivered));;
  mret delivered.

Definition SweepConsumerFeePool_msg (msg : MsgSweepConsumerFeePool) : K unit :=
  let id := msw_ConsumerId msg in
  exist ← gets (consumer_exists id);
  guard_err exist ErrUnknownConsumerId;;
  phase ← gets (GetConsumerPhase id);
  guard_err (negb (bool_decide (phase = CONSUMER_PHASE_DELETED))) ErrInvalidPhase;;
  guard_err (negb (locked phase)) ErrFeePoolLocked;;
  ownerAddr ← (o ← gets (GetConsumerOwnerAddress id); of_option o ErrNoOwnerAddress);
  guard_err (EqualFold (msw_Signer msg) ownerAddr) ErrUnauthorized;;
  SweepConsumerFeePool id (msw_Denoms msg).

Definition ChallengeConsumerDowntime (msg : MsgChallengeConsumerDowntime) : K unit :=
  HandleChallengeConsumerDowntime msg.

(** The attributed addresses only go into an event. *)
Definition SubmitConsumerMisbehaviour (msg : MsgSubmitConsumerMisbehaviour) : K unit :=
  misbehaviour ← or_panic (mmb_Misbehaviour msg);
  HandleConsumerMisbehaviour (mmb_ConsumerId msg) misbehaviour;;
  mret tt.

Definition SubmitConsumerDoubleVoting (msg : MsgSubmitConsumerDoubleVoting) : K unit :=
  consumerChainId ← (o ← gets (GetConsumerChainId (mdv_ConsumerId msg)); of_option o (ErrOther "no chain id"));
  header ← or_panic (mdv_InfractionBlockHeader msg);
  guard_err (String.eqb (ih_ChainID header) consumerChainId) ErrInvalidDoubleVotingEvidence;;
  evidence ← of_option (DuplicateVoteEvidenceFromProto (mdv_DuplicateVoteEvidence msg)) ErrExternal;
  valset ← of_option (ih_ValidatorSet header ≫= ValidatorSetFromProto) ErrExternal;
  '(_, validator) ← of_option (GetByAddress valset (vote_ValidatorAddress (VoteA evidence)))
                      ErrInvalidDoubleVotingEvidence;
  pubkey ← of_option (FromCmtPubKey (val_PubKey validator)) ErrExternal;
  HandleConsumerDoubleVoting (mdv_ConsumerId msg) evidence (Some pubkey).

Definition ResumeConsumer (msg : MsgResumeConsumer) : K unit :=
  guard_err (String.eqb authority (mrs_Authority msg)) ErrInvalidSigner;;
  ResumeConsumerChain (mrs_ConsumerId msg).
End msg_server.
