(* ===== verification/Provider.v ===== *)
(** The provider module as the application drives it: provider/module.go (block
    hooks), provider/ibc_module.go (packet callbacks), keeper/hooks.go (the
    staking hooks that do something), keeper/send_restriction.go, and one step of the chain
    as a message, a callback, a block hook or a move of another module. *)
From S2P Require Import Prelude GoTime Types Externals World Keeper Queues Valset FeePool Fees KeyAssignment.
From S2P Require Import Lifecycle Downtime Equivocation Rotation Msgs MsgServer.

Section provider.
Context `{X : Externals}.

(** *** module.go *)
Definition BeginBlock : K unit :=
  BeginBlockLaunchConsumers;;
  BeginBlockRemoveConsumers;;
  PauseConsumersWithFrozenClients;;
  SweepUnresponsiveConsumers;;
  BeginBlockAutoStopPausedConsumers;;
  SweepPendingDowntimeSlashes;;
  ip ← GetInfractionParams;
  now ← asks BlockTime;
  PruneEpochShareRecords
    (time_Add now (wrap64 (- wrap64 (DowntimeEvidenceMaxAge ip + DowntimeChallengeWindow ip))));;
  SweepExpiredWithheldFeeRecords;;
  PruneAcceptedDowntimeWindows ip;;
  blocks ← BlocksUntilNextEpoch;
  when (blocks =? 0) (try DistributeConsumerFees;; ClearEpochDowntime).

Definition EndBlock : K (list ValidatorUpdate) :=
  EndBlockPruneKeyAssignments;;
  EndBlockVSU.

(** *** ibc_module.go *)
Definition OnSendPacket {A} (payload : Payload A) (signer : string) : K unit :=
  guard_err (String.eqb (SourcePort payload) ProviderAppID) ErrInvalidRequest;;
  guard_err (String.eqb (DestinationPort payload) ConsumerAppID) ErrInvalidRequest;;
  guard_err (String.eqb signer authority) ErrUnauthorized.

(** [true] is [PacketStatus_Success]. *)
Definition OnRecvPacket (destinationClient : string) (payload : Payload EvidencePacketData) : K bool :=
  if negb (String.eqb (DestinationPort payload) ProviderAppID) then mret false else
  if negb (String.eqb (SourcePort payload) ConsumerAppID) then mret false else
  o ← gets (GetClientIdToConsumerId destinationClient);
  match o with
  | None => mret false
  | Some consumerId =>
      match Value payload with
      | None => mret false
      | Some evidencePacket =>
          r ← try (HandleConsumerEvidencePacket consumerId evidencePacket);
          mret (match r with inl _ => false | inr _ => true end)
      end
  end.

Definition OnTimeoutPacket (sourceClient : string) : K unit := OnTimeoutPacketV2 sourceClient.

(** [errorAck]: the acknowledgement is ibc-go's error acknowledgement. *)
Definition OnAcknowledgementPacket (sourceClient : string) (errorAck : bool)
    (payload : Payload ValidatorSetChangePacketData) : K unit :=
  let ackError := if errorAck then "error acknowledgement received" else "" in
  let ackVscId := match Value payload with Some vsc => ValsetUpdateId vsc | None => 0%N end in
  OnAcknowledgementPacketV2 sourceClient ackVscId ackError.

(** *** send_restriction.go *)
Definition FeePoolSendRestriction (fromAddr toAddr : string) (w : World) : result string :=
  if negb (bool_decide (is_Some (s_FeePoolAddressToConsumerId w !! toAddr))) then Ok toAddr
  else if String.eqb fromAddr (NewModuleAddress ModuleName)
          || String.eqb fromAddr (NewModuleAddress dist_ModuleName) then Ok toAddr
  else Err ErrUnsolicitedFeePoolDeposit.

(** *** hooks.go *)
Definition ValidatorConsensusKeyInUse (valAddr : string) : K bool :=
  val ← (o ← gets (λ w, GetValidator (w_staking w) valAddr); or_panic o);
  consensusAddr ← or_panic (GetConsAddr val);
  gets (IsConsumerConsAddrInUse consensusAddr).
Definition AfterValidatorCreated (valAddr : string) : K unit :=
  inUse ← ValidatorConsensusKeyInUse valAddr;
  if inUse : bool then panic else mret tt.

Definition AfterValidatorRemoved (valConsAddr : string) : K unit :=
  assigned ← gets (GetAllValidatorConsumerPubKeys None);
  for_each assigned (λ e : N * string * PubKey,
    when (String.eqb e.1.2 valConsAddr)
      (consumerAddr ← or_panic (TMCryptoPublicKeyToConsAddr e.2);
       DeleteValidatorByConsumerAddr e.1.1 consumerAddr;;
       DeleteValidatorConsumerPubKey e.1.1 e.1.2)).

(** *** One step of the chain *)
Inductive Msg :=
  | UpdateParams_ (msg : MsgUpdateParams)
  | UpdateInfractionParams_ (msg : MsgUpdateInfractionParams)
  | AssignConsumerKey_ (msg : MsgAssignConsumerKey)
  | CreateConsumer_ (msg : MsgCreateConsumer)
  | UpdateConsumer_ (msg : MsgUpdateConsumer)
  | RemoveConsumer_ (msg : MsgRemoveConsumer)
  | SetConsumerFeesPerBlock_ (msg : MsgSetConsumerFeesPerBlock)
  | FundConsumerFeePool_ (msg : MsgFundConsumerFeePool)
  | WithdrawConsumerFeePool_ (msg : MsgWithdrawConsumerFeePool)
  | SweepConsumerFeePool_ (msg : MsgSweepConsumerFeePool)
  | ChallengeConsumerDowntime_ (msg : MsgChallengeConsumerDowntime)
  | ResumeConsumer_ (msg : MsgResumeConsumer)
  | SubmitConsumerDoubleVoting_ (msg : MsgSubmitConsumerDoubleVoting)
  | SubmitConsumerMisbehaviour_ (msg : MsgSubmitConsumerMisbehaviour).
Definition handle (msg : Msg) : K unit :=
  match msg with
  | UpdateParams_ m => UpdateParams m
  | UpdateInfractionParams_ m => UpdateInfractionParams m
  | AssignConsumerKey_ m => AssignConsumerKey_msg m
  | CreateConsumer_ m => CreateConsumer m;; mret tt
  | UpdateConsumer_ m => UpdateConsumer m
  | RemoveConsumer_ m => RemoveConsumer m
  | SetConsumerFeesPerBlock_ m => SetConsumerFeesPerBlock m
  | FundConsumerFeePool_ m => FundConsumerFeePool m
  | WithdrawConsumerFeePool_ m => WithdrawConsumerFeePool m;; mret tt
  | SweepConsumerFeePool_ m => SweepConsumerFeePool_msg m
  | ChallengeConsumerDowntime_ m => ChallengeConsumerDowntime m
  | ResumeConsumer_ m => ResumeConsumer m
  | SubmitConsumerDoubleVoting_ m => SubmitConsumerDoubleVoting m
  | SubmitConsumerMisbehaviour_ m => SubmitConsumerMisbehaviour m
  end.
(** [ValidateBasic] runs before a message reaches its handler;
    MsgUpdateParams has none. *)
Definition ValidateBasic (msg : Msg) : bool :=
  match msg with
  | UpdateInfractionParams_ m => MsgUpdateInfractionParams_ValidateBasic m
  | AssignConsumerKey_ m => MsgAssignConsumerKey_ValidateBasic m
  | CreateConsumer_ m => MsgCreateConsumer_ValidateBasic m
  | UpdateConsumer_ m => MsgUpdateConsumer_ValidateBasic m
  | RemoveConsumer_ m => MsgRemoveConsumer_ValidateBasic m
  | SetConsumerFeesPerBlock_ m => MsgSetConsumerFeesPerBlock_ValidateBasic m
  | FundConsumerFeePool_ m => MsgFundConsumerFeePool_ValidateBasic m
  | WithdrawConsumerFeePool_ m => MsgWithdrawConsumerFeePool_ValidateBasic m
  | SweepConsumerFeePool_ m => MsgSweepConsumerFeePool_ValidateBasic m
  | ChallengeConsumerDowntime_ m => MsgChallengeConsumerDowntime_ValidateBasic m
  | ResumeConsumer_ m => MsgResumeConsumer_ValidateBasic m
  | SubmitConsumerDoubleVoting_ m => MsgSubmitConsumerDoubleVoting_ValidateBasic m
  | SubmitConsumerMisbehaviour_ m => MsgSubmitConsumerMisbehaviour_ValidateBasic m
  | UpdateParams_ _ => true
  end.

(** A handler's writes are kept only if it returns without error. *)
Definition commit {A} (m : K A) (c : Ctx) (w : World) : World :=
  match m c w with (Ok _, w') => w' | _ => w end.
(** A failed receive is acknowledged and its writes discarded. *)
Definition commit_recv (m : K bool) (c : Ctx) (w : World) : World :=
  match m c w with (Ok true, w') => w' | _ => w end.

Inductive step : World → World → Prop :=
  | step_msg c msg w : ValidateBasic msg = true → step w (commit (handle msg) c w)
  | step_recv c client payload w : step w (commit_recv (OnRecvPacket client payload) c w)
  | step_ack c client err payload w : step w (commit (OnAcknowledgementPacket client err payload) c w)
  | step_timeout c client w : step w (commit (OnTimeoutPacket client) c w)
  | step_created c val w : step w (commit (AfterValidatorCreated val) c w)
  | step_removed c cons w : step w (commit (AfterValidatorRemoved cons) c w)
  | step_rotated c old new w : step w (commit (AfterConsensusPubKeyUpdate old new) c w)
  | step_begin c w : step w (commit BeginBlock c w)
  | step_end c w : step w (commit EndBlock c w)
  (* the other modules move on their own *)
  | step_env w s b i : step w (set_ibc i (set_bank b (set_staking s w))).
End provider.
Arguments mkPayload {_} _ _ _.
