(* ===== verification/PhaseProofs.v ===== *)
(** The phase machine of a consumer and its launch queue. Every step of the
    chain keeps the queue and the phases in agreement and moves phases only
    along the edges of the lifecycle. *)
From S2P Require Import Prelude GoTime Types Externals World Keeper Queues ValSets Valset ValsetProofs.
From S2P Require Import FeePool Fees KeyAssignment Lifecycle LifecycleProofs Downtime DowntimeProofs Equivocation Rotation.
From S2P Require Import Msgs MsgServer Provider.

(** ** Preservation by successful runs *)
Definition ok_preserves {W A} (P : W → Prop) (m : M W A) : Prop :=
  ∀ c w a w', m c w = (Ok a, w') → P w → P w'.
Section ok_preserves.
Context {W : Type} (P : W → Prop).
Lemma ok_pres {A} (m : M W A) : preserves P m → ok_preserves P m.
Proof. intros H c w a w' E HP. by eapply (preserves_run P m). Qed.
Lemma ok_bind {A B} (m : M W A) (f : A → M W B) :
  ok_preserves P m → (∀ a, ok_preserves P (f a)) → ok_preserves P (m ≫= f).
Proof. intros Hm Hf c w b w' (a & w1 & E1 & E2)%bind_Ok HP. eapply Hf; [done|]. by eapply Hm. Qed.
Lemma ok_for_each {A} (l : list A) (f : A → M W unit) :
  (∀ x, ok_preserves P (f x)) → ok_preserves P (for_each l f).
Proof.
  intros Hf c w u w' E HP. apply (for_each_Ok_ind (λ _, P)) in E; [done..|].
  intros dn x rest w1 w2 _ H1 E1. by eapply Hf.
Qed.
(** A failing cached run changes nothing, so a tried one keeps [P]. *)
Lemma ok_try_cached {A} (m : M W A) : ok_preserves P m → ok_preserves P (try (cached m)).
Proof.
  intros Hm c w a w' E HP. unfold try, cached in E. destruct (m c w) as [[x|e|] w1] eqn:Em.
  - injection E as _ <-. by eapply Hm.
  - by injection E as _ <-.
  - done.
Qed.
Lemma ok_when (b : bool) (m : M W unit) : ok_preserves P m → ok_preserves P (when b m).
Proof. destruct b; [done|]. intros _. apply ok_pres, preserves_ret. Qed.
End ok_preserves.

Ltac okp1 :=
  first
    [ solve [auto 2 with vaas nocore]
    | lazymatch goal with
      | |- ok_preserves _ (mbind _ _) => apply ok_bind; [|intros ?]
      | |- ok_preserves _ (match ?x with _ => _ end) => destruct x
      | |- ok_preserves _ (for_each _ _) => apply ok_for_each; intros ?
      | |- ok_preserves _ (try (cached _)) => apply ok_try_cached
      | |- ok_preserves _ (when _ _) => apply ok_when
      | |- ok_preserves _ (let _ := _ in _) => cbv zeta
      end
    | solve [apply ok_pres; pres]
    | lazymatch goal with |- ok_preserves _ ?m => let h := head_of m in unfold h end ].
Ltac okp := repeat okp1.

(** ** The view of the store the launch queue is about *)
Section launch.
Context `{X : Externals}.

Inductive phase_edge : ConsumerPhase → ConsumerPhase → Prop :=
  | edge_create : phase_edge CONSUMER_PHASE_UNSPECIFIED CONSUMER_PHASE_REGISTERED
  | edge_initialize : phase_edge CONSUMER_PHASE_REGISTERED CONSUMER_PHASE_INITIALIZED
  | edge_withdraw : phase_edge CONSUMER_PHASE_INITIALIZED CONSUMER_PHASE_REGISTERED
  | edge_launch : phase_edge CONSUMER_PHASE_INITIALIZED CONSUMER_PHASE_LAUNCHED
  | edge_pause : phase_edge CONSUMER_PHASE_LAUNCHED CONSUMER_PHASE_PAUSED
  | edge_resume : phase_edge CONSUMER_PHASE_PAUSED CONSUMER_PHASE_LAUNCHED
  | edge_stop p : locked p = true → phase_edge p CONSUMER_PHASE_STOPPED
  | edge_delete p : deletable p = true → phase_edge p CONSUMER_PHASE_DELETED.

Record LaunchView := mkLaunchView {
  v_phases : gmap N ConsumerPhase;
  v_params : gmap N ConsumerInitializationParameters;
  v_queue : gmap Time (list N);
  v_seq : N;
}.
Definition view (w : World) : LaunchView :=
  mkLaunchView (s_ConsumerPhases w) (s_ConsumerInitParams w) (s_SpawnTimeToConsumerIds w) (s_ConsumerIdSeq w).
Definition phase_in (id : N) (v : LaunchView) : ConsumerPhase :=
  default CONSUMER_PHASE_UNSPECIFIED (v_phases v !! id).
Definition spawn_of (id : N) (v : LaunchView) : Time :=
  match v_params v !! id with Some p => SpawnTime p | None => 0 end.
Definition waiting (ts : Time) (v : LaunchView) : list N := default [] (v_queue v !! ts).

(** [taken]: ids that have left the queue and are not launched yet. *)
Record launch_ok (taken : list N) (v : LaunchView) : Prop := {
  (* an id waits under its own spawn time, once, and only while initialized *)
  lo_waiting id ts : id ∈ waiting ts v →
    phase_in id v = CONSUMER_PHASE_INITIALIZED ∧ spawn_of id v = ts ∧ ts ≠ 0 ∧ id ∉ taken;
  lo_once ts : NoDup (waiting ts v);
  lo_taken id : id ∈ taken → phase_in id v = CONSUMER_PHASE_INITIALIZED;
  (* every initialized consumer waits *)
  lo_initialized id : phase_in id v = CONSUMER_PHASE_INITIALIZED →
    id ∈ taken ∨ id ∈ waiting (spawn_of id v) v;
  (* a registered one has no spawn time *)
  lo_registered id : phase_in id v = CONSUMER_PHASE_REGISTERED → spawn_of id v = 0;
  (* ids not handed out yet are free *)
  lo_fresh id : (v_seq v ≤ id)%N → phase_in id v = CONSUMER_PHASE_UNSPECIFIED;
}.

Definition set_phase (id : N) (p : ConsumerPhase) (v : LaunchView) : LaunchView :=
  mkLaunchView (<[id := p]> (v_phases v)) (v_params v) (v_queue v) (v_seq v).
Lemma phase_in_set id p v id' : phase_in id' (set_phase id p v) = if decide (id' = id) then p else phase_in id' v.
Proof.
  unfold phase_in, set_phase; cbn. case_decide as E; [by rewrite E, lookup_insert_eq|by rewrite lookup_insert_ne].
Qed.

(** The worlds reached from [w0] along the edges, with the queue in order. *)
Definition phased (w0 : World) (v : LaunchView) : Prop :=
  ∀ id, rtc phase_edge (GetConsumerPhase id w0) (phase_in id v).
Definition on_course (w0 : World) (taken : list N) (w : World) : Prop :=
  launch_ok taken (view w) ∧ phased w0 (view w).

Lemma phased_set w0 id p v : phased w0 v → phase_edge (phase_in id v) p → phased w0 (set_phase id p v).
Proof.
  intros H He id'. rewrite phase_in_set. case_decide as E; [subst id'|done]. eapply rtc_r; [apply H|done].
Qed.

(** The moves past the launch. *)
Definition past_launch (p : ConsumerPhase) : bool :=
  negb (Prelaunched p || bool_decide (p = CONSUMER_PHASE_UNSPECIFIED)).
Lemma launch_ok_set taken id p v :
  launch_ok taken v → past_launch (phase_in id v) = true → past_launch p = true →
  launch_ok taken (set_phase id p v).
Proof.
  intros [Hw Ho Ht Hi Hr Hf] Hq Hp.
  assert (phase_in id v ≠ CONSUMER_PHASE_INITIALIZED) as Hni by (intros E; by rewrite E in Hq).
  assert (∀ id', phase_in id' (set_phase id p v) = CONSUMER_PHASE_INITIALIZED →
    id' ≠ id ∧ phase_in id' v = CONSUMER_PHASE_INITIALIZED) as HI.
  { intros id' E. rewrite phase_in_set in E. case_decide; [by rewrite E in Hp|done]. }
  split; try done.
  - intros id' ts Hin. destruct (Hw _ _ Hin) as (E & ? & ? & ?). split_and!; try done.
    rewrite phase_in_set, decide_False; [done|]. by intros ->.
  - intros id' Hin%Ht. rewrite phase_in_set, decide_False; [done|]. by intros ->.
  - intros id' [_ E]%HI. by apply Hi.
  - intros id' E. rewrite phase_in_set in E. case_decide; [by rewrite E in Hp|by apply Hr].
  - intros id' Hs. rewrite phase_in_set. case_decide as E; [|by apply Hf].
    subst id'. by rewrite Hf in Hq.
Qed.

Lemma on_course_set w0 taken id p w w' :
  view w' = set_phase id p (view w) → past_launch (GetConsumerPhase id w) = true → past_launch p = true →
  phase_edge (GetConsumerPhase id w) p → on_course w0 taken w → on_course w0 taken w'.
Proof.
  intros E Hq Hp He [Hl Hph]. unfold on_course. rewrite E. split; [by apply launch_ok_set|by apply phased_set].
Qed.

(** *** Stopping, pausing, resuming *)
Definition viewed (v : LaunchView) (w : World) : Prop := view w = v.
Lemma stop_view id c w u w' :
  StopAndPrepareForConsumerRemoval id c w = (Ok u, w') → view w' = set_phase id CONSUMER_PHASE_STOPPED (view w).
Proof.
  unfold StopAndPrepareForConsumerRemoval. intros (u1 & w1 & ->%modify_Ok & E)%bind_Ok.
  refine (preserves_run (viewed (set_phase id _ (view w))) _ c _ _ w' _ _ E); [pres|done].
  Unshelve. exact c.
Qed.
Lemma stop_course w0 taken id c w u w' :
  StopAndPrepareForConsumerRemoval id c w = (Ok u, w') → locked (GetConsumerPhase id w) = true →
  on_course w0 taken w → on_course w0 taken w'.
Proof.
  intros E%stop_view Hq. eapply on_course_set; [exact E| |done|by apply edge_stop].
  by destruct (GetConsumerPhase id w).
Qed.

(** A tried run keeps [P] when it does on every outcome but a panic. *)
Definition safe {A} (P : World → Prop) (m : K A) : Prop :=
  ∀ c w r w', m c w = (r, w') → r ≠ Panic → P w → P w'.
Lemma ok_safe {A} P (m : K A) : safe P m → ok_preserves P m.
Proof. intros H c w a w' E. by eapply H. Qed.
Lemma ok_try {A} P (m : K A) : safe P m → ok_preserves P (try m).
Proof.
  intros H c w r w' E. unfold try in E. destruct (m c w) as [[a|e|] w1] eqn:Em; try done.
  all: injection E as _ <-; by eapply H.
Qed.

Lemma pause_course w0 taken id reason : safe (on_course w0 taken) (PauseConsumerChain id reason).
Proof.
  intros c w r w' Er Hr HP. destruct (PauseConsumerChain_run id reason c w) as (w1 & _ & (Hlc & _) & E).
  destruct (bool_decide (reason = _)); [destruct E as [e E]; rewrite E in Er; by injection Er as _ <-|].
  destruct (bool_decide (GetConsumerPhase id w = _)) eqn:Hph; [|rewrite E in Er; by injection Er as _ <-].
  apply bool_decide_eq_true in Hph. destruct (s_Params_ w) as [params|].
  2: { destruct E as [w2 E]. rewrite E in Er. by injection Er as <- _. }
  rewrite E in Er. injection Er as _ <-. apply (on_course_set w0 taken id CONSUMER_PHASE_PAUSED w); try done.
  - unfold pause_writes, view, set_phase, s_ConsumerPhases, s_ConsumerInitParams, s_SpawnTimeToConsumerIds, s_ConsumerIdSeq.
    rewrite <-Hlc. reflexivity.
  - by rewrite Hph.
  - rewrite Hph. constructor.
Qed.

Lemma resume_course w0 taken id : ok_preserves (on_course w0 taken) (ResumeConsumerChain id).
Proof.
  intros c w [] w' (Hp & client & w1 & w2 & _ & _ & _ & [q Ew1] & E1 & E2)%resume_steps HP.
  apply (on_course_set w0 taken id CONSUMER_PHASE_LAUNCHED w); try done.
  - transitivity (view w1); [|by rewrite Ew1].
    refine (preserves_run (viewed _) _ _ _ _ _ _ _ E2); [pres|].
    refine (preserves_run (viewed _) _ _ _ _ _ _ _ E1); [pres|done].
  - by rewrite Hp.
  - rewrite Hp. constructor.
Qed.

(** *** Entering and leaving the queue *)
Definition unqueue (ts : Time) (rest : list N) (v v' : LaunchView) : Prop :=
  v_phases v' = v_phases v ∧ v_params v' = v_params v ∧ v_seq v' = v_seq v ∧
  waiting ts v' = rest ∧ ∀ ts', ts' ≠ ts → waiting ts' v' = waiting ts' v.
Definition enqueue (id : N) (ts : Time) (v : LaunchView) : LaunchView :=
  mkLaunchView (v_phases v) (v_params v) (<[ts := waiting ts v ++ [id]]> (v_queue v)) (v_seq v).
Definition set_params (id : N) (p : ConsumerInitializationParameters) (v : LaunchView) : LaunchView :=
  mkLaunchView (v_phases v) (<[id := p]> (v_params v)) (v_queue v) (v_seq v).

Lemma spawn_of_set id p v id' :
  spawn_of id' (set_params id p v) = if decide (id' = id) then SpawnTime p else spawn_of id' v.
Proof.
  unfold spawn_of, set_params; cbn. case_decide as E; [by rewrite E, lookup_insert_eq|by rewrite lookup_insert_ne].
Qed.

Lemma launch_ok_unqueue taken id ts l1 l2 v v' :
  launch_ok taken v → waiting ts v = l1 ++ id :: l2 → unqueue ts (l1 ++ l2) v v' → launch_ok (id :: taken) v'.
Proof.
  intros [Hw Ho Ht Hi Hr Hf] El (Eph & Epa & Eseq & Ets & Eoth).
  assert (∀ id', phase_in id' v' = phase_in id' v) as P by (intros; unfold phase_in; by rewrite Eph).
  assert (∀ id', spawn_of id' v' = spawn_of id' v) as S by (intros; unfold spawn_of; by rewrite Epa).
  assert (id ∈ waiting ts v) as Hid by (rewrite El; set_solver).
  pose proof (Ho ts) as Hnd. rewrite El in Hnd.
  assert (∀ id' ts', id' ∈ waiting ts' v' ↔ id' ∈ waiting ts' v ∧ id' ≠ id) as Q.
  { intros id' ts'. destruct (decide (ts' = ts)) as [->|Hne].
    - rewrite Ets, El. rewrite NoDup_app, NoDup_cons in Hnd.
      rewrite !elem_of_app, elem_of_cons. destruct Hnd as (_ & H1 & H2 & _). split; [|naive_solver].
      intros [H|H]; (split; [naive_solver|]); intros ->; [apply (H1 _ H); by left|done].
    - rewrite Eoth by done. split; [|naive_solver]. intros Hin. split; [done|]. intros ->.
      destruct (Hw _ _ Hin) as (_ & E1 & _). destruct (Hw _ _ Hid) as (_ & E2 & _). congruence. }
  split.
  - intros id' ts' [Hin Hne]%Q. rewrite P, S. destruct (Hw _ _ Hin) as (? & ? & ? & ?). set_solver.
  - intros ts'. destruct (decide (ts' = ts)) as [->|Hne]; [rewrite Ets|by rewrite Eoth].
    rewrite NoDup_app, NoDup_cons in *. set_solver.
  - intros id'. rewrite P. intros [->|?]%elem_of_cons; [by eapply Hw|by apply Ht].
  - intros id'. rewrite P, S, Q. intros [?|?]%Hi; [left; set_solver|]. destruct (decide (id' = id)); set_solver.
  - intros id'. rewrite P, S. apply Hr.
  - intros id'. rewrite P, Eseq. apply Hf.
Qed.

Lemma launch_ok_params taken id p v : launch_ok (id :: taken) v → launch_ok (id :: taken) (set_params id p v).
Proof.
  intros [Hw Ho Ht Hi Hr Hf]. assert (phase_in id v = CONSUMER_PHASE_INITIALIZED) as Hp by (apply Ht; set_solver).
  split; try done.
  - intros id' ts Hin. rewrite spawn_of_set. destruct (Hw _ _ Hin) as (? & ? & ? & Hn).
    rewrite decide_False by set_solver. done.
  - intros id' Hp'. rewrite spawn_of_set. case_decide; [left; set_solver|by apply Hi].
  - intros id' Hp'. rewrite spawn_of_set. case_decide as E; [|by apply Hr]. subst id'.
    change (phase_in id v = CONSUMER_PHASE_REGISTERED) in Hp'. congruence.
Qed.

Lemma waiting_enqueue id ts v ts' :
  waiting ts' (enqueue id ts v) = if decide (ts' = ts) then waiting ts v ++ [id] else waiting ts' v.
Proof.
  unfold waiting, enqueue; cbn. case_decide as E; [by rewrite E, lookup_insert_eq|by rewrite lookup_insert_ne].
Qed.
Lemma launch_ok_enqueue taken id ts v :
  launch_ok (id :: taken) v → id ∉ taken → spawn_of id v = ts → ts ≠ 0 → launch_ok taken (enqueue id ts v).
Proof.
  intros [Hw Ho Ht Hi Hr Hf] Hnt Es Hts.
  assert (∀ ts', id ∉ waiting ts' v) as Hnw by (intros ts' (_ & _ & _ & ?)%Hw; set_solver).
  assert (∀ id' ts', id' ∈ waiting ts' (enqueue id ts v) ↔ id' ∈ waiting ts' v ∨ (id' = id ∧ ts' = ts)) as Q.
  { intros id' ts'. rewrite waiting_enqueue. case_decide; set_solver. }
  split; try done.
  - intros id' ts' [Hin|[-> ->]]%Q.
    + destruct (Hw _ _ Hin) as (? & ? & ? & ?). set_solver.
    + split_and!; try done. apply Ht. set_solver.
  - intros ts'. rewrite waiting_enqueue. case_decide as E; [|apply Ho]. rewrite NoDup_app. split_and!; [apply Ho| |].
    + intros x Hx ->%list_elem_of_singleton. by eapply Hnw.
    + apply NoDup_singleton.
  - intros id' Hin. apply Ht. set_solver.
  - intros id' Hp. change (spawn_of id' (enqueue id ts v)) with (spawn_of id' v).
    destruct (Hi id' Hp) as [[->|?]%elem_of_cons|?]; [right; apply Q; right; by split|by left|right; apply Q; by left].
Qed.

(** Leaving the queue for good. *)
Lemma launch_ok_release taken id p v :
  launch_ok (id :: taken) v → id ∉ taken → p ≠ CONSUMER_PHASE_INITIALIZED → p ≠ CONSUMER_PHASE_UNSPECIFIED →
  (p = CONSUMER_PHASE_REGISTERED → spawn_of id v = 0) → launch_ok taken (set_phase id p v).
Proof.
  intros [Hw Ho Ht Hi Hr Hf] Hnt Hp1 Hp2 Hp3.
  assert (phase_in id v = CONSUMER_PHASE_INITIALIZED) as Hp by (apply Ht; set_solver).
  split; try done.
  - intros id' ts Hin. destruct (Hw _ _ Hin) as (? & ? & ? & ?). rewrite phase_in_set, decide_False by set_solver. set_solver.
  - intros id' Hin. rewrite phase_in_set, decide_False by set_solver. apply Ht. set_solver.
  - intros id'. rewrite phase_in_set. case_decide; [done|]. intros [?|?]%Hi; set_solver.
  - intros id'. rewrite phase_in_set. case_decide as E; [subst id'; done|apply Hr].
  - intros id' Hs. rewrite phase_in_set. case_decide as E; [|by apply Hf].
    subst id'. rewrite Hf in Hp by done. done.
Qed.
Lemma launch_ok_initialize taken id v :
  launch_ok taken v → phase_in id v = CONSUMER_PHASE_REGISTERED →
  launch_ok (id :: taken) (set_phase id CONSUMER_PHASE_INITIALIZED v).
Proof.
  intros [Hw Ho Ht Hi Hr Hf] Hp.
  assert (∀ ts, id ∉ waiting ts v) as Hnw by (intros ts (E & _)%Hw; congruence).
  split; try done.
  - intros id' ts Hin. destruct (Hw _ _ Hin) as (? & ? & ? & ?).
    assert (id' ≠ id) by (by intros ->; eapply Hnw). rewrite phase_in_set, decide_False by done. set_solver.
  - intros id'. rewrite phase_in_set. case_decide; [done|]. intros Hin. apply Ht. set_solver.
  - intros id'. rewrite phase_in_set. case_decide; [left; set_solver|]. intros [?|?]%Hi; [left; set_solver|by right].
  - intros id'. rewrite phase_in_set. case_decide; [done|apply Hr].
  - intros id' Hs. rewrite phase_in_set. case_decide as E; [|by apply Hf]. subst id'. rewrite Hf in Hp by done. done.
Qed.

(** *** The queue operations on the view *)
Definition others_of_queue (w w' : World) : Prop :=
  s_ConsumerPhases w' = s_ConsumerPhases w ∧ s_ConsumerInitParams w' = s_ConsumerInitParams w ∧
  s_ConsumerIdSeq w' = s_ConsumerIdSeq w.
Lemma remove_view id ts c w u w' :
  RemoveConsumerToBeLaunched id ts c w = (Ok u, w') →
  ∃ l1 l2, waiting ts (view w) = l1 ++ id :: l2 ∧ unqueue ts (l1 ++ l2) (view w) (view w').
Proof.
  intros E. pose proof (removeConsumerFromTimeQueue_spec (Q := SpawnQueue) id ts c w) as Hspec.
  unfold RemoveConsumerToBeLaunched in E. case_decide as Hin.
  2: { destruct Hspec as [e E']. rewrite E in E'. done. }
  destruct Hspec as (w1 & l1 & l2 & E' & El & _ & El' & _ & Hoth). rewrite E in E'. injection E' as _ ->.
  exists l1, l2. split; [exact El|].
  assert (others_of_queue w w1) as (? & ? & ?).
  { assert (preserves (others_of_queue w) (removeConsumerFromTimeQueue (Q := SpawnQueue) id ts)) as P by pres.
    apply (preserves_run _ _ _ _ _ _ P) in E; [done|by repeat split]. }
  unfold unqueue. split_and!; [done|done|done|exact El'|]. intros ts' Hne. unfold waiting. cbn. f_equal. by apply Hoth.
Qed.

Lemma append_view id ts c w :
  ∃ w', AppendConsumerToBeLaunched id ts c w = (Ok tt, w') ∧ view w' = enqueue id ts (view w).
Proof. eexists. split; reflexivity. Qed.

(** Rescheduling: the id leaves its old bucket, if it had one, and joins the
    new one. *)
Lemma prepare_view id prev ts c w u w' :
  PrepareConsumerForLaunch id prev ts c w = (Ok u, w') →
  ∃ v, view w' = enqueue id ts v ∧
    if decide (prev = 0) then v = view w
    else ∃ l1 l2, waiting prev (view w) = l1 ++ id :: l2 ∧ unqueue prev (l1 ++ l2) (view w) v.
Proof.
  unfold PrepareConsumerForLaunch. intros (u1 & w1 & E1 & E2)%bind_Ok.
  destruct (append_view id ts c w1) as (w2 & E2' & Ev). rewrite E2 in E2'. injection E2' as _ ->.
  exists (view w1). split; [done|]. unfold time_IsZero in E1. destruct (Z.eqb_spec prev 0) as [->|Hne]; cbn in E1.
  - by apply ret_Ok in E1 as [_ <-].
  - rewrite decide_False by done. by eapply remove_view.
Qed.

(** What an initialization decides: nothing for a consumer past the launch or
    without a spawn time, the phase otherwise. *)
Lemma initialize_view id c w o w' :
  InitializeConsumer id c w = (Ok o, w') →
  if Prelaunched (GetConsumerPhase id w) && negb (spawn_of id (view w) =? 0)
  then o = Some (spawn_of id (view w)) ∧ view w' = set_phase id CONSUMER_PHASE_INITIALIZED (view w)
  else o = None ∧ w' = w.
Proof.
  unfold InitializeConsumer. intros (phase & w0 & [<- <-]%gets_Ok & E)%bind_Ok.
  destruct (Prelaunched (GetConsumerPhase id w)) eqn:Hp; cbn [negb andb] in *.
  2: { apply ret_Ok in E as [<- <-]. done. }
  apply bind_Ok in E as (ip & w0 & [<- <-]%gets_Ok & E).
  unfold spawn_of. cbn. unfold GetConsumerInitializationParameters in E.
  destruct (s_ConsumerInitParams w !! id) as [p|]; [|by apply ret_Ok in E as [<- <-]].
  unfold time_IsZero in E. destruct (Z.eqb_spec (SpawnTime p) 0) as [Hz|Hz]; cbn.
  - by apply ret_Ok in E as [<- <-].
  - apply bind_Ok in E as (u & w1 & E1 & [<- <-]%ret_Ok). unfold SetConsumerPhase in E1.
    rewrite modify_Ok in E1. by subst w1.
Qed.

Lemma set_init_params_view id p c w u w' :
  SetConsumerInitializationParameters id p c w = (Ok u, w') → view w' = set_params id p (view w).
Proof.
  unfold SetConsumerInitializationParameters. intros (phase & w0 & [<- <-]%gets_Ok & E)%bind_Ok.
  apply bind_Ok in E as (u1 & w1 & E1 & E2). rewrite modify_Ok in E2. subst w'.
  assert (w1 = w) as ->; [|done].
  refine (preserves_run (λ v, v = w) _ _ _ _ _ _ _ E1); [pres|done].
Qed.

Lemma update_params_view id prev o c w u w' :
  updateInitializationParameters id prev o c w = (Ok u, w') →
  match o with
  | None => w' = w
  | Some p =>
      Prelaunched (GetConsumerPhase id w) = true ∧
      if (SpawnTime (im_Params p) =? 0) && bool_decide (GetConsumerPhase id w = CONSUMER_PHASE_INITIALIZED)
      then ∃ l1 l2 v, waiting prev (view w) = l1 ++ id :: l2 ∧ unqueue prev (l1 ++ l2) (view w) v ∧
           view w' = set_params id (im_Params p) (set_phase id CONSUMER_PHASE_REGISTERED v)
      else view w' = set_params id (im_Params p) (view w)
  end.
Proof.
  destruct o as [p|]; cbn [updateInitializationParameters]; [|by intros [_ <-]%ret_Ok].
  intros (pre & w0 & [<- <-]%gets_Ok & E)%bind_Ok.
  apply bind_Ok in E as (u1 & w0 & [Hpre <-]%guard_err_Ok & E). split; [exact Hpre|].
  apply bind_Ok in E as (phase & w0 & [<- <-]%gets_Ok & E).
  apply bind_Ok in E as (u2 & w1 & E1 & E). apply bind_Ok in E as (u3 & w2 & E2 & E3).
  assert (w2 = w1) as ->.
  { refine (preserves_run (λ v, v = w1) _ _ _ _ _ _ _ E2); [pres|done]. }
  apply wrap_err_Ok, set_init_params_view in E3. unfold time_IsZero in E1.
  destruct (_ && _); cbn [when] in E1.
  - apply bind_Ok in E1 as (u4 & w3 & E4 & E5). apply wrap_err_Ok in E4.
    apply remove_view in E4 as (l1 & l2 & El & Eq). unfold SetConsumerPhase in E5. rewrite modify_Ok in E5. subst w1.
    exists l1, l2, (view w3). done.
  - apply ret_Ok in E1 as [_ <-]. done.
Qed.

(** *** Views that agree on what the invariant reads *)
Record veq (v v' : LaunchView) : Prop := {
  veq_phase id : phase_in id v = phase_in id v';
  veq_spawn id : spawn_of id v = spawn_of id v';
  veq_waiting ts : waiting ts v = waiting ts v';
  veq_seq : v_seq v = v_seq v';
}.
#[export] Instance veq_equivalence : Equivalence veq.
Proof.
  split.
  - by intros v.
  - intros v v' []. by split.
  - intros v1 v2 v3 [] []. split; intros; etrans; eauto.
Qed.
#[export] Instance launch_ok_proper taken : Proper (veq ==> impl) (launch_ok taken).
Proof.
  intros v v' [Ep Es Ew Eq] [Hw Ho Ht Hi Hr Hf]. split; intros *;
    rewrite <-?Ep, <-?Es, <-?Ew, <-?Eq; auto.
Qed.
#[export] Instance phased_proper w0 : Proper (veq ==> impl) (phased w0).
Proof. intros v v' [Ep _ _ _] H id. rewrite <-Ep. apply H. Qed.

Lemma quiet_bind {A B} (m : K A) (f : A → K B) c w b w' :
  (m ≫= f) c w = (Ok b, w') → preserves (viewed (view w)) m →
  ∃ a w1, m c w = (Ok a, w1) ∧ f a c w1 = (Ok b, w') ∧ view w1 = view w.
Proof.
  intros (a & w1 & E1 & E2)%bind_Ok P. exists a, w1. split_and!; [done..|].
  by apply (preserves_run _ _ _ _ _ _ P eq_refl) in E1.
Qed.

Lemma unqueue_veq ts rest v v' u :
  unqueue ts rest v v' → (∀ t, waiting t u = waiting t v) →
  unqueue ts rest u (mkLaunchView (v_phases u) (v_params u) (v_queue v') (v_seq u)).
Proof.
  intros (_ & _ & _ & E1 & E2) Hu. split_and!; try done. intros t Ht. rewrite Hu. by apply E2.
Qed.

(** Initializing and scheduling after an update, by the phase the update
    found. *)
Lemma schedule_registered id c w u w' v0 :
  initializeAndSchedule id 0 c w = (Ok u, w') → launch_ok [] v0 → phase_in id v0 = CONSUMER_PHASE_REGISTERED →
  (view w = v0 ∨ ∃ p, view w = set_params id p v0) →
  launch_ok [] (view w') ∧
  ∀ id', rtc phase_edge (phase_in id' v0) (phase_in id' (view w')).
Proof.
  unfold initializeAndSchedule. intros (o & w1 & Ei & E)%bind_Ok Hl Hp Hv.
  assert (GetConsumerPhase id w = CONSUMER_PHASE_REGISTERED) as Hpw.
  { change (phase_in id (view w) = CONSUMER_PHASE_REGISTERED). by destruct Hv as [->|[p ->]]. }
  apply initialize_view in Ei. rewrite Hpw in Ei. cbn [Prelaunched bool_decide orb andb] in Ei.
  destruct (Z.eqb_spec (spawn_of id (view w)) 0) as [Hs|Hs]; cbn in Ei; destruct Ei as [-> Ew].
  - apply ret_Ok in E as [_ <-]. subst w1. destruct Hv as [->|[p Hv]]; [by split|]. rewrite Hv in *.
    split; [|done]. destruct Hl as [Hw Ho Ht Hi Hr Hf].
    rewrite spawn_of_set, decide_True in Hs by done. split; try done.
    + intros id' ts Hin. destruct (Hw _ _ Hin) as (Hph & ? & ? & ?). rewrite spawn_of_set.
      case_decide as E; [subst id'; congruence|done].
    + intros id' Hph. change (phase_in id' v0 = CONSUMER_PHASE_INITIALIZED) in Hph.
      rewrite spawn_of_set. case_decide as E; [subst id'; congruence|by apply Hi].
    + intros id' Hph. rewrite spawn_of_set. case_decide; [done|by apply Hr].
  - apply wrap_err_Ok, prepare_view in E as (v & Ev & Hv'). rewrite decide_True in Hv' by done. subst v.
    rewrite Ew in Ev. rewrite Ev. split.
    + apply launch_ok_enqueue; [|set_solver|done|done].
      pose proof (launch_ok_initialize [] id v0 Hl Hp) as Hi. destruct Hv as [->|[p ->]]; [done|].
      by apply (launch_ok_params [] id p) in Hi.
    + intros id'. change (rtc phase_edge (phase_in id' v0) (phase_in id' (set_phase id CONSUMER_PHASE_INITIALIZED (view w)))).
      rewrite phase_in_set. case_decide as E; [subst id'; rewrite Hp; apply rtc_once; constructor|].
      by destruct Hv as [->|[p ->]].
Qed.

Lemma schedule_initialized id prev c w u w' v0 :
  initializeAndSchedule id prev c w = (Ok u, w') → launch_ok [] v0 →
  phase_in id v0 = CONSUMER_PHASE_INITIALIZED → spawn_of id v0 = prev →
  (view w = v0 ∨ ∃ p, SpawnTime p ≠ 0 ∧ view w = set_params id p v0) →
  launch_ok [] (view w') ∧ ∀ id', rtc phase_edge (phase_in id' v0) (phase_in id' (view w')).
Proof.
  unfold initializeAndSchedule. intros (o & w1 & Ei & E)%bind_Ok Hl Hp Hs Hv.
  assert (prev ≠ 0) as Hnz.
  { destruct (lo_initialized _ _ Hl id Hp) as [?|Hin]; [set_solver|]. rewrite Hs in Hin.
    by apply (lo_waiting _ _ Hl) in Hin as (_ & _ & ? & _). }
  assert (GetConsumerPhase id w = CONSUMER_PHASE_INITIALIZED) as Hpw.
  { change (phase_in id (view w) = CONSUMER_PHASE_INITIALIZED). by destruct Hv as [->|(p & _ & ->)]. }
  assert (spawn_of id (view w) ≠ 0) as Hsw.
  { destruct Hv as [->|(p & Hpz & ->)]; [congruence|]. by rewrite spawn_of_set, decide_True. }
  apply initialize_view in Ei. rewrite Hpw, (proj2 (Z.eqb_neq _ 0) Hsw) in Ei. cbn in Ei. destruct Ei as [-> Ew].
  apply wrap_err_Ok, prepare_view in E as (v & Ev & Hv'). rewrite decide_False in Hv' by done.
  destruct Hv' as (l1 & l2 & El & Eq). rewrite Ew in El, Eq. clear Ew.
  assert (waiting prev v0 = l1 ++ id :: l2) as El0 by (rewrite <-El; by destruct Hv as [->|(p & _ & ->)]).
  assert (unqueue prev (l1 ++ l2) v0 (mkLaunchView (v_phases v0) (v_params v0) (v_queue v) (v_seq v0))) as Eq0.
  { eapply unqueue_veq; [exact Eq|]. by destruct Hv as [->|(p & _ & ->)]. }
  apply (launch_ok_unqueue _ _ _ _ _ _ _ Hl El0) in Eq0.
  destruct Eq as (Eph & Epa & Esq & _).
  assert (launch_ok [id] v) as Hl'.
  { destruct Hv as [Hv|(p & Hpz & Hv)].
    - eapply launch_ok_proper; [|exact Eq0]. rewrite Hv in *. split; try done.
      + intros id'. transitivity (phase_in id' (set_phase id CONSUMER_PHASE_INITIALIZED v0)).
        * rewrite phase_in_set. case_decide as E; [by rewrite E|done].
        * unfold phase_in. by rewrite Eph.
      + intros id'. unfold spawn_of. by rewrite Epa.
    - eapply launch_ok_proper; [|exact (launch_ok_params [] id p _ Eq0)]. rewrite Hv in *. split; try done.
      + intros id'. transitivity (phase_in id' (set_phase id CONSUMER_PHASE_INITIALIZED v0)).
        * rewrite phase_in_set. case_decide as E; [by rewrite E|done].
        * unfold phase_in. by rewrite Eph.
      + intros id'. unfold spawn_of. by rewrite Epa. }
  rewrite Ev. split.
  - apply launch_ok_enqueue; [done|set_solver| |done]. unfold spawn_of at 1. rewrite Epa. done.
  - intros id'. change (rtc phase_edge (phase_in id' v0) (phase_in id' v)). unfold phase_in at 2. rewrite Eph.
    fold (phase_in id' (set_phase id CONSUMER_PHASE_INITIALIZED (view w))).
    rewrite phase_in_set. case_decide as E; [subst id'; by rewrite Hp|].
    by destruct Hv as [->|(p & _ & ->)].
Qed.

(** Withdrawing: an initialized consumer whose new record has no spawn time. *)
Lemma schedule_withdrawn id prev l1 l2 v p c w u w' v0 :
  initializeAndSchedule id prev c w = (Ok u, w') → launch_ok [] v0 →
  phase_in id v0 = CONSUMER_PHASE_INITIALIZED → SpawnTime p = 0 →
  waiting prev v0 = l1 ++ id :: l2 → unqueue prev (l1 ++ l2) v0 v →
  view w = set_params id p (set_phase id CONSUMER_PHASE_REGISTERED v) →
  launch_ok [] (view w') ∧ ∀ id', rtc phase_edge (phase_in id' v0) (phase_in id' (view w')).
Proof.
  unfold initializeAndSchedule. intros (o & w1 & Ei & E)%bind_Ok Hl Hp Hz El Eq Hv.
  apply initialize_view in Ei. rewrite Hv, spawn_of_set, decide_True, Hz, andb_false_r in Ei by done.
  destruct Ei as [-> ->]. apply ret_Ok in E as [_ <-]. rewrite Hv.
  assert (launch_ok [id] (set_params id p v)) as Hl'.
  { apply launch_ok_params. by eapply launch_ok_unqueue. }
  split.
  - apply (launch_ok_release [] id CONSUMER_PHASE_REGISTERED) in Hl'; [exact Hl'|set_solver|done|done|].
    intros _. by rewrite spawn_of_set, decide_True.
  - intros id'. change (rtc phase_edge (phase_in id' v0) (phase_in id' (set_phase id CONSUMER_PHASE_REGISTERED v))).
    rewrite phase_in_set. destruct Eq as (Eph & _). case_decide as E.
    + subst id'. rewrite Hp. apply rtc_once. constructor.
    + unfold phase_in. by rewrite Eph.
Qed.

Lemma phased_trans w0 v v' :
  phased w0 v → (∀ id, rtc phase_edge (phase_in id v) (phase_in id v')) → phased w0 v'.
Proof. intros H1 H2 id. etrans; [apply H1|apply H2]. Qed.

Ltac quiet E a w1 Ea Hv := apply quiet_bind in E as (a & w1 & Ea & E & Hv); [|pres].

Lemma update_course w0 msg : ok_preserves (on_course w0 []) (UpdateConsumer msg).
Proof.
  intros c w u w' E [Hl Hph]. unfold UpdateConsumer in E. cbv zeta in E. set (id := muc_ConsumerId msg) in *.
  apply bind_Ok in E as (phase & w1 & [<- <-]%gets_Ok & E). apply bind_Ok in E as (u1 & w1 & [Hup <-]%guard_err_Ok & E).
  quiet E owner w1 E1 V1. quiet E u2 w2 E2 V2. quiet E u3 w3 E3 V3. quiet E chain w4 E4 V4. quiet E phase w5 E5 V5.
  apply gets_Ok in E5 as [<- <-].
  quiet E u6 w6 E6 V6. quiet E u7 w7 E7 V7. quiet E u8 w8 E8 V8. quiet E u9 w9 E9 V9. quiet E ip w10 E10 V10.
  apply bind_Ok in E as (u11 & w11 & E11 & E). quiet E ow w12 E12 V12.
  assert (view w10 = view w) as V by congruence. clear V1 V2 V3 V4 V5 V6 V7 V8 V9 V10 E1 E2 E3 E4 E7 E8.
  assert (spawn_of id (view w10) = SpawnTime ip) as Hprev.
  { apply bind_Ok in E10 as (o & w10' & [<- <-]%gets_Ok & [Eo <-]%of_option_Ok). unfold spawn_of. cbn.
    unfold GetConsumerInitializationParameters in Eo. by rewrite Eo. }
  rewrite V in Hprev. apply update_params_view in E11.
  assert (GetConsumerPhase id w10 = phase_in id (view w)) as Hphase by (by rewrite <-V).
  enough (launch_ok [] (view w') ∧ ∀ id', rtc phase_edge (phase_in id' (view w)) (phase_in id' (view w'))) as [Hl' Hp'].
  { split; [done|]. by eapply phased_trans. }
  rewrite Hphase, V in E11. change (GetConsumerPhase id w) with (phase_in id (view w)) in Hup.
  destruct (phase_in id (view w)) eqn:Hp; try done.
  - (* registered *)
    assert (SpawnTime ip = 0) as Hz by (rewrite <-Hprev; by apply (lo_registered _ _ Hl)).
    rewrite Hz in E. eapply schedule_registered; [exact E|done..|]. rewrite V12.
    destruct (muc_InitializationParameters msg) as [p|]; [|left; congruence].
    destruct E11 as [_ E11]. rewrite andb_false_r in E11. right. by eexists.
  - (* initialized *)
    destruct (muc_InitializationParameters msg) as [p|].
    + destruct E11 as [_ E11]. rewrite bool_decide_true, andb_true_r in E11 by done.
      destruct (Z.eqb_spec (SpawnTime (im_Params p)) 0) as [Hz|Hz].
      * destruct E11 as (l1 & l2 & v & El & Eq & Ev). eapply schedule_withdrawn; try done. congruence.
      * eapply schedule_initialized; [exact E|done..|]. right. exists (im_Params p). split; [done|congruence].
    + eapply schedule_initialized; [exact E|done..|]. left. congruence.
  - (* launched *)
    destruct (muc_InitializationParameters msg) as [p|]; [by destruct E11|].
    unfold initializeAndSchedule in E. apply bind_Ok in E as (o & w13 & Ei%initialize_view & E).
    change (GetConsumerPhase id w12) with (phase_in id (view w12)) in Ei.
    rewrite V12, E11, V, Hp in Ei. cbn in Ei. destruct Ei as [-> ->]. apply ret_Ok in E as [_ <-].
    rewrite V12, E11, V. split; [done|]. by intros id'.
Qed.

Lemma launch_ok_fresh id p v :
  launch_ok [] v → id = v_seq v → (v_seq v + 1 < 2 ^ 64)%N →
  launch_ok [id] (mkLaunchView (<[id := CONSUMER_PHASE_INITIALIZED]> (v_phases v)) (<[id := p]> (v_params v)) (v_queue v)
                    (u64_succ (v_seq v))).
Proof.
  intros [Hw Ho Ht Hi Hr Hf] -> Hs. set (id := v_seq v).
  assert (u64_succ (v_seq v) = v_seq v + 1)%N as Hsucc by (unfold u64_succ; by rewrite N.mod_small).
  assert (phase_in id v = CONSUMER_PHASE_UNSPECIFIED) as Hp by (apply Hf; unfold id; lia).
  set (v' := mkLaunchView _ _ _ _).
  assert (∀ id', phase_in id' v' = if decide (id' = id) then CONSUMER_PHASE_INITIALIZED else phase_in id' v) as P by apply (phase_in_set id _ v).
  assert (∀ id', spawn_of id' v' = if decide (id' = id) then SpawnTime p else spawn_of id' v) as S by apply (spawn_of_set id p v).
  split; try done.
  - intros id' ts Hin. destruct (Hw _ _ Hin) as (E1 & E2 & E3 & _). assert (id' ≠ id) by congruence.
    rewrite P, S, !decide_False by done. set_solver.
  - intros id' ->%list_elem_of_singleton. by rewrite P, decide_True.
  - intros id'. rewrite P, S. case_decide; [left; set_solver|]. intros [?|?]%Hi; [set_solver|by right].
  - intros id'. rewrite P, S. case_decide; [done|apply Hr].
  - intros id' Hge. change (u64_succ (v_seq v) ≤ id')%N in Hge. rewrite Hsucc in Hge. rewrite P, decide_False by (unfold id; lia). apply Hf. lia.
Qed.

Lemma create_course w0 msg c w id w' :
  CreateConsumer msg c w = (Ok id, w') → (s_ConsumerIdSeq w + 1 < 2 ^ 64)%N →
  on_course w0 [] w → on_course w0 [] w'.
Proof.
  intros E Hseq [Hl Hph]. unfold CreateConsumer in E.
  set (id0 := s_ConsumerIdSeq w).
  assert (phase_in id0 (view w) = CONSUMER_PHASE_UNSPECIFIED) as Hfresh by (by apply (lo_fresh _ _ Hl)).
  apply bind_Ok in E as (i & w1 & E1 & E). unfold FetchAndIncrementConsumerId in E1.
  apply bind_Ok in E1 as (s0 & w1' & [<- <-]%gets_Ok & E1). apply bind_Ok in E1 as (u1 & w1'' & E1' & [<- <-]%ret_Ok).
  rewrite modify_Ok in E1'. subst w1''. fold id0 in E.
  quiet E u2 w2 E2 V2. quiet E u3 w3 E3 V3. quiet E u4 w4 E4 V4. apply bind_Ok in E as (u5 & w5 & E5 & E).
  unfold SetConsumerPhase in E5. rewrite modify_Ok in E5. subst w5. quiet E u6 w6 E6 V6. cbv zeta in E.
  set (p := match mcc_InitializationParameters msg with Some p => im_Params p | None => _ end) in *.
  quiet E u7 w7 E7 V7. apply bind_Ok in E as (u8 & w8 & E8%wrap_err_Ok%set_init_params_view & E).
  apply bind_Ok in E as (u9 & w9 & E9 & E). quiet E u10 w10 E10 V10. apply ret_Ok in E as [_ <-].
  set (v1 := mkLaunchView (v_phases (view w)) (<[id0 := p]> (v_params (view w))) (v_queue (view w)) (u64_succ (v_seq (view w)))).
  assert (view w8 = set_phase id0 CONSUMER_PHASE_REGISTERED v1) as V8.
  { rewrite E8, V7, V6. transitivity (set_params id0 p (set_phase id0 CONSUMER_PHASE_REGISTERED (view w4))); [done|].
    rewrite V4, V3, V2. done. }
  unfold on_course. rewrite V10. clear V10 E10 V2 V3 V4 V6 V7 E8 E2 E3 E4 E6 E7 w2 w3 w4 w6 w7.
  assert (launch_ok [id0] (set_phase id0 CONSUMER_PHASE_INITIALIZED v1)) as Hfr by exact (launch_ok_fresh id0 p (view w) Hl eq_refl Hseq).
  assert (spawn_of id0 (view w8) = SpawnTime p) as Hsp.
  { rewrite V8. unfold spawn_of; cbn. by rewrite lookup_insert_eq. }
  unfold initializeAndSchedule in E9. apply bind_Ok in E9 as (o & w11 & Ei%initialize_view & E9).
  change (GetConsumerPhase id0 w8) with (phase_in id0 (view w8)) in Ei.
  rewrite Hsp, V8, phase_in_set, decide_True in Ei by done. cbn [Prelaunched bool_decide orb andb] in Ei.
  assert (∀ p', p' = CONSUMER_PHASE_REGISTERED ∨ p' = CONSUMER_PHASE_INITIALIZED →
    phased w0 (set_phase id0 p' v1)) as Hphased.
  { intros p' Hp'. eapply phased_trans; [exact Hph|]. intros id'. rewrite phase_in_set. case_decide as E; [|done].
    subst id'. rewrite Hfresh. destruct Hp' as [-> | ->]; [apply rtc_once; constructor|].
    eapply rtc_l; [constructor|apply rtc_once; constructor]. }
  destruct (Z.eqb_spec (SpawnTime p) 0) as [Hz|Hz]; cbn in Ei; destruct Ei as [-> Ew].
  - apply ret_Ok in E9 as [_ <-]. subst w11. rewrite V8. split; [|apply Hphased; by left].
    apply (launch_ok_release [] id0 CONSUMER_PHASE_REGISTERED) in Hfr; [|set_solver|done|done|].
    + eapply launch_ok_proper; [|exact Hfr]. split; try done. intros id'. rewrite !phase_in_set. by repeat case_decide.
    + intros _. unfold spawn_of; cbn. by rewrite lookup_insert_eq.
  - apply wrap_err_Ok, prepare_view in E9 as (v & Ev & Hv). rewrite decide_True in Hv by done. subst v.
    assert (veq (set_phase id0 CONSUMER_PHASE_INITIALIZED v1) (view w11)) as Hveq.
    { rewrite Ew. split; try done. intros id'. rewrite !phase_in_set. by repeat case_decide. }
    rewrite Ev. split.
    + apply launch_ok_enqueue; [by rewrite <-Hveq|set_solver| |done]. rewrite <-(veq_spawn _ _ Hveq).
      unfold spawn_of; cbn. by rewrite lookup_insert_eq.
    + intros id'. change (rtc phase_edge (GetConsumerPhase id' w0) (phase_in id' (view w11))).
      rewrite <-(veq_phase _ _ Hveq). apply Hphased. by right.
Qed.

Lemma delete_course w0 id : ok_preserves (on_course w0 []) (DeleteConsumerChain id).
Proof.
  intros c w [] w' E [Hl Hph].
  destruct (deletable (GetConsumerPhase id w)) eqn:Hd.
  2: { unfold DeleteConsumerChain in E. apply bind_Ok in E as (ph & w1 & [<- <-]%gets_Ok & E). cbv zeta in E.
       apply bind_Ok in E as (u & w1 & [Hg _]%guard_err_Ok & _).
       fold (deletable (GetConsumerPhase id w)) in Hg. congruence. }
  rewrite DeleteConsumerChain_run in E by done. apply bind_Ok in E as (u & w1 & E1 & E).
  quiet E u2 w2 E2 V2. quiet E u3 w3 E3 V3. unfold SetConsumerPhase in E. rewrite modify_Ok in E. subst w'.
  change (view (upd_ConsumerPhases _ w3)) with (set_phase id CONSUMER_PHASE_DELETED (view w3)).
  unfold unscheduled in E1. apply bind_Ok in E1 as (ph & w1' & [<- <-]%gets_Ok & E1).
  unfold on_course. change (view (upd_ConsumerPhases (insert id CONSUMER_PHASE_DELETED) w3))
    with (set_phase id CONSUMER_PHASE_DELETED (view w3)). rewrite V3, V2.
  case_bool_decide as Hi; cbn [when] in E1.
  - apply bind_Ok in E1 as (ip & w1' & Eip & E1%wrap_err_Ok%remove_view).
    apply bind_Ok in Eip as (o & w1'' & [<- <-]%gets_Ok & [_ <-]%of_option_Ok).
    destruct E1 as (l1 & l2 & El & Eq). pose proof (launch_ok_unqueue _ _ _ _ _ _ _ Hl El Eq) as Hl1. split.
    + by apply launch_ok_release; [|set_solver|..].
    + eapply phased_trans; [exact Hph|]. intros id'. rewrite phase_in_set. destruct Eq as (Eph & _).
      case_decide as E; [subst id'|unfold phase_in; by rewrite Eph].
      change (phase_in id (view w)) with (GetConsumerPhase id w). apply rtc_once. by constructor.
  - apply ret_Ok in E1 as [_ <-]. split; [|by apply phased_set; [|constructor]].
    destruct (GetConsumerPhase id w) eqn:Hp; try done.
    + (* a registered consumer is in no bucket *)
      destruct Hl as [Hw Ho Ht Hi' Hr Hf]. change (phase_in id (view w) = CONSUMER_PHASE_REGISTERED) in Hp.
      split; try done.
      * intros id' ts Hin. destruct (Hw _ _ Hin) as (? & ? & ? & ?).
        rewrite phase_in_set, decide_False by (intros ->; congruence). by split_and!.
      * by intros id' ?%elem_of_nil.
      * intros id'. rewrite phase_in_set. case_decide; [done|apply Hi'].
      * intros id'. rewrite phase_in_set. case_decide; [done|apply Hr].
      * intros id' Hs. rewrite phase_in_set. case_decide as E; [|by apply Hf]. subst id'. rewrite Hf in Hp by done. done.
    + apply launch_ok_set; [done| |done]. change (phase_in id (view w)) with (GetConsumerPhase id w). by rewrite Hp.
Qed.

(** *** The launch sweep *)
Lemma concat_NoDup {A B} (l : list (A * list B)) :
  NoDup l → (∀ e, e ∈ l → NoDup e.2) →
  (∀ e e' x, e ∈ l → e' ∈ l → x ∈ e.2 → x ∈ e'.2 → e = e') → NoDup (concat l.*2).
Proof.
  induction l as [|e l IH]; intros Hnd Hin Hdis; cbn; [constructor|].
  apply NoDup_cons in Hnd as [Hne Hnd]. apply NoDup_app. split_and!.
  - apply Hin. by left.
  - intros x Hx Hx'. apply list_elem_of_In, in_concat in Hx' as (b & Hb & Hxb).
    apply list_elem_of_In in Hb, Hxb. apply list_elem_of_fmap in Hb as (e' & -> & He').
    destruct Hne. rewrite (Hdis e e' x); [done|by left|by right|done..].
  - apply IH; [done| |].
    + intros e' He'. apply Hin. by right.
    + intros e1 e2 x H1 H2. apply Hdis; by right.
Qed.

Lemma elem_of_due_ids now (q : gmap Time (list N)) id :
  id ∈ due_ids now q ↔ ∃ ts, ts ≤ now ∧ id ∈ default [] (q !! ts).
Proof.
  unfold due_ids. rewrite list_elem_of_In, in_concat. split.
  - intros (b & Hb & Hid). apply list_elem_of_In in Hb, Hid. apply list_elem_of_fmap in Hb as ([ts b'] & -> & Hin).
    apply list_elem_of_filter in Hin as [Hle Hin%elem_of_iterate]. exists ts. by rewrite Hin.
  - intros (ts & Hle & Hid). destruct (q !! ts) as [b|] eqn:E; [|by apply elem_of_nil in Hid].
    exists b. split; apply list_elem_of_In; [|done]. apply list_elem_of_fmap. exists (ts, b). split; [done|].
    apply list_elem_of_filter. split; [done|]. by apply elem_of_iterate.
Qed.

Lemma restore_loop_frame l next w : preserves (others_of_queue w) (restore_loop (Q := SpawnQueue) l next).
Proof. induction l as [|ts l IH]; cbn [restore_loop]; pres. Qed.
#[local] Hint Resolve restore_loop_frame : vaas.

(** No consumer is due twice: a waiting consumer stands in the slot of its own spawn time. *)
Lemma due_ids_NoDup now q :
  (∀ ts, NoDup (default [] (q !! ts))) →
  (∀ id ts ts', id ∈ default [] (q !! ts) → id ∈ default [] (q !! ts') → ts = ts') →
  NoDup (due_ids now q).
Proof.
  intros Ho Hw. apply concat_NoDup.
  - apply NoDup_filter. apply (NoDup_fmap_1 fst), NoDup_fst_iterate.
  - intros [ts b] [_ Hb%elem_of_iterate]%list_elem_of_filter. specialize (Ho ts). by rewrite Hb in Ho.
  - intros [ts b] [ts' b'] x [_ Hb%elem_of_iterate]%list_elem_of_filter [_ Hb'%elem_of_iterate]%list_elem_of_filter Hx Hx'.
    cbn in Hx, Hx'. assert (ts = ts') as -> by (apply (Hw x); by rewrite ?Hb, ?Hb'). congruence.
Qed.

Lemma consume_course limit c w ids w' :
  ConsumeIdsFromTimeQueue (Q := SpawnQueue) limit c w = (Ok ids, w') → launch_ok [] (view w) →
  launch_ok ids (view w') ∧ NoDup ids ∧ ∀ id, phase_in id (view w') = phase_in id (view w).
Proof.
  intros E Hl. destruct (ConsumeIds_run (Q := SpawnQueue) limit c w) as (w1 & E1 & Hdue & Hlater & Hsuf).
  rewrite E in E1. injection E1 as -> <-. cbn [tq_get SpawnQueue] in Hdue, Hlater.
  assert (others_of_queue w w') as (Eph & Epa & Esq).
  { assert (preserves (others_of_queue w) (ConsumeIdsFromTimeQueue (Q := SpawnQueue) limit)) as P.
    { unfold ConsumeIdsFromTimeQueue. pres. }
    apply (preserves_run _ _ _ _ _ _ P) in E; [done|by repeat split]. }
  assert (∀ id, phase_in id (view w') = phase_in id (view w)) as P by (intros; unfold phase_in; cbn; by rewrite Eph).
  assert (∀ id, spawn_of id (view w') = spawn_of id (view w)) as S by (intros; unfold spawn_of; cbn; by rewrite Epa).
  assert (∀ id ts, id ∈ waiting ts (view w') → id ∈ waiting ts (view w)) as Hsub.
  { intros id ts Hin. destruct (Hsuf ts) as [n Hn]. change (id ∈ getIds (Q := SpawnQueue) ts w') in Hin.
    rewrite Hn in Hin. eapply elem_of_sublist; [exact Hin|apply sublist_drop]. }
  destruct Hl as [Hw Ho Ht Hi Hr Hf]. set (due := due_ids (BlockTime c) (s_SpawnTimeToConsumerIds w)) in *.
  assert (NoDup due) as Hnd.
  { apply due_ids_NoDup; [exact Ho|]. intros id ts ts' Hin Hin'.
    destruct (Hw id ts Hin) as (_ & E1 & _), (Hw id ts' Hin') as (_ & E2 & _). congruence. }
  assert (due = take limit due ++ drop limit due) as Hsplit by (by rewrite take_drop).
  rewrite Hsplit in Hnd. apply NoDup_app in Hnd as (Hnd1 & Hdis & _).
  assert (∀ id, id ∈ take limit due → ∃ ts, ts ≤ BlockTime c ∧ id ∈ waiting ts (view w)) as Htaken.
  { intros id Hin. apply elem_of_due_ids. change (id ∈ due). rewrite Hsplit. set_solver. }
  assert (∀ id ts, id ∈ waiting ts (view w') → id ∉ take limit due) as Hout.
  { intros id ts Hin Hid. destruct (Z.le_gt_cases ts (BlockTime c)) as [Hle|Hgt].
    - apply (Hdis id Hid). rewrite <-Hdue. apply elem_of_due_ids. by exists ts.
    - destruct (Htaken _ Hid) as (ts' & Hle & Hin'). apply Hsub in Hin.
      destruct (Hw _ _ Hin) as (_ & E1 & _), (Hw _ _ Hin') as (_ & E2 & _). lia. }
  split; [|by split]. split.
  - intros id ts Hin. rewrite P, S. destruct (Hw _ _ (Hsub _ _ Hin)) as (? & ? & ? & _). split_and!; try done. by eapply Hout.
  - intros ts. destruct (Hsuf ts) as [n Hn]. change (NoDup (getIds (Q := SpawnQueue) ts w')). rewrite Hn.
    eapply sublist_NoDup; [apply Ho|apply sublist_drop].
  - intros id (ts & _ & Hin)%Htaken. rewrite P. by eapply Hw.
  - intros id. rewrite P, S. intros Hp. destruct (Hi id Hp) as [?|Hin]; [set_solver|].
    destruct (Z.le_gt_cases (spawn_of id (view w)) (BlockTime c)) as [Hle|Hgt].
    + assert (id ∈ due) as Hd by (apply elem_of_due_ids; by exists (spawn_of id (view w))).
      rewrite Hsplit, elem_of_app, <-Hdue in Hd. destruct Hd as [Hd|Hd]; [by left|right].
      apply elem_of_due_ids in Hd as (ts & _ & Hin').
      destruct (Hw _ _ (Hsub id ts Hin')) as (_ & E1 & _). by rewrite E1.
    + right. unfold waiting. cbn. rewrite Hlater by done. exact Hin.
  - intros id. rewrite P, S. apply Hr.
  - intros id. rewrite P. cbn. rewrite Esq. apply Hf.
Qed.

Lemma launch_view vals id c w u w' :
  LaunchConsumer vals id c w = (Ok u, w') → view w' = set_phase id CONSUMER_PHASE_LAUNCHED (view w).
Proof.
  intros E. unfold LaunchConsumer in E. quiet E a1 w1 E1 V1. quiet E a2 w2 E2 V2. quiet E a3 w3 E3 V3. quiet E a4 w4 E4 V4.
  quiet E a5 w5 E5 V5. quiet E a6 w6 E6 V6. apply bind_Ok in E as (u7 & w7 & E7 & E).
  unfold SetConsumerPhase in E7. rewrite modify_Ok in E7. subst w7.
  refine (preserves_run (viewed _) _ _ _ _ _ _ _ E); [pres|]. unfold viewed.
  change (view (upd_ConsumerPhases _ w6)) with (set_phase id CONSUMER_PHASE_LAUNCHED (view w6)). congruence.
Qed.

Lemma launch_one_course w0 vals id rest c w u w' :
  launch_one vals id c w = (Ok u, w') → id ∉ rest → on_course w0 (id :: rest) w → on_course w0 rest w'.
Proof.
  intros E Hn [Hl Hph]. unfold launch_one in E. apply bind_Ok in E as (r & w1 & E1 & E).
  assert (phase_in id (view w) = CONSUMER_PHASE_INITIALIZED) as Hp by (apply (lo_taken _ _ Hl); set_solver).
  unfold try, cached in E1. destruct (LaunchConsumer vals id c w) as [[x|e|] w2] eqn:El; try done.
  - injection E1 as <- <-. apply ret_Ok in E as [_ <-]. apply launch_view in El. unfold on_course. rewrite El. split.
    + by apply launch_ok_release.
    + apply phased_set; [done|]. rewrite Hp. constructor.
  - injection E1 as <- <-. quiet E ip w3 E3 V3. apply bind_Ok in E as (u4 & w4 & E4%set_init_params_view & E5).
    unfold SetConsumerPhase in E5. rewrite modify_Ok in E5. subst w'. unfold on_course.
    change (view (upd_ConsumerPhases _ w4)) with (set_phase id CONSUMER_PHASE_REGISTERED (view w4)). rewrite E4, V3. split.
    + apply launch_ok_release; [by apply launch_ok_params|done..|]. intros _. by rewrite spawn_of_set, decide_True.
    + apply phased_set; [exact Hph|].
      change (phase_in id (set_params id _ (view w))) with (phase_in id (view w)). rewrite Hp. constructor.
Qed.

Lemma begin_launch_course w0 : ok_preserves (on_course w0 []) BeginBlockLaunchConsumers.
Proof.
  intros c w [] w' E [Hl Hph]. unfold BeginBlockLaunchConsumers in E.
  apply bind_Ok in E as (ids & w1 & E1 & E). apply consume_course in E1 as (Hl1 & Hnd & Hp1); [|done].
  quiet E vals w2 E2 V2.
  assert (on_course w0 ids w2) as H2.
  { unfold on_course. rewrite V2. split; [done|]. intros id. rewrite Hp1. apply Hph. }
  enough (∀ rest, ids = ids ++ rest → on_course w0 rest w') as H by (apply (H []); by rewrite app_nil_r).
  refine (for_each_Ok_ind (λ dn v, ∀ rest, ids = dn ++ rest → on_course w0 rest v) _ _ _ _ _ _ _ _ E).
  - by intros rest ->.
  - intros dn id rest v v' Hids Hv Ev rest' Hrest'. rewrite <-app_assoc in Hrest'. cbn in Hrest'.
    assert (rest' = rest) as -> by (rewrite Hids in Hrest'; by simplify_list_eq).
    eapply launch_one_course; [exact Ev| |by apply Hv].
    rewrite Hids, NoDup_app, NoDup_cons in Hnd. naive_solver.
Qed.

(** *** The other sweeps and the handlers *)
Lemma consume_frame (P : World → Prop) (Q : TimeQueue) limit :
  (∀ f w, P w → P (tq_upd f w)) → preserves P (ConsumeIdsFromTimeQueue (Q := Q) limit).
Proof.
  intros HP. assert (∀ l next, preserves P (restore_loop (Q := Q) l next)) as Hr.
  { induction l as [|ts l IH]; intros next; cbn [restore_loop]; [apply preserves_ret|].
    apply preserves_bind; [apply preserves_modify; intros; by apply HP|intros _].
    apply preserves_bind; [|intros _; apply IH]. apply preserves_when, preserves_for_each. intros id. unfold appendId.
    apply preserves_bind; [apply preserves_gets|intros ids]. apply preserves_modify. intros; by apply HP. }
  unfold ConsumeIdsFromTimeQueue. apply preserves_bind; [apply preserves_asks|intros now].
  apply preserves_bind; [apply preserves_gets|intros q]. destruct (consume_loop _ _ _ _) as [[r n] l].
  apply preserves_bind; [apply Hr|intros _; apply preserves_ret].
Qed.
Lemma consume_removal_frame w0 taken limit :
  preserves (on_course w0 taken) (ConsumeIdsFromTimeQueue (Q := RemovalQueue) limit).
Proof. apply consume_frame. intros f w H. exact H. Qed.
Lemma consume_pause_frame w0 taken limit :
  preserves (on_course w0 taken) (ConsumeIdsFromTimeQueue (Q := PauseQueue) limit).
Proof. apply consume_frame. intros f w H. exact H. Qed.

#[local] Hint Resolve begin_launch_course delete_course resume_course update_course consume_removal_frame
  consume_pause_frame : vaas.

Lemma begin_remove_course w0 : ok_preserves (on_course w0 []) BeginBlockRemoveConsumers.
Proof. okp. Qed.

Lemma frozen_course w0 : ok_preserves (on_course w0 []) PauseConsumersWithFrozenClients.
Proof.
  unfold PauseConsumersWithFrozenClients. apply ok_bind; [apply ok_pres; pres|intros ids].
  apply ok_for_each. intros id. apply ok_bind; [apply ok_pres; pres|intros o].
  destruct o as [client|]; [|apply ok_pres; pres]. apply ok_bind; [apply ok_pres; pres|intros st]. apply ok_when.
  apply ok_bind; [apply ok_try, pause_course|intros _; apply ok_pres; pres].
Qed.

(** A cached stop of a consumer that is launched or paused. *)
Lemma try_stop_course w0 id c w r w' :
  try (cached (StopAndPrepareForConsumerRemoval id)) c w = (Ok r, w') → locked (GetConsumerPhase id w) = true →
  on_course w0 [] w → on_course w0 [] w' ∧ ∀ id', id' ≠ id → GetConsumerPhase id' w' = GetConsumerPhase id' w.
Proof.
  intros E Hp Hw. unfold try, cached in E. destruct (StopAndPrepareForConsumerRemoval id c w) as [[x|e|] w1] eqn:Es;
    [|by injection E as _ <-|done].
  injection E as _ <-. split; [by eapply stop_course|]. intros id' Hne. apply stop_view in Es.
  change (phase_in id' (view w1) = phase_in id' (view w)). by rewrite Es, phase_in_set, decide_False.
Qed.

Lemma auto_stop_course w0 : ok_preserves (on_course w0 []) BeginBlockAutoStopPausedConsumers.
Proof.
  unfold BeginBlockAutoStopPausedConsumers. apply ok_bind; [apply ok_pres, consume_pause_frame|intros ids].
  apply ok_for_each. intros id c w u w' (phase & w1 & [<- <-]%gets_Ok & E)%bind_Ok Hw.
  case_bool_decide as Hp; cbn [when] in E; [|by apply ret_Ok in E as [_ <-]].
  apply bind_Ok in E as (r & w1 & E & [_ <-]%ret_Ok). eapply try_stop_course; [exact E|by rewrite Hp|done].
Qed.

Lemma GetAllLaunched_phase id w :
  id ∈ GetAllLaunchedConsumerIds w → GetConsumerPhase id w = CONSUMER_PHASE_LAUNCHED.
Proof. unfold GetAllLaunchedConsumerIds. by intros [? _]%list_elem_of_filter. Qed.

Lemma unresponsive_course w0 : ok_preserves (on_course w0 []) SweepUnresponsiveConsumers.
Proof.
  intros c w u w' E Hw. unfold SweepUnresponsiveConsumers in E.
  apply bind_Ok in E as (grace & w1 & Eg & E).
  assert (w1 = w) as ->.
  { refine (preserves_run (λ v, v = w) _ _ _ _ _ _ _ Eg); [pres|done]. }
  apply bind_Ok in E as (ids & w1 & [<- <-]%gets_Ok & E).
  apply (for_each_Ok_ind (λ dn v, on_course w0 [] v ∧ ∀ id, id ∉ dn →
    id ∈ GetAllLaunchedConsumerIds w → GetConsumerPhase id v = CONSUMER_PHASE_LAUNCHED)) in E.
  - by destruct E.
  - split; [done|]. intros id _. apply GetAllLaunched_phase.
  - intros dn id rest v v' Hids [Hv Hph] Ev.
    assert (id ∉ dn) as Hnd.
    { pose proof (launched_NoDup w) as N. rewrite Hids in N. apply NoDup_app in N as (_ & N & _).
      intros Hin. apply (N id Hin). by left. }
    assert (id ∈ GetAllLaunchedConsumerIds w) as Hin by (rewrite Hids; set_solver).
    apply bind_Ok in Ev as (la & v1 & E1 & Ev).
    assert (v1 = v) as ->.
    { refine (preserves_run (λ x, x = v) _ _ _ _ _ _ _ E1); [pres|done]. }
    apply bind_Ok in Ev as (now & v1 & [<- <-]%asks_Ok & Ev). destruct (_ <=? grace).
    + apply ret_Ok in Ev as [_ <-]. split; [done|]. intros id' Hn. apply Hph. set_solver.
    + apply bind_Ok in Ev as (r & v1 & Ev & [_ <-]%ret_Ok).
      apply (try_stop_course w0) in Ev as [Hv' Hoth]; [|by rewrite Hph|done]. split; [done|].
      intros id' Hn Hin'. rewrite Hoth by set_solver. apply Hph; set_solver.
Qed.

#[local] Hint Resolve begin_remove_course frozen_course auto_stop_course unresponsive_course : vaas.

Lemma begin_block_course w0 : ok_preserves (on_course w0 []) BeginBlock.
Proof. unfold BeginBlock. okp. Qed.

Lemma remove_course w0 msg : ok_preserves (on_course w0 []) (RemoveConsumer msg).
Proof.
  intros c w u w' E Hw. unfold RemoveConsumer in E. cbv zeta in E.
  apply bind_Ok in E as (ex & w1 & [<- <-]%gets_Ok & E). apply bind_Ok in E as (u1 & w1 & [_ <-]%guard_err_Ok & E).
  apply bind_Ok in E as (ch & w1 & E1 & E).
  assert (w1 = w) as ->.
  { refine (preserves_run (λ v, v = w) _ _ _ _ _ _ _ E1); [pres|done]. }
  apply bind_Ok in E as (ph & w1 & [<- <-]%gets_Ok & E). destruct (Prelaunched _).
  - apply bind_Ok in E as (u2 & w2 & E2 & E).
    assert (w2 = w) as ->.
    { refine (preserves_run (λ v, v = w) _ _ _ _ _ _ _ E2); [pres|done]. }
    by eapply delete_course.
  - destruct (_ || _) eqn:Hl; [|done]. apply bind_Ok in E as (u2 & w2 & [_ <-]%guard_err_Ok & E).
    by eapply stop_course.
Qed.

Lemma challenge_course w0 msg : ok_preserves (on_course w0 []) (HandleChallengeConsumerDowntime msg).
Proof.
  intros c w u w' E Hw. apply HandleChallengeConsumerDowntime_run in E as [[_ ?]|[_ E]]; [done|].
  by eapply (pause_course w0).
Qed.

Lemma contain_course w0 id reason : ok_preserves (on_course w0 []) (PauseConsumerChain id reason).
Proof. intros c w u w' E. by eapply (pause_course w0). Qed.

(** *** Every step *)
Definition seq_room (w : World) : Prop := (s_ConsumerIdSeq w + 1 < 2 ^ 64)%N.

#[local] Hint Resolve begin_block_course remove_course challenge_course contain_course : vaas.

Lemma handle_course w0 msg c w u w' :
  handle msg c w = (Ok u, w') → seq_room w → on_course w0 [] w → on_course w0 [] w'.
Proof.
  intros E Hs Hw. destruct msg; cbn [handle] in E.
  4: { apply bind_Ok in E as (x & w1 & E & [_ <-]%ret_Ok). by eapply create_course. }
  all: revert E Hw; clear Hs; revert c w u w';
    match goal with |- ∀ c w u w', ?m c w = _ → _ => change (ok_preserves (on_course w0 []) m) end; okp.
Qed.

(** What a step runs keeps [P] when it keeps it on success. *)
Lemma commit_keeps (P : World → Prop) {A} (m : K A) c w :
  (∀ a w', m c w = (Ok a, w') → P w → P w') → P w → P (commit m c w).
Proof. intros H HP. unfold commit. destruct (m c w) as [[a|e|] w'] eqn:E; [by eapply H|done..]. Qed.
Lemma commit_recv_keeps (P : World → Prop) (m : K bool) c w :
  ok_preserves P m → P w → P (commit_recv m c w).
Proof. intros H HP. unfold commit_recv. destruct (m c w) as [[[]|e|] w'] eqn:E; [by eapply H|done..]. Qed.

(** A chain that never runs out of consumer ids. *)
Definition id_step (w w' : World) : Prop := step w w' ∧ seq_room w.

Lemma step_course w0 w w' : id_step w w' → on_course w0 [] w → on_course w0 [] w'.
Proof.
  intros [Hs Hroom] Hw. destruct Hs.
  - apply commit_keeps; [|done]. intros a w' E. by eapply handle_course.
  - apply commit_recv_keeps; [|done]. okp.
  - apply commit_keeps; [|done]. intros a w'. eapply (ok_pres (on_course w0 []) (OnAcknowledgementPacket client err payload)). pres.
  - apply commit_keeps; [|done]. intros a w'. eapply (ok_pres (on_course w0 []) (OnTimeoutPacket client)). pres.
  - apply commit_keeps; [|done]. intros a w'. eapply (ok_pres (on_course w0 []) (AfterValidatorCreated val)). pres.
  - apply commit_keeps; [|done]. intros a w'. eapply (ok_pres (on_course w0 []) (AfterValidatorRemoved cons)). pres.
  - apply commit_keeps; [|done]. intros a w'. eapply (ok_pres (on_course w0 []) (AfterConsensusPubKeyUpdate old new)). pres.
  - apply commit_keeps; [|done]. intros a w'. by eapply begin_block_course.
  - apply commit_keeps; [|done]. intros a w'. eapply (ok_pres (on_course w0 []) EndBlock). pres.
  - exact Hw.
Qed.

(** The launch queue holds exactly the initialized consumers. *)
Lemma launch_ok_queue w id ts :
  launch_ok [] (view w) →
  id ∈ GetConsumersToBeLaunched ts w ↔
  GetConsumerPhase id w = CONSUMER_PHASE_INITIALIZED ∧ spawn_of id (view w) = ts.
Proof.
  intros [Hw _ _ Hi _ _]. change (GetConsumersToBeLaunched ts w) with (waiting ts (view w)). split.
  - intros Hin. destruct (Hw id ts Hin) as (? & ? & _). by split.
  - intros [Hp <-]. by destruct (Hi id Hp) as [?%elem_of_nil|].
Qed.

Lemma final_phase p q : rtc phase_edge p q →
  (p = CONSUMER_PHASE_DELETED → q = CONSUMER_PHASE_DELETED) ∧
  (p = CONSUMER_PHASE_STOPPED → q = CONSUMER_PHASE_STOPPED ∨ q = CONSUMER_PHASE_DELETED).
Proof.
  induction 1 as [p|p q r He _ [IH1 IH2]]; [by split; [|left]|].
  split; intros ->; inversion He; subst; try done; right; by apply IH1.
Qed.

Lemma steps_course w w' : launch_ok [] (view w) → rtc id_step w w' → on_course w [] w'.
Proof.
  intros Hl Hsteps. assert (on_course w [] w) as H by (split; [done|by intros id]).
  revert Hsteps H. generalize w at 2 4. clear. induction 1; [done|]. intros H'. by eapply IHHsteps, step_course.
Qed.

(** C7. Along every run of the provider (messages, packet callbacks, staking hooks, both
    block hooks) the phase of every consumer moves only along the edges of the documented
    lifecycle; the spawn queue holds exactly the INITIALIZED consumers, each once and under
    its own spawn time; DELETED is final and STOPPED leads only to DELETED. *)
Theorem phases_follow_the_lifecycle w w' :
  launch_ok [] (view w) → rtc id_step w w' →
  (∀ id, rtc phase_edge (GetConsumerPhase id w) (GetConsumerPhase id w')) ∧
  (∀ id ts, id ∈ GetConsumersToBeLaunched ts w' ↔
     GetConsumerPhase id w' = CONSUMER_PHASE_INITIALIZED ∧ spawn_of id (view w') = ts) ∧
  (∀ ts, NoDup (GetConsumersToBeLaunched ts w')) ∧
  (∀ id, GetConsumerPhase id w = CONSUMER_PHASE_DELETED → GetConsumerPhase id w' = CONSUMER_PHASE_DELETED) ∧
  (∀ id, GetConsumerPhase id w = CONSUMER_PHASE_STOPPED →
     GetConsumerPhase id w' = CONSUMER_PHASE_STOPPED ∨ GetConsumerPhase id w' = CONSUMER_PHASE_DELETED).
Proof.
  intros Hl Hsteps. destruct (steps_course w w' Hl Hsteps) as [Hl' Hp].
  split_and!; try done.
  - intros id ts. by apply launch_ok_queue.
  - intros ts. apply (lo_once _ _ Hl').
  - intros id. apply final_phase, Hp.
  - intros id. apply final_phase, Hp.
Qed.
End launch.
