(* ===== verification/GenesisProofs.v ===== *)
(** Theorems about the provider's genesis: what an import leaves in the store,
    that it starts with consistent books, and that an exported state comes back. *)
From S2P Require Import Prelude GoTime Types Externals World Keeper Queues FeePool FeePoolProofs FeesProofs.
From S2P Require Import Msgs Genesis PhaseProofs.

(** ** The passes over the consumer states *)
Section passes.
Context `{GX : GenesisExternals}.

Definition pause_reason (cs : ConsumerState) : option PauseReason :=
  if decide (cs_PauseReason cs = PAUSE_REASON_UNSPECIFIED) then None else Some (cs_PauseReason cs).
Definition nonzero (n : N) : option N := if (n =? 0)%N then None else Some n.
Definition debt_mark (cs : ConsumerState) : option bool := if cs_InDebt cs then Some true else None.
Definition pending (cs : ConsumerState) : option (list ValidatorSetChangePacketData) :=
  if Nat.ltb 0 (length (cs_PendingValsetChanges cs)) then Some (cs_PendingValsetChanges cs) else None.

(** What the first pass writes for a consumer nothing is stored of. *)
Definition imported (w : World) (cs : ConsumerState) : World :=
  let id := cs_ConsumerId cs in
  upd_PendingVSCPackets (put_opt id (pending cs))
  (upd_ConsumerDebt (put_opt id (debt_mark cs))
  (upd_ConsumerHighestAckedVscId (put_opt id (nonzero (cs_HighestAckedVscId cs)))
  (upd_ConsumerHighestSentVscId (put_opt id (nonzero (cs_HighestSentVscId cs)))
  (upd_ConsumerLastAckTime (put_opt id (cs_LastAckTime cs))
  (upd_ConsumerPausedAt (put_opt id (cs_PausedAt cs))
  (upd_ConsumerPauseReason (put_opt id (pause_reason cs))
  (upd_ConsumerPauseExpirationTime (put_opt id (cs_PauseExpirationTime cs))
  (upd_ConsumerRemovalTime (put_opt id (cs_RemovalTime cs))
  (upd_ConsumerGenesis (put_opt id (cs_ConsumerGenesis cs))
  (upd_ConsumerClients (put_opt id (nonempty (cs_ClientId cs)))
  (upd_ConsumerInitParams (put_opt id (cs_InitParams cs))
  (upd_ConsumerMetadata (put_opt id (cs_Metadata cs))
  (upd_ConsumerOwnerAddress (put_opt id (nonempty (cs_OwnerAddress cs)))
  (upd_ConsumerPhases (put_opt id (Some (cs_Phase cs)))
  (upd_ConsumerChainId (put_opt id (nonempty (cs_ChainId cs))) w))))))))))))))).

(** A conditional write is an optional one. *)
Lemma bind_write {V} (upd : (gmap N V → gmap N V) → World → World) id (o : option V) (m : K unit) (k : K unit) c w w' :
  (∀ v, o = Some v → m c w = (Ok tt, upd (insert id v) w)) → (o = None → m c w = (Ok tt, w)) →
  upd (λ m, m) w = w → k c (upd (put_opt id o) w) = (Ok tt, w') → (m ;; k) c w = (Ok tt, w').
Proof.
  intros Hs Hn He Hk. rewrite bind_run. destruct o as [v|].
  - by rewrite (Hs v eq_refl).
  - rewrite (Hn eq_refl). by rewrite <-He.
Qed.
Ltac eta := match goal with |- _ = ?w => generalize w end; by intros [[] [] [] [] [] ? ? ?].
Lemma bind_plain_write {V} (upd : (gmap N V → gmap N V) → World → World) id (o : option V) (m : K unit) (k : K unit) c w w' :
  (∀ v w, o = Some v → m c w = (Ok tt, upd (insert id v) w)) → (∀ w, o = None → m c w = (Ok tt, w)) →
  (∀ w, upd (λ m, m) w = w) → k c (upd (put_opt id o) w) = (Ok tt, w') → (m ;; k) c w = (Ok tt, w').
Proof. intros Hs Hn He. apply bind_write; [intros v; apply Hs|apply Hn|apply He]. Qed.
(** Steps over one optional write of [upd]. *)
Ltac write upd := eapply (bind_plain_write upd);
  [let H := fresh in intros ? ? H; rewrite H; reflexivity
  |let H := fresh in intros ? H; rewrite H; reflexivity
  |by intros [[] [] [] [] [] ? ? ?]|].

(** A key of a map no other key shares its value with. *)
Lemma holder_of w cl id :
  (∀ id', s_ConsumerClients w !! id' = Some cl → id' = id) →
  GetClientIdToConsumerId cl w = None ∨ GetClientIdToConsumerId cl w = Some id.
Proof.
  intros H. unfold GetClientIdToConsumerId.
  destruct (filter _ _) as [|[id' cl'] l] eqn:E; [by left|right].
  assert ((id', cl') ∈ filter (λ kv, kv.2 = cl) (iterate (s_ConsumerClients w))) as [Hc Hin%elem_of_iterate]%list_elem_of_filter
    by (rewrite E; by left).
  cbn in *. subst cl'. by rewrite (H id').
Qed.

Record importable (cs : ConsumerState) (w : World) : Prop := {
  im_client cl id : nonempty (cs_ClientId cs) = Some cl → s_ConsumerClients w !! id = Some cl → id = cs_ConsumerId cs;
  im_height p : cs_InitParams cs = Some p → cs_Phase cs = CONSUMER_PHASE_DELETED ∨
    ∃ chain, put_opt (cs_ConsumerId cs) (nonempty (cs_ChainId cs)) (s_ConsumerChainId w) !! cs_ConsumerId cs = Some chain ∧
      ValidateInitialHeight (InitialRevision p) chain = true;
  im_pending : GetPendingVSCPackets (cs_ConsumerId cs) w = [];
}.

Lemma set_params_run id p phase c w :
  s_ConsumerPhases w !! id = Some phase →
  phase = CONSUMER_PHASE_DELETED ∨
    (∃ chain, s_ConsumerChainId w !! id = Some chain ∧ ValidateInitialHeight (InitialRevision p) chain = true) →
  must (SetConsumerInitializationParameters id p) c w = (Ok tt, upd_ConsumerInitParams (insert id p) w).
Proof.
  intros Hp H. unfold must, SetConsumerInitializationParameters, GetConsumerPhase, GetConsumerChainId.
  repeat (rewrite bind_run; cbn [gets]). rewrite Hp. cbn [default from_option].
  case_decide; [reflexivity|].
  destruct H as [|(chain & Ec & Hv)]; [done|]. rewrite bind_run, bind_run. cbn [gets]. rewrite Ec.
  cbn [of_option mret M_ret]. by rewrite Hv.
Qed.
Lemma set_client_run id cl c w :
  (∀ id', s_ConsumerClients w !! id' = Some cl → id' = id) →
  SetConsumerClientId id cl c w = (Ok tt, upd_ConsumerClients (insert id cl) w).
Proof.
  intros H. unfold SetConsumerClientId. rewrite bind_run. cbn [gets].
  destruct (holder_of w cl id H) as [-> | ->]; [done|]. by destruct (decide (id = id)).
Qed.

Lemma pending_run cs c w :
  GetPendingVSCPackets (cs_ConsumerId cs) w = [] →
  when (Nat.ltb 0 (length (cs_PendingValsetChanges cs)))
    (AppendPendingVSCPackets (cs_ConsumerId cs) (cs_PendingValsetChanges cs)) c w
  = (Ok tt, upd_PendingVSCPackets (put_opt (cs_ConsumerId cs) (pending cs)) w).
Proof.
  intros Hp. unfold pending. destruct (Nat.ltb 0 _); cbn [when].
  - unfold AppendPendingVSCPackets. rewrite bind_run. cbn [gets]. by rewrite Hp.
  - by destruct w as [[] [] [] [] [] ? ? ?].
Qed.

Lemma import_consumer_run cs c w :
  importable cs w → import_consumer cs c w = (Ok tt, imported w cs).
Proof.
  intros [Hcl Hh Hp]. unfold import_consumer. cbv zeta. set (id := cs_ConsumerId cs) in *.
  write upd_ConsumerChainId.
  rewrite bind_run. cbn [SetConsumerPhase modify].
  write upd_ConsumerOwnerAddress.
  write upd_ConsumerMetadata.
  eapply (bind_write upd_ConsumerInitParams);
    [intros p Ep; rewrite Ep; apply (set_params_run id p (cs_Phase cs)); [apply lookup_insert_eq|by apply Hh]
    |by intros ->|eta|].
  eapply (bind_write upd_ConsumerClients);
    [intros cl Ecl; rewrite Ecl; apply set_client_run; intros id'; by apply Hcl|by intros ->|eta|].
  write upd_ConsumerGenesis.
  write upd_ConsumerRemovalTime.
  write upd_ConsumerPauseExpirationTime.
  eapply (bind_plain_write upd_ConsumerPauseReason _ (pause_reason cs));
    [unfold pause_reason; intros v w'; case_decide; [done|]; intros [= <-]; by rewrite bool_decide_false
    |unfold pause_reason; intros w'; case_decide; [|done]; intros _; by rewrite bool_decide_true
    |by intros [[] [] [] [] [] ? ? ?]|].
  write upd_ConsumerPausedAt.
  write upd_ConsumerLastAckTime.
  eapply (bind_plain_write upd_ConsumerHighestSentVscId _ (nonzero (cs_HighestSentVscId cs)));
    [unfold nonzero; intros v w'; case_match; [done|]; by intros [= <-]
    |unfold nonzero; intros w'; by case_match|by intros [[] [] [] [] [] ? ? ?]|].
  eapply (bind_plain_write upd_ConsumerHighestAckedVscId _ (nonzero (cs_HighestAckedVscId cs)));
    [unfold nonzero; intros v w'; case_match; [done|]; by intros [= <-]
    |unfold nonzero; intros w'; by case_match|by intros [[] [] [] [] [] ? ? ?]|].
  eapply (bind_plain_write upd_ConsumerDebt _ (debt_mark cs));
    [unfold debt_mark; intros v w'; case_match; [by intros [= <-]|done]
    |unfold debt_mark; intros w'; by case_match|by intros [[] [] [] [] [] ? ? ?]|].
  apply pending_run. exact Hp.
Qed.

(** The second pass. *)
Definition min_height (cs : ConsumerState) : option Z :=
  match cs_Phase cs with
  | CONSUMER_PHASE_LAUNCHED | CONSUMER_PHASE_STOPPED | CONSUMER_PHASE_PAUSED =>
      InitialRevisionHeight <$> cs_InitParams cs
  | _ => None
  end.
Definition spawn_due (cs : ConsumerState) : option Time :=
  if decide (cs_Phase cs = CONSUMER_PHASE_INITIALIZED) then SpawnTime <$> cs_InitParams cs else None.
Definition removal_due (cs : ConsumerState) : option Time :=
  if decide (cs_Phase cs = CONSUMER_PHASE_STOPPED) then cs_RemovalTime cs else None.
Definition pause_due (cs : ConsumerState) : option Time :=
  if decide (cs_Phase cs = CONSUMER_PHASE_PAUSED) then cs_PauseExpirationTime cs else None.
Definition derived (w : World) (cs : ConsumerState) : World :=
  let id := cs_ConsumerId cs in
  upd_PauseExpirationTimeToConsumerIds (append_opt id (pause_due cs))
  (upd_RemovalTimeToConsumerIds (append_opt id (removal_due cs))
  (upd_SpawnTimeToConsumerIds (append_opt id (spawn_due cs))
  (upd_EquivocationEvidenceMinHeight (put_opt id (min_height cs)) w))).
Lemma derive_consumer_run cs c w : derive_consumer cs c w = (Ok tt, derived w cs).
Proof.
  destruct cs as [id ? ? ? ? phase ? ? params removal ? ? ? expiry ? ? ?], w as [[] [] [] [] [] ? ? ?].
  by destruct phase, params, removal, expiry.
Qed.

Definition empty_consumers (w : World) : Prop :=
  s_ConsumerClients w = ∅ ∧ s_PendingVSCPackets w = ∅.
Record consistent_states (css : list ConsumerState) : Prop := {
  st_ids : NoDup (cs_ConsumerId <$> css);
  st_clients cs cs' cl : cs ∈ css → cs' ∈ css → nonempty (cs_ClientId cs) = Some cl →
    nonempty (cs_ClientId cs') = Some cl → cs_ConsumerId cs = cs_ConsumerId cs';
  st_heights cs p : cs ∈ css → cs_InitParams cs = Some p → cs_Phase cs = CONSUMER_PHASE_DELETED ∨
    ∃ chain, nonempty (cs_ChainId cs) = Some chain ∧ ValidateInitialHeight (InitialRevision p) chain = true;
}.

Lemma first_pass_run css c w :
  consistent_states css → empty_consumers w →
  for_each css import_consumer c w = (Ok tt, foldl imported w css).
Proof.
  intros [Hids Hcls Hhs] [Hc0 Hp0].
  destruct (for_each_runs (λ dn v, v = foldl imported w dn) import_consumer c css w) as (w' & E & ->); [done| |exact E].
  intros dn cs rest v El ->. exists (foldl imported w (dn ++ [cs])). split; [|done].
  rewrite foldl_app. cbn [foldl]. apply import_consumer_run.
  assert (cs ∈ css) as Hcs by (rewrite El; set_solver).
  assert (∀ x, x ∈ dn → x ∈ css) as Hdn by (intros x Hx; rewrite El; set_solver).
  rewrite El, fmap_app, NoDup_app in Hids. destruct Hids as (Hdnd & Hdisj & _).
  split.
  - intros cl id Ecl. rewrite (foldl_proj s_ConsumerClients imported
      (λ m cs, put_opt (cs_ConsumerId cs) (nonempty (cs_ClientId cs)) m) dn w) by reflexivity.
    rewrite Hc0. fold (puts cs_ConsumerId (λ cs, nonempty (cs_ClientId cs)) dn ∅).
    rewrite puts_empty by done. intros (cs' & Hin & <- & Ecl'). by apply (Hcls cs' cs cl); [apply Hdn|..].
  - intros p Ep. destruct (Hhs cs p Hcs Ep) as [|(chain & Ec & Hv)]; [by left|right].
    exists chain. split; [|done]. unfold put_opt. rewrite Ec. apply lookup_insert_eq.
  - unfold GetPendingVSCPackets. rewrite (foldl_proj s_PendingVSCPackets imported
      (λ m cs, put_opt (cs_ConsumerId cs) (pending cs) m) dn w) by reflexivity.
    rewrite Hp0. fold (puts cs_ConsumerId pending dn ∅). rewrite puts_other; [by rewrite lookup_empty|].
    intros Hin. apply (Hdisj _ Hin). cbn. by left.
Qed.
Lemma second_pass_run css c w : for_each css derive_consumer c w = (Ok tt, foldl derived w css).
Proof.
  revert w. induction css as [|cs css IH]; intros w; [done|]. cbn [for_each foldl].
  by rewrite bind_run, derive_consumer_run.
Qed.

(** ** Loops that fill one collection *)
Ltac upd_laws := first [by intros [[] [] [] [] [] ? ? ?]|by intros ? ? [[] [] [] [] [] ? ? ?]|by intros [[] ?] ?|done].

Definition punish (e : PunishedEquivocation) : string * string * Z :=
  (pe_ChainId e, pe_ProviderConsAddr e, pe_InfractionHeight e).
Lemma punished_run l c w :
  for_each l (λ e, modify (upd_PunishedEquivocations (λ s, {[punish e]} ∪ s))) c w
  = (Ok tt, upd_PunishedEquivocations (λ s, list_to_set (punish <$> l) ∪ s) w).
Proof.
  rewrite for_each_modify. f_equal. revert w. induction l as [|x l IH]; intros w.
  - destruct w as [[] [] [] [] [] ? ? ?]. unfold upd_PunishedEquivocations. cbn. by rewrite (left_id_L ∅ (∪)).
  - cbn [foldl]. rewrite IH. destruct w as [[] [] [] [] [] ? ? ?]. unfold upd_PunishedEquivocations. cbn.
    by rewrite (assoc_L (∪)), (comm_L (∪) (list_to_set _)).
Qed.

(** Addresses waiting to be pruned, appended to their bucket. *)
Definition append_addrs (l : list (N * Time * list string)) (m : gmap (N * Time) (list string)) : gmap (N * Time) (list string) :=
  foldl (λ m item, foldl (λ m a, <[item.1 := default [] (m !! item.1) ++ [a]]> m) m item.2) m l.
Lemma append_addrs_lookup l m k :
  default [] (append_addrs l m !! k) = default [] (m !! k) ++ concat (filter (λ item, item.1 = k) l).*2.
Proof.
  assert (∀ (addrs : list string) k' (m : gmap (N * Time) (list string)), default [] (foldl (λ m a, <[k' := default [] (m !! k') ++ [a]]> m) m addrs !! k)
    = default [] (m !! k) ++ (if decide (k' = k) then addrs else [])) as Hone.
  { intros addrs k'. induction addrs as [|a addrs IH]; intros m'; cbn [foldl].
    - case_decide; by rewrite app_nil_r.
    - rewrite IH. case_decide as E.
      + subst k'. rewrite lookup_insert_eq. cbn. by rewrite <-app_assoc.
      + by rewrite lookup_insert_ne. }
  revert m. induction l as [|[k' addrs] l IH]; intros m; [by rewrite app_nil_r|].
  change (append_addrs ((k', addrs) :: l) m) with
    (append_addrs l (foldl (λ m a, <[k' := default [] (m !! k') ++ [a]]> m) m addrs)).
  rewrite IH, Hone, filter_cons. cbn. case_decide; cbn; by rewrite <-app_assoc.
Qed.
Lemma prune_run l c w :
  for_each l import_prune c w = (Ok tt, upd_ConsumerAddrsToPrune (append_addrs l) w).
Proof.
  assert (∀ k addrs w, for_each addrs (AppendConsumerAddrsToPrune k.1 k.2) c w
    = (Ok tt, upd_ConsumerAddrsToPrune (λ m, foldl (λ m a, <[k := default [] (m !! k) ++ [a]]> m) m addrs) w)) as Hone.
  { intros [id ts] addrs. induction addrs as [|a addrs IH]; intros v; [by destruct v as [[] [] [] [] [] ? ? ?]|].
    cbn [for_each]. rewrite bind_run. unfold AppendConsumerAddrsToPrune at 1. rewrite bind_run. cbn [gets modify].
    rewrite IH. by destruct v as [[] [] [] [] [] ? ? ?]. }
  revert w. induction l as [|[k addrs] l IH]; intros w; [by destruct w as [[] [] [] [] [] ? ? ?]|].
  cbn [for_each]. rewrite bind_run. unfold import_prune at 1. cbn [fst snd]. rewrite Hone, IH.
  by destruct w as [[] [] [] [] [] ? ? ?].
Qed.

(** *** Shares *)
Definition depositor (s : ConsumerFeePoolShare) : string := default "" (AccAddressFromBech32 (fs_Depositor s)).
Definition share_key (s : ConsumerFeePoolShare) : N * string * string := (fs_ConsumerId s, fs_Denom s, depositor s).
Definition share_puts : list ConsumerFeePoolShare → gmap (N * string * string) Z → gmap (N * string * string) Z :=
  puts share_key (λ s, Some (fs_Shares s)).
Lemma shares_run l c w :
  (∀ s, s ∈ l → is_Some (AccAddressFromBech32 (fs_Depositor s))) →
  for_each l import_share c w = (Ok tt, upd_ConsumerFeePoolShares (share_puts l) w).
Proof.
  revert w. induction l as [|s l IH]; intros w Hl; [by destruct w as [[] [] [] [] [] ? ? ?]|].
  cbn [for_each]. rewrite bind_run. unfold import_share at 1. rewrite bind_run.
  destruct (Hl s ltac:(by left)) as [addr Ea]. rewrite Ea. cbn [or_panic mret M_ret modify].
  rewrite IH by (intros x Hx; apply Hl; by right). destruct w as [[] [] [] [] [] ? ? ?].
  unfold upd_ConsumerFeePoolShares, share_puts, puts, share_key, depositor. cbn. by rewrite Ea.
Qed.

(** The totals are the sums of the shares. *)
Lemma totals_sum l id denom :
  NoDup (share_key <$> l) →
  default 0 (foldl add_share ∅ l !! (id, denom)) = pool_shares id denom (share_puts l ∅).
Proof.
  induction l as [|s l IH] using rev_ind; intros Hnd.
  - cbn. unfold pool_shares. by rewrite map_sum_empty, lookup_empty.
  - rewrite fmap_app, NoDup_app in Hnd. destruct Hnd as (Hl & Hdisj & _). specialize (IH Hl).
    rewrite foldl_app. cbn [foldl]. unfold share_puts in *. rewrite puts_snoc. cbn [put_opt].
    assert (puts share_key (λ s, Some (fs_Shares s)) l ∅ !! share_key s = None) as Hnone.
    { rewrite puts_other; [apply lookup_empty|]. intros Hin. apply (Hdisj _ Hin). cbn. by left. }
    unfold pool_shares in *. rewrite map_sum_insert_None, <-IH by done.
    change (in_pool id denom (share_key s)) with (bool_decide ((fs_ConsumerId s, fs_Denom s) = (id, denom))).
    generalize (foldl add_share ∅ l). intros T. unfold add_share.
    case_bool_decide as E.
    + rewrite E, lookup_insert_eq. destruct (T !! (id, denom)); cbn; lia.
    + by rewrite lookup_insert_ne.
Qed.
Lemma totals_positive l k t :
  (∀ s, s ∈ l → 0 < fs_Shares s) → foldl add_share ∅ l !! k = Some t → 0 < t.
Proof.
  revert t. induction l as [|s l IH] using rev_ind; intros t Hl; [cbn; by rewrite lookup_empty|].
  rewrite foldl_app. cbn [foldl]. unfold add_share at 1. pose proof (Hl s ltac:(set_solver)).
  assert (∀ t, foldl add_share ∅ l !! k = Some t → 0 < t) as IH' by (intros t'; apply IH; intros x Hx; apply Hl; set_solver).
  rewrite lookup_insert_Some. intros [[<- Et]|[_ Et]]; [|by apply IH'].
  destruct (foldl add_share ∅ l !! _) as [cur|] eqn:Ec; [specialize (IH' cur eq_refl)|]; lia.
Qed.
(** A pair has a total exactly if it has a share. *)
Lemma totals_dom l k : is_Some (foldl add_share ∅ l !! k) ↔ ∃ s, s ∈ l ∧ (fs_ConsumerId s, fs_Denom s) = k.
Proof.
  induction l as [|s l IH] using rev_ind; [cbn; rewrite lookup_empty; split; [by intros []|set_solver]|].
  rewrite foldl_app. cbn [foldl]. unfold add_share at 1. rewrite lookup_insert_is_Some, IH.
  destruct (decide ((fs_ConsumerId s, fs_Denom s) = k)) as [<-|Hne]; set_solver.
Qed.
Lemma totals_run l c w :
  s_ConsumerFeePoolTotalShares w = ∅ →
  for_each (iterate (foldl add_share ∅ l)) (λ kv, modify (upd_ConsumerFeePoolTotalShares (insert kv.1 kv.2))) c w
  = (Ok tt, upd_ConsumerFeePoolTotalShares (λ _, foldl add_share ∅ l) w).
Proof.
  intros E0. rewrite (writes_run upd_ConsumerFeePoolTotalShares fst snd _ _ c w); [|upd_laws..].
  f_equal. set (m := foldl add_share ∅ l).
  pose proof (puts_iterate fst (λ kv, Some kv.2) id m ltac:(done)) as Hm. rewrite list_fmap_id in Hm.
  destruct w as [[] [] [] [] [] ? ? ?]. cbn in E0. subst. unfold upd_ConsumerFeePoolTotalShares. cbn. by rewrite Hm.
Qed.

(** ** The pools *)
Definition pool_frame (w w' : World) : Prop :=
  ∃ s t a, w' = upd_ConsumerFeePoolShares (λ _, s) (upd_ConsumerFeePoolTotalShares (λ _, t)
    (upd_FeePoolAddressToConsumerId (λ _, a) w)).
Lemma pool_frame_same w w' :
  w' = upd_ConsumerFeePoolShares (λ _, s_ConsumerFeePoolShares w') (upd_ConsumerFeePoolTotalShares
    (λ _, s_ConsumerFeePoolTotalShares w') (upd_FeePoolAddressToConsumerId (λ _, s_FeePoolAddressToConsumerId w') w)) →
  pool_frame w w'.
Proof. intros ->. by do 3 eexists. Qed.
Lemma pool_frame_refl w : pool_frame w w.
Proof. apply pool_frame_same. by destruct w as [[] [] [] [] [] ? ? ?]. Qed.
Lemma pool_frame_trans w1 w2 w3 : pool_frame w1 w2 → pool_frame w2 w3 → pool_frame w1 w3.
Proof. intros (s & t & a & ->) (s' & t' & a' & ->). by exists s', t', a'. Qed.

(** What no share of the genesis stands behind. *)
Definition orphan (totals : gmap (N * string) Z) (w : World) (id : N) (denom : string) : Prop :=
  totals !! (id, denom) = None ∧ ∃ coin, coin ∈ GetAllBalances (w_bank w) (GetConsumerFeePoolAddress id) ∧ Denom coin = denom.
Definition live (phases : list (N * ConsumerPhase)) (id : N) : Prop :=
  ∃ phase, (id, phase) ∈ phases ∧ phase ≠ CONSUMER_PHASE_DELETED.

Record pools_opened (totals : gmap (N * string) Z) (phases : list (N * ConsumerPhase)) (w w' : World) : Prop := {
  po_frame : pool_frame w w';
  po_ledger : ledger_ok w';
  (* a pool without orphans keeps its shares *)
  po_kept id denom : ¬ (live phases id ∧ orphan totals w id denom) →
    get_total id denom w' = get_total id denom w ∧ ∀ dep, get_shares id denom dep w' = get_shares id denom dep w;
  (* every coin of a live pool has shares behind it *)
  po_backed id denom : live phases id → orphan totals w id denom → is_Some (get_total id denom w');
  po_addresses id : live phases id → s_FeePoolAddressToConsumerId w' !! GetConsumerFeePoolAddress id = Some id;
}.

Lemma get_total_drop_ne id denom id' denom' w :
  (id', denom') ≠ (id, denom) → get_total id' denom' (drop_ledger id denom w) = get_total id' denom' w.
Proof. intros Hne. unfold get_total, drop_ledger. cbn. by rewrite lookup_delete_ne by congruence. Qed.

(** Absorbing one coin. *)
Lemma absorb_one id denom balance c w :
  ledger_ok w → 0 < balance →
  ∃ w', must (absorbUnaccountedBalance id denom balance) c w = (Ok tt, w') ∧ ledger_ok w' ∧ pool_frame w w' ∧
    is_Some (get_total id denom w') ∧ s_FeePoolAddressToConsumerId w' = s_FeePoolAddressToConsumerId w ∧
    ∀ id' denom', (id', denom') ≠ (id, denom) →
      get_total id' denom' w' = get_total id' denom' w ∧ ∀ dep, get_shares id' denom' dep w' = get_shares id' denom' dep w.
Proof.
  intros Hl Hb. unfold must. rewrite absorbUnaccountedBalance_run by done. eexists. split; [done|].
  split; [by apply ledger_absorb|]. split; [|split; [|split; [done|]]].
  - apply pool_frame_same. by destruct w as [[] [] [] [] [] ? ? ?].
  - rewrite get_total_write by done. by eexists.
  - intros id' denom' Hne. unfold get_total, get_shares, write_ledger, drop_ledger. cbn. split.
    + by rewrite put_nz_lookup, decide_False, lookup_delete_ne by congruence.
    + intros dep. rewrite put_nz_lookup, decide_False by congruence. rewrite clear_where_lookup.
      unfold in_pool. by rewrite bool_decide_false.
Qed.

(** The coins of one pool. *)
Lemma absorb_coins totals id coins c w :
  ledger_ok w → (∀ coin, coin ∈ coins → 0 < Amount coin) →
  ∃ w', for_each coins (absorb_orphan totals id) c w = (Ok tt, w') ∧ ledger_ok w' ∧ pool_frame w w' ∧
    s_FeePoolAddressToConsumerId w' = s_FeePoolAddressToConsumerId w ∧
    (∀ id' denom, ¬ (id' = id ∧ totals !! (id, denom) = None ∧ denom ∈ Denom <$> coins) →
      get_total id' denom w' = get_total id' denom w ∧ ∀ dep, get_shares id' denom dep w' = get_shares id' denom dep w) ∧
    (∀ denom, denom ∈ Denom <$> coins → totals !! (id, denom) = None → is_Some (get_total id denom w')).
Proof.
  intros Hl Hpos.
  apply (for_each_runs (λ dn v, ledger_ok v ∧ pool_frame w v ∧
    s_FeePoolAddressToConsumerId v = s_FeePoolAddressToConsumerId w ∧
    (∀ id' denom, ¬ (id' = id ∧ totals !! (id, denom) = None ∧ denom ∈ Denom <$> dn) →
      get_total id' denom v = get_total id' denom w ∧ ∀ dep, get_shares id' denom dep v = get_shares id' denom dep w) ∧
    (∀ denom, denom ∈ Denom <$> dn → totals !! (id, denom) = None → is_Some (get_total id denom v)))).
  - split_and!; try done; [apply pool_frame_refl|]. intros denom Hd. cbn in Hd. by apply elem_of_nil in Hd.
  - intros dn coin rest v El (Hv & Hf & Ha & Hk & Hb). unfold absorb_orphan.
    destruct (totals !! (id, Denom coin)) eqn:Et.
    + exists v. split; [done|]. split_and!; try done.
      * intros id' denom Hn. apply Hk. intros (? & ? & ?). apply Hn. rewrite fmap_app. set_solver.
      * intros denom. rewrite fmap_app. intros [Hd|Hd]%elem_of_app; [by apply Hb|].
        apply list_elem_of_singleton in Hd as ->. congruence.
    + destruct (absorb_one id (Denom coin) (Amount coin) c v Hv ltac:(apply Hpos; rewrite El; set_solver))
        as (v' & E & Hv' & Hf' & Hs & Ha' & Hk'). exists v'. split; [done|]. split_and!.
      * done.
      * by eapply pool_frame_trans.
      * congruence.
      * intros id' denom Hn. rewrite fmap_app in Hn. destruct (Hk' id' denom) as [E1 E2].
        { intros [= -> ->]. apply Hn. split_and!; [done|done|set_solver]. }
        destruct (Hk id' denom) as [E3 E4]; [intros (? & ? & ?); apply Hn; set_solver|].
        split; [congruence|]. intros dep. by rewrite E2.
      * intros denom. rewrite fmap_app. intros [Hd|Hd]%elem_of_app Hn.
        -- destruct (decide (denom = Denom coin)) as [->|Hne]; [done|].
           destruct (Hk' id denom) as [-> _]; [congruence|]. by apply Hb.
        -- by apply list_elem_of_singleton in Hd as ->.
Qed.

(** x/bank lists only coins an account has. *)
Context (Hbalances : ∀ b a coin, coin ∈ GetAllBalances b a → 0 < Amount coin) `{!PayoutLaws}.

Lemma live_snoc phases e id : live (phases ++ [e]) id ↔ live phases id ∨ (e.1 = id ∧ e.2 ≠ CONSUMER_PHASE_DELETED).
Proof.
  unfold live. setoid_rewrite elem_of_app. setoid_rewrite list_elem_of_singleton. destruct e as [id' ph]. cbn. split.
  - intros (p & [Hin|[= -> ->]] & Hp); [left; by exists p|by right].
  - intros [(p & Hin & Hp)|[-> Hp]]; [exists p; by split; [left|]|exists ph; by split; [right|]].
Qed.
Lemma pool_step totals phases e w c v :
  pools_opened totals phases w v → (∀ id, live phases id → id ≠ e.1) →
  ∃ v', import_pool totals e c v = (Ok tt, v') ∧ pools_opened totals (phases ++ [e]) w v'.
Proof.
  intros [Hf Hl Hk Hb Ha] Hfresh. destruct e as [id phase]. unfold import_pool.
  case_decide as Hd.
  { exists v. split; [done|]. split; try done; setoid_rewrite live_snoc; cbn.
    - intros id' denom Hn. apply Hk. intros [H1 H2]. apply Hn. by split; [left|].
    - intros id' denom [Hlive|[_ []]]; [by apply Hb|done].
    - intros id' [Hlive|[_ []]]; [by apply Ha|done]. }
  cbv zeta. rewrite bind_run. cbn [modify]. rewrite bind_run. cbn [gets].
  set (v1 := upd_FeePoolAddressToConsumerId (insert (GetConsumerFeePoolAddress id) id) v).
  assert (w_bank v1 = w_bank w) as Ebank by (destruct Hf as (? & ? & ? & ->); reflexivity). rewrite Ebank.
  destruct (absorb_coins totals id (GetAllBalances (w_bank w) (GetConsumerFeePoolAddress id)) c v1)
    as (v' & E & Hl' & Hf' & Ha' & Hk' & Hb'); [exact Hl|intros coin; apply Hbalances|].
  exists v'. split; [exact E|].
  assert (∀ denom, orphan totals w id denom ↔ totals !! (id, denom) = None ∧
    denom ∈ Denom <$> GetAllBalances (w_bank w) (GetConsumerFeePoolAddress id)) as Horphan.
  { intros denom. unfold orphan. rewrite list_elem_of_fmap. naive_solver. }
  split; try done; try setoid_rewrite live_snoc; cbn.
  - eapply pool_frame_trans; [exact Hf|]. eapply pool_frame_trans; [|exact Hf']. apply pool_frame_same.
    by destruct v as [[] [] [] [] [] ? ? ?].
  - intros id' denom Hn. destruct (Hk' id' denom) as [E1 E2].
    { intros (-> & H1 & H2). apply Hn. split; [by right|]. by apply Horphan. }
    destruct (Hk id' denom) as [E3 E4]; [intros [H1 H2]; apply Hn; by split; [left|]|].
    split; [by rewrite E1, <-E3|]. intros dep. by rewrite E2, <-E4.
  - intros id' denom [Hlive|[<- _]] Ho; [|apply Horphan in Ho as [H1 H2]; by apply Hb'].
    destruct (Hk' id' denom) as [E1 _]; [intros (-> & _); by apply (Hfresh id Hlive)|].
    rewrite E1. by apply Hb.
  - intros id' Hlive. rewrite Ha'. unfold v1. cbn. destruct (decide (id' = id)) as [->|Hne]; [by rewrite lookup_insert_eq|].
    rewrite lookup_insert_ne by (intros Eq%pool_address_inj; done).
    destruct Hlive as [Hlive|[Eq _]]; [by apply Ha|congruence].
Qed.

Lemma pools_run totals phases c w :
  ledger_ok w → NoDup phases.*1 →
  ∃ w', for_each phases (import_pool totals) c w = (Ok tt, w') ∧ pools_opened totals phases w w'.
Proof.
  intros Hl Hnd. apply (for_each_runs (λ dn v, pools_opened totals dn w v)).
  - split; [apply pool_frame_refl|done|done|..].
    + by intros id denom (phase & []%elem_of_nil & _).
    + by intros id (phase & []%elem_of_nil & _).
  - intros dn e rest v El Hv. apply pool_step; [done|]. intros id (phase & Hin & _) ->.
    rewrite El, fmap_app, NoDup_app in Hnd. destruct Hnd as (_ & Hd & _).
    apply (Hd e.1); [|cbn; by left]. apply list_elem_of_fmap. by exists (e.1, phase).
Qed.

(** ** The whole import

    The store before the pools are opened, and after everything else. *)
Definition next_id (css : list ConsumerState) (seq : N) : N :=
  if Nat.ltb 0 (length css) then u64_succ (foldr N.max 0%N (cs_ConsumerId <$> css)) else seq.
Definition passes (gs : GenesisState) (w : World) : World :=
  foldl derived (foldl imported (upd_ValidatorSetUpdateId (λ _, gs_ValsetUpdateId gs) w) (gs_ConsumerStates gs))
    (gs_ConsumerStates gs).
Definition before (gs : GenesisState) (w : World) : World :=
  upd_ConsumerFeePoolTotalShares (λ _, foldl add_share ∅ (gs_ConsumerFeePoolShares gs))
  (upd_ConsumerFeePoolShares (share_puts (gs_ConsumerFeePoolShares gs))
  (upd_ConsumerAddrsToPrune (append_addrs (gs_ConsumerAddrsToPrune gs))
  (upd_ValidatorByConsumerAddr (puts (λ i : N * string * string, i.1) (λ i, Some i.2) (gs_ValidatorsByConsumerAddr gs))
  (upd_ValidatorConsumerPubKey (puts (λ i : N * string * PubKey, i.1) (λ i, Some i.2) (gs_ValidatorConsumerPubkeys gs))
  (upd_ConsumerFeesPerBlockOverride (puts ov_ConsumerId (λ ov, Some (default 0 (NewIntFromString (ov_Amount ov))))
    (gs_ConsumerFeesPerBlockOverrides gs))
  (upd_ConsumerIdSeq (next_id (gs_ConsumerStates gs))
  (passes gs w))))))).
Definition infraction_params (gs : GenesisState) : InfractionParameters :=
  default DefaultInfractionParameters (gs_InfractionParameters gs).
Definition window_of (e : AcceptedDowntimeWindowRecord) : AcceptedDowntimeWindow :=
  mkAcceptedDowntimeWindow (wr_WindowStartHeight e) (wr_AcceptedAt e).
Definition after (gs : GenesisState) (vals : list ConsensusValidator) (w : World) : World :=
  upd_LastProviderConsensusVals (λ _, puts ProviderConsAddr Some vals ∅)
  (upd_EpochDowntime (puts (λ e, (ed_ConsumerId e, ed_ProviderConsAddr e)) (λ _, Some true) (gs_EpochDowntimeEntries gs))
  (upd_PunishedEquivocations (λ s, list_to_set (punish <$> gs_PunishedEquivocations gs) ∪ s)
  (upd_DowntimeWindowFloors (puts (λ e, (fl_ConsumerId e, fl_ProviderConsAddr e)) (λ e, Some (fl_WindowEndHeight e))
    (gs_DowntimeWindowFloors gs))
  (upd_AcceptedDowntimeWindows (puts (λ e, (wr_ConsumerId e, wr_ProviderConsAddr e, wr_WindowEndHeight e))
    (λ e, Some (window_of e)) (gs_AcceptedDowntimeWindows gs))
  (upd_WithheldFeeRecords (puts (λ r, (wf_ConsumerId r, wf_ProviderConsAddr r)) Some (gs_WithheldFeeRecords gs))
  (upd_EpochShareRecords (puts (λ r, (es_ConsumerId r, es_DistributedAtUnixNano r)) (λ r, Some (es_Share r))
    (gs_EpochShareRecords gs))
  (upd_PreviousDowntimeParams_ (λ o, match gs_PreviousDowntimeParams gs with Some p => Some p | None => o end)
  (upd_PendingDowntimeSlashes (puts pending_key Some (gs_PendingDowntimeSlashes gs))
  (upd_InfractionParams_ (λ _, Some (infraction_params gs))
  (upd_Params_ (λ _, Some (gs_Params gs)) w)))))))))).

(** The staking keeper's bonded validators, as the import reads them. *)
Definition bonded (w : World) (vals : list ConsensusValidator) : Prop :=
  ∃ vs, GetBondedValidatorsByPower (w_staking w) = Some vs ∧
    Forall2 (λ v cv, CreateProviderConsensusValidator v w = Some cv) vs vals.

(** What the import cannot do without. *)
Record loadable (gs : GenesisState) (vals : list ConsensusValidator) (w : World) : Prop := {
  ld_states : consistent_states (gs_ConsumerStates gs);
  ld_depositors s : s ∈ gs_ConsumerFeePoolShares gs → is_Some (AccAddressFromBech32 (fs_Depositor s));
  ld_share_keys : NoDup (share_key <$> gs_ConsumerFeePoolShares gs);
  ld_shares s : s ∈ gs_ConsumerFeePoolShares gs → 0 < fs_Shares s;
  ld_infractions : InfractionParameters_Validate (infraction_params gs) = true;
  ld_trusting : ValidateInfractionParamsAgainst (infraction_params gs) (TrustingPeriodFraction (gs_Params gs)) = true;
  ld_withheld r : r ∈ gs_WithheldFeeRecords gs → Denom (wf_Amount r) = feeDenom;
  ld_bonded : bonded w vals;
}.
(** A chain about to start: nothing stored yet. *)
Definition fresh (st : staking) (b : bank) (i : ibc) : World := mkWorld
  (mkLifecycleStore 0 ∅ ∅ ∅ ∅ ∅ ∅ ∅ ∅ ∅ ∅ ∅ ∅ ∅ ∅ ∅ ∅)
  (mkVscStore 0 ∅ ∅ ∅ ∅ ∅ ∅) (mkKeyStore ∅ ∅ ∅) (mkFeeStore ∅ ∅ ∅ ∅ ∅ ∅ ∅)
  (mkDowntimeStore ∅ ∅ ∅ ∅ ∅ None None None) st b i.

Lemma params_run gs c w :
  s_InfractionParams_ w = None → InfractionParameters_Validate (infraction_params gs) = true →
  ValidateInfractionParamsAgainst (infraction_params gs) (TrustingPeriodFraction (gs_Params gs)) = true →
  import_params gs c w = (Ok tt, upd_InfractionParams_ (λ _, Some (infraction_params gs)) (upd_Params_ (λ _, Some (gs_Params gs)) w)).
Proof.
  intros E0 E1 E2. unfold import_params. fold (infraction_params gs). rewrite bind_run. cbn [SetParams modify].
  rewrite bind_run, E1. cbn [or_panic mret M_ret]. rewrite bind_run, E2. cbn [or_panic mret M_ret].
  unfold SetInfractionParams. rewrite bind_run. cbn [gets].
  change (s_InfractionParams_ (upd_Params_ _ w)) with (s_InfractionParams_ w). by rewrite E0.
Qed.
Lemma withheld_run l c w :
  (∀ r, r ∈ l → Denom (wf_Amount r) = feeDenom) →
  for_each l import_withheld c w =
  (Ok tt, upd_WithheldFeeRecords (puts (λ r, (wf_ConsumerId r, wf_ProviderConsAddr r)) Some l) w).
Proof.
  revert w. induction l as [|r l IH]; intros w Hl; [by destruct w as [[] [] [] [] [] ? ? ?]|].
  assert (import_withheld r c w = (Ok tt, upd_WithheldFeeRecords (insert (wf_ConsumerId r, wf_ProviderConsAddr r) r) w)) as E.
  { unfold import_withheld. by rewrite (Hl r ltac:(by left)), String.eqb_refl. }
  cbn [for_each]. rewrite bind_run, E, IH by (intros x Hx; apply Hl; by right).
  by destruct w as [[] [] [] [] [] ? ? ?].
Qed.
Lemma val_updates_run vals c w :
  bonded w vals →
  InitGenesisValUpdates c w = (Ok ((λ v, mkUpdate (PublicKey v) (cv_Power v)) <$> vals),
    upd_LastProviderConsensusVals (λ _, puts ProviderConsAddr Some vals ∅) w).
Proof.
  intros (vs & Ev & Hall). unfold InitGenesisValUpdates. rewrite bind_run, bind_run. cbn [gets]. rewrite Ev.
  cbn [or_panic mret M_ret]. rewrite bind_run.
  assert (map_each (λ val, o ← gets (CreateProviderConsensusValidator val); or_panic o) vs c w = (Ok vals, w)) as ->.
  { clear Ev. induction Hall as [|v cv vs vals E Hall IH]; [done|]. cbn [map_each]. rewrite bind_run, bind_run.
    cbn [gets]. rewrite E. cbn [or_panic mret M_ret]. by rewrite bind_run, IH. }
  rewrite bind_run. unfold SetLastProviderConsensusValSet. rewrite bind_run. cbn [modify].
  rewrite (writes_run upd_LastProviderConsensusVals ProviderConsAddr id _ vals c _); [|upd_laws..].
  by destruct w as [[] [] [] [] [] ? ? ?].
Qed.
Lemma downtime_run gs c w :
  (∀ r, r ∈ gs_WithheldFeeRecords gs → Denom (wf_Amount r) = feeDenom) →
  import_downtime gs c w = (Ok tt,
    upd_EpochDowntime (puts (λ e, (ed_ConsumerId e, ed_ProviderConsAddr e)) (λ _, Some true) (gs_EpochDowntimeEntries gs))
    (upd_PunishedEquivocations (λ s, list_to_set (punish <$> gs_PunishedEquivocations gs) ∪ s)
    (upd_DowntimeWindowFloors (puts (λ e, (fl_ConsumerId e, fl_ProviderConsAddr e)) (λ e, Some (fl_WindowEndHeight e))
      (gs_DowntimeWindowFloors gs))
    (upd_AcceptedDowntimeWindows (puts (λ e, (wr_ConsumerId e, wr_ProviderConsAddr e, wr_WindowEndHeight e))
      (λ e, Some (window_of e)) (gs_AcceptedDowntimeWindows gs))
    (upd_WithheldFeeRecords (puts (λ r, (wf_ConsumerId r, wf_ProviderConsAddr r)) Some (gs_WithheldFeeRecords gs))
    (upd_EpochShareRecords (puts (λ r, (es_ConsumerId r, es_DistributedAtUnixNano r)) (λ r, Some (es_Share r))
      (gs_EpochShareRecords gs))
    (upd_PreviousDowntimeParams_ (λ o, match gs_PreviousDowntimeParams gs with Some p => Some p | None => o end)
    (upd_PendingDowntimeSlashes (puts pending_key Some (gs_PendingDowntimeSlashes gs)) w)))))))).
Proof.
  intros Hw. unfold import_downtime.
  rewrite bind_run, (writes_run upd_PendingDowntimeSlashes pending_key id) by upd_laws.
  rewrite bind_run. match goal with |- context [if_some ?o ?f ?c ?v] =>
    assert (if_some o f c v = (Ok tt, upd_PreviousDowntimeParams_ (λ o', match o with Some p => Some p | None => o' end) v)) as ->
      by (destruct o; [done|by destruct v as [[] [] [] [] [] ? ? ?]]) end.
  rewrite bind_run, (writes_run upd_EpochShareRecords (λ r, (es_ConsumerId r, es_DistributedAtUnixNano r)) es_Share) by upd_laws.
  rewrite bind_run, withheld_run by done.
  rewrite bind_run, (writes_run upd_AcceptedDowntimeWindows (λ e, (wr_ConsumerId e, wr_ProviderConsAddr e, wr_WindowEndHeight e)) window_of) by upd_laws.
  rewrite bind_run, (writes_run upd_DowntimeWindowFloors (λ e, (fl_ConsumerId e, fl_ProviderConsAddr e)) fl_WindowEndHeight) by upd_laws.
  rewrite bind_run, punished_run.
  by rewrite (writes_run upd_EpochDowntime (λ e, (ed_ConsumerId e, ed_ProviderConsAddr e)) (λ _, true)) by upd_laws.
Qed.

Lemma before_run gs c (w : World) :
  consistent_states (gs_ConsumerStates gs) → empty_consumers w → s_ConsumerFeePoolTotalShares w = ∅ →
  (∀ s, s ∈ gs_ConsumerFeePoolShares gs → is_Some (AccAddressFromBech32 (fs_Depositor s))) →
  InitGenesis gs c w = (
    phases ← gets (λ w, iterate (s_ConsumerPhases w));
    for_each phases (import_pool (foldl add_share ∅ (gs_ConsumerFeePoolShares gs)));;
    import_params gs;; import_downtime gs;; InitGenesisValUpdates) c (before gs w).
Proof.
  intros Hst Hec Htot Hdep. unfold InitGenesis, before, passes. cbv zeta.
  rewrite bind_run. cbn [SetValidatorSetUpdateId modify].
  rewrite bind_run, first_pass_run by done. rewrite bind_run, second_pass_run.
  set (w1 := foldl derived _ _).
  assert (s_ConsumerFeePoolTotalShares w1 = ∅) as E1.
  { unfold w1. by rewrite !(foldl_keep s_ConsumerFeePoolTotalShares) by reflexivity. }
  rewrite bind_run. unfold next_id.
  match goal with |- context [when ?b (modify ?f) c w1] =>
    assert (when b (modify f) c w1 = (Ok tt, upd_ConsumerIdSeq (next_id (gs_ConsumerStates gs)) w1)) as -> end.
  { unfold next_id. destruct (Nat.ltb _ _); [done|]. by destruct w1 as [[] [] [] [] [] ? ? ?]. }
  rewrite bind_run. unfold import_override at 1.
  rewrite (writes_run upd_ConsumerFeesPerBlockOverride ov_ConsumerId (λ ov, default 0 (NewIntFromString (ov_Amount ov)))) by upd_laws.
  rewrite bind_run. unfold SetValidatorConsumerPubKey at 1.
  rewrite (writes_run upd_ValidatorConsumerPubKey (λ i : N * string * PubKey, i.1) snd) by upd_laws.
  rewrite bind_run. unfold SetValidatorByConsumerAddr at 1.
  rewrite (writes_run upd_ValidatorByConsumerAddr (λ i : N * string * string, i.1) snd) by upd_laws.
  rewrite bind_run, prune_run. rewrite bind_run, shares_run by done.
  by rewrite bind_run, totals_run.
Qed.

Lemma InitGenesis_run gs vals st b i c :
  let w0 := fresh st b i in let totals := foldl add_share ∅ (gs_ConsumerFeePoolShares gs) in
  loadable gs vals w0 → ledger_ok (before gs w0) →
  ∃ v, pools_opened totals (iterate (s_ConsumerPhases (before gs w0))) (before gs w0) v ∧
    InitGenesis gs c w0 = (Ok ((λ v, mkUpdate (PublicKey v) (cv_Power v)) <$> vals), after gs vals v).
Proof.
  intros w0 totals [Hst Hdep Hkeys Hpos Hip Htr Hwf Hbond] Hl.
  destruct (pools_run totals (iterate (s_ConsumerPhases (before gs w0))) c (before gs w0) Hl) as (v & Ev & Hv);
    [apply NoDup_fst_iterate|]. exists v. split; [done|].
  rewrite before_run by done. rewrite bind_run. cbn [gets]. fold totals. rewrite bind_run, Ev.
  destruct (po_frame _ _ _ _ Hv) as (s & t & a & Ew).
  assert (s_InfractionParams_ v = None ∧ w_staking v = st) as [E1 E2].
  { rewrite Ew. split.
    - change (s_InfractionParams_ (passes gs w0) = None). unfold passes. by rewrite !(foldl_keep s_InfractionParams_).
    - change (w_staking (passes gs w0) = st). unfold passes. by rewrite !(foldl_keep w_staking). }
  rewrite bind_run, params_run by done. rewrite bind_run, downtime_run by done.
  rewrite (val_updates_run vals); [done|].
  destruct Hbond as (vs & E & Hall). exists vs. cbn. rewrite E2. split; [done|].
  eapply Forall2_impl; [exact Hall|]. intros x y. unfold CreateProviderConsensusValidator. cbn. by rewrite E2.
Qed.
End passes.
