(* ===== verification/GenesisStart.v ===== *)
(** A chain started from a genesis that passes its validation begins in the
    states the theorems about running chains assume: consistent fee pools, and a
    spawn queue that holds exactly the INITIALIZED consumers. *)
From S2P Require Import Prelude GoTime Types Externals World Keeper Queues FeePool FeePoolProofs FeesProofs.
From S2P Require Import Msgs Genesis PhaseProofs GenesisProofs.

(** ** What validation means *)
Section once.
Context {A K : Type} `{EqDecision K} (ok : A → bool) (key : A → K).
Lemma each_once_spec seen l :
  each_once ok key seen l = true ↔
  (∀ x, x ∈ l → ok x = true) ∧ NoDup (key <$> l) ∧ (∀ x, x ∈ l → key x ∉ seen).
Proof.
  revert seen. induction l as [|y l IH]; intros seen; cbn [each_once].
  { split; [|done]. intros _. split_and!; [set_solver|constructor|set_solver]. }
  rewrite !andb_true_iff, negb_true_iff, bool_decide_eq_false, IH, fmap_cons, NoDup_cons.
  setoid_rewrite elem_of_cons. setoid_rewrite list_elem_of_fmap. split.
  - intros ((Hok & Hy) & Hl & Hnd & Hs). split_and!; try done.
    + intros x [->|Hx]; [done|by apply Hl].
    + intros (x & E & Hx). apply (Hs x Hx). by left.
    + intros x [->|Hx] Hin; [done|]. apply (Hs x Hx). by right.
  - intros (Hl & (Hy & Hnd) & Hs). split_and!; try done; [by apply Hl; left|by apply Hs; left|by intros x Hx; apply Hl; right|].
    intros x Hx [E|Hin]; [apply Hy; by exists x|]. by apply (Hs x); [right|].
Qed.
Lemma each_once_all l x : each_once ok key [] l = true → x ∈ l → ok x = true.
Proof. intros (H & _)%each_once_spec. apply H. Qed.
Lemma each_once_keys l : each_once ok key [] l = true → NoDup (key <$> l).
Proof. by intros (_ & H & _)%each_once_spec. Qed.
End once.

Ltac split_checks := repeat match goal with
  | H : (_ && _) = true |- _ => apply andb_true_iff in H; destruct H as [? ?]
  end.

Section start.
Context `{GX : GenesisExternals}.

(** The parts of a validated genesis the import relies on. *)
Record validated (gs : GenesisState) : Prop := {
  vd_states cs : cs ∈ gs_ConsumerStates gs → ConsumerState_Validate cs = true;
  vd_ids : NoDup (cs_ConsumerId <$> gs_ConsumerStates gs);
  vd_depositors s : s ∈ gs_ConsumerFeePoolShares gs → is_Some (AccAddressFromBech32 (fs_Depositor s));
  vd_shares s : s ∈ gs_ConsumerFeePoolShares gs → 0 < fs_Shares s;
  vd_infractions ip : gs_InfractionParameters gs = Some ip →
    InfractionParameters_Validate ip = true ∧ ValidateInfractionParamsAgainst ip (TrustingPeriodFraction (gs_Params gs)) = true;
}.
Lemma Validate_validated gs : GenesisState_Validate gs = true → validated gs.
Proof.
  unfold GenesisState_Validate. cbv zeta. intros H. split_checks.
  match goal with H : each_once ConsumerState_Validate _ _ _ = true |- _ => rename H into Hstates end.
  match goal with H : validateConsumerFeePoolShares _ _ = true |- _ => rename H into Hshares end.
  assert (∀ s, s ∈ gs_ConsumerFeePoolShares gs →
    is_Some (AccAddressFromBech32 (fs_Depositor s)) ∧ 0 < fs_Shares s) as Hs.
  { intros s Hin. pose proof (each_once_all _ _ _ s Hshares Hin) as Hok. cbn beta in Hok. split_checks.
    split; [by eapply bool_decide_eq_true|by apply Z.ltb_lt]. }
  split; [by intros; eapply each_once_all|by eapply each_once_keys|by intros s Hin; apply Hs..|].
  intros ip E. match goal with H : match gs_InfractionParameters gs with _ => _ end = true |- _ => rewrite E in H end.
  by apply andb_true_iff.
Qed.

(** A validated state by its phase: what is present follows the phase. *)
Lemma validated_registered cs :
  ConsumerState_Validate cs = true → cs_Phase cs = CONSUMER_PHASE_REGISTERED → cs_InitParams cs = None.
Proof.
  unfold ConsumerState_Validate. intros H E. rewrite E in H. cbv zeta in H. split_checks.
  by destruct (cs_InitParams cs).
Qed.
Lemma validated_initialized cs :
  ConsumerState_Validate cs = true → cs_Phase cs = CONSUMER_PHASE_INITIALIZED → is_Some (cs_InitParams cs).
Proof.
  unfold ConsumerState_Validate. intros H E. rewrite E in H. cbv zeta in H. split_checks.
  by destruct (cs_InitParams cs).
Qed.
Lemma validated_phase cs : ConsumerState_Validate cs = true → cs_Phase cs ≠ CONSUMER_PHASE_UNSPECIFIED.
Proof.
  unfold ConsumerState_Validate. intros H E. rewrite E in H. cbv zeta in H. split_checks. done.
Qed.

(** What validation does not check and a start needs. *)
Record startable (gs : GenesisState) (vals : list ConsensusValidator) (w : World) : Prop := {
  sb_ids cs : cs ∈ gs_ConsumerStates gs → (cs_ConsumerId cs < 2 ^ 64 - 1)%N;
  sb_clients cs cs' cl : cs ∈ gs_ConsumerStates gs → cs' ∈ gs_ConsumerStates gs →
    nonempty (cs_ClientId cs) = Some cl → nonempty (cs_ClientId cs') = Some cl → cs_ConsumerId cs = cs_ConsumerId cs';
  sb_heights cs p : cs ∈ gs_ConsumerStates gs → cs_InitParams cs = Some p → cs_Phase cs = CONSUMER_PHASE_DELETED ∨
    ∃ chain, nonempty (cs_ChainId cs) = Some chain ∧ ValidateInitialHeight (InitialRevision p) chain = true;
  sb_spawn cs p : cs ∈ gs_ConsumerStates gs → cs_Phase cs = CONSUMER_PHASE_INITIALIZED →
    cs_InitParams cs = Some p → SpawnTime p ≠ 0;
  (* the decoded depositors differ, not only their spellings *)
  sb_share_keys : NoDup (share_key <$> gs_ConsumerFeePoolShares gs);
  sb_infractions : gs_InfractionParameters gs = None → InfractionParameters_Validate DefaultInfractionParameters = true ∧
    ValidateInfractionParamsAgainst DefaultInfractionParameters (TrustingPeriodFraction (gs_Params gs)) = true;
  sb_withheld r : r ∈ gs_WithheldFeeRecords gs → Denom (wf_Amount r) = feeDenom;
  sb_bonded : bonded w vals;
}.

Lemma startable_loadable gs vals w : validated gs → startable gs vals w → loadable gs vals w.
Proof.
  intros [Hst Hids Hdep Hpos Hip] [H1 H2 H3 H4 H5 H6 H7 H8].
  assert (InfractionParameters_Validate (infraction_params gs) = true ∧
    ValidateInfractionParamsAgainst (infraction_params gs) (TrustingPeriodFraction (gs_Params gs)) = true) as [E1 E2].
  { unfold infraction_params. destruct (gs_InfractionParameters gs); [by apply Hip|by apply H6]. }
  by split; [split|..].
Qed.

(** *** The books *)
Lemma ledger_before gs st b i :
  (∀ s, s ∈ gs_ConsumerFeePoolShares gs → 0 < fs_Shares s) → NoDup (share_key <$> gs_ConsumerFeePoolShares gs) →
  ledger_ok (before gs (fresh st b i)).
Proof.
  intros Hpos Hnd.
  assert (s_ConsumerFeePoolShares (before gs (fresh st b i)) = share_puts (gs_ConsumerFeePoolShares gs) ∅) as Es.
  { change (share_puts (gs_ConsumerFeePoolShares gs) (s_ConsumerFeePoolShares (passes gs (fresh st b i)))
      = share_puts (gs_ConsumerFeePoolShares gs) ∅). unfold passes. by rewrite !(foldl_keep s_ConsumerFeePoolShares). }
  split_and!.
  - intros k s. rewrite Es. unfold share_puts. rewrite puts_empty by done. intros (x & Hx & _ & [= <-]). by apply Hpos.
  - intros k t. change (s_ConsumerFeePoolTotalShares (before gs (fresh st b i)))
      with (foldl add_share ∅ (gs_ConsumerFeePoolShares gs)). by apply totals_positive.
  - intros id denom. rewrite Es, <-totals_sum by done. done.
Qed.

(** *** The phases *)
Lemma passes_phases gs st b i :
  s_ConsumerPhases (passes gs (fresh st b i)) = puts cs_ConsumerId (λ cs, Some (cs_Phase cs)) (gs_ConsumerStates gs) ∅.
Proof.
  unfold passes. rewrite (foldl_keep s_ConsumerPhases derived) by reflexivity.
  by rewrite (foldl_proj s_ConsumerPhases imported (λ m cs, put_opt (cs_ConsumerId cs) (Some (cs_Phase cs)) m)).
Qed.
Lemma passes_params gs st b i :
  s_ConsumerInitParams (passes gs (fresh st b i)) = puts cs_ConsumerId cs_InitParams (gs_ConsumerStates gs) ∅.
Proof.
  unfold passes. rewrite (foldl_keep s_ConsumerInitParams derived) by reflexivity.
  by rewrite (foldl_proj s_ConsumerInitParams imported (λ m cs, put_opt (cs_ConsumerId cs) (cs_InitParams cs) m)).
Qed.
Lemma passes_queue gs st b i :
  s_SpawnTimeToConsumerIds (passes gs (fresh st b i)) =
  foldl (λ q cs, append_opt (cs_ConsumerId cs) (spawn_due cs) q) ∅ (gs_ConsumerStates gs).
Proof.
  unfold passes. rewrite (foldl_proj s_SpawnTimeToConsumerIds derived
    (λ q cs, append_opt (cs_ConsumerId cs) (spawn_due cs) q)) by reflexivity.
  by rewrite (foldl_keep s_SpawnTimeToConsumerIds imported).
Qed.

(** The launch view an import leaves. *)
Definition started (gs : GenesisState) : LaunchView := mkLaunchView
  (puts cs_ConsumerId (λ cs, Some (cs_Phase cs)) (gs_ConsumerStates gs) ∅)
  (puts cs_ConsumerId cs_InitParams (gs_ConsumerStates gs) ∅)
  (foldl (λ q cs, append_opt (cs_ConsumerId cs) (spawn_due cs) q) ∅ (gs_ConsumerStates gs))
  (next_id (gs_ConsumerStates gs) 0).
Lemma view_before gs st b i : view (before gs (fresh st b i)) = started gs.
Proof.
  unfold started. rewrite <-(passes_phases gs st b i), <-(passes_params gs st b i), <-(passes_queue gs st b i).
  unfold view. f_equal. change (next_id (gs_ConsumerStates gs) (s_ConsumerIdSeq (passes gs (fresh st b i)))
    = next_id (gs_ConsumerStates gs) 0). unfold passes. by rewrite !(foldl_keep s_ConsumerIdSeq).
Qed.

Lemma foldr_max_le (l : list N) x : x ∈ l → (x ≤ foldr N.max 0 l)%N.
Proof. induction l as [|y l IH]; [set_solver|]. intros [->|Hx%IH]%elem_of_cons; cbn; lia. Qed.
Lemma foldr_max_lt (l : list N) b : (0 < b)%N → (∀ x, x ∈ l → (x < b)%N) → (foldr N.max 0 l < b)%N.
Proof.
  intros Hb. induction l as [|y l IH]; intros Hl; [done|]. cbn.
  pose proof (Hl y ltac:(by left)). pose proof (IH ltac:(intros x Hx; apply Hl; by right)). lia.
Qed.

Lemma started_phase gs cs : NoDup (cs_ConsumerId <$> gs_ConsumerStates gs) → cs ∈ gs_ConsumerStates gs →
  phase_in (cs_ConsumerId cs) (started gs) = cs_Phase cs.
Proof. intros Hnd Hin. unfold phase_in. cbn. by rewrite puts_lookup. Qed.
Lemma started_phase_inv gs id p : NoDup (cs_ConsumerId <$> gs_ConsumerStates gs) →
  phase_in id (started gs) = p → p ≠ CONSUMER_PHASE_UNSPECIFIED →
  ∃ cs, cs ∈ gs_ConsumerStates gs ∧ cs_ConsumerId cs = id ∧ cs_Phase cs = p.
Proof.
  intros Hnd E Hp. unfold phase_in in E. cbn in E.
  destruct (puts _ _ _ ∅ !! id) as [p'|] eqn:El; [|by subst]. cbn in E. subst p'.
  apply puts_empty in El as (cs & Hin & <- & [= E']); [|done]. by exists cs.
Qed.
Lemma started_spawn gs cs : NoDup (cs_ConsumerId <$> gs_ConsumerStates gs) → cs ∈ gs_ConsumerStates gs →
  spawn_of (cs_ConsumerId cs) (started gs) = match cs_InitParams cs with Some p => SpawnTime p | None => 0 end.
Proof. intros Hnd Hin. unfold spawn_of. cbn. rewrite puts_lookup by done. by destruct (cs_InitParams cs). Qed.
Lemma started_waiting gs ts :
  waiting ts (started gs) = cs_ConsumerId <$> filter (λ cs, spawn_due cs = Some ts) (gs_ConsumerStates gs).
Proof. unfold waiting. cbn. rewrite appends_lookup. by rewrite lookup_empty. Qed.

Lemma started_ok gs vals w : validated gs → startable gs vals w → launch_ok [] (started gs).
Proof.
  intros [Hst Hids _ _ _] [Hmax _ _ Hspawn _ _ _ _].
  split.
  - intros id ts. rewrite started_waiting. intros (cs & -> & [Hdue Hin]%list_elem_of_filter)%list_elem_of_fmap.
    rewrite started_phase, started_spawn by done. unfold spawn_due in Hdue. case_decide as Hph; [|done].
    destruct (cs_InitParams cs) as [p|] eqn:Ep; [|done]. injection Hdue as <-.
    split_and!; [done|done|by eapply Hspawn|set_solver].
  - intros ts. rewrite started_waiting. eapply sublist_NoDup; [exact Hids|]. apply fmap_sublist, sublist_filter.
  - intros id []%elem_of_nil.
  - intros id (cs & Hin & <- & Hph)%started_phase_inv; [|done..]. right.
    rewrite started_waiting, started_spawn by done.
    destruct (validated_initialized cs (Hst cs Hin) Hph) as [p Ep]. rewrite Ep.
    apply list_elem_of_fmap_2, list_elem_of_filter. split; [|done]. unfold spawn_due. by rewrite decide_True, Ep.
  - intros id (cs & Hin & <- & Hph)%started_phase_inv; [|done..]. rewrite started_spawn by done.
    by rewrite (validated_registered cs (Hst cs Hin) Hph).
  - intros id Hs. unfold phase_in. cbn. rewrite puts_other; [by rewrite lookup_empty|].
    intros (cs & -> & Hin)%list_elem_of_fmap. unfold next_id in Hs.
    destruct (gs_ConsumerStates gs) as [|cs0 css] eqn:El; [by apply elem_of_nil in Hin|]. rewrite <-El in *.
    cbn [v_seq started] in Hs. unfold next_id in Hs. rewrite El in Hs. cbn [length Nat.ltb Nat.leb] in Hs. rewrite <-El in Hs.
    pose proof (foldr_max_le (cs_ConsumerId <$> gs_ConsumerStates gs) (cs_ConsumerId cs) ltac:(by apply list_elem_of_fmap_2)).
    assert (foldr N.max 0 (cs_ConsumerId <$> gs_ConsumerStates gs) < 2 ^ 64 - 1)%N as Hlt.
    { apply foldr_max_lt; [done|]. intros x (cs' & -> & Hin')%list_elem_of_fmap. by apply Hmax. }
    unfold u64_succ in Hs. rewrite N.mod_small in Hs by lia. lia.
Qed.

(** *** The start *)
Context (Hbalances : ∀ b a coin, coin ∈ GetAllBalances b a → 0 < Amount coin) `{!PayoutLaws}.

(** C10. A genesis that passes validation and is startable imports without a panic into a
    well-formed state: consistent fee-pool books, a spawn queue holding exactly the
    INITIALIZED consumers, every consumer in its phase, and shares behind every coin of a
    live pool. Startable is what the import needs and validation does not check: consumer
    ids below 2^64 - 1, distinct clients, an initial height of the chain id's revision for
    every consumer that is not deleted, a spawn time other than the zero time for every
    INITIALIZED one, no two share records of one pool and denom whose depositors decode to
    the same address, withheld fee records in the fee denom, the default infraction
    parameters valid for the given parameters if the genesis has none, and a bonded set
    x/staking can read. *)
Theorem genesis_starts_consistent gs vals st b i c :
  GenesisState_Validate gs = true → startable gs vals (fresh st b i) →
  ∃ w, InitGenesis gs c (fresh st b i) = (Ok ((λ v, mkUpdate (PublicKey v) (cv_Power v)) <$> vals), w) ∧
    ledger_ok w ∧ launch_ok [] (view w) ∧
    (∀ cs, cs ∈ gs_ConsumerStates gs → GetConsumerPhase (cs_ConsumerId cs) w = cs_Phase cs) ∧
    (∀ cs coin, cs ∈ gs_ConsumerStates gs → cs_Phase cs ≠ CONSUMER_PHASE_DELETED →
       coin ∈ GetAllBalances b (GetConsumerFeePoolAddress (cs_ConsumerId cs)) →
       ∃ total, get_total (cs_ConsumerId cs) (Denom coin) w = Some total ∧ 0 < total).
Proof.
  intros Hv%Validate_validated Hs. pose proof (startable_loadable _ _ _ Hv Hs) as Hload.
  pose proof (ledger_before gs st b i (vd_shares _ Hv) (sb_share_keys _ _ _ Hs)) as Hl.
  destruct (InitGenesis_run Hbalances gs vals st b i c Hload Hl) as (v & Hopen & E).
  exists (after gs vals v). split; [exact E|].
  assert (view v = started gs) as Eview.
  { rewrite <-(view_before gs st b i). destruct (po_frame _ _ _ _ Hopen) as (s & t & a & ->). reflexivity. }
  assert (∀ cs, cs ∈ gs_ConsumerStates gs → (cs_ConsumerId cs, cs_Phase cs) ∈ iterate (s_ConsumerPhases (before gs (fresh st b i)))) as Hph.
  { intros cs Hin. apply elem_of_iterate. change (s_ConsumerPhases (before gs (fresh st b i))) with (v_phases (view (before gs (fresh st b i)))).
    rewrite view_before. cbn. rewrite puts_lookup; [done|apply Hv|done]. }
  split_and!.
  - exact (po_ledger _ _ _ _ Hopen).
  - change (view (after gs vals v)) with (view v). rewrite Eview. by eapply started_ok.
  - intros cs Hin. change (phase_in (cs_ConsumerId cs) (view v) = cs_Phase cs). rewrite Eview.
    apply started_phase; [apply Hv|done].
  - intros cs coin Hin Hdel Hcoin.
    assert (is_Some (get_total (cs_ConsumerId cs) (Denom coin) v)) as [t Et].
    { assert (w_bank (before gs (fresh st b i)) = b) as Eb
        by (change (w_bank (passes gs (fresh st b i)) = b); unfold passes; by rewrite !(foldl_keep w_bank)).
      destruct (foldl add_share ∅ (gs_ConsumerFeePoolShares gs) !! (cs_ConsumerId cs, Denom coin)) as [t|] eqn:Et.
      - destruct (po_kept _ _ _ _ Hopen (cs_ConsumerId cs) (Denom coin)) as [-> _]; [intros [_ [Hn _]]; congruence|].
        by exists t.
      - apply (po_backed _ _ _ _ Hopen); [by exists (cs_Phase cs); split; [apply Hph|]|].
        split; [done|]. rewrite Eb. by exists coin. }
    exists t. split; [exact Et|]. destruct (po_ledger _ _ _ _ Hopen) as (_ & Hpos & _). by eapply Hpos.
Qed.
End start.
