(* ===== verification/GenesisRoundTrip.v ===== *)
(** The round-trip contract of docs/genesis-restart-runbook.md for the provider:
    a chain started from an exported state holds that state, and exports it again
    unchanged. *)
From S2P Require Import Prelude GoTime Types Externals World Keeper Queues FeePool FeePoolProofs FeesProofs.
From S2P Require Import Msgs Genesis PhaseProofs GenesisProofs GenesisStart.

(** An integer parses back from its decimal form. *)
Class GenesisLaws `{GX : GenesisExternals} : Prop :=
  Int_String_parses z : NewIntFromString (Int_String z) = Some z.

(** ** Lists by key *)
Lemma filter_key {K V} `{EqDecision K} (l : list (K * V)) k v :
  NoDup l.*1 → (k, v) ∈ l → filter (λ x, x.1 = k) l = [(k, v)].
Proof.
  induction l as [|[k' v'] l IH]; [set_solver|]. rewrite fmap_cons, NoDup_cons. intros [Hn Hnd].
  intros [[= <- <-]|Hin]%elem_of_cons.
  - rewrite filter_cons_True, list_filter_none; [done| |done]. intros x Hx <-. apply Hn. cbn. by apply list_elem_of_fmap_2.
  - rewrite filter_cons_False; [by apply IH|]. cbn. intros ->. apply Hn.
    by apply (list_elem_of_fmap_2 fst l (k, v)).
Qed.
Lemma elem_of_concat {A} (x : A) ls : x ∈ concat ls ↔ ∃ l, x ∈ l ∧ l ∈ ls.
Proof. rewrite list_elem_of_In, in_concat. setoid_rewrite <-list_elem_of_In. naive_solver. Qed.
Lemma NoDup_concat_keys {T V} (f : N → list (N * T * V)) (ids : list N) :
  NoDup ids → (∀ id, NoDup (f id).*1) → (∀ id x, x ∈ f id → x.1.1 = id) → NoDup (concat (f <$> ids)).*1.
Proof.
  intros Hids Hf Hk. induction Hids as [|id ids Hn _ IH]; [constructor|]. cbn. rewrite fmap_app.
  apply NoDup_app. split_and!; [done| |done].
  intros k (x & -> & Hx)%list_elem_of_fmap (y & E & (l & Hy & (id' & -> & Hid)%list_elem_of_fmap)%elem_of_concat)%list_elem_of_fmap.
  apply Hk in Hx. apply Hk in Hy. apply Hn. congruence.
Qed.

(** Maps of lists without empty buckets are equal as their buckets are. *)
Definition filled {K V} `{Countable K} (m : gmap K (list V)) : Prop := ∀ k, m !! k ≠ Some [].
Lemma buckets_eq {K V} `{Countable K} (m m' : gmap K (list V)) :
  filled m → filled m' → (∀ k, default [] (m !! k) = default [] (m' !! k)) → m = m'.
Proof.
  intros H1 H2 E. apply map_eq. intros k. specialize (H1 k). specialize (H2 k). specialize (E k).
  destruct (m !! k) as [l|], (m' !! k) as [l'|]; cbn in E; congruence.
Qed.
Lemma append_addrs_filled l m : filled m → filled (append_addrs l m).
Proof.
  assert (∀ (addrs : list string) k (m : gmap (N * Time) (list string)), filled m →
    filled (foldl (λ m a, <[k := default [] (m !! k) ++ [a]]> m) m addrs)) as Hone.
  { intros addrs k. induction addrs as [|a addrs IH]; intros m' Hm'; [done|]. apply IH. intros k'.
    destruct (decide (k' = k)) as [->|Hne]; [rewrite lookup_insert_eq; by destruct (default [] _)|].
    rewrite lookup_insert_ne by done. apply Hm'. }
  revert m. induction l as [|[k addrs] l IH]; intros m Hm; [done|]. by apply IH, Hone.
Qed.

#[local] Arguments puts : simpl never.

Section round_trip.
Context `{GX : GenesisExternals, !GenesisLaws}.

(** What [ExportGenesis] reads. *)
Definition exported (w : World) (params : Params) : GenesisState :=
  mkGenesisState (GetValidatorSetUpdateId w) (export_consumer w <$> GetAllConsumerIds w) params
    (iterate (s_ValidatorConsumerPubKey w)) (iterate (s_ValidatorByConsumerAddr w))
    (concat ((λ id, GetAllConsumerAddrsToPrune id w) <$> GetAllConsumerIds w))
    (export_overrides w) (exportFeePoolShares w) (exportPendingDowntimeSlashes w) (s_PreviousDowntimeParams_ w)
    (exportEpochShareRecords w) (s_InfractionParams_ w) (exportWithheldFeeRecords w)
    (exportAcceptedDowntimeWindows w) (exportEpochDowntimeEntries w) (exportDowntimeWindowFloors w)
    (exportPunishedEquivocations w).

Lemma ExportGenesis_run c w params :
  s_Params_ w = Some params → ExportGenesis c w = (Ok (exported w params), w).
Proof.
  intros E. unfold ExportGenesis, GetParams, exported. repeat (rewrite bind_run; cbn [gets]).
  rewrite E. cbn [or_panic mret M_ret]. repeat (rewrite bind_run; cbn [gets]).
  unfold GetAllValidatorConsumerPubKeys, GetAllValidatorsByConsumerAddr. by rewrite !list_filter_all.
Qed.

Lemma export_unique c w params gs w' :
  s_Params_ w = Some params → ExportGenesis c w = (Ok gs, w') → gs = exported w params.
Proof. intros E. rewrite (ExportGenesis_run c w params E). by intros [= <-]. Qed.

(** *** The ids handed out *)
Lemma elem_of_AllConsumerIds w id : id ∈ GetAllConsumerIds w ↔ (id < s_ConsumerIdSeq w)%N.
Proof.
  unfold GetAllConsumerIds, GetConsumerId. destruct (N.eqb_spec (s_ConsumerIdSeq w) 0) as [E|E].
  - rewrite E. split; [by intros []%elem_of_nil|lia].
  - rewrite list_elem_of_fmap. setoid_rewrite elem_of_seq. split.
    + intros (n & -> & Hn). lia.
    + intros Hn. exists (N.to_nat id). lia.
Qed.
Lemma NoDup_AllConsumerIds w : NoDup (GetAllConsumerIds w).
Proof.
  unfold GetAllConsumerIds. destruct (GetConsumerId w); [|constructor].
  apply NoDup_fmap; [intros x y; apply Nat2N.inj|apply NoDup_seq].
Qed.

(** No record of a consumer. *)
Definition unknown (id : N) (w : World) : Prop :=
  s_ConsumerChainId w !! id = None ∧ s_ConsumerOwnerAddress w !! id = None ∧ s_ConsumerMetadata w !! id = None ∧
  s_ConsumerInitParams w !! id = None ∧ s_ConsumerGenesis w !! id = None ∧ s_ConsumerRemovalTime w !! id = None ∧
  s_ConsumerPauseExpirationTime w !! id = None ∧ s_ConsumerPauseReason w !! id = None ∧
  s_ConsumerPausedAt w !! id = None ∧ s_ConsumerLastAckTime w !! id = None ∧ s_ConsumerClients w !! id = None ∧
  s_PendingVSCPackets w !! id = None ∧ s_ConsumerHighestSentVscId w !! id = None ∧
  s_ConsumerHighestAckedVscId w !! id = None ∧ s_ConsumerDebt w !! id = None.

(** The states whose export can be imported again. A running chain can leave
    them: an owner that changes only the chain id of a consumer before its launch
    can leave an initial height of another revision ([ex_heights]), and coins sent
    to a live pool outside its messages are without shares ([ex_backed]) until the
    pool is next used. *)
Record exportable (w : World) (params : Params) (vals : list ConsensusValidator) : Prop := {
  ex_seq : (s_ConsumerIdSeq w < 2 ^ 64)%N;
  ex_phases id : (id < s_ConsumerIdSeq w)%N ↔ is_Some (s_ConsumerPhases w !! id);
  ex_new id : (s_ConsumerIdSeq w ≤ id)%N → unknown id w;
  ex_names id : s_ConsumerChainId w !! id ≠ Some "" ∧ s_ConsumerOwnerAddress w !! id ≠ Some "" ∧
    s_ConsumerClients w !! id ≠ Some "";
  ex_clients id id' cl : s_ConsumerClients w !! id = Some cl → s_ConsumerClients w !! id' = Some cl → id = id';
  ex_heights id p : s_ConsumerInitParams w !! id = Some p → GetConsumerPhase id w = CONSUMER_PHASE_DELETED ∨
    ∃ chain, s_ConsumerChainId w !! id = Some chain ∧ ValidateInitialHeight (InitialRevision p) chain = true;
  ex_prune k addrs : s_ConsumerAddrsToPrune w !! k = Some addrs → (k.1 < s_ConsumerIdSeq w)%N ∧ addrs ≠ [];
  ex_ledger : ledger_ok w;
  ex_backed id phase coin : s_ConsumerPhases w !! id = Some phase → phase ≠ CONSUMER_PHASE_DELETED →
    coin ∈ GetAllBalances (w_bank w) (GetConsumerFeePoolAddress id) → is_Some (get_total id (Denom coin) w);
  ex_depositors id denom dep : is_Some (get_shares id denom dep w) → AccAddressFromBech32 (AccAddressString dep) = Some dep;
  ex_pending k p : s_PendingDowntimeSlashes w !! k = Some p → pending_key p = k;
  ex_withheld k r : s_WithheldFeeRecords w !! k = Some r →
    (wf_ConsumerId r, wf_ProviderConsAddr r) = k ∧ Denom (wf_Amount r) = feeDenom;
  ex_marks k b : s_EpochDowntime w !! k = Some b → b = true;
  ex_params : s_Params_ w = Some params;
  ex_infractions : ∃ ip, s_InfractionParams_ w = Some ip ∧ InfractionParameters_Validate ip = true ∧
    ValidateInfractionParamsAgainst ip (TrustingPeriodFraction params) = true;
  ex_bonded : bonded w vals;
}.

(** *** What a restart gives back *)
Definition same_records (w w' : World) : Prop :=
  s_ConsumerIdSeq w' = s_ConsumerIdSeq w ∧ s_ConsumerPhases w' = s_ConsumerPhases w ∧
  s_ConsumerChainId w' = s_ConsumerChainId w ∧ s_ConsumerOwnerAddress w' = s_ConsumerOwnerAddress w ∧
  s_ConsumerMetadata w' = s_ConsumerMetadata w ∧ s_ConsumerInitParams w' = s_ConsumerInitParams w ∧
  s_ConsumerGenesis w' = s_ConsumerGenesis w ∧ s_ConsumerRemovalTime w' = s_ConsumerRemovalTime w ∧
  s_ConsumerPauseExpirationTime w' = s_ConsumerPauseExpirationTime w ∧ s_ConsumerPausedAt w' = s_ConsumerPausedAt w ∧
  s_ConsumerLastAckTime w' = s_ConsumerLastAckTime w ∧ s_ConsumerClients w' = s_ConsumerClients w.
(** What a getter defaults is the same for every id. *)
Definition same_readings (w w' : World) : Prop := ∀ id,
  GetConsumerPauseReason id w' = GetConsumerPauseReason id w ∧
  GetPendingVSCPackets id w' = GetPendingVSCPackets id w ∧
  GetConsumerHighestSentVscId id w' = GetConsumerHighestSentVscId id w ∧
  GetConsumerHighestAckedVscId id w' = GetConsumerHighestAckedVscId id w ∧
  IsConsumerInDebt id w' = IsConsumerInDebt id w.
Definition same_pools (w w' : World) : Prop :=
  s_ConsumerFeesPerBlockOverride w' = s_ConsumerFeesPerBlockOverride w ∧
  s_ConsumerFeePoolShares w' = s_ConsumerFeePoolShares w ∧
  s_ConsumerFeePoolTotalShares w' = s_ConsumerFeePoolTotalShares w ∧
  s_EpochShareRecords w' = s_EpochShareRecords w ∧ s_WithheldFeeRecords w' = s_WithheldFeeRecords w.

(** *** The consumers *)
Section consumers.
Context (w : World) (params : Params) (vals : list ConsensusValidator) (Hex : exportable w params vals).
Abbreviation gs := (exported w params).
Abbreviation w0 := (fresh (w_staking w) (w_bank w) (w_ibc w)).

Lemma export_ids : cs_ConsumerId <$> gs_ConsumerStates gs = GetAllConsumerIds w.
Proof. cbn. rewrite <-list_fmap_compose. apply list_fmap_id. Qed.
Lemma export_NoDup : NoDup (cs_ConsumerId <$> gs_ConsumerStates gs).
Proof. rewrite export_ids. apply NoDup_AllConsumerIds. Qed.
Lemma elem_of_states cs : cs ∈ gs_ConsumerStates gs ↔ ∃ id, cs = export_consumer w id ∧ (id < s_ConsumerIdSeq w)%N.
Proof. cbn. rewrite list_elem_of_fmap. by setoid_rewrite elem_of_AllConsumerIds. Qed.

(** A map over the exported states. *)
Lemma puts_export {V} (f : ConsumerState → option V) id :
  puts cs_ConsumerId f (gs_ConsumerStates gs) ∅ !! id
  = if decide (id < s_ConsumerIdSeq w)%N then f (export_consumer w id) else None.
Proof.
  case_decide as Hid.
  - change id with (cs_ConsumerId (export_consumer w id)) at 1.
    rewrite puts_lookup; [|apply export_NoDup|apply elem_of_states; by exists id].
    destruct (f _); [done|by rewrite lookup_empty].
  - rewrite puts_other; [by rewrite lookup_empty|]. by rewrite export_ids, elem_of_AllConsumerIds.
Qed.
Lemma puts_export_all {V} (f : ConsumerState → option V) (m : gmap N V) :
  (∀ id, (id < s_ConsumerIdSeq w)%N → f (export_consumer w id) = m !! id) →
  (∀ id, (s_ConsumerIdSeq w ≤ id)%N → m !! id = None) →
  puts cs_ConsumerId f (gs_ConsumerStates gs) ∅ = m.
Proof.
  intros H1 H2. apply map_eq. intros id. rewrite puts_export. case_decide; [by apply H1|].
  symmetry. apply H2. lia.
Qed.

Lemma nonempty_default (o : option string) : o ≠ Some "" → nonempty (default "" o) = o.
Proof. destruct o as [s|]; [|done]. intros Hs. cbn. unfold nonempty. destruct (String.eqb_spec s ""); congruence. Qed.

Lemma export_consistent : consistent_states (gs_ConsumerStates gs).
Proof.
  split; [apply export_NoDup|..].
  - intros cs cs' cl (id & -> & _)%elem_of_states (id' & -> & _)%elem_of_states. cbn.
    rewrite !nonempty_default by apply Hex. apply (ex_clients _ _ _ Hex).
  - intros cs p (id & -> & Hid)%elem_of_states. cbn. intros Ep.
    destruct (ex_heights _ _ _ Hex id p Ep) as [?|(chain & Ec & Hv)]; [by left|right].
    exists chain. split; [|done]. unfold GetConsumerChainId. rewrite nonempty_default; [done|apply Hex].
Qed.

Ltac passed s f :=
  unfold passes; rewrite (foldl_keep s derived) by reflexivity;
  rewrite (foldl_proj s imported (λ m cs, put_opt (cs_ConsumerId cs) (f cs) m)) by reflexivity;
  apply (puts_export_all f);
    [intros id Hid; cbn; try (apply nonempty_default, Hex)|intros id Hid; by apply (ex_new _ _ _ Hex)].

Lemma next_id_export : next_id (gs_ConsumerStates gs) 0 = s_ConsumerIdSeq w.
Proof.
  unfold next_id. assert (length (gs_ConsumerStates gs) = length (GetAllConsumerIds w)) as -> by apply length_fmap. pose proof (ex_seq _ _ _ Hex) as Hseq.
  destruct (N.eqb_spec (s_ConsumerIdSeq w) 0) as [E|E].
  - unfold GetAllConsumerIds, GetConsumerId. by rewrite E.
  - assert (0 < length (GetAllConsumerIds w))%nat as Hlen.
    { unfold GetAllConsumerIds, GetConsumerId. rewrite (proj2 (N.eqb_neq _ _) E), length_fmap, length_seq. lia. }
    rewrite (proj2 (Nat.ltb_lt _ _) Hlen), export_ids.
    assert (foldr N.max 0 (GetAllConsumerIds w) = s_ConsumerIdSeq w - 1)%N as ->.
    { apply N.le_antisymm.
      - pose proof (foldr_max_lt (GetAllConsumerIds w) (s_ConsumerIdSeq w) ltac:(lia)
          ltac:(intros x; apply elem_of_AllConsumerIds)). lia.
      - apply foldr_max_le, elem_of_AllConsumerIds. lia. }
    unfold u64_succ. rewrite N.mod_small; lia.
Qed.

Lemma records_restored : same_records w (before gs w0).
Proof.
  split.
  { change (next_id (gs_ConsumerStates gs) (s_ConsumerIdSeq (passes gs w0)) = s_ConsumerIdSeq w).
    unfold passes. rewrite !(foldl_keep s_ConsumerIdSeq) by reflexivity. apply next_id_export. }
  split_and!.
  - change (s_ConsumerPhases (passes gs w0) = s_ConsumerPhases w). unfold passes.
    rewrite (foldl_keep s_ConsumerPhases derived) by reflexivity.
    rewrite (foldl_proj s_ConsumerPhases imported (λ m cs, put_opt (cs_ConsumerId cs) (Some (cs_Phase cs)) m)) by reflexivity.
    apply (puts_export_all (λ cs, Some (cs_Phase cs))); intros id Hid.
    + cbn. unfold GetConsumerPhase. by destruct (proj1 (ex_phases _ _ _ Hex id) Hid) as [p ->].
    + apply eq_None_not_Some. intros Hsome%(ex_phases _ _ _ Hex). lia.
  - change (s_ConsumerChainId (passes gs w0) = s_ConsumerChainId w).
    passed s_ConsumerChainId (λ cs, nonempty (cs_ChainId cs)).
  - change (s_ConsumerOwnerAddress (passes gs w0) = s_ConsumerOwnerAddress w).
    passed s_ConsumerOwnerAddress (λ cs, nonempty (cs_OwnerAddress cs)).
  - change (s_ConsumerMetadata (passes gs w0) = s_ConsumerMetadata w). by passed s_ConsumerMetadata cs_Metadata.
  - change (s_ConsumerInitParams (passes gs w0) = s_ConsumerInitParams w). by passed s_ConsumerInitParams cs_InitParams.
  - change (s_ConsumerGenesis (passes gs w0) = s_ConsumerGenesis w). by passed s_ConsumerGenesis cs_ConsumerGenesis.
  - change (s_ConsumerRemovalTime (passes gs w0) = s_ConsumerRemovalTime w). by passed s_ConsumerRemovalTime cs_RemovalTime.
  - change (s_ConsumerPauseExpirationTime (passes gs w0) = s_ConsumerPauseExpirationTime w).
    by passed s_ConsumerPauseExpirationTime cs_PauseExpirationTime.
  - change (s_ConsumerPausedAt (passes gs w0) = s_ConsumerPausedAt w). by passed s_ConsumerPausedAt cs_PausedAt.
  - change (s_ConsumerLastAckTime (passes gs w0) = s_ConsumerLastAckTime w). by passed s_ConsumerLastAckTime cs_LastAckTime.
  - change (s_ConsumerClients (passes gs w0) = s_ConsumerClients w).
    passed s_ConsumerClients (λ cs, nonempty (cs_ClientId cs)).
Qed.

Lemma reason_default cs : default PAUSE_REASON_UNSPECIFIED (pause_reason cs) = cs_PauseReason cs.
Proof. unfold pause_reason. by case_decide. Qed.
Lemma pending_default cs : default [] (pending cs) = cs_PendingValsetChanges cs.
Proof. unfold pending. by destruct (cs_PendingValsetChanges cs). Qed.
Lemma nonzero_default n : default 0%N (nonzero n) = n.
Proof. unfold nonzero. by destruct (N.eqb_spec n 0). Qed.
Lemma debt_default cs : default false (debt_mark cs) = cs_InDebt cs.
Proof. unfold debt_mark. by destruct (cs_InDebt cs). Qed.

(** What a getter reads, for a map written only where it is not the default. *)
Ltac read s f :=
  assert (s (before gs w0) = puts cs_ConsumerId f (gs_ConsumerStates gs) ∅) as ->
    by (change (s (before gs w0)) with (s (passes gs w0)); unfold passes;
        rewrite (foldl_keep s derived) by reflexivity;
        by rewrite (foldl_proj s imported (λ m cs, put_opt (cs_ConsumerId cs) (f cs) m)));
  rewrite puts_export.
Lemma readings_restored : same_readings w (before gs w0).
Proof.
  intros id. unfold GetConsumerPauseReason, GetPendingVSCPackets, GetConsumerHighestSentVscId, GetConsumerHighestAckedVscId, IsConsumerInDebt.
  read s_ConsumerPauseReason pause_reason. read s_PendingVSCPackets pending.
  read s_ConsumerHighestSentVscId (λ cs, nonzero (cs_HighestSentVscId cs)).
  read s_ConsumerHighestAckedVscId (λ cs, nonzero (cs_HighestAckedVscId cs)). read s_ConsumerDebt debt_mark.
  destruct (decide (id < s_ConsumerIdSeq w)%N) as [Hid|Hid].
  - by rewrite reason_default, pending_default, !nonzero_default, debt_default.
  - destruct (ex_new _ _ _ Hex id ltac:(lia)) as (_ & _ & _ & _ & _ & _ & _ & -> & _ & _ & _ & -> & -> & -> & ->). done.
Qed.

(** *** Keys *)
Lemma prune_restored : append_addrs (gs_ConsumerAddrsToPrune gs) ∅ = s_ConsumerAddrsToPrune w.
Proof.
  apply buckets_eq.
  - apply append_addrs_filled. intros k. by rewrite lookup_empty.
  - intros k E. by apply (ex_prune _ _ _ Hex) in E as [_ ?].
  - intros k. rewrite append_addrs_lookup, lookup_empty. cbn [default from_option app].
    assert (∀ addrs, (k, addrs) ∈ gs_ConsumerAddrsToPrune gs ↔ s_ConsumerAddrsToPrune w !! k = Some addrs) as Hin.
    { intros addrs. cbn. rewrite elem_of_concat. setoid_rewrite list_elem_of_fmap. setoid_rewrite elem_of_AllConsumerIds. split.
      - intros (l & Hl & id & -> & _). by apply list_elem_of_filter in Hl as [_ Hl%elem_of_iterate].
      - intros E. destruct (ex_prune _ _ _ Hex k addrs E) as [Hid _].
        exists (GetAllConsumerAddrsToPrune k.1 w). split; [|by exists k.1].
        apply list_elem_of_filter. split; [apply N.eqb_refl|by apply elem_of_iterate]. }
    assert (NoDup (gs_ConsumerAddrsToPrune gs).*1) as Hnd.
    { apply NoDup_concat_keys; [apply NoDup_AllConsumerIds|..].
      - intros id. eapply sublist_NoDup; [apply (NoDup_fst_iterate (s_ConsumerAddrsToPrune w))|].
        apply fmap_sublist, sublist_filter.
      - intros id x [E _]%list_elem_of_filter. by apply N.eqb_eq. }
    destruct (s_ConsumerAddrsToPrune w !! k) as [addrs|] eqn:E.
    + rewrite (filter_key _ k addrs Hnd (proj2 (Hin addrs) eq_refl)). cbn. by rewrite app_nil_r.
    + rewrite list_filter_none; [done|]. intros [k' addrs] Hx Ek. cbn in Ek. subst k'.
      by apply Hin in Hx.
Qed.
Lemma keys_restored : w_ks (before gs w0) = w_ks w.
Proof.
  assert (∀ k, w_ks k = mkKeyStore (s_ValidatorConsumerPubKey k) (s_ValidatorByConsumerAddr k) (s_ConsumerAddrsToPrune k)) as Eta
    by (by intros [? ? [] ? ? ? ? ?]).
  assert (w_ks (passes gs w0) = mkKeyStore ∅ ∅ ∅) as E
    by (unfold passes; by rewrite !(foldl_keep w_ks)).
  rewrite !Eta. f_equal.
  - change (puts (λ i : N * string * PubKey, i.1) (λ i, Some i.2) (iterate (s_ValidatorConsumerPubKey w))
      (s_ValidatorConsumerPubKey (passes gs w0)) = s_ValidatorConsumerPubKey w).
    unfold s_ValidatorConsumerPubKey at 2. rewrite E. cbn [ValidatorConsumerPubKey].
    rewrite <-(list_fmap_id (iterate _)). by apply puts_iterate.
  - change (puts (λ i : N * string * string, i.1) (λ i, Some i.2) (iterate (s_ValidatorByConsumerAddr w))
      (s_ValidatorByConsumerAddr (passes gs w0)) = s_ValidatorByConsumerAddr w).
    unfold s_ValidatorByConsumerAddr at 2. rewrite E. cbn [ValidatorByConsumerAddr].
    rewrite <-(list_fmap_id (iterate _)). by apply puts_iterate.
  - change (append_addrs (gs_ConsumerAddrsToPrune gs) (s_ConsumerAddrsToPrune (passes gs w0)) = s_ConsumerAddrsToPrune w).
    unfold s_ConsumerAddrsToPrune at 1. rewrite E. apply prune_restored.
Qed.

(** *** Downtime *)
Lemma punished_restored :
  list_to_set (punish <$> gs_PunishedEquivocations gs) ∪ ∅ = s_PunishedEquivocations w.
Proof.
  rewrite (right_id_L ∅ (∪)). apply set_eq. intros x. rewrite elem_of_list_to_set.
  change (gs_PunishedEquivocations gs) with (exportPunishedEquivocations w). unfold exportPunishedEquivocations.
  rewrite <-list_fmap_compose. rewrite (list_fmap_ext _ id), list_fmap_id by (by intros i [[? ?] ?] _).
  rewrite (merge_sort_Permutation key_le). apply elem_of_elements.
Qed.
Lemma downtime_restored v :
  pool_frame (before gs w0) v → w_ds (after gs vals v) = w_ds w.
Proof.
  intros (s & t & a & Ev).
  assert (∀ k, w_ds k = mkDowntimeStore (s_EpochDowntime k) (s_PendingDowntimeSlashes k) (s_AcceptedDowntimeWindows k)
    (s_DowntimeWindowFloors k) (s_PunishedEquivocations k) (s_PreviousDowntimeParams_ k) (s_Params_ k) (s_InfractionParams_ k))
    as Eta by (by intros [? ? ? ? [] ? ? ?]).
  assert (w_ds v = mkDowntimeStore ∅ ∅ ∅ ∅ ∅ None None None) as E.
  { rewrite Ev. change (w_ds (passes gs w0) = mkDowntimeStore ∅ ∅ ∅ ∅ ∅ None None None).
    unfold passes. by rewrite !(foldl_keep w_ds). }
  destruct (ex_infractions _ _ _ Hex) as (ip & Eip & _). pose proof (ex_params _ _ _ Hex) as Eps.
  rewrite !Eta. unfold after. f_equal; cbn; rewrite ?E; cbn.
  - apply puts_iterate. intros [[id p] b] Hin%elem_of_iterate. by rewrite (ex_marks _ _ _ Hex _ _ Hin).
  - apply puts_iterate. intros [k p] Hin%elem_of_iterate. cbn. by rewrite (ex_pending _ _ _ Hex _ _ Hin).
  - apply puts_iterate. by intros [[[id p] e] [st at_]] _.
  - apply puts_iterate. by intros [[id p] e] _.
  - apply punished_restored.
  - change (s_PreviousDowntimeParams_ w) with (gs_PreviousDowntimeParams gs). by destruct (gs_PreviousDowntimeParams gs).
  - by rewrite Eps.
  - unfold infraction_params. cbn. by rewrite Eip.
Qed.

(** *** The pools *)
Lemma overrides_restored :
  puts ov_ConsumerId (λ ov, Some (default 0 (NewIntFromString (ov_Amount ov)))) (export_overrides w) ∅
  = s_ConsumerFeesPerBlockOverride w.
Proof. apply puts_iterate. intros kv _. cbn. by rewrite Int_String_parses. Qed.

Lemma exported_share s : s ∈ exportFeePoolShares w → ∃ denom dep, is_Some (get_shares (fs_ConsumerId s) denom dep w) ∧
  s = mkFeePoolShare (fs_ConsumerId s) (AccAddressString dep) denom (default 0 (get_shares (fs_ConsumerId s) denom dep w)) ∧
  share_key s = (fs_ConsumerId s, denom, dep).
Proof.
  intros ([[[id denom] dep] n] & -> & Hin%elem_of_iterate)%list_elem_of_fmap. exists denom, dep.
  assert (get_shares id denom dep w = Some n) as E by exact Hin.
  split_and!; [by eexists|cbn; by rewrite E|].
  unfold share_key, depositor. cbn. by rewrite (ex_depositors _ _ _ Hex id denom dep) by (by eexists).
Qed.
Lemma share_keys_export : share_key <$> exportFeePoolShares w = (iterate (s_ConsumerFeePoolShares w)).*1.
Proof.
  unfold exportFeePoolShares. rewrite <-list_fmap_compose. apply list_fmap_ext.
  intros i [[[id denom] dep] n] E%list_elem_of_lookup_2%elem_of_iterate. cbn. unfold share_key, depositor. cbn.
  by rewrite (ex_depositors _ _ _ Hex id denom dep) by (by eexists).
Qed.
Lemma shares_restored : share_puts (exportFeePoolShares w) ∅ = s_ConsumerFeePoolShares w.
Proof.
  unfold share_puts, exportFeePoolShares. apply puts_iterate. intros [[[id denom] dep] n] Hin%elem_of_iterate. cbn.
  split; [|done]. unfold share_key, depositor. cbn. by rewrite (ex_depositors _ _ _ Hex id denom dep) by (by eexists).
Qed.
Lemma exported_positive s : s ∈ exportFeePoolShares w → 0 < fs_Shares s.
Proof.
  intros ([k n] & -> & Hin%elem_of_iterate)%list_elem_of_fmap. cbn. destruct (ex_ledger _ _ _ Hex) as (Hpos & _). by eapply Hpos.
Qed.
Lemma totals_restored : foldl add_share ∅ (exportFeePoolShares w) = s_ConsumerFeePoolTotalShares w.
Proof.
  destruct (ex_ledger _ _ _ Hex) as (_ & Htot & Hsum).
  apply map_eq. intros [id denom]. pose proof (Hsum id denom) as E.
  rewrite <-shares_restored, <-totals_sum in E; [|rewrite share_keys_export; apply NoDup_fst_iterate].
  change (get_total id denom w) with (s_ConsumerFeePoolTotalShares w !! (id, denom)) in E.
  pose proof (totals_positive (exportFeePoolShares w) (id, denom)) as Hp.
  specialize (Htot (id, denom)).
  destruct (foldl add_share ∅ _ !! _) as [t|], (s_ConsumerFeePoolTotalShares w !! _) as [t'|]; cbn in E.
  - by subst.
  - specialize (Hp t exported_positive eq_refl). lia.
  - specialize (Htot t' eq_refl). lia.
  - done.
Qed.

Lemma no_orphans id denom :
  ¬ (live (iterate (s_ConsumerPhases (before gs w0))) id ∧
     orphan (foldl add_share ∅ (gs_ConsumerFeePoolShares gs)) (before gs w0) id denom).
Proof.
  intros [(phase & Hin%elem_of_iterate & Hph) [Hn (coin & Hcoin & <-)]].
  destruct records_restored as (_ & Eph & _). rewrite Eph in Hin.
  assert (w_bank (before gs w0) = w_bank w) as Eb
    by (change (w_bank (passes gs w0) = w_bank w); unfold passes; by rewrite !(foldl_keep w_bank)).
  rewrite Eb in Hcoin. destruct (ex_backed _ _ _ Hex id phase coin Hin Hph Hcoin) as [t Et].
  change (gs_ConsumerFeePoolShares gs) with (exportFeePoolShares w) in Hn. rewrite totals_restored in Hn.
  unfold get_total in Et. congruence.
Qed.

(** What the import leaves, from the opened pools on. *)
Lemma pools_restored v :
  pools_opened (foldl add_share ∅ (gs_ConsumerFeePoolShares gs)) (iterate (s_ConsumerPhases (before gs w0))) (before gs w0) v →
  same_pools w (after gs vals v).
Proof.
  intros [Hf _ Hk _ _].
  assert (∀ id denom, get_total id denom v = get_total id denom (before gs w0) ∧
    ∀ dep, get_shares id denom dep v = get_shares id denom dep (before gs w0)) as Hsame by (intros; apply Hk, no_orphans).
  assert (w_fs (passes gs w0) = mkFeeStore (s_ConsumerDebt (passes gs w0)) ∅ ∅ ∅ ∅ ∅ ∅) as E.
  { assert (∀ k, w_fs k = mkFeeStore (s_ConsumerDebt k) (s_ConsumerFeesPerBlockOverride k) (s_ConsumerFeePoolShares k)
      (s_ConsumerFeePoolTotalShares k) (s_FeePoolAddressToConsumerId k) (s_EpochShareRecords k) (s_WithheldFeeRecords k)) as Eta
      by (by intros [? ? ? [] ? ? ? ?]).
    rewrite Eta. unfold passes. f_equal; rewrite !foldl_keep by reflexivity; done. }
  assert (s_ConsumerFeePoolShares (before gs w0) = s_ConsumerFeePoolShares w) as Es.
  { rewrite <-shares_restored. change (share_puts (exportFeePoolShares w) (ConsumerFeePoolShares (w_fs (passes gs w0)))
      = share_puts (exportFeePoolShares w) ∅). by rewrite E. }
  destruct Hf as (s & t & a & ->). split_and!.
  - rewrite <-overrides_restored. change (puts ov_ConsumerId (λ ov, Some (default 0 (NewIntFromString (ov_Amount ov))))
      (export_overrides w) (ConsumerFeesPerBlockOverride (w_fs (passes gs w0))) = puts ov_ConsumerId
      (λ ov, Some (default 0 (NewIntFromString (ov_Amount ov)))) (export_overrides w) ∅). by rewrite E.
  - change (s = s_ConsumerFeePoolShares w). apply map_eq. intros [[id denom] dep].
    destruct (Hsame id denom) as [_ H']. specialize (H' dep). unfold get_shares in H'. rewrite Es in H'. exact H'.
  - change (t = s_ConsumerFeePoolTotalShares w). rewrite <-totals_restored. apply map_eq. intros [id denom].
    destruct (Hsame id denom) as [H' _]. exact H'.
  - change (puts (λ r, (es_ConsumerId r, es_DistributedAtUnixNano r)) (λ r, Some (es_Share r)) (exportEpochShareRecords w)
      (EpochShareRecords (w_fs (passes gs w0))) = s_EpochShareRecords w). rewrite E. apply puts_iterate. by intros [[id at_] n] _.
  - change (puts (λ r, (wf_ConsumerId r, wf_ProviderConsAddr r)) Some (exportWithheldFeeRecords w)
      (WithheldFeeRecords (w_fs (passes gs w0))) = s_WithheldFeeRecords w). rewrite E. apply puts_iterate. intros [k r] Hin%elem_of_iterate. cbn.
    by destruct (ex_withheld _ _ _ Hex _ _ Hin) as [-> _].
Qed.

Lemma export_loadable : loadable gs vals w0.
Proof.
  destruct (ex_infractions _ _ _ Hex) as (ip & Eip & Hv & Hp).
  assert (infraction_params gs = ip) as Ei by (unfold infraction_params; cbn; by rewrite Eip).
  split; rewrite ?Ei; try done.
  - apply export_consistent.
  - intros s (denom & dep & [n En] & -> & _)%exported_share. cbn.
    rewrite (ex_depositors _ _ _ Hex (fs_ConsumerId s) denom dep) by (by eexists). by eexists.
  - change (NoDup (share_key <$> exportFeePoolShares w)). rewrite share_keys_export. apply NoDup_fst_iterate.
  - apply exported_positive.
  - intros r ([k r'] & -> & Hin%elem_of_iterate)%list_elem_of_fmap. by destruct (ex_withheld _ _ _ Hex _ _ Hin).
  - exact (ex_bonded _ _ _ Hex).
Qed.
End consumers.

(** An exported state can start a chain. *)
Lemma export_startable w params vals :
  exportable w params vals → launch_ok [] (view w) →
  startable (exported w params) vals (fresh (w_staking w) (w_bank w) (w_ibc w)).
Proof.
  intros Hex Hok. destruct (export_loadable w params vals Hex) as [[_ Hcl Hh] _ Hk _ Hi Ht Hw Hb]. split; try done.
  - intros cs (id & -> & Hid)%elem_of_states. cbn. pose proof (ex_seq _ _ _ Hex). lia.
  - intros cs p (id & -> & Hid)%elem_of_states. cbn. intros Hph Ep.
    destruct (lo_initialized _ _ Hok id Hph) as [[]%elem_of_nil|Hin].
    destruct (lo_waiting _ _ Hok _ _ Hin) as (_ & _ & Hts & _). unfold spawn_of in Hts. cbn in Hts.
    unfold GetConsumerInitializationParameters in Ep. by rewrite Ep in Hts.
  - intros E. unfold infraction_params in *. by rewrite E in *.
Qed.

(** *** The export depends on what is restored only *)
Record restored (w w' : World) : Prop := {
  rs_id : GetValidatorSetUpdateId w' = GetValidatorSetUpdateId w;
  rs_records : same_records w w';
  rs_readings : same_readings w w';
  rs_keys : w_ks w' = w_ks w;
  rs_pools : same_pools w w';
  rs_downtime : w_ds w' = w_ds w;
}.
#[export] Instance restored_equivalence : Equivalence restored.
Proof.
  split.
  - intros w. by split.
  - intros w w' [? H2 H3 ? H5 ?]. split; [done|..|done| |done].
    + destruct H2 as (? & ? & ? & ? & ? & ? & ? & ? & ? & ? & ? & ?). by split_and!.
    + intros id. destruct (H3 id) as (? & ? & ? & ? & ?). by split_and!.
    + destruct H5 as (? & ? & ? & ? & ?). by split_and!.
  - intros w1 w2 w3 [? H2 H3 ? H5 ?] [? K2 K3 ? K5 ?]. split; [congruence|..|congruence| |congruence].
    + destruct H2 as (? & ? & ? & ? & ? & ? & ? & ? & ? & ? & ? & ?), K2 as (? & ? & ? & ? & ? & ? & ? & ? & ? & ? & ? & ?).
      split_and!; congruence.
    + intros id. destruct (H3 id) as (? & ? & ? & ? & ?), (K3 id) as (? & ? & ? & ? & ?). split_and!; congruence.
    + destruct H5 as (? & ? & ? & ? & ?), K5 as (? & ? & ? & ? & ?). split_and!; congruence.
Qed.

#[export] Instance export_consumer_proper : Proper (restored ==> (=) ==> (=)) export_consumer.
Proof.
  intros w w' [_ (Es & Eph & Ec & Eo & Em & Ei & Eg & Er & Epe & Epa & Ela & Ecl) Hr _ _ _] id _ <-.
  destruct (Hr id) as (E1 & E2 & E3 & E4 & E5).
  unfold export_consumer, GetConsumerChainId, GetConsumerClientId, GetConsumerGenesis, GetConsumerPhase,
    GetConsumerOwnerAddress, GetConsumerMetadata, GetConsumerInitializationParameters, GetConsumerRemovalTime,
    GetConsumerPauseExpirationTime, GetConsumerPausedAt.
  by rewrite E1, E2, E3, E4, E5, Eph, Ec, Eo, Em, Ei, Eg, Er, Epe, Epa, Ela, Ecl.
Qed.
#[export] Instance exported_proper : Proper (restored ==> (=) ==> (=)) exported.
Proof.
  intros w w' Hrs params _ <-. pose proof Hrs as [Eid (Es & _) _ Ek (Eo & Esh & _ & Ees & Ewf) Ed].
  assert (GetAllConsumerIds w' = GetAllConsumerIds w) as Eids by (unfold GetAllConsumerIds, GetConsumerId; by rewrite Es).
  assert (∀ id, GetAllConsumerAddrsToPrune id w' = GetAllConsumerAddrsToPrune id w) as Ep
    by (intros id; unfold GetAllConsumerAddrsToPrune, s_ConsumerAddrsToPrune; by rewrite Ek).
  unfold exported. rewrite Eid, Eids. f_equal; symmetry;
    try (apply list_fmap_ext; intros; by rewrite <-Hrs); try (f_equal; apply list_fmap_ext; intros; apply Ep);
    unfold s_ValidatorConsumerPubKey, s_ValidatorByConsumerAddr, export_overrides, exportFeePoolShares,
      exportPendingDowntimeSlashes, s_PreviousDowntimeParams_, exportEpochShareRecords, s_InfractionParams_,
      exportWithheldFeeRecords, exportAcceptedDowntimeWindows, exportEpochDowntimeEntries, exportDowntimeWindowFloors,
      exportPunishedEquivocations, s_PendingDowntimeSlashes, s_AcceptedDowntimeWindows, s_EpochDowntime,
      s_DowntimeWindowFloors, s_PunishedEquivocations;
    by rewrite ?Ek, ?Ed, ?Eo, ?Esh, ?Ees, ?Ewf.
Qed.

(** *** The round trip *)
Context (Hbalances : ∀ b a coin, coin ∈ GetAllBalances b a → 0 < Amount coin) `{!PayoutLaws}.

(** What the rest of the import does not touch. *)
Lemma after_frame gs vals w u v :
  pool_frame u v →
  (same_records w u → same_records w (after gs vals v)) ∧ (same_readings w u → same_readings w (after gs vals v)) ∧
  w_ks (after gs vals v) = w_ks u ∧ GetValidatorSetUpdateId (after gs vals v) = GetValidatorSetUpdateId u.
Proof. intros (s & t & a & ->). split_and!; [intros Hu; exact Hu|intros Hu; exact Hu|done|done]. Qed.

Lemma import_restored w params vals c :
  exportable w params vals →
  let gs := exported w params in let w0 := fresh (w_staking w) (w_bank w) (w_ibc w) in
  ∃ v, pools_opened (foldl add_share ∅ (gs_ConsumerFeePoolShares gs)) (iterate (s_ConsumerPhases (before gs w0))) (before gs w0) v ∧
    InitGenesis gs c w0 = (Ok ((λ v, mkUpdate (PublicKey v) (cv_Power v)) <$> vals), after gs vals v) ∧
    restored w (after gs vals v).
Proof.
  intros Hex gs w0.
  destruct (InitGenesis_run Hbalances gs vals (w_staking w) (w_bank w) (w_ibc w) c) as (v & Hopen & E).
  { by apply export_loadable. }
  { apply ledger_before; [by eapply exported_positive|].
    change (NoDup (share_key <$> exportFeePoolShares w)). rewrite (share_keys_export w params vals Hex). apply NoDup_fst_iterate. }
  exists v. split; [exact Hopen|]. split; [exact E|].
  pose proof (pools_restored w params vals Hex v Hopen) as Hpools.
  pose proof (po_frame _ _ _ _ Hopen) as Hf. pose proof (downtime_restored w params vals Hex v Hf) as Hds.
  destruct (after_frame gs vals w _ _ Hf) as (Hrec & Hread & Ek & Eid).
  split; [rewrite Eid|by eapply Hrec, records_restored|by eapply Hread, readings_restored|
    rewrite Ek; by eapply keys_restored|exact Hpools|exact Hds].
  change (s_ValidatorSetUpdateId (passes gs w0) = s_ValidatorSetUpdateId w).
  unfold passes. by rewrite !(foldl_keep s_ValidatorSetUpdateId).
Qed.

(** C9. A state-export restart is a fixed point: from an exportable state, the import of the
    export succeeds, hands CometBFT the bonded validators, restores every exported
    collection exactly (records of consumers, keys, fee pools, downtime) or as its getters
    read it (packets, counters, debt, pause reason), and exporting again gives the same
    genesis. Exportable are the states with a phase for exactly the ids below the id
    sequence (below 2^64) and nothing on record above it, no empty chain id, owner or client
    id, no two consumers with one client, an initial height of the chain id's revision for
    every consumer that is not deleted (an owner who changes only the chain id before the
    launch can break this, and the import then panics, see the finding on
    msg_server.go:480), no empty prune bucket or one of an unknown consumer, consistent
    fee-pool books, shares behind every coin of a live pool (a community-pool spend sent
    straight to a pool breaks this until the pool is next used), depositors that are
    addresses, pending slashes and withheld fees (in the fee denom) under their own keys,
    epoch downtime marks that are set, parameters and valid infraction parameters on record,
    and a bonded set x/staking can read. *)
Theorem restart_is_a_fixed_point w params vals c c' c'' :
  exportable w params vals →
  ∃ gs w', ExportGenesis c w = (Ok gs, w) ∧
    InitGenesis gs c' (fresh (w_staking w) (w_bank w) (w_ibc w))
      = (Ok ((λ v, mkUpdate (PublicKey v) (cv_Power v)) <$> vals), w') ∧
    restored w w' ∧ ExportGenesis c'' w' = (Ok gs, w').
Proof.
  intros Hex. pose proof (ex_params _ _ _ Hex) as Eps.
  destruct (import_restored w params vals c' Hex) as (v & _ & E & Hrs).
  exists (exported w params), (after (exported w params) vals v).
  split; [by apply ExportGenesis_run|]. split; [exact E|]. split; [exact Hrs|].
  rewrite (ExportGenesis_run c'' _ params) by done. do 2 f_equal. symmetry. by apply exported_proper.
Qed.
End round_trip.
