(* ===== verification/Restart.v ===== *)
(** What a provider does once it has been restarted from an exported state
    (docs/genesis-restart-runbook.md): the queues and the heights the import
    derives, the first validator updates, the first packets; and the states whose
    export does not pass validation. *)
From S2P Require Import Prelude GoTime Types Externals World Keeper Queues ValSets Valset ValsetProofs FeePool FeePoolProofs FeesProofs.
From S2P Require Import Msgs Genesis PhaseProofs GenesisProofs GenesisStart GenesisRoundTrip.

Section restart.
Context `{GX : GenesisExternals, !GenesisLaws}.

(** *** The derived collections *)
Lemma appends_empty {T} `{Countable T} (due : ConsumerState → option T) css ts :
  default [] (foldl (λ q cs, append_opt (cs_ConsumerId cs) (due cs) q) ∅ css !! ts)
  = cs_ConsumerId <$> filter (λ cs, due cs = Some ts) css.
Proof. by rewrite appends_lookup, lookup_empty. Qed.

(** The ids due at one time: those whose exported state says so, each once. *)
Definition exported_due (w : World) (due : ConsumerState → option Time) (ts : Time) : list N :=
  filter (λ id, due (export_consumer w id) = Some ts) (GetAllConsumerIds w).
Lemma exported_due_states w params due ts :
  cs_ConsumerId <$> filter (λ cs, due cs = Some ts) (gs_ConsumerStates (exported w params)) = exported_due w due ts.
Proof.
  unfold exported_due. cbn. induction (GetAllConsumerIds w) as [|id l IH]; [done|]. rewrite fmap_cons, !filter_cons.
  case_decide; [|done]. rewrite fmap_cons. cbn. by f_equal.
Qed.
Lemma elem_of_exported_due w due ts id :
  id ∈ exported_due w due ts ↔ due (export_consumer w id) = Some ts ∧ (id < s_ConsumerIdSeq w)%N.
Proof. unfold exported_due. by rewrite list_elem_of_filter, elem_of_AllConsumerIds. Qed.
Lemma NoDup_exported_due w due ts : NoDup (exported_due w due ts).
Proof. apply NoDup_filter, NoDup_AllConsumerIds. Qed.

Section derived.
Context (w : World) (params : Params) (vals : list ConsensusValidator) (Hex : exportable w params vals).
Abbreviation gs := (exported w params).
Abbreviation w0 := (fresh (w_staking w) (w_bank w) (w_ibc w)).

Lemma launch_queue ts : GetConsumersToBeLaunched ts (passes gs w0) = exported_due w spawn_due ts.
Proof.
  rewrite <-(exported_due_states w params), <-appends_empty.
  change (default [] (s_SpawnTimeToConsumerIds (passes gs w0) !! ts) = default [] (foldl
    (λ q cs, append_opt (cs_ConsumerId cs) (spawn_due cs) q) ∅ (gs_ConsumerStates gs) !! ts)).
  by rewrite passes_queue.
Qed.
Lemma removal_queue ts : GetConsumersToBeRemoved ts (passes gs w0) = exported_due w removal_due ts.
Proof.
  rewrite <-(exported_due_states w params), <-appends_empty.
  change (default [] (s_RemovalTimeToConsumerIds (passes gs w0) !! ts) = default [] (foldl
    (λ q cs, append_opt (cs_ConsumerId cs) (removal_due cs) q) ∅ (gs_ConsumerStates gs) !! ts)).
  unfold passes. rewrite (foldl_proj s_RemovalTimeToConsumerIds derived
    (λ q cs, append_opt (cs_ConsumerId cs) (removal_due cs) q)) by reflexivity.
  by rewrite (foldl_keep s_RemovalTimeToConsumerIds imported).
Qed.
Lemma pause_queue ts : GetConsumersToBeAutoStopped ts (passes gs w0) = exported_due w pause_due ts.
Proof.
  rewrite <-(exported_due_states w params), <-appends_empty.
  change (default [] (s_PauseExpirationTimeToConsumerIds (passes gs w0) !! ts) = default [] (foldl
    (λ q cs, append_opt (cs_ConsumerId cs) (pause_due cs) q) ∅ (gs_ConsumerStates gs) !! ts)).
  unfold passes. rewrite (foldl_proj s_PauseExpirationTimeToConsumerIds derived
    (λ q cs, append_opt (cs_ConsumerId cs) (pause_due cs) q)) by reflexivity.
  by rewrite (foldl_keep s_PauseExpirationTimeToConsumerIds imported).
Qed.
Lemma evidence_heights id :
  GetEquivocationEvidenceMinHeight id (passes gs w0)
  = if decide (id < s_ConsumerIdSeq w)%N then default 0 (min_height (export_consumer w id)) else 0.
Proof.
  unfold GetEquivocationEvidenceMinHeight.
  assert (s_EquivocationEvidenceMinHeight (passes gs w0) = puts cs_ConsumerId min_height (gs_ConsumerStates gs) ∅) as ->.
  { unfold passes. rewrite (foldl_proj s_EquivocationEvidenceMinHeight derived
      (λ m cs, put_opt (cs_ConsumerId cs) (min_height cs) m)) by reflexivity.
    by rewrite (foldl_keep s_EquivocationEvidenceMinHeight imported). }
  rewrite puts_export. by case_decide.
Qed.
Lemma no_consumer_sets id : GetConsumerValSet id (passes gs w0) = [].
Proof.
  unfold GetConsumerValSet, passes. rewrite !(foldl_keep s_ConsumerValidators) by reflexivity.
  change (s_ConsumerValidators _) with (∅ : gmap (N * string) ConsensusValidator). by rewrite iterate_empty.
Qed.
End derived.

(** *** The set CometBFT runs *)
Lemma DiffValidators_same cur next : NoDup (PublicKey <$> next) → cur ≡ₚ next → DiffValidators cur next = [].
Proof.
  intros Hnd Hp. assert (NoDup (PublicKey <$> cur)) as Hc by (by rewrite Hp).
  destruct (DiffValidators cur next) as [|u us] eqn:E; [done|]. exfalso.
  assert (u ∈ DiffValidators cur next) as Hu by (rewrite E; left).
  apply elem_of_DiffValidators in Hu as [(x & Hx & Hn & _)|[(x & y & Hx & Hy & Ek & Hpow & _)|(y & Hy & Hn & _)]]; [..|done|done].
  - apply Hn, list_elem_of_fmap_2. by rewrite <-Hp.
  - apply Hpow. rewrite Hp in Hx.
    pose proof (by_key_Some next x Hnd Hx) as Ex. rewrite Ek, (by_key_Some next y Hnd Hy) in Ex. congruence.
  - apply Hn, list_elem_of_fmap_2. by rewrite Hp.
Qed.
Lemma puts_values (vals : list ConsensusValidator) :
  NoDup (ProviderConsAddr <$> vals) → (iterate (puts ProviderConsAddr Some vals ∅)).*2 ≡ₚ vals.
Proof.
  intros Hnd. apply NoDup_Permutation.
  - apply NoDup_fmap_2_strong; [|apply NoDup_iterate].
    intros [k x] [k' y] Hx%elem_of_iterate Hy%elem_of_iterate E. cbn in E. subst y.
    apply puts_empty in Hx as (? & _ & <- & [= ->]); [|done]. by apply puts_empty in Hy as (? & _ & <- & [= ->]).
  - by eapply NoDup_fmap_1.
  - intros x. rewrite elem_of_iterate_values. setoid_rewrite puts_empty; [|done]. naive_solver.
Qed.
Lemma bonded_addresses w vals : bonded_distinct w → bonded w vals → NoDup (ProviderConsAddr <$> vals).
Proof.
  intros Hd (vs & Evs & Hall). apply Hd in Evs.
  assert (GetConsAddr <$> vs = Some ∘ ProviderConsAddr <$> vals) as E.
  { clear -Hall. induction Hall as [|v cv vs vals E _ IH]; [done|]. rewrite !fmap_cons, IH. f_equal.
    unfold CreateProviderConsensusValidator in E. destruct (GetConsAddr v) as [a|]; [|done]. cbn in E.
    destruct (CmtConsPublicKey v); [|done]. cbn in E. destruct (ValAddressFromBech32 _); [|done]. cbn in E.
    destruct (GetLastValidatorPower _ _); [|done]. by injection E as <-. }
  rewrite E, list_fmap_compose in Evs. by eapply NoDup_fmap_1.
Qed.

(** *** Exports their own validation refuses *)
Lemma refused_state w params id :
  (id < s_ConsumerIdSeq w)%N → ConsumerState_Validate (export_consumer w id) = false →
  GenesisState_Validate (exported w params) = false.
Proof.
  intros Hid Hcs. destruct (GenesisState_Validate (exported w params)) eqn:E; [|done].
  apply Validate_validated in E as [Hst _ _ _ _]. rewrite <-Hcs. symmetry. apply Hst, elem_of_states. by exists id.
Qed.

(** C12. The export of a chain with a REGISTERED consumer whose initialization parameters
    are on record (every registration stores them), or with a LAUNCHED consumer whose client
    is not discovered yet, does not pass the genesis validation. *)
Theorem unconnected_export_fails_validation w params c id :
  s_Params_ w = Some params → (id < s_ConsumerIdSeq w)%N →
  (GetConsumerPhase id w = CONSUMER_PHASE_REGISTERED ∧ is_Some (GetConsumerInitializationParameters id w)) ∨
  (GetConsumerPhase id w = CONSUMER_PHASE_LAUNCHED ∧ GetConsumerClientId id w = None) →
  ∃ gs, ExportGenesis c w = (Ok gs, w) ∧ GenesisState_Validate gs = false.
Proof.
  intros Eps Hid Hc. exists (exported w params). split; [by apply ExportGenesis_run|].
  apply (refused_state w params id Hid). unfold ConsumerState_Validate. cbn.
  destruct Hc as [[-> [p ->]]|[-> ->]]; cbn; by rewrite ?andb_false_r.
Qed.

(** The baseline an import leaves is the set it hands out. *)
Lemma no_update vals c (w : World) :
  NoDup (ProviderConsAddr <$> vals) → NoDup (PublicKey <$> vals) →
  s_LastProviderConsensusVals w = puts ProviderConsAddr Some vals ∅ → bonded w vals →
  (ProviderValidatorUpdates c w).1 = Ok [].
Proof.
  intros Ha Hk El (vs & Evs & Hall). unfold ProviderValidatorUpdates.
  rewrite !bind_run. cbn [gets]. rewrite Evs. cbn [of_option mret M_ret]. rewrite bind_run. cbn [gets].
  rewrite bind_run.
  assert (map_each (λ val, o ← gets (CreateProviderConsensusValidator val); of_option o ErrExternal) vs c w = (Ok vals, w)) as ->.
  { clear Evs El Ha Hk. induction Hall as [|x cv vs vals E Hall IH]; [done|]. cbn [map_each]. rewrite bind_run, bind_run.
    cbn [gets]. rewrite E. cbn [of_option mret M_ret]. by rewrite bind_run, IH. }
  rewrite bind_run. unfold SetLastProviderConsensusValSet. rewrite bind_run. cbn [modify].
  rewrite for_each_modify. cbn [mret M_ret fst]. f_equal. apply DiffValidators_same; [done|].
  unfold GetLastProviderConsensusValSet. rewrite El. by apply puts_values.
Qed.

(** *** After the restart *)
Context (Hbalances : ∀ b a coin, coin ∈ GetAllBalances b a → 0 < Amount coin) `{!PayoutLaws}.

Lemma restarted w params vals c c' gs ups w' :
  exportable w params vals → ExportGenesis c w = (Ok gs, w) →
  InitGenesis gs c' (fresh (w_staking w) (w_bank w) (w_ibc w)) = (Ok ups, w') →
  ∃ v, pools_opened (foldl add_share ∅ (gs_ConsumerFeePoolShares gs))
      (iterate (s_ConsumerPhases (before gs (fresh (w_staking w) (w_bank w) (w_ibc w)))))
      (before gs (fresh (w_staking w) (w_bank w) (w_ibc w))) v ∧
    gs = exported w params ∧ w' = after gs vals v ∧ restored w w'.
Proof.
  intros Hex Ee Ei. rewrite (ExportGenesis_run c w params) in Ee by apply Hex. injection Ee as <-.
  destruct (import_restored Hbalances w params vals c' Hex) as (v & Hopen & E & Hrs).
  rewrite E in Ei. injection Ei as _ <-. by exists v.
Qed.

(** The derived collections pass through the rest of the import. *)
Lemma after_derived gs vals u v :
  pool_frame (before gs u) v →
  (∀ ts, GetConsumersToBeLaunched ts (after gs vals v) = GetConsumersToBeLaunched ts (passes gs u)) ∧
  (∀ ts, GetConsumersToBeRemoved ts (after gs vals v) = GetConsumersToBeRemoved ts (passes gs u)) ∧
  (∀ ts, GetConsumersToBeAutoStopped ts (after gs vals v) = GetConsumersToBeAutoStopped ts (passes gs u)) ∧
  (∀ id, GetEquivocationEvidenceMinHeight id (after gs vals v) = GetEquivocationEvidenceMinHeight id (passes gs u)) ∧
  s_ConsumerValidators (after gs vals v) = s_ConsumerValidators (passes gs u) ∧
  s_FeePoolAddressToConsumerId (after gs vals v) = s_FeePoolAddressToConsumerId v ∧
  w_staking (after gs vals v) = w_staking (passes gs u).
Proof. intros (s & t & a & ->). done. Qed.

Lemma known_phase w params vals id p :
  exportable w params vals → GetConsumerPhase id w = p → p ≠ CONSUMER_PHASE_UNSPECIFIED → (id < s_ConsumerIdSeq w)%N.
Proof.
  intros Hex <- Hp. apply (ex_phases _ _ _ Hex). unfold GetConsumerPhase in Hp.
  by destruct (s_ConsumerPhases w !! id); [eexists|].
Qed.

(** A spawn queue in order is the one derived from the phases. *)
Lemma spawn_queue_same w params vals ts :
  exportable w params vals → launch_ok [] (view w) → exported_due w spawn_due ts ≡ₚ GetConsumersToBeLaunched ts w.
Proof.
  intros Hex Hok. apply NoDup_Permutation; [apply NoDup_exported_due|apply (lo_once _ _ Hok)|].
  intros id. rewrite elem_of_exported_due. unfold spawn_due. cbn.
  change (id ∈ GetConsumersToBeLaunched ts w) with (id ∈ waiting ts (view w)).
  change (GetConsumerPhase id w) with (phase_in id (view w)). unfold GetConsumerInitializationParameters. split.
  - intros [E Hid]. case_decide as Hph; [|done]. destruct (lo_initialized _ _ Hok id Hph) as [[]%elem_of_nil|Hin].
    unfold spawn_of in Hin. cbn [v_params view] in Hin.
    destruct (s_ConsumerInitParams w !! id) as [p|]; [|done]. cbn in E. by injection E as <-.
  - intros Hin. destruct (lo_waiting _ _ Hok id ts Hin) as (Hph & Hs & Hts & _). rewrite decide_True by done.
    unfold spawn_of in Hs. cbn in Hs. split; [|by eapply known_phase].
    by destruct (s_ConsumerInitParams w !! id); cbn; congruence.
Qed.

(** A restart rebuilds what the export leaves out: the spawn queue as it was, the
    removal queue with exactly the STOPPED consumers under their removal times, the
    auto-stop queue with exactly the PAUSED ones under their expiration times, the minimum
    evidence height of every consumer that has launched, and the address of every live fee
    pool. *)
Lemma restart_resumes_the_schedule w params vals c c' gs ups w' :
  exportable w params vals → ExportGenesis c w = (Ok gs, w) →
  InitGenesis gs c' (fresh (w_staking w) (w_bank w) (w_ibc w)) = (Ok ups, w') →
  (launch_ok [] (view w) → ∀ ts, GetConsumersToBeLaunched ts w' ≡ₚ GetConsumersToBeLaunched ts w) ∧
  (∀ ts, NoDup (GetConsumersToBeRemoved ts w') ∧ ∀ id, id ∈ GetConsumersToBeRemoved ts w' ↔
     GetConsumerPhase id w = CONSUMER_PHASE_STOPPED ∧ GetConsumerRemovalTime id w = Some ts) ∧
  (∀ ts, NoDup (GetConsumersToBeAutoStopped ts w') ∧ ∀ id, id ∈ GetConsumersToBeAutoStopped ts w' ↔
     GetConsumerPhase id w = CONSUMER_PHASE_PAUSED ∧ GetConsumerPauseExpirationTime id w = Some ts) ∧
  (∀ id p, GetConsumerPhase id w ∈ [CONSUMER_PHASE_LAUNCHED; CONSUMER_PHASE_STOPPED; CONSUMER_PHASE_PAUSED] →
     GetConsumerInitializationParameters id w = Some p →
     GetEquivocationEvidenceMinHeight id w' = InitialRevisionHeight p) ∧
  (∀ id phase, s_ConsumerPhases w !! id = Some phase → phase ≠ CONSUMER_PHASE_DELETED →
     s_FeePoolAddressToConsumerId w' !! GetConsumerFeePoolAddress id = Some id).
Proof.
  intros Hex Ee Ei. destruct (restarted _ _ _ _ _ _ _ _ Hex Ee Ei) as (v & Hopen & -> & -> & Hrs).
  destruct (after_derived (exported w params) vals _ v (po_frame _ _ _ _ Hopen)) as (Hl & Hr & Hp & Hh & _ & Ha & _).
  split_and!.
  - intros Hok ts. rewrite Hl, (launch_queue w params). by eapply spawn_queue_same.
  - intros ts. rewrite Hr, (removal_queue w params). split; [apply NoDup_exported_due|]. intros id. rewrite elem_of_exported_due.
    unfold removal_due. cbn. split; [intros [E _]; by case_decide|]. intros [E1 E2].
    rewrite decide_True by done. split; [done|by eapply known_phase].
  - intros ts. rewrite Hp, (pause_queue w params). split; [apply NoDup_exported_due|]. intros id. rewrite elem_of_exported_due.
    unfold pause_due. cbn. split; [intros [E _]; by case_decide|]. intros [E1 E2].
    rewrite decide_True by done. split; [done|by eapply known_phase].
  - intros id p Hin Ep. rewrite Hh, (evidence_heights w params), decide_True
      by (eapply known_phase; [done..|]; intros E; rewrite E in Hin; set_solver).
    unfold min_height. cbn. rewrite Ep. by repeat (apply elem_of_cons in Hin as [->|Hin]); [..|apply elem_of_nil in Hin].
  - intros id phase Eph Hne. rewrite Ha. apply (po_addresses _ _ _ _ Hopen). exists phase.
    destruct (records_restored w params vals Hex) as (_ & E & _). by rewrite elem_of_iterate, E.
Qed.

(** C11. After a restart the first EndBlock hands CometBFT no update while staking has not
    changed, and the first epoch queues a snapshot, never a diff, for every launched
    consumer, behind whatever was pending at the export. *)
Theorem first_block_after_a_restart w params vals c c' c'' gs ups w' :
  exportable w params vals → bonded_distinct w → NoDup (PublicKey <$> vals) →
  ExportGenesis c w = (Ok gs, w) →
  InitGenesis gs c' (fresh (w_staking w) (w_bank w) (w_ibc w)) = (Ok ups, w') →
  (ProviderValidatorUpdates c'' w').1 = Ok [] ∧
  ∀ id w'', QueueVSCPackets c'' w' = (Ok tt, w'') → GetConsumerPhase id w = CONSUMER_PHASE_LAUNCHED →
    ∃ p, GetPendingVSCPackets id w'' = GetPendingVSCPackets id w ++ [p] ∧
      IsSnapshot p = true ∧ ValsetUpdateId p = GetValidatorSetUpdateId w.
Proof.
  intros Hex Hd Hkeys Ee Ei. destruct (restarted _ _ _ _ _ _ _ _ Hex Ee Ei) as (v & Hopen & -> & -> & Hrs).
  destruct (after_derived (exported w params) vals _ v (po_frame _ _ _ _ Hopen)) as (_ & _ & _ & _ & Hcv & _ & Hstk).
  set (w' := after (exported w params) vals v) in *.
  assert (w_staking w' = w_staking w) as Est
    by (rewrite Hstk; unfold passes; by rewrite !(foldl_keep w_staking)).
  split.
  - apply (no_update vals); [by apply (bonded_addresses w); [|apply Hex]|done|done|].
    destruct (ex_bonded _ _ _ Hex) as (vs & Evs & Hall). exists vs. rewrite Est. split; [done|].
    eapply Forall2_impl; [exact Hall|]. intros x y. unfold CreateProviderConsensusValidator. by rewrite Est.
  - intros id w'' Eq Hph.
    assert (s_ConsumerValidators w' = ∅) as Ecv by (rewrite Hcv; unfold passes; by rewrite !(foldl_keep s_ConsumerValidators)).
    destruct (rs_records _ _ Hrs) as (Eseq & Ephs & _), (rs_readings _ _ Hrs id) as (_ & Epend & _).
    assert (id ∈ GetAllLaunchedConsumerIds w') as Hin.
    { unfold GetAllLaunchedConsumerIds. apply list_elem_of_filter. unfold GetConsumerPhase in *. rewrite Ephs. split; [done|].
      apply elem_of_AllConsumerIds. rewrite Eseq. by eapply known_phase. }
    destruct (QueueVSCPackets_ok id c'' w' w'') as (cur & vals' & p & Hen & _ & _); [| |done..|].
    { unfold bonded_distinct. by rewrite Est. }
    { intros ? ? ?. by rewrite Ecv, lookup_empty. }
    exists p. split_and!.
    + by rewrite (en_pending _ _ _ _ _ _ _ Hen), Epend.
    + destruct (IsSnapshot p) eqn:Es; [done|]. destruct (en_diff _ _ _ _ _ _ _ Hen Es) as (Hcur & _). exfalso. apply Hcur.
      apply Permutation_nil. symmetry. rewrite (en_cur _ _ _ _ _ _ _ Hen). unfold GetConsumerValSet.
      by rewrite Ecv, iterate_empty.
    + rewrite (en_vid _ _ _ _ _ _ _ Hen). exact (rs_id _ _ Hrs).
Qed.
End restart.
