(* ===== verification/SystemProofs.v ===== *)
(** The books of the provider chain: the fee pool ledger and the consumer key
    maps stay consistent through every step of the chain. *)
From S2P Require Import Prelude GoTime Types Externals World Keeper Queues ValSets Valset ValsetProofs.
From S2P Require Import FeePool FeePoolProofs Fees KeyAssignment Lifecycle Downtime Equivocation Rotation RotationProofs Msgs MsgServer Provider.
From S2P Require Import PhaseProofs.

Section books.
Context `{X : Externals}.

(** An operation every step is built from keeps [P] on every outcome, a key
    rotation perhaps only if it is not of the kind [R]. *)
Lemma step_keeps_but (P : World → Prop) (R : World → World → Prop) :
  (∀ msg, preserves P (handle msg)) → (∀ client payload, preserves P (OnRecvPacket client payload)) →
  (∀ client err payload, preserves P (OnAcknowledgementPacket client err payload)) →
  (∀ client, preserves P (OnTimeoutPacket client)) → (∀ val, preserves P (AfterValidatorCreated val)) →
  (∀ cons, ok_preserves P (AfterValidatorRemoved cons)) →
  (∀ old new c w, P w → P (commit (AfterConsensusPubKeyUpdate old new) c w) ∨
     R w (commit (AfterConsensusPubKeyUpdate old new) c w)) → preserves P BeginBlock → preserves P EndBlock →
  (∀ s b i w, P w → P (set_ibc i (set_bank b (set_staking s w)))) →
  ∀ w w', step w w' → P w → P w' ∨ R w w'.
Proof.
  intros H1 H2 H3 H4 H5 H6 H7 H8 H9 H10 w w' Hs HP.
  destruct Hs; try (left; apply commit_keeps; [|done]; intros a w'; first [by apply (ok_pres P)|by apply H6]).
  - left. by apply commit_recv_keeps; [apply ok_pres|].
  - by apply H7.
  - left. by apply H10.
Qed.
Lemma step_keeps (P : World → Prop) :
  (∀ msg, preserves P (handle msg)) → (∀ client payload, preserves P (OnRecvPacket client payload)) →
  (∀ client err payload, preserves P (OnAcknowledgementPacket client err payload)) →
  (∀ client, preserves P (OnTimeoutPacket client)) → (∀ val, preserves P (AfterValidatorCreated val)) →
  (∀ cons, ok_preserves P (AfterValidatorRemoved cons)) →
  (∀ old new, preserves P (AfterConsensusPubKeyUpdate old new)) → preserves P BeginBlock → preserves P EndBlock →
  (∀ s b i w, P w → P (set_ibc i (set_bank b (set_staking s w)))) →
  ∀ w w', step w w' → P w → P w'.
Proof.
  intros H1 H2 H3 H4 H5 H6 H7 H8 H9 H10 w w' Hs HP.
  destruct (step_keeps_but P (λ _ _, False) H1 H2 H3 H4 H5 H6) with (w := w) (w' := w') as [|[]]; try done.
  intros old new c v Hv. left. apply commit_keeps; [|done]. intros a v'. by apply (ok_pres P).
Qed.

(** *** The fee pool ledger *)
Lemma consume_books (P : World → Prop) limit :
  (∀ f w, P w → P (upd_SpawnTimeToConsumerIds f w)) → (∀ f w, P w → P (upd_RemovalTimeToConsumerIds f w)) →
  (∀ f w, P w → P (upd_PauseExpirationTimeToConsumerIds f w)) →
  preserves P (ConsumeIdsFromTimeQueue (Q := SpawnQueue) limit) ∧
  preserves P (ConsumeIdsFromTimeQueue (Q := RemovalQueue) limit) ∧
  preserves P (ConsumeIdsFromTimeQueue (Q := PauseQueue) limit).
Proof. intros H1 H2 H3. split_and!; by apply consume_frame. Qed.

#[local] Hint Resolve preserves_MintShares preserves_WithdrawShares preserves_SweepConsumerFeePool : vaas.
Lemma ledger_step `{!BankLaws} w w' : step w w' → ledger_ok w → ledger_ok w'.
Proof.
  destruct (consume_books ledger_ok queue_limit) as (? & ? & ?); [intros f v Hv; exact Hv..|].
  apply step_keeps; try (intros; pres; fail). intros cons. apply ok_pres. pres.
Qed.

(** *** The key maps *)
(** The same invariant as a statement about the key store alone, so that a
    write elsewhere keeps it by computation. *)
Definition keys_held (w : World) : Prop := ∀ v, w_ks v = w_ks w → keys_ok v.
Lemma keys_held_ok w : keys_held w ↔ keys_ok w.
Proof. split; [intros H; by apply H|]. intros H v E. by apply (keys_ok_same w). Qed.
Lemma preserves_held {A} (m : K A) : preserves keys_ok m → preserves keys_held m.
Proof. intros H c w Hw. by apply keys_held_ok, H, keys_held_ok. Qed.
Definition held_AssignConsumerKey id v k := preserves_held _ (preserves_AssignConsumerKey id v k).
Definition held_PruneKeyAssignments id := preserves_held _ (preserves_PruneKeyAssignments id).
Definition held_DeleteKeyAssignments id := preserves_held _ (preserves_DeleteKeyAssignments id).
#[local] Hint Resolve held_AssignConsumerKey held_PruneKeyAssignments held_DeleteKeyAssignments : vaas.

Lemma held_migrateKeyAssignment id old new : preserves keys_held (migrateKeyAssignment id old new).
Proof.
  apply preserves_held. intros c w Hw. rewrite migrateKeyAssignment_run.
  destruct (GetValidatorConsumerPubKey id old w) eqn:E; [by eapply moved_keys_ok|done].
Qed.
#[local] Hint Resolve held_migrateKeyAssignment : vaas.

Lemma unassign_keys_ok id p k a w :
  keys_ok w → GetValidatorConsumerPubKey id p w = Some k → key_addr k = Some a →
  keys_ok (upd_ValidatorConsumerPubKey (delete (id, p)) (upd_ValidatorByConsumerAddr (delete (id, a)) w)).
Proof. apply keys_ok_dropped. Qed.

(** The removal hook takes away one assignment at a time. *)
Lemma removed_keeps (P : World → Prop) cons :
  (∀ id p k a w, P w → GetValidatorConsumerPubKey id p w = Some k → key_addr k = Some a →
     P (upd_ValidatorConsumerPubKey (delete (id, p)) (upd_ValidatorByConsumerAddr (delete (id, a)) w))) →
  ok_preserves P (AfterValidatorRemoved cons).
Proof.
  intros Hone c w u w' E Hw. unfold AfterValidatorRemoved in E. apply bind_Ok in E as (l & w1 & [<- <-]%gets_Ok & E).
  unfold GetAllValidatorConsumerPubKeys in E.
  set (l := filter _ _) in E.
  assert (NoDup l.*1) as Hnd.
  { unfold l. eapply sublist_NoDup; [apply (NoDup_fst_iterate (s_ValidatorConsumerPubKey w))|]. apply fmap_sublist, sublist_filter. }
  assert (∀ e, e ∈ l → GetValidatorConsumerPubKey e.1.1 e.1.2 w = Some e.2) as Hl.
  { intros [[id p] k]. unfold l. rewrite list_elem_of_filter, elem_of_iterate. by intros [_ ?]. }
  apply (for_each_Ok_ind (λ dn v, P v ∧
    ∀ id p, (id, p) ∉ dn.*1 → GetValidatorConsumerPubKey id p v = GetValidatorConsumerPubKey id p w)) in E;
    [by destruct E|done|].
  intros dn [[id p] k] rest v v' El [Hv Hsame] Ev. cbn [fst snd] in Ev.
  destruct (String.eqb_spec p cons); cbn [when] in Ev.
  2: { apply ret_Ok in Ev as [_ <-]. split; [done|]. intros id' p' Hn. apply Hsame. set_solver. }
  apply bind_Ok in Ev as (a & v1 & [Ea <-]%or_panic_Ok & Ev).
  unfold DeleteValidatorByConsumerAddr, DeleteValidatorConsumerPubKey in Ev.
  rewrite bind_run in Ev. cbn [modify] in Ev. injection Ev as <-.
  assert (GetValidatorConsumerPubKey id p v = Some k) as Hk.
  { rewrite Hsame; [apply (Hl (id, p, k)); rewrite El; set_solver|].
    rewrite El, fmap_app in Hnd. apply NoDup_app in Hnd as (_ & Hd & _). intros Hin. apply (Hd _ Hin). by left. }
  split; [by eapply Hone|].
  intros id' p' Hn. rewrite fmap_app in Hn. unfold GetValidatorConsumerPubKey; cbn.
  rewrite lookup_delete_ne by (intros [= -> ->]; set_solver). apply Hsame. set_solver.
Qed.

Lemma keys_step w w' : step w w' → keys_ok w → keys_ok w'.
Proof.
  rewrite <-!keys_held_ok. destruct (consume_books keys_held queue_limit) as (? & ? & ?); [intros f v Hv; exact Hv..|].
  apply step_keeps; try (intros; pres; fail).
  intros cons c v u v' E Hv. apply keys_held_ok. apply keys_held_ok in Hv.
  eapply (removed_keeps keys_ok); [apply unassign_keys_ok|exact E|exact Hv].
Qed.

(** *** No consumer address leaks *)
Definition accounted_held (w : World) : Prop := ∀ v, w_ks v = w_ks w → accounted v.
Lemma accounted_held_ok w : accounted_held w ↔ accounted w.
Proof. split; [intros H; by apply H|]. intros H v E. by apply (accounted_same w). Qed.
Lemma preserves_accounted {A} (m : K A) : preserves accounted m → preserves accounted_held m.
Proof. intros H c w Hw. by apply accounted_held_ok, H, accounted_held_ok. Qed.
Definition accounted_AssignConsumerKey id v k := preserves_accounted _ (preserves_accounted_AssignConsumerKey id v k).
Definition accounted_PruneKeyAssignments id := preserves_accounted _ (preserves_accounted_PruneKeyAssignments id).
Definition accounted_DeleteKeyAssignments id := preserves_accounted _ (preserves_accounted_DeleteKeyAssignments id).
#[local] Hint Resolve accounted_AssignConsumerKey accounted_PruneKeyAssignments accounted_DeleteKeyAssignments : vaas.

(** A rotation onto another address under which an assignment stands already. *)
Definition onto_assigned (old new : string) (w : World) : Prop :=
  old ≠ new ∧ ∃ id, is_Some (GetValidatorConsumerPubKey id old w) ∧ is_Some (GetValidatorConsumerPubKey id new w).
Definition colliding_rotation (w w' : World) : Prop :=
  ∃ oldPk newPk c, onto_assigned (PubKeyAddress oldPk) (PubKeyAddress newPk) w ∧
    AfterConsensusPubKeyUpdate oldPk newPk c w = (Ok tt, w').
(** The other steps. x/staking rotates to no address a validator has, so these
    are all the steps there are. *)
Definition clean_step (w w' : World) : Prop := step w w' ∧ ¬ colliding_rotation w w'.

Lemma decide_rotation old new w : onto_assigned old new w ∨ ¬ onto_assigned old new w.
Proof.
  destruct (decide (old = new)) as [->|Hne]; [right; by intros []|].
  destruct (decide (Exists (λ kv : N * string * PubKey, kv.1.2 = old ∧ is_Some (GetValidatorConsumerPubKey kv.1.1 new w))
    (iterate (s_ValidatorConsumerPubKey w)))) as [H|H]; [left|right; intros (_ & id & [k Hk] & Hnew); apply H].
  - apply list.Exists_exists in H as ([[id p] k] & Hin%elem_of_iterate & Hp & Hnew). cbn in *. subst p.
    split; [done|]. exists id. split; [by exists k|done].
  - apply list.Exists_exists. exists (id, old, k). split; [by apply elem_of_iterate|by split].
Qed.
Lemma migrate_accounted old new c w :
  accounted w → ¬ onto_assigned old new w → accounted (MigrateStateOnConsPubKeyRotation old new c w).2.
Proof.
  intros Hw Hfree. destruct (MigrateStateOnConsPubKeyRotation old new c w) as [r w'] eqn:E. cbn [snd].
  assert (r = Ok tt) as -> by (rewrite Migrate_run in E; by injection E).
  unfold MigrateStateOnConsPubKeyRotation in E. apply bind_Ok in E as (ids & w1 & [<- <-]%gets_Ok & E).
  pose proof (nonDeleted_NoDup w) as Hnd. revert E Hnd. generalize (nonDeletedConsumerIds w) as ids. intros ids E Hnd.
  apply (for_each_Ok_ind (λ dn v, accounted_held v ∧
    ∀ id p, id ∉ dn → GetValidatorConsumerPubKey id p v = GetValidatorConsumerPubKey id p w)) in E;
    [by apply accounted_held_ok; destruct E|by split; [apply accounted_held_ok|]|].
  intros dn id rest v v' El [Hv Hsame] Ev. rewrite bind_run, migrateKeyAssignment_run in Ev.
  set (v1 := match GetValidatorConsumerPubKey id old v with Some k => moved_keys id old new k v | None => v end).
  assert (accounted_held v1 ∧ ∀ i p, i ∉ dn ++ [id] → GetValidatorConsumerPubKey i p v1 = GetValidatorConsumerPubKey i p w) as Hv1.
  { split.
    - unfold v1. destruct (GetValidatorConsumerPubKey id old v) as [k|] eqn:Ek; [|done].
      assert (id ∉ dn) as Hid by (subst ids; apply NoDup_app in Hnd as (_ & Hd & _); intros Hin; apply (Hd _ Hin); by left).
      apply accounted_held_ok, moved_keys_accounted; [by apply accounted_held_ok|done|].
      rewrite Hsame in * by done. destruct (decide (old = new)); [by left|right]. apply eq_None_not_Some. intros Hnew.
      apply Hfree. split; [done|]. exists id. by rewrite Ek.
    - intros i p Hi. rewrite <-Hsame by set_solver. unfold v1. destruct (GetValidatorConsumerPubKey id old v) as [k|]; [|done].
      unfold GetValidatorConsumerPubKey; cbn. by rewrite lookup_insert_ne, lookup_delete_ne by set_solver. }
  set (tail := λ moved : bool, (when moved (migrateConsumerValidator id old new;; migrateDowntimeAcceptance id old new);;
    migrateFeeExclusion id old new;; migratePunishedEquivocations id old new) : K unit).
  assert (∃ moved, tail moved c v1 = (Ok tt, v')) as [moved E1].
  { unfold v1. destruct (GetValidatorConsumerPubKey id old v); [by exists true|by exists false]. }
  assert (preserves (λ x, w_ks x = w_ks v1) (tail moved)) as Hks by (unfold tail; pres).
  apply (preserves_run _ _ _ _ _ _ Hks eq_refl) in E1. destruct Hv1 as [Ha Hs]. split.
  - intros x Ex. apply Ha. by rewrite Ex.
  - intros i p Hi. rewrite <-Hs by done. unfold GetValidatorConsumerPubKey, s_ValidatorConsumerPubKey. by rewrite E1.
Qed.

Lemma accounted_step w w' : step w w' → accounted w → accounted w' ∨ colliding_rotation w w'.
Proof.
  rewrite <-!accounted_held_ok.
  destruct (consume_books accounted_held queue_limit) as (? & ? & ?); [intros f v Hv; exact Hv..|].
  apply step_keeps_but; try (intros; pres; fail).
  - intros cons c v u v' E Hv. apply accounted_held_ok. apply accounted_held_ok in Hv.
    eapply (removed_keeps accounted); [apply accounted_unassigned|exact E|exact Hv].
  - intros old new c v Hv%accounted_held_ok.
    unfold commit. destruct (AfterConsensusPubKeyUpdate old new c v) as [[[]|e|] v'] eqn:E; [|by left; apply accounted_held_ok..].
    destruct (decide_rotation (PubKeyAddress old) (PubKeyAddress new) v) as [Hc|Hc]; [right; by exists old, new, c|left].
    apply accounted_held_ok. unfold AfterConsensusPubKeyUpdate in E.
    apply bind_Ok in E as ([] & v1 & E1 & E2). pose proof (migrate_accounted _ _ c v Hv Hc) as Hm. rewrite E1 in Hm.
    assert (preserves (λ x, w_ks x = w_ks v1) (QueueConsPubKeyRotationSnapshots (PubKeyAddress new))) as Hks by pres.
    apply (preserves_run _ _ _ _ _ _ Hks eq_refl) in E2. by apply (accounted_same v1).
Qed.

(** C8. Every step of the provider preserves both books: the fee-pool ledger (each pool's
    stored total is the sum of its non-negative shares) and the key-assignment book (each
    assigned consumer key has its reverse entry, and an address that waits to be pruned
    still resolves, waits once and is nobody's current address). No reverse entry leaks
    either: that each one belongs to an assignment or is queued for pruning is preserved by
    every step except a key rotation onto another address that already holds an assigned key
    (x/staking rotates to no key a validator has). *)
Theorem books_stay_consistent `{!BankLaws} w w' :
  (rtc step w w' → (ledger_ok w → ledger_ok w') ∧ (keys_ok w → keys_ok w')) ∧
  (rtc clean_step w w' → accounted w → accounted w').
Proof.
  split.
  - induction 1 as [w|w v w' Hs _ [IH1 IH2]]; [by split|].
    split; intros Hw; [by eapply IH1, ledger_step|by eapply IH2, keys_step].
  - induction 1 as [w|w v w' [Hs Hc] _ IH]; [done|]. intros Hw.
    by destruct (accounted_step _ _ Hs Hw) as [Hv|?]; [apply IH|].
Qed.
End books.
