(* ===== verification/EquivocationProofs.v ===== *)
(** Consumer equivocation is punished on proof, once per infraction, and a
    light-client attack is contained without punishing anybody. *)
From S2P Require Import Prelude GoTime Types Externals World Keeper Queues Valset FeePool Fees.
From S2P Require Import KeyAssignment Lifecycle LifecycleProofs Downtime Equivocation.
From S2P Require Import Rotation RotationProofs Msgs MsgServer Provider PhaseProofs SystemProofs.

Section equivocation.
Context `{X : Externals}.

Definition tombstoned (addr : string) (w : World) : Prop := IsTombstoned (w_staking w) addr = true.
(** The address an accusation resolves to. *)
Definition accused (id : N) (evidence : DuplicateVoteEvidence) (w : World) : string :=
  liveProviderConsAddr (GetProviderAddrFromConsumerAddr id (vote_ValidatorAddress (VoteA evidence)) w) w.
(** Punishing this infraction (again) is ruled out. *)
Definition settled (chainId addr : string) (h : Z) (w : World) : Prop :=
  (chainId, addr, h) ∈ s_PunishedEquivocations w ∨ tombstoned addr w.

(** *** What the evidence has to prove *)
Definition proves (evidence : DuplicateVoteEvidence) (chainId : string) (pk : string) : Prop :=
  let a := VoteA evidence in
  let b := VoteB evidence in
  PubKeyAddress pk = vote_ValidatorAddress a ∧ PubKeyAddress pk = vote_ValidatorAddress b ∧
  vote_Height a = vote_Height b ∧ vote_Round a = vote_Round b ∧ vote_Type a = vote_Type b ∧
  vote_BlockID a ≠ vote_BlockID b ∧
  PubKeyVerify pk (VoteBytes chainId a) (vote_Signature a) = true ∧
  PubKeyVerify pk (VoteBytes chainId b) (vote_Signature b) = true.
Lemma VerifyDoubleVotingEvidence_spec evidence chainId pubkey :
  VerifyDoubleVotingEvidence evidence chainId pubkey = Ok tt ↔ ∃ pk, pubkey = Some pk ∧ proves evidence chainId pk.
Proof.
  unfold VerifyDoubleVotingEvidence, proves. destruct pubkey as [pk|]; [|split; [done|intros (? & ? & _); done]].
  split.
  - intros E. exists pk. split; [done|].
    repeat match type of E with (if ?b then _ else _) = _ => destruct b eqn:?; [discriminate E|] end.
    rewrite ?negb_false_iff, ?orb_false_iff, ?negb_false_iff, ?String.eqb_eq, ?Z.eqb_eq, ?String.eqb_neq in *.
    repeat match goal with H : _ ∧ _ |- _ => destruct H end.
    rewrite ?negb_false_iff, ?Z.eqb_eq in *. split_and!; congruence.
  - intros (? & [= <-] & E1 & E2 & E3 & E4 & E5 & E6 & E7 & E8).
    rewrite E1, String.eqb_refl, E3, E4, E5, !Z.eqb_refl, <-E1, E2, String.eqb_refl, E7, E8. cbn.
    by rewrite (proj2 (String.eqb_neq _ _) E6).
Qed.

(** Reads a step whose failure leaves the world alone. *)
Ltac read_step E a Ea := apply ro_bind in E as [(a & Ea & E)|[-> _]]; [|done|by pres].

(** A method that does not fail as for a tombstoned validator. *)
Definition never {A} (m : K A) : Prop := ∀ c w w', m c w ≠ (Err ErrValidatorTombstoned, w').
Lemma never_tombstoned {A} (m : K A) c w w' : never m → m c w = (Err ErrValidatorTombstoned, w') → False.
Proof. intros H. apply H. Qed.
Lemma never_bind {A B} (m : K A) (f : A → K B) : never m → (∀ a, never (f a)) → never (m ≫= f).
Proof.
  intros Hm Hf c w w'. rewrite bind_run. specialize (Hm c w).
  destruct (m c w) as [[a|e|] w1]; [apply Hf|naive_solver|done].
Qed.
Lemma never_of_option {A} (o : option A) e : e ≠ ErrValidatorTombstoned → never (of_option o e).
Proof. intros ? c w w'. destruct o; [done|]; intros [= ?]; done. Qed.
Lemma never_or_panic {A} (o : option A) : never (or_panic o).
Proof. by intros c w w'; destruct o. Qed.
Lemma never_guard_err b e : e ≠ ErrValidatorTombstoned → never (guard_err b e).
Proof. intros ? c w w'. destruct b; [done|]; intros [= ?]; done. Qed.
Ltac nev1 :=
  lazymatch goal with
  | |- never (_ ≫= _) => apply never_bind; [|intros ?]
  | |- never (of_option _ _) => by apply never_of_option
  | |- never (guard_err _ _) => by apply never_guard_err
  | |- never (or_panic _) => apply never_or_panic
  | |- never (match ?x with _ => _ end) => destruct x
  | |- never (let _ := _ in _) => cbv zeta
  | |- never (when ?b _) => destruct b; unfold when
  | |- never (gets _) => by intros ???
  | |- never (asks _) => by intros ???
  | |- never (modify _) => by intros ???
  | |- never (mret _) => by intros ???
  | |- never panic => by intros ???
  | |- never ?m => let h := head_of m in unfold h
  end.
Ltac nev := repeat nev1.

(** *** A tombstoned validator is not punished *)
Lemma slashableStake_tombstoned p c w :
  tombstoned (liveProviderConsAddr p w) w → ∃ e, slashableStake p c w = (Err e, w).
Proof.
  unfold tombstoned, liveProviderConsAddr, slashableStake. intros Ht. rewrite !bind_run. cbn [gets].
  destruct (GetValidatorByConsAddr (w_staking w) p) as [v|]; [|by eexists]. cbn [of_option mret M_ret].
  rewrite bind_run. destruct (IsUnbonded v); [by eexists|]. cbn [guard_err negb mret M_ret].
  rewrite bind_run. cbn [gets]. unfold liveConsAddrOf. rewrite Ht. rewrite bind_run. cbn. by eexists.
Qed.
Lemma punishEquivocation_tombstoned p params c w :
  tombstoned (liveProviderConsAddr p w) w → (punishEquivocation p params c w).2 = w.
Proof.
  intros (e & E)%(slashableStake_tombstoned p c). unfold punishEquivocation, SlashValidator.
  rewrite bind_run. unfold try. rewrite bind_run, E. cbn. by case_bool_decide.
Qed.
(** A resubmission leaves every stake alone. *)
Lemma settled_resubmission id evidence pubkey chainId c w r w' :
  HandleConsumerDoubleVoting id evidence pubkey c w = (r, w') →
  GetConsumerChainId id w = Some chainId →
  settled chainId (accused id evidence w) (vote_Height (VoteA evidence)) w →
  w_staking w' = w_staking w.
Proof.
  intros E Hch Hset. unfold HandleConsumerDoubleVoting in E.
  read_step E ph Eph. read_step E u1 E1. read_step E mh Emh. read_step E u2 E2. read_step E ch Ech.
  read_step E u3 E3. read_step E pa Epa. read_step E la Ela. cbv zeta in E. read_step E pun Epun. run_inv.
  fold (accused id evidence w) in E. destruct (bool_decide _) eqn:Ep in E; [by injection E as _ <-|].
  apply bool_decide_eq_false in Ep. destruct Hset as [Hin|Ht]; [done|].
  read_step E ip Eip. rewrite bind_run in E.
  pose proof (punishEquivocation_tombstoned
    (GetProviderAddrFromConsumerAddr id (vote_ValidatorAddress (VoteA evidence)) w) (DoubleSign ip) c w Ht) as Hw.
  destruct (punishEquivocation _ _ c w) as [[[|]|e|] w1]; cbn in Hw; subst w1; try (by injection E as _ <-).
  rewrite bind_run in E. unfold fmap, M_fmap in E. rewrite !bind_run in E.
  destruct (DoubleSign ip) as [ds|]; cbn in E; [destruct (Tombstone ds)|]; by injection E as _ <-.
Qed.

(** *** A punishment settles the infraction *)
Definition same_keys (w w' : World) : Prop :=
  ∀ addr, GetConsAddr <$> GetValidatorByConsAddr (w_staking w') addr
        = GetConsAddr <$> GetValidatorByConsAddr (w_staking w) addr.
Lemma same_keys_live w w' p : same_keys w w' → liveProviderConsAddr p w' = liveProviderConsAddr p w.
Proof.
  intros H. specialize (H p). unfold liveProviderConsAddr.
  destruct (GetValidatorByConsAddr (w_staking w) p), (GetValidatorByConsAddr (w_staking w') p); cbn in H; congruence.
Qed.

Lemma slashableStake_ends p c w r w' :
  slashableStake p c w = (r, w') →
  w' = w ∧ match r with
           | Ok (_, _, addr) => addr = liveProviderConsAddr p w
           | Err e => e = ErrValidatorTombstoned → tombstoned (liveProviderConsAddr p w) w
           | Panic => True end.
Proof.
  intros E. assert (preserves (λ v, v = w) (slashableStake p)) as P by pres.
  specialize (P c w eq_refl). rewrite E in P. cbn in P. split; [done|]. subst w'. revert E.
  unfold slashableStake, tombstoned, liveProviderConsAddr, liveConsAddrOf. rewrite bind_run, bind_run. cbn [gets].
  destruct (GetValidatorByConsAddr (w_staking w) p) as [v|]; cbn [of_option mret M_ret raise]; [|by intros [= <-]].
  rewrite bind_run. destruct (IsUnbonded v); cbn [negb guard_err mret M_ret raise]; [by intros [= <-]|].
  rewrite bind_run. cbn [gets]. rewrite bind_run.
  destruct (IsTombstoned (w_staking w) (default p (GetConsAddr v))) eqn:Et; cbn [negb guard_err mret M_ret raise].
  { by intros [= <-]. }
  destruct r as [[[q t] a]|e|]; [|intros E ->; exfalso|done].
  - intros E. by run_inv.
  - revert E. apply never_tombstoned. nev.
Qed.

Context `{!SlashingLaws}.
Lemma slash_call_same_keys a h p f i : ∀ c w u w',
  slash_call a h p f i c w = (Ok u, w') →
  same_keys w w' ∧ s_PunishedEquivocations w' = s_PunishedEquivocations w.
Proof.
  unfold slash_call. intros c w u w' E. run_inv. split; [|done]. intros addr. by eapply slash_keeps_keys.
Qed.
Lemma JailAndTombstone_ends p params c w r w' :
  JailAndTombstoneValidator p params c w = (r, w') →
  s_PunishedEquivocations w' = s_PunishedEquivocations w ∧
  match r with
  | Ok _ => ∀ sj, params = Some sj → Tombstone sj = true → tombstoned (liveProviderConsAddr p w) w'
  | Err e => e = ErrValidatorTombstoned → tombstoned (liveProviderConsAddr p w) w'
  | Panic => True end.
Proof.
  intros E. split.
  { assert (preserves (λ v, s_PunishedEquivocations v = s_PunishedEquivocations w) (JailAndTombstoneValidator p params)) as P by pres.
    specialize (P c w eq_refl). by rewrite E in P. }
  revert E. unfold JailAndTombstoneValidator. rewrite bind_run, bind_run. cbn [gets].
  unfold tombstoned, liveProviderConsAddr, liveConsAddrOf.
  destruct (GetValidatorByConsAddr (w_staking w) p) as [v|]; cbn [of_option mret M_ret raise]; [|by intros [= <-]].
  rewrite bind_run. destruct (IsUnbonded v); cbn [negb guard_err mret M_ret raise]; [by intros [= <-]|].
  cbv zeta. rewrite bind_run. cbn [gets]. rewrite bind_run.
  set (a := default p (GetConsAddr v)).
  destruct (IsTombstoned (w_staking w) a) eqn:Et; cbn [negb guard_err mret M_ret raise].
  { by intros [= <- <-]. }
  destruct r as [u|e|]; [|intros E ->; exfalso; revert E; apply never_tombstoned; nev|done].
  intros E sj -> Hsj. run_inv. rewrite Hsj in *. cbn [when] in *. unfold staking_call in *. run_inv.
  cbn. by eapply tombstone_marks.
Qed.

Lemma punishEquivocation_settles p params c w b w' :
  punishEquivocation p params c w = (Ok b, w') →
  s_PunishedEquivocations w' = s_PunishedEquivocations w ∧
  ((b = true ∨ ∃ sj, params = Some sj ∧ Tombstone sj = true) → tombstoned (liveProviderConsAddr p w) w') ∧
  (b = false → is_Some params).
Proof.
  unfold punishEquivocation, SlashValidator. rewrite bind_run. unfold try at 1. rewrite bind_run.
  destruct (slashableStake p c w) as [r w1] eqn:Es. apply slashableStake_ends in Es as [-> Hr].
  destruct r as [[[power tokens] addr]|e|]; [| |done].
  2: { case_bool_decide; [|done]. intros [= <- <-]. split_and!; [done|by auto|done]. }
  rewrite bind_run. destruct params as [sj|]; cbn [or_panic mret M_ret panic]; [|done].
  destruct (slash_call addr 0 power (SlashFraction sj) INFRACTION_DOUBLE_SIGN c w) as [[[]|e|] w2] eqn:Ec; [| |done].
  2: { case_bool_decide as He; [|done]. subst e. exfalso. revert Ec. apply never_tombstoned. nev. }
  apply slash_call_same_keys in Ec as [Hk Hp]. rewrite bind_run. unfold try.
  destruct (JailAndTombstoneValidator p (Some sj) c w2) as [r w3] eqn:Ej. apply JailAndTombstone_ends in Ej as [Hp3 Hj].
  rewrite (same_keys_live w w2 p Hk) in Hj. destruct r as [u|e|]; [| |done].
  - intros [= <- <-]. split_and!; [congruence| |by eexists].
    intros [?|(sj' & [= <-] & Ht)]; [done|]. by eapply Hj.
  - case_bool_decide; [|done]. intros [= <- <-]. split_and!; [congruence|by auto|done].
Qed.

(** A successful submission, step by step. *)
Lemma double_voting_run id evidence pubkey c w u w' :
  HandleConsumerDoubleVoting id evidence pubkey c w = (Ok u, w') →
  GetConsumerPhase id w = CONSUMER_PHASE_LAUNCHED ∧
  GetEquivocationEvidenceMinHeight id w ≤ vote_Height (VoteA evidence) mod 2 ^ 64 ∧
  ∃ chainId pk, GetConsumerChainId id w = Some chainId ∧ pubkey = Some pk ∧ proves evidence chainId pk ∧
    let addr := accused id evidence w in
    let key := (chainId, addr, vote_Height (VoteA evidence)) in
    (w' = w ∧ key ∈ s_PunishedEquivocations w) ∨
    (¬ (key ∈ s_PunishedEquivocations w) ∧
     ((s_PunishedEquivocations w' = filter (λ k, k.1 ≠ (chainId, addr)) (s_PunishedEquivocations w) ∧ tombstoned addr w') ∨
      s_PunishedEquivocations w' = {[ key ]} ∪ s_PunishedEquivocations w)).
Proof.
  intros E. unfold HandleConsumerDoubleVoting in E. apply bind_Ok in E as (ph & w1 & [<- <-]%gets_Ok & E).
  apply bind_Ok in E as (? & w1 & [->%bool_decide_eq_true <-]%guard_err_Ok & E).
  apply bind_Ok in E as (mh & w1 & [<- <-]%gets_Ok & E).
  apply bind_Ok in E as (? & w1 & [Hmin%negb_true_iff%Z.ltb_ge <-]%guard_err_Ok & E).
  split; [done|]. split; [done|].
  apply bind_Ok in E as (chainId & w1 & Ech & E). apply bind_Ok in Ech as (o & w0 & [<- <-]%gets_Ok & Ech).
  apply of_option_Ok in Ech as [Ech <-].
  apply bind_Ok in E as (u1 & w1 & Ev & E).
  destruct (VerifyDoubleVotingEvidence evidence chainId pubkey) as [[]|e|] eqn:Ever; [|done..].
  apply ret_Ok in Ev as [_ <-]. apply VerifyDoubleVotingEvidence_spec in Ever as (pk & -> & Hpr).
  exists chainId, pk. split; [done|]. split; [done|]. split; [done|]. cbv zeta.
  apply bind_Ok in E as (pa & w1 & [<- <-]%gets_Ok & E).
  apply bind_Ok in E as (la & w1 & [<- <-]%gets_Ok & E). cbv zeta in E.
  apply bind_Ok in E as (pun & w1 & [<- <-]%gets_Ok & E). fold (accused id evidence w) in E.
  destruct (bool_decide _) eqn:Ep in E.
  { apply bool_decide_eq_true in Ep. apply ret_Ok in E as [_ <-]. by left. }
  apply bool_decide_eq_false in Ep. right. split; [done|].
  apply bind_Ok in E as (ip & w2 & Eip & E).
  assert (w2 = w) as ->.
  { assert (preserves (λ v, v = w) GetInfractionParams) as P by pres. specialize (P c w eq_refl). by rewrite Eip in P. }
  apply bind_Ok in E as (b & w2 & Epun & E).
  apply punishEquivocation_settles in Epun as (Hp & Ht & Hf). fold (accused id evidence w) in Ht.
  apply bind_Ok in E as (forget & w3 & Efg & E).
  assert (w3 = w2 ∧ (forget = true → tombstoned (accused id evidence w) w2)) as [-> Hfg].
  { destruct b; [apply ret_Ok in Efg as [<- <-]; auto|]. unfold fmap, M_fmap in Efg.
    apply bind_Ok in Efg as (sj & w4 & [Esj <-]%or_panic_Ok & [<- <-]%ret_Ok). split; [done|]. intros Htm. apply Ht. right; eauto. }
  unfold s_PunishedEquivocations in *.
  destruct forget; apply modify_Ok in E as ->; [left; split; [cbn; by rewrite Hp|by apply Hfg]|right; cbn; by rewrite Hp].
Unshelve. all: exact c.
Qed.

(** A double-voting submission succeeds only for a launched consumer, at or above its
    minimum evidence height, with two votes of one validator for different blocks at the
    same height, round and type, both signed over the consumer's chain id by the given key;
    and it changes nothing but stakes and the record of punishments. *)
Lemma double_voting_needs_proof id evidence pubkey c w w' :
  HandleConsumerDoubleVoting id evidence pubkey c w = (Ok tt, w') →
  GetConsumerPhase id w = CONSUMER_PHASE_LAUNCHED ∧
  GetEquivocationEvidenceMinHeight id w ≤ vote_Height (VoteA evidence) mod 2 ^ 64 ∧
  (∃ chainId pk, GetConsumerChainId id w = Some chainId ∧ pubkey = Some pk ∧ proves evidence chainId pk) ∧
  (* and nothing but the stakes and the record of punishments changes *)
  set_staking (w_staking w) (upd_PunishedEquivocations (λ _, s_PunishedEquivocations w) w') = w.
Proof.
  intros E. destruct (double_voting_run _ _ _ _ _ _ _ E) as (H1 & H2 & chainId & pk & H3 & H4 & H5 & _).
  split_and!; [done|done|by exists chainId, pk|].
  assert (preserves (λ v, set_staking (w_staking w) (upd_PunishedEquivocations (λ _, s_PunishedEquivocations w) v)
    = set_staking (w_staking w) (upd_PunishedEquivocations (λ _, s_PunishedEquivocations w) w))
    (HandleConsumerDoubleVoting id evidence pubkey)) as P by pres.
  specialize (P c w eq_refl). rewrite E in P. cbn [snd] in P. rewrite P. by destruct w as [? ? ? ? [] ? ? ?].
Qed.

(** C23. A double-voting submission that succeeds settles the infraction: it is on record,
    or its validator is tombstoned. Whoever resubmits a settled infraction, with whatever
    evidence, key, consumer id or outcome, slashes and jails nobody. *)
Theorem equivocation_is_punished_once id evidence pubkey chainId c w w1 :
  HandleConsumerDoubleVoting id evidence pubkey c w = (Ok tt, w1) →
  GetConsumerChainId id w = Some chainId →
  let addr := accused id evidence w in
  let h := vote_Height (VoteA evidence) in
  settled chainId addr h w1 ∧
  ∀ id' evidence' pubkey' c' w2 r w3,
    settled chainId addr h w2 →
    GetConsumerChainId id' w2 = Some chainId → accused id' evidence' w2 = addr → vote_Height (VoteA evidence') = h →
    HandleConsumerDoubleVoting id' evidence' pubkey' c' w2 = (r, w3) → w_staking w3 = w_staking w2.
Proof.
  intros E Hch addr h. split.
  - destruct (double_voting_run _ _ _ _ _ _ _ E) as (_ & _ & ch & pk & Hch' & _ & _ & Hrun).
    assert (ch = chainId) as -> by congruence. unfold settled.
    destruct Hrun as [[-> Hin]|[_ [[_ Ht]|Hp]]]; [by left|by right|left]. rewrite Hp. set_solver.
  - intros id' evidence' pubkey' c' w2 r w3 Hs Hch2 <- <- E2. by eapply settled_resubmission.
Qed.

(** *** Settled infractions stay settled *)
Definition same_punished (w v : World) : Prop := s_PunishedEquivocations v = s_PunishedEquivocations w.
Lemma handle_same_punished msg w :
  (∀ m, msg ≠ SubmitConsumerDoubleVoting_ m) → preserves (same_punished w) (handle msg).
Proof. intros Hm. destruct msg as [| | | | | | | | | | | |m|]; [pres..|by destruct (Hm m)|pres]. Qed.

Lemma submit_double_voting_run msg c w u w' :
  SubmitConsumerDoubleVoting msg c w = (Ok u, w') →
  ∃ evidence pubkey, HandleConsumerDoubleVoting (mdv_ConsumerId msg) evidence pubkey c w = (Ok u, w').
Proof.
  unfold SubmitConsumerDoubleVoting. intros E. run_inv.
  match goal with p : nat * CmtValidator |- _ => destruct p end. run_inv. by do 2 eexists.
Qed.

Lemma rotated_settled old new chainId addr h c w :
  PubKeyAddress old ≠ addr → settled chainId addr h w →
  settled chainId addr h (commit (AfterConsensusPubKeyUpdate old new) c w).
Proof.
  intros Hne. apply commit_keeps. intros a w' E. unfold AfterConsensusPubKeyUpdate in E. cbv zeta in E.
  apply bind_Ok in E as (u & w1 & E1 & E).
  assert (s_PunishedEquivocations w' = s_PunishedEquivocations w1 ∧ w_staking w' = w_staking w1) as [Ep Es].
  { assert (preserves (λ v, s_PunishedEquivocations v = s_PunishedEquivocations w1 ∧ w_staking v = w_staking w1)
      (QueueConsPubKeyRotationSnapshots (PubKeyAddress new))) as P by pres.
    specialize (P c w1 (conj eq_refl eq_refl)). by rewrite E in P. }
  unfold settled, tombstoned. rewrite Ep, Es. rewrite Migrate_run in E1. injection E1 as _ <-.
  generalize (nonDeletedConsumerIds w). intros l. clear E a w' Ep Es u. revert w.
  induction l as [|id l IH]; intros w Hs; [done|]. cbn [foldl]. apply IH.
  destruct (rotate_one_frame (PubKeyAddress old) (PubKeyAddress new) id w) as (_ & _ & _ & Est & Epu).
  rewrite Est, Epu. destruct Hs as [Hin|Ht]; [left|by right].
  destruct (GetConsumerChainId id w); [by apply moved_punished_keeps|done].
Qed.

(** A submission forgets the records of tombstoned validators only. *)
Lemma handled_settled id evidence pubkey c w w' chainId addr h :
  HandleConsumerDoubleVoting id evidence pubkey c w = (Ok tt, w') →
  (∀ a, tombstoned a w → tombstoned a w') → settled chainId addr h w → settled chainId addr h w'.
Proof.
  intros E Htomb [Hin|Ht]; [|right; by apply Htomb].
  destruct (double_voting_run _ _ _ _ _ _ _ E) as (_ & _ & ch & pk & _ & _ & _ & Hrun). cbv zeta in Hrun.
  destruct Hrun as [[-> _]|[_ [[Hp Ht]|Hp]]]; [by left| |left; rewrite Hp; set_solver].
  destruct (decide ((chainId, addr) = (ch, accused id evidence w))) as [[= -> ->]|Hne]; [by right|left].
  rewrite Hp. apply elem_of_filter. by split.
Qed.

(** C24. A settled infraction stays settled through every step of the provider that lifts no
    tombstone, except a key rotation of the accused validator (which moves the record, see
    rotation_carries_the_books). *)
Theorem settled_infractions_stay_settled chainId addr h w w' :
  step w w' → (∀ a, tombstoned a w → tombstoned a w') →
  settled chainId addr h w →
  settled chainId addr h w' ∨
  ∃ c old new, PubKeyAddress old = addr ∧ w' = commit (AfterConsensusPubKeyUpdate old new) c w.
Proof.
  intros Hs Htomb Hset.
  assert (same_punished w w' → settled chainId addr h w') as Hsame.
  { intros Ep. destruct Hset as [Hin|Ht]; [left; by rewrite Ep|right; by apply Htomb]. }
  assert (∀ {A} (m : K A) c, preserves (same_punished w) m → same_punished w (commit m c w)) as Hcommit.
  { intros A m c Hm. apply commit_keeps; [intros a v E; by apply (ok_pres _ _ Hm) in E; auto|done]. }
  destruct (consume_books (same_punished w) queue_limit) as (? & ? & ?); [intros f v Hv; exact Hv..|].
  destruct Hs as [c msg w Hv| |c e err p w|c e w|c val w|c cons w|c old new w|c w|c w|w s b i];
    try (left; apply Hsame, Hcommit; pres; fail).
  - destruct msg as [| | | | | | | | | | | |m|]; try (left; apply Hsame, Hcommit; apply handle_same_punished; by intros ? [=]).
    left. revert Htomb Hset. clear Hsame Hcommit. unfold commit. cbn [handle].
    destruct (SubmitConsumerDoubleVoting m c w) as [[[]|e|] w'] eqn:E; [|done..]. intros Htomb Hset.
    apply submit_double_voting_run in E as (evidence & pubkey & E). by eapply handled_settled.
  - left. apply Hsame. apply commit_recv_keeps; [apply ok_pres; pres|done].
  - destruct (decide (PubKeyAddress old = addr)); [right; by exists c, old, new|left; by apply rotated_settled].
  - left. by apply Hsame.
Qed.
End equivocation.

(** ** Light-client attacks *)
Section misbehaviour.
Context `{X : Externals}.

(** The validator at [addr] of the block signed its commit at index [i]. *)
Definition signed_at (lb : LightBlock) (i : nat) (addr : string) : Prop :=
  ∃ sig n val, lc_Signatures (lb_Commit lb) !! i = Some sig ∧ sig_Flag sig ≠ BlockIDFlagAbsent ∧
    sig_ValidatorAddress sig = addr ∧ GetByAddress (lb_ValidatorSet lb) addr = Some (n, val) ∧
    PubKeyAddress (val_PubKey val) = addr ∧
    PubKeyVerify (val_PubKey val) (LightVoteSignBytes (lb_Commit lb) (lh_ChainID (lb_Header lb)) i) (sig_Signature sig) = true.

Lemma elem_of_signers lb i sig :
  (i, sig) ∈ signers lb ↔ lc_Signatures (lb_Commit lb) !! i = Some sig ∧ sig_Flag sig ≠ BlockIDFlagAbsent.
Proof.
  unfold signers. rewrite list_elem_of_filter, elem_of_lookup_imap. cbn. split.
  - intros (Hf & j & x & [= -> ->] & Hj). by split.
  - intros [Hj Hf]. split; [done|]. by exists i, sig.
Qed.
Lemma header1Signers_lookup lb addr i :
  header1Signers lb !! addr = Some i → ∃ sig, (i, sig) ∈ signers lb ∧ sig_ValidatorAddress sig = addr.
Proof.
  unfold header1Signers.
  assert (∀ l (m : gmap string nat), foldl (λ m s, <[sig_ValidatorAddress s.2 := s.1]> m) m l !! addr = Some i →
    (∃ sig, (i, sig) ∈ l ∧ sig_ValidatorAddress sig = addr) ∨ m !! addr = Some i) as H.
  { induction l as [|[j sig] l IH]; intros m E; [by right|]. cbn [foldl] in E.
    destruct (IH _ E) as [(s & Hin & Hs)|E']; [left; exists s; split; [by right|done]|].
    cbn in E'. destruct (decide (sig_ValidatorAddress sig = addr)) as [<-|Hne].
    - rewrite lookup_insert_eq in E'. injection E' as ->. left. exists sig. split; [by left|done].
    - rewrite lookup_insert_ne in E' by done. by right. }
  intros E. by destruct (H _ _ E) as [?|?%lookup_empty_Some].
Qed.

Lemma verifyLightBlockCommitSig_Ok lb i sig c w u w' :
  (i, sig) ∈ signers lb → verifyLightBlockCommitSig lb i c w = (Ok u, w') →
  w' = w ∧ signed_at lb i (sig_ValidatorAddress sig).
Proof.
  intros [Hi Hf]%elem_of_signers E. unfold verifyLightBlockCommitSig in E. rewrite Hi in E.
  apply bind_Ok in E as (s & w1 & [[= <-] <-]%or_panic_Ok & E).
  apply bind_Ok in E as ([n val] & w1 & [Eg <-]%of_option_Ok & E).
  apply bind_Ok in E as (? & w1 & [Ea%String.eqb_eq <-]%guard_err_Ok & [Ev <-]%guard_err_Ok).
  split; [done|]. by exists sig, n, val.
Qed.

Lemma header1Signers_covers lb i sig :
  (i, sig) ∈ signers lb → is_Some (header1Signers lb !! sig_ValidatorAddress sig).
Proof.
  unfold header1Signers. generalize (∅ : gmap string nat). generalize (signers lb).
  induction l as [|[j s] l IH]; intros m; [by intros ?%elem_of_nil|].
  intros [[= <- <-]|Hin]%elem_of_cons; cbn [foldl]; [|by apply IH]. clear IH.
  assert (is_Some (<[sig_ValidatorAddress sig:=i]> m !! sig_ValidatorAddress sig)) as H by (rewrite lookup_insert_eq; eauto).
  revert H. cbn. generalize (<[sig_ValidatorAddress sig:=i]> m). induction l as [|[j s] l IH]; intros m' H; [done|].
  cbn [foldl]. apply IH. cbn. destruct (decide (sig_ValidatorAddress s = sig_ValidatorAddress sig)) as [->|];
    [rewrite lookup_insert_eq; eauto|by rewrite lookup_insert_ne].
Qed.

Definition shared (lb1 : LightBlock) (s : nat * CommitSig) : option CmtValidator :=
  match header1Signers lb1 !! sig_ValidatorAddress s.2 with
  | None => None
  | Some _ => snd <$> GetByAddress (lb_ValidatorSet lb1) (sig_ValidatorAddress s.2)
  end.
(** The loop over the second commit. *)
Lemma byzantine_step lb1 lb2 s vs c w vs' w' :
  s ∈ signers lb2 →
  (match header1Signers lb1 !! sig_ValidatorAddress s.2 with
   | None => mret vs
   | Some sigIdxHeader1 =>
       verifyLightBlockCommitSig lb1 sigIdxHeader1;;
       verifyLightBlockCommitSig lb2 s.1;;
       '(_, val) ← or_panic (GetByAddress (lb_ValidatorSet lb1) (sig_ValidatorAddress s.2));
       mret (vs ++ [val])
   end) c w = (Ok vs', w') →
  match shared lb1 s with
  | None => vs' = vs ∧ header1Signers lb1 !! sig_ValidatorAddress s.2 = None
  | Some v => vs' = vs ++ [v] ∧ ∃ n i, GetByAddress (lb_ValidatorSet lb1) (sig_ValidatorAddress s.2) = Some (n, v) ∧
      signed_at lb1 i (sig_ValidatorAddress s.2) ∧ signed_at lb2 s.1 (sig_ValidatorAddress s.2)
  end.
Proof.
  destruct s as [j s]. unfold shared. cbn [fst snd]. intros Hs E.
  destruct (header1Signers lb1 !! sig_ValidatorAddress s) as [i|] eqn:Eh; [|by apply ret_Ok in E as [<- _]].
  apply header1Signers_lookup in Eh as (s1 & Hs1 & Ea).
  apply bind_Ok in E as (? & w1 & [-> H1]%(verifyLightBlockCommitSig_Ok _ _ s1) & E); [|done].
  apply bind_Ok in E as (? & w1 & [-> H2]%(verifyLightBlockCommitSig_Ok _ _ s) & E); [|done].
  apply bind_Ok in E as ([n v] & w1 & [Eg _]%or_panic_Ok & [<- _]%ret_Ok).
  rewrite Eg. cbn. split; [done|]. exists n, i. split_and!; [done|by rewrite <-Ea|done].
Qed.

(** The validators GetByzantineValidators attributes an attack to are in the first
    header's set and signed both commits; unless the headers agree on the state and differ
    in the round (an amnesia attack), everybody who signed both commits is named. *)
Lemma attribution_is_signed misbehaviour c w vs w' :
  GetByzantineValidators misbehaviour c w = (Ok vs, w') →
  w' = w ∧ ∃ lb1 lb2,
    headerToLightBlock (Header1 misbehaviour) c w = (Ok lb1, w) ∧
    headerToLightBlock (Header2 misbehaviour) c w = (Ok lb2, w) ∧
    (* everybody named signed both commits *)
    (∀ v, v ∈ vs → ∃ addr n i j, GetByAddress (lb_ValidatorSet lb1) addr = Some (n, v) ∧
       signed_at lb1 i addr ∧ signed_at lb2 j addr) ∧
    (* and but for an amnesia attack everybody who signed both is named *)
    (headersStateTransitionsAreConflicting (lb_Header lb1) (lb_Header lb2) = true ∨
       lc_Round (lb_Commit lb1) = lc_Round (lb_Commit lb2) →
     ∀ i s1 j s2, (i, s1) ∈ signers lb1 → (j, s2) ∈ signers lb2 →
       sig_ValidatorAddress s1 = sig_ValidatorAddress s2 →
       ∃ n v, GetByAddress (lb_ValidatorSet lb1) (sig_ValidatorAddress s2) = Some (n, v) ∧ v ∈ vs).
Proof.
  intros E.
  assert (preserves (λ v, v = w) (GetByzantineValidators misbehaviour)) as P by pres.
  specialize (P c w eq_refl). rewrite E in P. cbn in P. subst w'. split; [done|].
  assert (∀ h lb v, headerToLightBlock h c w = (Ok lb, v) → v = w) as Hro.
  { intros h lb v Eh. assert (preserves (λ v, v = w) (headerToLightBlock h)) as P by pres.
    specialize (P c w eq_refl). by rewrite Eh in P. }
  unfold GetByzantineValidators in E.
  apply bind_Ok in E as (lb1 & w1 & E1 & E). pose proof (Hro _ _ _ E1) as ->.
  apply bind_Ok in E as (lb2 & w1 & E2 & E). pose proof (Hro _ _ _ E2) as ->.
  exists lb1, lb2. split; [done|]. split; [done|].
  destruct (negb _ && negb _) eqn:Ec in E.
  { apply ret_Ok in E as [<- _]. apply andb_true_iff in Ec as [Ec1%negb_true_iff Ec2%negb_true_iff%Z.eqb_neq].
    split; [by intros v ?%elem_of_nil|]. intros [|]; congruence. }
  apply (fold_each_Ok_ind (λ dn vs _,
    (∀ v, v ∈ vs → ∃ addr n i j, GetByAddress (lb_ValidatorSet lb1) addr = Some (n, v) ∧
       signed_at lb1 i addr ∧ signed_at lb2 j addr) ∧
    ∀ s, s ∈ dn → is_Some (header1Signers lb1 !! sig_ValidatorAddress s.2) →
      ∃ n v, GetByAddress (lb_ValidatorSet lb1) (sig_ValidatorAddress s.2) = Some (n, v) ∧ v ∈ vs)) in E.
  - destruct E as [Hs Hc]. split; [done|]. intros _ i s1 j s2 H1 H2 Ea. apply (Hc (j, s2)); [done|]. cbn.
    rewrite <-Ea. by eapply header1Signers_covers.
  - split; [by intros v ?%elem_of_nil|by intros s ?%elem_of_nil].
  - intros dn s rest vs1 v1 vs2 v2 El [Hs Hc] Es. apply (byzantine_step lb1 lb2) in Es; [|rewrite El; set_solver].
    destruct (shared lb1 s) as [v|]; [destruct Es as (-> & n & i & Hg & H1 & H2)|destruct Es as [-> Hn]].
    + split; [intros v' [Hv|Hv%list_elem_of_singleton]%elem_of_app; [by apply Hs|subst v'; by exists (sig_ValidatorAddress s.2), n, i, s.1]|].
      intros s' [Hin|Hin%list_elem_of_singleton]%elem_of_app Hh; [|subst s'; exists n, v; split; [done|set_solver]].
      destruct (Hc s' Hin Hh) as (n' & v' & ? & ?). exists n', v'. split; [done|set_solver].
    + split; [done|]. intros s' [Hin|Hin%list_elem_of_singleton]%elem_of_app Hh; [by apply Hc|].
      subst s'. rewrite Hn in Hh. by destruct Hh.
Qed.

Lemma CheckMisbehaviour_Ok id misbehaviour c w u w' :
  CheckMisbehaviour id misbehaviour c w = (Ok u, w') →
  w' = w ∧ GetConsumerChainId id w = Some (mh_ChainID (Header1 misbehaviour)) ∧
  GetConsumerClientId id w = Some (mb_ClientId misbehaviour) ∧
  mh_Height (Header1 misbehaviour) = mh_Height (Header2 misbehaviour) ∧
  GetEquivocationEvidenceMinHeight id w ≤ (mh_Height (Header1 misbehaviour)).2 ∧
  CheckForMisbehaviour (w_ibc w) (mb_ClientId misbehaviour) misbehaviour = true ∧
  VerifyMisbehaviour (w_ibc w) (mb_ClientId misbehaviour) misbehaviour = true.
Proof.
  unfold CheckMisbehaviour. intros E. cbv zeta in E.
  apply bind_Ok in E as (ch & w1 & Ech & E). apply bind_Ok in Ech as (o & w0 & [<- <-]%gets_Ok & [Ech <-]%of_option_Ok).
  apply bind_Ok in E as (? & w1 & [->%String.eqb_eq <-]%guard_err_Ok & E).
  apply bind_Ok in E as (cl & w1 & Ecl & E). apply bind_Ok in Ecl as (o & w0 & [<- <-]%gets_Ok & [Ecl <-]%of_option_Ok).
  apply bind_Ok in E as (? & w1 & [<-%String.eqb_eq <-]%guard_err_Ok & E).
  apply bind_Ok in E as (? & w1 & [Eh%bool_decide_eq_true <-]%guard_err_Ok & E).
  apply bind_Ok in E as (mh & w1 & [<- <-]%gets_Ok & E).
  apply bind_Ok in E as (? & w1 & [Hmin%negb_true_iff%Z.ltb_ge <-]%guard_err_Ok & E).
  apply bind_Ok in E as (ok & w1 & [Ec <-]%gets_Ok & E). apply bind_Ok in E as (? & w1 & [-> <-]%guard_err_Ok & E).
  apply bind_Ok in E as (ver & w1 & [Ev <-]%gets_Ok & [-> <-]%guard_err_Ok).
  by split_and!.
  Unshelve. all: exact c.
Qed.

(** What containing a light-client attack does to a launched consumer: the client is updated
    unless it is inactive, the withheld fees are settled and the pause is written. *)
Lemma containLightClientAttack_Ok id misbehaviour vs cl c w addrs w' :
  containLightClientAttack id misbehaviour vs c w = (Ok addrs, w') →
  GetConsumerClientId id w = Some cl → GetConsumerPhase id w = CONSUMER_PHASE_LAUNCHED →
  ∃ i w1 params,
    (if bool_decide (GetClientStatus (w_ibc w) cl = Active)
     then UpdateClient (w_ibc w) cl misbehaviour = Some i else i = w_ibc w) ∧
    s_Params_ w = Some params ∧ PayWithheldFees id c (set_ibc i w) = (Ok tt, w1) ∧
    w' = pause_writes id PAUSE_REASON_LIGHT_CLIENT_ATTACK (BlockTime c) params w1.
Proof.
  unfold containLightClientAttack. intros E Hcl Hph. apply bind_Ok in E as (as_ & w1 & [_ <-]%gets_Ok & E).
  apply bind_Ok in E as (cl' & w1 & Ecl & E). apply bind_Ok in Ecl as (o & w0 & [<- <-]%gets_Ok & [Ecl <-]%of_option_Ok).
  rewrite Hcl in Ecl. injection Ecl as <-. apply bind_Ok in E as (st & w1 & [<- <-]%gets_Ok & E).
  apply bind_Ok in E as (? & w1 & Eup & E).
  assert (∃ i, w1 = set_ibc i w ∧
    if bool_decide (GetClientStatus (w_ibc w) cl = Active)
    then UpdateClient (w_ibc w) cl misbehaviour = Some i else i = w_ibc w) as (i & -> & Hi).
  { case_bool_decide; cbn [when] in Eup.
    - apply bind_Ok in Eup as (o & w2 & [<- <-]%gets_Ok & Eup). apply bind_Ok in Eup as (i & w2 & [Ei <-]%of_option_Ok & ->%modify_Ok).
      by exists i.
    - apply ret_Ok in Eup as [_ <-]. exists (w_ibc w). split; [by destruct w|done]. }
  apply bind_Ok in E as (? & w2 & Ep & [_ <-]%ret_Ok).
  destruct (PauseConsumerChain_run id PAUSE_REASON_LIGHT_CLIENT_ATTACK c (set_ibc i w)) as (w3 & Epay & _ & Hrun).
  rewrite bool_decide_false, bool_decide_true in Hrun by done.
  destruct (s_Params_ (set_ibc i w)) as [params|] eqn:Hparams; [|destruct Hrun as [? Hrun]; congruence].
  rewrite Ep in Hrun. injection Hrun as ->. by exists i, w3, params.
  Unshelve. all: exact c.
Qed.

(** C25. A misbehaviour submission that succeeds showed the launched consumer's own client
    two headers of one height, at or above the minimum evidence height, that the client both
    takes for a misbehaviour (they conflict) and verifies. It hands them to the client as an
    update unless the client is inactive already, pauses the consumer for a light-client
    attack and drops its pending accusations; no stake, no punishment record and no other
    consumer's phase changes. *)
Theorem misbehaviour_contains_without_punishing id misbehaviour c w addrs w' :
  HandleConsumerMisbehaviour id misbehaviour c w = (Ok addrs, w') →
  (* the fork is proven to the consumer's own client *)
  GetConsumerPhase id w = CONSUMER_PHASE_LAUNCHED ∧
  GetConsumerChainId id w = Some (mh_ChainID (Header1 misbehaviour)) ∧
  GetConsumerClientId id w = Some (mb_ClientId misbehaviour) ∧
  mh_Height (Header1 misbehaviour) = mh_Height (Header2 misbehaviour) ∧
  GetEquivocationEvidenceMinHeight id w ≤ (mh_Height (Header1 misbehaviour)).2 ∧
  CheckForMisbehaviour (w_ibc w) (mb_ClientId misbehaviour) misbehaviour = true ∧
  VerifyMisbehaviour (w_ibc w) (mb_ClientId misbehaviour) misbehaviour = true ∧
  (* the client is updated with it unless it is inactive already *)
  (if bool_decide (GetClientStatus (w_ibc w) (mb_ClientId misbehaviour) = Active)
   then UpdateClient (w_ibc w) (mb_ClientId misbehaviour) misbehaviour = Some (w_ibc w')
   else w_ibc w' = w_ibc w) ∧
  (* the consumer is paused and its accusations are dropped *)
  GetConsumerPhase id w' = CONSUMER_PHASE_PAUSED ∧
  GetConsumerPauseReason id w' = PAUSE_REASON_LIGHT_CLIENT_ATTACK ∧
  GetConsumerPauseExpirationTime id w' ≠ None ∧
  (∀ k, of_consumer id k = true → s_PendingDowntimeSlashes w' !! k = None) ∧
  (* and nobody is punished *)
  w_staking w' = w_staking w ∧ s_PunishedEquivocations w' = s_PunishedEquivocations w ∧
  (∀ id', id' ≠ id → GetConsumerPhase id' w' = GetConsumerPhase id' w).
Proof.
  intros E.
  assert (w_staking w' = w_staking w ∧ s_PunishedEquivocations w' = s_PunishedEquivocations w) as [Hst Hpun].
  { assert (preserves (λ v, w_staking v = w_staking w ∧ s_PunishedEquivocations v = s_PunishedEquivocations w)
      (HandleConsumerMisbehaviour id misbehaviour)) as P by pres.
    specialize (P c w (conj eq_refl eq_refl)). by rewrite E in P. }
  unfold HandleConsumerMisbehaviour in E.
  apply bind_Ok in E as (ph & w1 & [<- <-]%gets_Ok & E).
  apply bind_Ok in E as (? & w1 & [Hph%bool_decide_eq_true <-]%guard_err_Ok & E).
  apply bind_Ok in E as (? & w1 & (-> & Hch & Hcl & Hh & Hmin & Hchk & Hver)%CheckMisbehaviour_Ok & E).
  apply bind_Ok in E as (vs & w1 & Evs & E).
  assert (w1 = w) as ->.
  { assert (preserves (λ v, v = w) (GetByzantineValidators misbehaviour)) as P by pres.
    specialize (P c w eq_refl). by rewrite Evs in P. }
  apply containLightClientAttack_Ok with (cl := mb_ClientId misbehaviour) in E
    as (i & w3 & params & Hi & _ & Epay & ->); [|done..].
  assert (but_funds (set_ibc i w) w3) as (Hlc & _).
  { by apply (preserves_run _ _ _ _ _ _ (PayWithheldFees_but_funds id (set_ibc i w))) in Epay. }
  assert (w_ibc w3 = i) as Hi3.
  { assert (preserves (λ v, w_ibc v = i) (PayWithheldFees id)) as P by pres.
    specialize (P c (set_ibc i w) eq_refl). by rewrite Epay in P. }
  split_and!; try done.
  - revert Hi. case_bool_decide; intros Hi; [rewrite Hi; f_equal; symmetry; exact Hi3|rewrite <-Hi; exact Hi3].
  - unfold GetConsumerPhase. cbn. by rewrite lookup_insert_eq.
  - unfold GetConsumerPauseReason. cbn. by rewrite lookup_insert_eq.
  - unfold GetConsumerPauseExpirationTime. cbn. by rewrite lookup_insert_eq.
  - intros k Hk. cbn. by rewrite clear_where_lookup, Hk.
  - intros id' Hne. unfold GetConsumerPhase. cbn. rewrite lookup_insert_ne by done.
    unfold s_ConsumerPhases. by rewrite Hlc.
  Unshelve. all: exact c.
Qed.
End misbehaviour.
