(* ===== verification/Scene.v ===== *)
(** A concrete chain for the witnesses: two validators, one consumer with its
    client, a funded fee pool and a short history of it, on the instance of
    [Demo]. Nothing here models code of the repository. *)
From S2P Require Import Prelude GoTime Types Externals World Keeper Queues ValSets Valset FeePool Fees.
From S2P Require Import ValsetProofs KeyAssignment Lifecycle Downtime ConsumerWorld Demo Msgs MsgServer.
From S2P Require Import Provider.
Import Demo.

Definition exec {W A} (m : M W A) (c : Ctx) (w : W) : W := (m c w).2.
Definition succeeds {W A} (m : M W A) (c : Ctx) (w : W) : bool := is_ok (m c w).1.

Definition val1 := mkValidator "op1" (Some "key1") (Some "key1") false false.
Definition val2 := mkValidator "op2" (Some "key2") (Some "key2") false false.
Definition the_staking : Staking := mkStaking [val1; val2] [("op1", 60); ("op2", 40)] 100 (21 * Day) [] [].
Definition the_client : Client :=
  mkClient "07-tendermint-0" Active (mkTmClientState "consumer-1" (14 * Day) (Hour / 60)) (Some "07-tendermint-7")
    [(1, 60000 * Day); (20, 60000 * Day + Hour)].
Definition the_ibc : Ibc := mkIbc [the_client] [].
Definition the_bank : Bank := <[("alice", "uphoton") := 1000%N]> (<[("bob", "uphoton") := 500%N]> ∅).

Definition the_params : Params := mkParams "0.5" "0.1" Hour 10 5 2 (14 * Day).
Definition the_infractions : @InfractionParameters (@ext_dec demo) :=
  mkInfractionParams (Some (mkSlashJail (Some (scale / 20)) Day true)) (Some (mkSlashJail (Some (scale / 100)) 0 false))
    0 8 (Some (scale / 2)) (3 * Day) Day.

Definition genesis : World := mkWorld
  (mkLifecycleStore 0 ∅ ∅ ∅ ∅ ∅ ∅ ∅ ∅ ∅ ∅ ∅ ∅ ∅ ∅ ∅ ∅)
  (mkVscStore 1 ∅ ∅ ∅ ∅ ∅ ∅) (mkKeyStore ∅ ∅ ∅) (mkFeeStore ∅ ∅ ∅ ∅ ∅ ∅ ∅)
  (mkDowntimeStore ∅ ∅ ∅ ∅ ∅ None (Some the_params) (Some the_infractions)) the_staking the_bank the_ibc.

(** Block [h], an hour per block after day 60000. *)
Definition at_block (h : Z) : Ctx := mkCtx (60000 * Day + h * Hour) h "provider".

Definition init_params : ConsumerInitializationParameters :=
  mkInitParams 1 1 (60000 * Day + 2 * Hour) (20 * Day) Hour 100 (3 * Hour).
Definition create_msg : MsgCreateConsumer :=
  mkMsgCreateConsumer "alice" "consumer-1" (mkMetadata "n" "d" "m") (Some (mkInitMsg init_params "" "")).
Definition set_client_msg : MsgUpdateConsumer := mkMsgUpdateConsumer "alice" 0 "" None None "" "07-tendermint-0".

Definition fund_msg : MsgFundConsumerFeePool := mkMsgFund "alice" 0 (mkCoin "uphoton" 200).

(** Created and scheduled, launched at block 2, its client set, its fee pool
    funded. *)
Definition created : World := commit (handle (CreateConsumer_ create_msg)) (at_block 1) genesis.
Definition spawned : World := commit BeginBlock (at_block 2) created.
Definition connected : World := commit (handle (UpdateConsumer_ set_client_msg)) (at_block 3) spawned.
Definition funded : World := commit (handle (FundConsumerFeePool_ fund_msg)) (at_block 4) connected.

Example scene_creates : succeeds (CreateConsumer create_msg) (at_block 1) genesis = true.
Proof. vm_compute. reflexivity. Qed.
Example scene_launches : succeeds BeginBlock (at_block 2) created = true ∧ GetConsumerPhase 0 spawned = CONSUMER_PHASE_LAUNCHED.
Proof. vm_compute. split; reflexivity. Qed.
Example scene_connects : succeeds (UpdateConsumer set_client_msg) (at_block 3) spawned = true.
Proof. vm_compute. reflexivity. Qed.
Example scene_funds : succeeds (FundConsumerFeePool fund_msg) (at_block 4) connected = true.
Proof. vm_compute. reflexivity. Qed.

Lemma ran {W} (m : M W unit) c w : succeeds m c w = true → m c w = (Ok tt, exec m c w).
Proof. unfold succeeds, exec. by destruct (m c w) as [[[]|e|] w']. Qed.
Lemma ran_with {W A} (m : M W A) c w a : (m c w).1 = Ok a → m c w = (Ok a, exec m c w).
Proof. unfold exec. destruct (m c w) as [r w']. by intros [= ->]. Qed.


(** The consumer chain after its genesis: the launched set, tracked under the
    keys' addresses, and its client of the provider. *)
Definition consumer_client : Client :=
  mkClient "07-tendermint-7" Active (mkTmClientState "provider" (14 * Day) (Hour / 60)) (Some "07-tendermint-0") [].
Definition consumer_params : ConsumerParams :=
  mkConsumerParams Hour 100 (20 * Day) (3 * Hour) 8 (Some (scale / 2)) "alice" false.
Definition consumer_chain : CWorld := mkCWorld (Some "07-tendermint-7") None (Some 1) (Some consumer_params) None
  (<["key1" := mkVaasValidator "key1" 60 "key1"]> (<["key2" := mkVaasValidator "key2" 40 "key2"]> ∅))
  ∅ None ∅ None ∅ ∅ None (Some "provider") [] [consumer_client].
Definition at_consumer (h : Z) : Ctx := mkCtx (60000 * Day + h * Hour) h "consumer-1".
(** The provider once validator 1 gained power. *)
Definition more_power : Staking := mkStaking [val1; val2] [("op1", 70); ("op2", 40)] 100 (21 * Day) [] [].
Definition provider_chain : World := set_staking more_power connected.

(** Evaluates a decidable statement. *)
Lemma by_test (P : Prop) `{Decision P} : bool_decide P = true → P.
Proof. apply bool_decide_eq_true. Qed.
Lemma nil_test {A} (l : list A) : length l = 0%nat → l = [].
Proof. by destruct l. Qed.
Lemma cons_test {A} (l : list A) (x : A) : length l = 1%nat → l = [default x (head l)].
Proof. by destruct l as [|y [|]]. Qed.
Lemma head_test {A} (l : list A) (x : A) : Nat.ltb 0 (length l) = true → default x (head l) ∈ l.
Proof. destruct l as [|y l]; [done|left]. Qed.
Lemma forall_test {A} (f : A → bool) (l : list A) : forallb f l = true → ∀ x, x ∈ l → f x = true.
Proof. intros H x Hx. rewrite forallb_forall in H. by apply H, list_elem_of_In. Qed.
Ltac test := first [refine (by_test _ _); vm_compute; reflexivity|apply nil_test; vm_compute; reflexivity].
(** Evaluates a run to the world it leaves. *)
Ltac run_it :=
  lazymatch goal with
  | |- ?m ?c ?w = (Ok tt, _) => refine (ran m c w _); vm_compute; reflexivity
  | |- ?m ?c ?w = (Ok ?a, _) => refine (ran_with m c w a _); vm_compute; reflexivity
  | |- ?m ?c ?w = _ => apply surjective_pairing
  end.
Lemma distinct_bonded w :
  bool_decide (NoDup (GetConsAddr <$> st_bonded (w_staking w))) = true → bonded_distinct w.
Proof. intros H%bool_decide_eq_true l [= <-]. exact H. Qed.
