(* ===== verification/ProtocolWitnesses.v ===== *)
(** Witnesses of the consumer and cross-chain theorems: each applies its
    theorem on the chains of [Scene]. *)
From S2P Require Import Prelude GoTime Types Externals World Keeper ValSets Valset ValsetProofs ConsumerWorld.
From S2P Require Import Demo Consumer ConsumerDowntimeProofs ConsumerValset Protocol Scene.
Import Demo.

#[local] Instance demo_key_laws : KeyLaws.
Proof. split; [by intros k k' a [= ->] [= ->]|by intros k u _]. Qed.

Definition net0 : Net := mkNet provider_chain consumer_chain [].
Definition queued : World := exec QueueVSCPackets (at_block 10) provider_chain.
Definition sent : World := exec (sendVSCPacketsToChainStrict 0 "07-tendermint-0") (at_block 10) queued.
Definition update1 : ValidatorSetChangePacketData := default (mkVSC [] 0 false true None) (head (sent_packets (w_ibc sent) "07-tendermint-0")).
Definition received : CWorld := exec (OnRecvVSCPacketV2 "07-tendermint-7" update1) (at_consumer 11) consumer_chain.
Definition net1 : Net := mkNet sent received [ValsetUpdateId update1].

Lemma stored_in_provider w :
  bool_decide (map_Forall (λ (k : N * string) v, ProviderConsAddr v = k.2) (s_ConsumerValidators w)) = true →
  stored_under_address w.
Proof. intros H%bool_decide_eq_true id a v E. exact (H (id, a) v E). Qed.
Lemma stored_in_consumer w :
  bool_decide (map_Forall (λ a v, vv_Address v = a ∧ TMCryptoPublicKeyToConsAddr (vv_Pubkey v) = Some a ∧ 0 < vv_Power v)
    (VaasValidators w)) = true → PendingChanges w = None → store_ok w.
Proof. intros H%bool_decide_eq_true Hp. split; [exact H|]. intros us u. by rewrite Hp. Qed.

Lemma launched0 : launched 0 "07-tendermint-0" net0.
Proof.
  split; try test.
  - apply stored_in_provider. vm_compute. reflexivity.
  - apply stored_in_consumer; vm_compute; reflexivity.
Qed.


(** The update reaches the consumer. *)
Definition net_sent : Net := mkNet sent consumer_chain [].
Lemma steps_sent : rtc (step 0 "07-tendermint-0" "07-tendermint-7") net0 net_sent.
Proof.
  eapply rtc_l; [eapply (step_epoch _ _ _ (at_block 10) provider_chain queued consumer_chain [])|].
  - apply distinct_bonded. vm_compute. reflexivity.
  - test.
  - test.
  - run_it.
  - eapply rtc_once, (step_send _ _ _ (at_block 10) queued (Ok tt) sent). run_it.
Qed.
Lemma steps1 : rtc (step 0 "07-tendermint-0" "07-tendermint-7") net0 net1.
Proof.
  eapply rtc_r; [exact steps_sent|].
  eapply (step_recv _ _ _ (at_consumer 11) sent consumer_chain received [] update1); [|run_it].
  apply head_test. vm_compute. reflexivity.
Qed.

(** The provider learns of it, and the powers change again. *)
Definition acknowledged : World := exec (OnAcknowledgementPacketV2 "07-tendermint-0" 1 "") (at_block 12) sent.
Definition other_power : Staking := mkStaking [val1; val2] [("op1", 70); ("op2", 45)] 100 (21 * Day) [] [].
Definition changed : World := set_staking other_power acknowledged.
Definition net2 : Net := mkNet changed received [ValsetUpdateId update1].
Definition queued2 : World := exec QueueVSCPackets (at_block 20) changed.
Definition no_packet : ValidatorSetChangePacketData := mkVSC [] 0 false true None.
Definition update2 : ValidatorSetChangePacketData := default no_packet (head (GetPendingVSCPackets 0 queued2)).

Lemma staking_moves w s cw a :
  stored_under_address w → step 0 "07-tendermint-0" "07-tendermint-7" (mkNet w cw a) (mkNet (set_staking s w) cw a).
Proof. intros H. by apply step_provider. Qed.
Lemma steps2 : rtc (step 0 "07-tendermint-0" "07-tendermint-7") net0 net2.
Proof.
  eapply rtc_r; [eapply rtc_r; [exact steps1|]|].
  - apply (step_ack _ _ _ (at_block 12) sent acknowledged received [ValsetUpdateId update1] 1%N);
      [apply list_elem_of_singleton; vm_compute; reflexivity|run_it].
  - apply (staking_moves acknowledged other_power). apply stored_in_provider. vm_compute. reflexivity.
Qed.

(** *** Witnesses *)
Lemma consumer_converges_witness :
  launched 0 "07-tendermint-0" net0 ∧
  effective_set received = live (GetConsumerValSet 0 sent) ∧ effective_set received ≠ effective_set consumer_chain.
Proof.
  split; [exact launched0|]. split; [|test].
  apply (consumer_converges 0 "07-tendermint-0" "07-tendermint-7" net0 net1 launched0 steps1).
  intros p Hp. apply N.leb_le. revert p Hp. apply forall_test. vm_compute. reflexivity.
Defined.

Lemma diff_only_on_delivered_state_witness :
  effective_set received = live (GetConsumerValSet 0 changed)
  ∧ apply_updates (ValidatorUpdates update2) (effective_set received) = live (GetConsumerValSet 0 queued2)
  ∧ live (GetConsumerValSet 0 queued2) ≠ live (GetConsumerValSet 0 changed).
Proof.
  destruct (diff_only_on_delivered_state 0 "07-tendermint-0" "07-tendermint-7" net0 net2 (at_block 20) queued2 update2)
    as (_ & _ & H1 & H2).
  - exact launched0.
  - exact steps2.
  - apply distinct_bonded. vm_compute. reflexivity.
  - test.
  - run_it.
  - cbn [prov net2]. assert (GetPendingVSCPackets 0 changed = []) as -> by test.
    apply cons_test. vm_compute. reflexivity.
  - vm_compute. reflexivity.
  - split_and!; [exact H1|exact H2|test].
Defined.

Lemma newest_packet_converges_witness : effective_set received = live (GetConsumerValSet 0 sent).
Proof.
  apply (newest_packet_converges 0 "07-tendermint-0" "07-tendermint-7" net0 net_sent (at_consumer 11) received update1).
  - exact launched0.
  - exact steps_sent.
  - test.
  - apply head_test. vm_compute. reflexivity.
  - test.
  - vm_compute. reflexivity.
  - run_it.
Defined.

Definition a_snapshot : ValidatorSetChangePacketData := mkVSC [mkUpdate "key1" 70; mkUpdate "key3" 5] 4 false true None.
Definition with_snapshot : CWorld := exec (OnRecvVSCPacketV2 "07-tendermint-7" a_snapshot) (at_consumer 11) consumer_chain.
Definition after_snapshot : CWorld := exec EndBlock (at_consumer 11) with_snapshot.
Lemma consumer_chain_ok : store_ok consumer_chain.
Proof. apply stored_in_consumer; vm_compute; reflexivity. Qed.

Lemma snapshot_converges_witness :
  cc_set after_snapshot = apply_updates [mkUpdate "key1" 70; mkUpdate "key3" 5] ∅ ∧ cc_set after_snapshot ≠ ∅.
Proof.
  destruct (snapshot_converges "07-tendermint-7" a_snapshot (at_consumer 11) (at_consumer 11) consumer_chain with_snapshot
    after_snapshot [mkUpdate "key1" 70; mkUpdate "key3" 5; mkUpdate "key2" 0]) as (H1 & H2 & _).
  - exact consumer_chain_ok.
  - reflexivity.
  - vm_compute. reflexivity.
  - test.
  - run_it.
  - run_it.
  - by split.
Defined.

Lemma accepted_packet_keeps_set_nonempty_witness :
  effective_set received = apply_updates [mkUpdate "key1" 70] (effective_set consumer_chain) ∧ effective_set received ≠ ∅.
Proof.
  destruct (accepted_packet_keeps_set_nonempty "07-tendermint-7" update1 (at_consumer 11) consumer_chain received)
    as [H1 H2].
  - exact consumer_chain_ok.
  - vm_compute. reflexivity.
  - intros H. vm_compute in H. discriminate H.
  - run_it.
  - split; [|exact H2]. etransitivity; [exact H1|]. test.
Defined.

Lemma unauthenticated_packet_changes_nothing_witness :
  VaasValidators (exec (OnRecvVSCPacketV2 "07-tendermint-9" a_snapshot) (at_consumer 11) consumer_chain)
  = VaasValidators consumer_chain.
Proof.
  apply (unauthenticated_packet_changes_nothing "07-tendermint-9" a_snapshot (at_consumer 11) consumer_chain
    (OnRecvVSCPacketV2 "07-tendermint-9" a_snapshot (at_consumer 11) consumer_chain).1); [left; test|].
  apply surjective_pairing.
Defined.

(** *** Downtime tracking: a window of two blocks, 8 and 9, both missed by
    validator 1 *)
Definition two_block_params : ConsumerParams :=
  mkConsumerParams Hour 100 (20 * Day) (3 * Hour) 2 (Some (scale / 2)) "alice" false.
Definition tracking_chain : CWorld := upd_CParams (λ _, Some two_block_params) consumer_chain.
Definition the_votes : list VoteInfo := [("key1", BlockIDFlagAbsent); ("key2", BlockIDFlagCommit)].
Definition first_block : CWorld := exec (TrackMissedBlocks the_votes) (at_consumer 9) tracking_chain.
Definition window_hist : list (Z * list VoteInfo) := heights ([(at_consumer 9, the_votes)] ++ [(at_consumer 10, the_votes)]).
Lemma the_window : in_window window_hist 8 2 (Some (scale / 2)).
Proof.
  split.
  - vm_compute. reflexivity.
  - unfold in_int64, int64_min, int64_max. lia.
  - unfold in_int64, int64_min, int64_max. lia.
  - repeat constructor.
  - intros h Hh. assert (Forall (λ h, (8 ≤ h < 8 + 2) ∧ 0 < h) window_hist.*1) as H by (repeat constructor; cbn; lia).
    rewrite Forall_forall in H. by apply H.
  - intros h vs Hin. assert (Forall (λ b : Z * list VoteInfo, "" ∉ b.2.*1) window_hist) as H by test.
    rewrite Forall_forall in H. by apply (H (h, vs)).
Qed.
Lemma window_reports_are_exact_witness :
  ∃ w', TrackMissedBlocks the_votes (at_consumer 10) first_block = (Ok tt, w') ∧ fresh w' ∧
    reported window_hist 8 2 (Some (scale / 2)) "key1" (PendingEvidencePackets w' !! ("key1", 9)) ∧
    ¬ few_misses window_hist 8 2 (Some (scale / 2)) "key1".
Proof.
  destruct (window_reports_are_exact [(at_consumer 9, the_votes)] (at_consumer 10) the_votes tracking_chain first_block 8 2 (Some (scale / 2)))
    as (w' & E & Hf & _ & _ & Hrep).
  - split; reflexivity.
  - reflexivity.
  - apply (run_block [] (at_consumer 9) the_votes tracking_chain tracking_chain first_block first_block).
    + by apply run_start.
    + run_it.
    + done.
  - by exists 4.
  - exact the_window.
  - reflexivity.
  - intros k Hk. assert (map_Forall (λ (k : string * Z) (_ : EvidencePacketData), k.2 < 8 + 2 - 1)
      (PendingEvidencePackets first_block)) as H by (apply map_Forall_empty).
    destruct Hk as [p Hp]. by apply (H k p).
  - exists w'. split; [exact E|]. split; [exact Hf|]. split; [apply Hrep|].
    intros H. specialize (H 8 eq_refl). vm_compute in H. by apply H.
Defined.
