(* ===== verification/ProviderWitnesses.v ===== *)
(** Witnesses of the provider's theorems: each applies its theorem on the
    chain of [Scene]. *)
From S2P Require Import Prelude GoTime Types Externals World Keeper Queues ValSets Valset ValsetProofs.
From S2P Require Import FeePool FeePoolProofs Fees FeesProofs KeyAssignment Lifecycle LifecycleProofs.
From S2P Require Import Downtime DowntimeProofs Demo Msgs MsgServer Provider PhaseProofs SystemProofs.
From S2P Require Import Scene.
Import Demo.

#[local] Instance demo_dec_eq_dec : EqDecision (@dec (@ext_dec demo)).
Proof. change (EqDecision (option Z)). apply _. Defined.
#[local] Instance slash_jail_eq_dec : EqDecision (@SlashJailParameters (@ext_dec demo)).
Proof. solve_decision. Defined.
#[local] Instance infraction_params_eq_dec : EqDecision (@InfractionParameters (@ext_dec demo)).
Proof. solve_decision. Defined.
#[local] Instance params_eq_dec : EqDecision Params.
Proof. solve_decision. Defined.

(** *** The chain's history *)
Lemma genesis_launch_ok : launch_ok [] (view genesis).
Proof. split; try done; [intros id ts ?%elem_of_nil; done|intros ts; constructor|intros id ?%elem_of_nil; done]. Qed.
Lemma genesis_ledger_ok : ledger_ok genesis.
Proof. by split_and!. Qed.
Lemma genesis_keys_ok : keys_ok genesis.
Proof.
  split; try done; try (intros id ts a ?%elem_of_nil; done); try (intros id ts ts' a ?%elem_of_nil; done).
  intros id ts. constructor.
Qed.
Lemma history : rtc id_step genesis funded.
Proof.
  eapply rtc_l; [split; [apply (step_msg (at_block 1) (CreateConsumer_ create_msg)); vm_compute; reflexivity|done]|].
  eapply rtc_l; [split; [apply (step_begin (at_block 2))|vm_compute; reflexivity]|].
  eapply rtc_l; [split; [apply (step_msg (at_block 3) (UpdateConsumer_ set_client_msg)); vm_compute; reflexivity|vm_compute; reflexivity]|].
  eapply rtc_once; split; [apply (step_msg (at_block 4) (FundConsumerFeePool_ fund_msg)); vm_compute; reflexivity|vm_compute; reflexivity].
Qed.
Lemma phases_follow_the_lifecycle_witness :
  rtc phase_edge (GetConsumerPhase 0 genesis) (GetConsumerPhase 0 funded) ∧
  GetConsumerPhase 0 funded = CONSUMER_PHASE_LAUNCHED.
Proof.
  split; [|test].
  apply (phases_follow_the_lifecycle genesis funded genesis_launch_ok history).
Defined.

Lemma history_steps : rtc step genesis funded.
Proof. eapply rtc_subrel, history. by intros x y []. Qed.
(** A step of a chain nobody has assigned a key on is clean. *)
Lemma unassigned_clean w w' : s_ValidatorConsumerPubKey w = ∅ → step w w' → clean_step w w'.
Proof.
  intros Ew Hs. split; [done|]. intros (o & n & c & (_ & id & [k Hk] & _) & _).
  unfold GetValidatorConsumerPubKey in Hk. by rewrite Ew in Hk.
Qed.
Definition assign_msg : MsgAssignConsumerKey :=
  mkMsgAssignConsumerKey "op1" "op1" 0 (Some ("/cosmos.crypto.ed25519.PubKey", Some "ckey1")).
Definition assigned_chain : World := commit (handle (AssignConsumerKey_ assign_msg)) (at_block 5) funded.
Lemma clean_history : rtc clean_step genesis assigned_chain.
Proof.
  eapply rtc_l; [apply unassigned_clean; [reflexivity|apply (step_msg (at_block 1) (CreateConsumer_ create_msg)); vm_compute; reflexivity]|].
  eapply rtc_l; [apply unassigned_clean; [vm_compute; reflexivity|apply (step_begin (at_block 2))]|].
  eapply rtc_l; [apply unassigned_clean; [vm_compute; reflexivity|apply (step_msg (at_block 3) (UpdateConsumer_ set_client_msg)); vm_compute; reflexivity]|].
  eapply rtc_l; [apply unassigned_clean; [vm_compute; reflexivity|apply (step_msg (at_block 4) (FundConsumerFeePool_ fund_msg)); vm_compute; reflexivity]|].
  eapply rtc_l; [apply unassigned_clean; [vm_compute; reflexivity|apply (step_msg (at_block 5) (AssignConsumerKey_ assign_msg)); vm_compute; reflexivity]|].
  constructor.
Qed.
Lemma books_stay_consistent_witness :
  ledger_ok funded ∧ keys_ok funded ∧ get_shares 0 "uphoton" "alice" funded = Some 200 ∧
  accounted assigned_chain ∧ GetValidatorByConsumerAddr 0 "ckey1" assigned_chain = Some "key1".
Proof.
  destruct (books_stay_consistent genesis funded) as [H _]. destruct (books_stay_consistent genesis assigned_chain) as [_ Ha].
  destruct (H history_steps) as [H1 H2].
  split_and!; [apply H1, genesis_ledger_ok|apply H2, genesis_keys_ok|test|apply Ha; [exact clean_history|by intros ? ? ?]|test].
Defined.

Lemma steps_ledger w w' : rtc step w w' → ledger_ok w → ledger_ok w'.
Proof. induction 1; [done|]. intros Hw. by eapply IHrtc, ledger_step. Qed.
Lemma funded_ledger_ok : ledger_ok funded.
Proof. exact (steps_ledger _ _ history_steps genesis_ledger_ok). Qed.
Lemma steps_keys w w' : rtc step w w' → keys_ok w → keys_ok w'.
Proof. induction 1; [done|]. intros Hw. by eapply IHrtc, keys_step. Qed.
Lemma funded_keys_ok : keys_ok funded.
Proof. exact (steps_keys _ _ history_steps genesis_keys_ok). Qed.
(** A run that only reads. *)
Lemma ran_reading {A} (m : K A) c w a : preserves (λ v, v = w) m → (m c w).1 = Ok a → m c w = (Ok a, w).
Proof. intros P E. rewrite (ran_with m c w a E). f_equal. by apply P. Qed.

Lemma ran_err {A} (m : K A) c w e : (m c w).1 = Err e → m c w = (Err e, exec m c w).
Proof. unfold exec. destruct (m c w) as [r w']. by intros [= ->]. Qed.

(** *** Validator sets *)
Definition set_a := [mkConsensusValidator "a" 1 "ka" 0; mkConsensusValidator "b" 2 "kb" 0].
Definition set_b := [mkConsensusValidator "b" 3 "kb" 0; mkConsensusValidator "c" 4 "kc" 0].
Lemma DiffValidators_correct_witness :
  DiffValidators set_a set_b = [mkUpdate "ka" 0; mkUpdate "kb" 3; mkUpdate "kc" 4] ∧
  apply_updates (DiffValidators set_a set_b) (live set_a) = live set_b.
Proof.
  split; [test|]. apply (DiffValidators_correct set_a set_b); test.
Defined.

Definition two_vals := [mkConsensusValidator "key1" 60 "key1" 2; mkConsensusValidator "key2" 40 "key2" 2].
Lemma CreateConsumerValidators_correct_witness :
  NoDup (consumer_addr <$> two_vals) ∧
  ∀ v, v ∈ two_vals → ∃ b, b ∈ [val1; val2] ∧ consumer_entry 0 (at_block 10) connected b v.
Proof.
  destruct (CreateConsumerValidators_correct 0 [val1; val2] (at_block 10) connected two_vals connected) as (_ & [H1 H2] & _).
  - apply ran_reading; [pres|vm_compute; reflexivity].
  - test.
  - split; [exact H1|]. intros v Hv. by apply H2 in Hv as [Hv _].
Defined.

Definition rejected_ibc : Ibc := mkIbc [] [].
Definition unreachable_chain : World := set_ibc rejected_ibc (exec QueueVSCPackets (at_block 10) connected).
Lemma failed_send_keeps_whole_queue_witness :
  length (GetPendingVSCPackets 0 unreachable_chain) = 1%nat ∧
  GetPendingVSCPackets 0 (exec (sendVSCPacketsToChainStrict 0 "07-tendermint-0") (at_block 10) unreachable_chain)
  = GetPendingVSCPackets 0 unreachable_chain.
Proof.
  split; [test|].
  apply (failed_send_keeps_whole_queue 0 "07-tendermint-0" (at_block 10) unreachable_chain ErrExternal).
  apply (ran_err (sendVSCPacketsToChainStrict 0 "07-tendermint-0")). vm_compute. reflexivity.
Defined.

(** *** Fee pools *)
Definition withdrawn : World := exec (WithdrawShares 0 "alice" (mkCoin "uphoton" 50)) (at_block 5) funded.
Lemma withdrawal_respects_escrow_witness :
  pool_balance 0 "uphoton" funded * default 0 (get_total 0 "uphoton" withdrawn)
  ≤ (pool_balance 0 "uphoton" funded - 50) * default 0 (get_total 0 "uphoton" funded) ∧
  get_total 0 "uphoton" withdrawn = Some 150.
Proof.
  split; [|test].
  destruct (withdrawal_respects_escrow 0 "alice" (mkCoin "uphoton" 50) (at_block 5) funded (mkCoin "uphoton" 50) withdrawn)
    as (_ & _ & _ & _ & H & _); [exact funded_ledger_ok|run_it|exact H].
Defined.

Lemma quote_is_delivered_witness :
  ∃ w', WithdrawShares 0 "alice" (mkCoin "uphoton" 300) (at_block 5) funded = (Ok (mkCoin "uphoton" 200), w').
Proof.
  apply (quote_is_delivered 0 "alice" "uphoton" 300 (at_block 5) funded 200 funded).
  - exact funded_ledger_ok.
  - apply ran_reading; [pres|vm_compute; reflexivity].
  - lia.
  - left. test.
Defined.

Lemma alice_only a : is_Some (get_shares 0 "uphoton" a funded) → a = "alice".
Proof.
  intros [s Hs]. assert (map_Forall (λ (k : N * string * string) (_ : Z), k.2 = "alice") (s_ConsumerFeePoolShares funded)) as H by test.
  exact (H (0%N, "uphoton", a) s Hs).
Qed.
Lemma sweep_pays_out_witness :
  ∃ w', SweepConsumerFeePoolDenom 0 "uphoton" (at_block 5) funded = (Ok tt, w') ∧
    pool_balance 0 "uphoton" w' = 0 ∧ GetBalance (w_bank w') "alice" "uphoton" = 1000.
Proof.
  destruct (sweep_pays_out 0 "uphoton" (at_block 5) funded) as (w' & E & _ & H1 & H2 & _).
  - exact funded_ledger_ok.
  - test.
  - intros a ->%alice_only. by right.
  - exists w'. split; [exact E|]. split; [exact H1|]. rewrite H2; [test|done].
Defined.

(** *** Fees: validator 2 is marked for downtime in the epoch that ends at
    block 10 *)
Definition marked : World := exec (MarkEpochDowntime 0 "key2") (at_block 9) funded.
Definition distributed : World := exec DistributeConsumerFees (at_block 10) marked.
Definition epoch_fee : Coin := mkCoin "uphoton" 50.
Definition both_vals : list (string * string) := [("key1", "op1"); ("key2", "op2")].
Lemma marked_no_records : s_WithheldFeeRecords marked = ∅.
Proof. test. Qed.
Lemma marked_records_nonneg : records_nonneg marked.
Proof. intros k r. by rewrite marked_no_records. Qed.

Lemma distribution_never_spends_escrow_witness : solvent 0 "uphoton" (at_block 10) distributed.
Proof.
  apply (distribution_never_spends_escrow 0 "uphoton" (at_block 10) marked). split; [exact marked_records_nonneg|].
  unfold available. rewrite marked_no_records. pose proof (pool_balance_nonneg 0 "uphoton" marked).
  assert (iterate (∅ : gmap (N * string) WithheldFeeRecord) = []) as -> by (vm_compute; reflexivity).
  unfold sumZ. cbn [filter list_filter foldr]. lia.
Defined.

Lemma underfunded_consumer_goes_into_debt_witness :
  ∃ w', distribute_to_consumer both_vals epoch_fee (mkCoin "uphoton" 5) 2 0 (at_block 10) connected = (Ok tt, w') ∧
    IsConsumerInDebt 0 w' = true.
Proof.
  destruct (underfunded_consumer_goes_into_debt both_vals epoch_fee (mkCoin "uphoton" 5) 2 0 (at_block 10) connected
    epoch_fee 25) as (w' & E & H & _).
  - apply ran_reading; [pres|vm_compute; reflexivity].
  - lia.
  - test.
  - exists w'. split; [exact E|exact H].
Defined.

Definition paid_bank : bank :=
  (InputOutputCoins (w_bank marked) (GetConsumerFeePoolAddress 0, [mkCoin "uphoton" 25]) [("op1", [mkCoin "uphoton" 25])]).2.
Lemma funded_consumer_pays_every_validator_witness :
  ∃ w', distribute_to_consumer both_vals epoch_fee (mkCoin "uphoton" 5) 2 0 (at_block 10) marked = (Ok tt, w') ∧
    IsConsumerInDebt 0 w' = false ∧ share_record 0 (at_block 10) w' = Some 25 ∧
    GetBalance (w_bank w') "op1" "uphoton" = 25.
Proof.
  destruct (funded_consumer_pays_every_validator both_vals epoch_fee (mkCoin "uphoton" 5) 2 0 (at_block 10) marked
    epoch_fee 25 the_infractions paid_bank) as (w' & E & H1 & H2 & H3 & _).
  - apply ran_reading; [pres|vm_compute; reflexivity].
  - lia.
  - test.
  - intros _. rewrite (surjective_pairing (InputOutputCoins _ _ _)). f_equal; vm_compute; reflexivity.
  - test.
  - intros cons r. by rewrite marked_no_records.
  - exact marked_records_nonneg.
  - exists w'. split; [exact E|]. split; [exact H1|]. split; [exact H2|]. rewrite H3. test.
Defined.

Lemma every_launched_consumer_is_recorded_witness : is_Some (share_record 0 (at_block 10) distributed).
Proof.
  apply (every_launched_consumer_is_recorded (at_block 10) marked distributed).
  - run_it.
  - intros E. vm_compute in E. discriminate E.
  - test.
  - test.
Defined.

(** *** Key assignment: validator 1 takes a key, then another *)
Definition keyed : World := exec (AssignConsumerKey 0 val1 "ckey1") (at_block 5) funded.
Definition rekeyed : World := exec (AssignConsumerKey 0 val1 "ckey2") (at_block 6) keyed.
Lemma rekeyed_keys_ok : keys_ok rekeyed.
Proof. apply preserves_AssignConsumerKey, preserves_AssignConsumerKey, funded_keys_ok. Qed.

Lemma keyed_keys_ok : keys_ok keyed.
Proof. apply preserves_AssignConsumerKey, funded_keys_ok. Qed.

Lemma PruneKeyAssignments_forgets_exactly_the_due_witness :
  GetValidatorByConsumerAddr 0 "ckey1" rekeyed = Some "key1" ∧
  ∃ w', PruneKeyAssignments 0 (at_block (6 + 21 * 24)) rekeyed = (Ok tt, w') ∧
    GetValidatorByConsumerAddr 0 "ckey1" w' = None.
Proof.
  split; [test|].
  destruct (PruneKeyAssignments_forgets_exactly_the_due 0 (at_block (6 + 21 * 24)) rekeyed) as (w' & E & _ & _ & H).
  - exact rekeyed_keys_ok.
  - exists w'. split; [exact E|]. apply H. right. split; [reflexivity|].
    exists (60000 * Day + (6 + 21 * 24) * Hour). split; [reflexivity|]. unfold pruning. test.
Defined.

(** *** The lifecycle *)
Definition paused : World := exec (PauseConsumerChain 0 PAUSE_REASON_DOWNTIME_CHALLENGE) (at_block 11) distributed.
Definition resumed_chain : World := exec (ResumeConsumerChain 0) (at_block 13) paused.
Definition stopped : World := exec (StopAndPrepareForConsumerRemoval 0) (at_block 12) funded.

Lemma pause_stops_serving_and_schedules_stop_witness :
  ∃ w', PauseConsumerChain 0 PAUSE_REASON_DOWNTIME_CHALLENGE (at_block 11) distributed = (Ok tt, w') ∧
    GetConsumerPhase 0 w' = CONSUMER_PHASE_PAUSED ∧ s_WithheldFeeRecords w' !! (0%N, "key2") = None ∧
    is_Some (s_WithheldFeeRecords distributed !! (0%N, "key2")).
Proof.
  destruct (pause_stops_serving_and_schedules_stop 0 PAUSE_REASON_DOWNTIME_CHALLENGE (at_block 11) distributed the_params)
    as (w' & E & H1 & _ & _ & _ & _ & _ & _ & H2 & _).
  - test.
  - test.
  - test.
  - exists w'. split; [exact E|]. split; [exact H1|]. split; [apply H2|test].
Defined.

Lemma stop_schedules_removal_witness :
  ∃ w', StopAndPrepareForConsumerRemoval 0 (at_block 12) funded = (Ok tt, w') ∧
    GetConsumerRemovalTime 0 w' = Some (60000 * Day + 12 * Hour + 21 * Day).
Proof.
  destruct (stop_schedules_removal 0 (at_block 12) funded (21 * Day)) as (w' & E & _ & H & _).
  - test.
  - exists w'. split; [exact E|]. etransitivity; [exact H|]. test.
Defined.

Lemma stopped_ledger_ok : ledger_ok stopped.
Proof. assert (preserves ledger_ok (StopAndPrepareForConsumerRemoval 0)) as P by pres. apply P, funded_ledger_ok. Qed.
Lemma deletion_erases_the_consumer_witness :
  succeeds (DeleteConsumerChain 0) (at_block (12 + 21 * 24)) stopped = true ∧
  erased 0 (exec (DeleteConsumerChain 0) (at_block (12 + 21 * 24)) stopped).
Proof.
  destruct (deletion_erases_the_consumer 0 (at_block (12 + 21 * 24)) stopped stopped_ledger_ok) as (_ & H1 & H2).
  assert (succeeds (DeleteConsumerChain 0) (at_block (12 + 21 * 24)) stopped = true) as Hs.
  { apply H2; [vm_compute; reflexivity|test|vm_compute; reflexivity]. }
  split; [exact Hs|]. apply H1, ran, Hs.
Defined.

Lemma resume_catches_the_consumer_up_witness :
  GetConsumerPhase 0 paused = CONSUMER_PHASE_PAUSED ∧ GetConsumerPhase 0 resumed_chain = CONSUMER_PHASE_LAUNCHED ∧
  GetPendingVSCPackets 0 resumed_chain = [].
Proof.
  destruct (resume_catches_the_consumer_up 0 (at_block 13) paused resumed_chain) as (H1 & H2 & _ & _ & _ & _ & _ & H3 & _).
  - apply distinct_bonded. vm_compute. reflexivity.
  - run_it.
  - split; [exact H1|]. split; [exact H2|exact H3].
Defined.

(** *** Downtime: consumer validator 1 missed five blocks of the window
    from 5 to 12 *)
Definition evidence : @EvidencePacketData (@ext_dec demo) :=
  mkEvidence "key1" 12 INFRACTION_DOWNTIME 5 [31] 8 (Some (scale / 2)).
Definition accepted : World := exec (HandleConsumerEvidencePacket 0 evidence) (at_block 13) distributed.
Definition matured_time : Ctx := at_block (13 + 72).
Definition swept : World := exec SweepPendingDowntimeSlashes matured_time accepted.
Definition the_cap : @SlashJailParameters (@ext_dec demo) := mkSlashJail (Some (scale / 100)) 0 false.
Definition no_slash : PendingDowntimeSlash := mkPendingDowntimeSlash 0 "" "" 0 0 0 [] 0 0.
Definition the_entry : PendingDowntimeSlash :=
  default no_slash (s_PendingDowntimeSlashes accepted !! (0%N, "key1", 12)).

(** A sweep finds nothing mature, and the validator is accused again for the
    window that follows. *)
Definition evidence2 : @EvidencePacketData (@ext_dec demo) :=
  mkEvidence "key1" 20 INFRACTION_DOWNTIME 13 [31] 8 (Some (scale / 2)).
Definition unswept : World := exec SweepPendingDowntimeSlashes (at_block 14) accepted.
Definition accepted2 : World := exec (HandleConsumerEvidencePacket 0 evidence2) (at_block 15) unswept.
Lemma no_height_is_accepted_twice_witness :
  succeeds (HandleConsumerEvidencePacket 0 evidence2) (at_block 15) unswept = true ∧
  ¬ covered 0 "key1" 9 distributed ∧ covered 0 "key1" 9 unswept ∧
  (WindowEndHeight evidence < WindowStartHeight evidence2 ∨ WindowEndHeight evidence2 < WindowStartHeight evidence).
Proof.
  split; [vm_compute; reflexivity|].
  destruct (no_height_is_accepted_twice 0 evidence evidence2 (at_block 13) (at_block 15) distributed accepted unswept accepted2)
    as (Hdis & H & _).
  - run_it.
  - apply rtc_once. left. exists SweepPendingDowntimeSlashes, (at_block 14). split; [constructor|reflexivity].
  - run_it.
  - vm_compute. reflexivity.
  - destruct (H 9) as [H1 H2]; [split; vm_compute; discriminate|]. split; [exact H1|]. split; [exact H2|exact Hdis].
Defined.

Lemma accepted_evidence_accuses_fresh_heights_witness : ¬ covered 0 "key1" 9 distributed ∧ covered 0 "key1" 9 accepted.
Proof.
  apply (accepted_evidence_accuses_fresh_heights 0 evidence (at_block 13) distributed accepted); [run_it|].
  split; vm_compute; discriminate.
Defined.

Lemma executed_slash_is_capped_witness :
  ps_SlashTokens the_entry = 15 ∧
  (executeDowntimeSlash (0%N, "key1", 12) the_entry the_infractions matured_time accepted).1 = Ok true ∧
  ∃ consAddr power fraction s',
    SlashWithInfractionReason (w_staking accepted) consAddr 0 power fraction INFRACTION_DOWNTIME = Some s' ∧
    dec_GT fraction (SlashFraction the_cap) = false.
Proof.
  split; [test|]. split; [vm_compute; reflexivity|].
  destruct (executed_slash_is_capped (0%N, "key1", 12) the_entry the_infractions the_cap matured_time accepted
    (executeDowntimeSlash (0%N, "key1", 12) the_entry the_infractions matured_time accepted).1
    (executeDowntimeSlash (0%N, "key1", 12) the_entry the_infractions matured_time accepted).2)
    as [[_ H]|(_ & _ & power & tokens & consAddr & fraction & s' & _ & H1 & _ & H2)].
  - reflexivity.
  - apply surjective_pairing.
  - destruct H. vm_compute. reflexivity.
  - exists consAddr, power, fraction, s'. split; [exact H1|exact H2].
Defined.

Lemma sweep_removes_exactly_the_matured_witness :
  is_Some (s_PendingDowntimeSlashes accepted !! (0%N, "key1", 12)) ∧
  s_PendingDowntimeSlashes swept !! (0%N, "key1", 12) = None.
Proof.
  split; [test|].
  destruct (sweep_removes_exactly_the_matured matured_time accepted swept) as [H _]; [run_it|].
  etransitivity; [apply H|]. vm_compute. reflexivity.
Defined.

Definition challenge : MsgChallengeConsumerDowntime :=
  mkChallenge "carol" 0 "key1" 9 (Some (mkTmHeader "consumer-1" 10 "hash" "")) (Some "commit") "key1".
Definition challenged : World := exec (HandleChallengeConsumerDowntime challenge) (at_block 20) accepted.
