(* ===== verification/EquivocationWitnesses.v ===== *)
(** Witnesses of the theorems on equivocation, misbehaviour and key rotation,
    on the chain of [Scene]. *)
From S2P Require Import Prelude GoTime Types Externals World Keeper Queues ValSets Valset ValsetProofs.
From S2P Require Import FeePool FeePoolProofs Fees FeesProofs KeyAssignment Lifecycle LifecycleProofs.
From S2P Require Import Downtime DowntimeProofs Equivocation Rotation RotationProofs Demo Msgs MsgServer Provider.
From S2P Require Import PhaseProofs SystemProofs EquivocationProofs Scene ProviderWitnesses.
Import Demo.

(** *** Validator 1 signs two blocks at height 12 *)
Definition double_vote : DuplicateVoteEvidence := mkDuplicateVote (demo_vote "a") (demo_vote "b").
Definition punished : World := exec (HandleConsumerDoubleVoting 0 double_vote (Some "key1")) (at_block 13) funded.

Lemma double_voting_needs_proof_witness :
  GetConsumerPhase 0 funded = CONSUMER_PHASE_LAUNCHED ∧ IsTombstoned (w_staking punished) "key1" = true.
Proof.
  destruct (double_voting_needs_proof 0 double_vote (Some "key1") (at_block 13) funded punished) as (H & _); [run_it|].
  split; [exact H|test].
Defined.

Lemma equivocation_is_punished_once_witness :
  length (st_slashed (w_staking punished)) = 1%nat ∧
  settled "consumer-1" "key1" 12 punished ∧
  w_staking (exec (HandleConsumerDoubleVoting 0 double_vote (Some "key1")) (at_block 20) punished) = w_staking punished.
Proof.
  split; [vm_compute; reflexivity|].
  destruct (equivocation_is_punished_once 0 double_vote (Some "key1") "consumer-1" (at_block 13) funded punished) as [H1 H2];
    [run_it|test|].
  assert (settled "consumer-1" "key1" 12 punished) as Hs by (right; vm_compute; reflexivity).
  split; [exact Hs|].
  apply (H2 0%N double_vote (Some "key1") (at_block 20) punished
    (HandleConsumerDoubleVoting 0 double_vote (Some "key1") (at_block 20) punished).1).
  - exact H1.
  - test.
  - vm_compute. reflexivity.
  - reflexivity.
  - apply surjective_pairing.
Defined.

Lemma settled_infractions_stay_settled_witness : settled "consumer-1" "key1" 12 (commit EndBlock (at_block 20) punished).
Proof.
  destruct (settled_infractions_stay_settled "consumer-1" "key1" 12 punished (commit EndBlock (at_block 20) punished))
    as [H|(c & old & new & _ & _)].
  - apply step_end.
  - assert (w_staking (commit EndBlock (at_block 20) punished) = w_staking punished) as E by (vm_compute; reflexivity).
    unfold tombstoned. rewrite E. by intros a.
  - right. vm_compute. reflexivity.
  - exact H.
  - right. vm_compute. reflexivity.
Defined.

(** *** A fork of the consumer: two headers at height 12 *)
Definition fork_header (s : string) : MisbehaviourHeader := mkMisbehaviourHeader "consumer-1" (1%N, 12) s "set".
Definition fork : Misbehaviour := mkMisbehaviour "07-tendermint-0" (fork_header "a") (fork_header "b").
Definition attributed : World := exec (GetByzantineValidators fork) (at_block 13) funded.
Lemma attribution_is_signed_witness :
  (GetByzantineValidators fork (at_block 13) funded).1 = Ok [mkCmtValidator "key1" "key1"] ∧ attributed = funded.
Proof.
  split; [vm_compute; reflexivity|].
  destruct (attribution_is_signed fork (at_block 13) funded [mkCmtValidator "key1" "key1"] attributed) as [Hw _];
    [run_it|exact Hw].
Defined.
Definition contained : World := exec (HandleConsumerMisbehaviour 0 fork) (at_block 13) funded.
Lemma misbehaviour_contains_without_punishing_witness :
  GetConsumerPhase 0 contained = CONSUMER_PHASE_PAUSED ∧ GetClientStatus (w_ibc contained) "07-tendermint-0" = Frozen ∧
  w_staking contained = w_staking funded.
Proof.
  destruct (misbehaviour_contains_without_punishing 0 fork (at_block 13) funded ["key1"] contained)
    as (_ & _ & _ & _ & _ & _ & _ & _ & H1 & _ & _ & _ & H2 & _); [run_it|].
  split; [exact H1|]. split; [vm_compute; reflexivity|exact H2].
Defined.

(** *** Validator 1 rotates its provider key *)
Lemma rotation_carries_the_books_witness :
  ∃ w', MigrateStateOnConsPubKeyRotation "key1" "key3" (at_block 14) keyed = (Ok tt, w') ∧
    GetValidatorConsumerPubKey 0 "key3" w' = Some "ckey1" ∧ GetValidatorByConsumerAddr 0 "ckey1" w' = Some "key3".
Proof.
  destruct (rotation_carries_the_books "key1" "key3" (at_block 14) keyed) as (w' & E & H & _); [discriminate|].
  exists w'. split; [exact E|]. destruct (H 0%N "ckey1") as (H1 & _ & H2 & _); [test|test|].
  split; [exact H1|]. apply H2. test.
Defined.
(** Accused under its provider key first, then assigned a key of its own. *)
Definition accused_then_keyed : World := exec (AssignConsumerKey 0 val1 "ckey1") (at_block 14) accepted.
Lemma rotation_and_covered_heights_witness :
  covered 0 "key1" 9 accused_then_keyed ∧
  ∃ w', MigrateStateOnConsPubKeyRotation "key1" "key3" (at_block 15) accused_then_keyed = (Ok tt, w') ∧
    covered 0 (GetProviderAddrFromConsumerAddr 0 "ckey1" w') 9 w' ∧
    ¬ covered 0 (GetProviderAddrFromConsumerAddr 0 "key1" w') 9 w'.
Proof.
  assert (covered 0 "key1" 9 accused_then_keyed) as Hcov.
  { left. exists 12, (mkAcceptedDowntimeWindow 5 (60000 * Day + 13 * Hour)). split; [vm_compute; reflexivity|cbn; lia]. }
  split; [exact Hcov|].
  assert (GetProviderAddrFromConsumerAddr 0 "ckey1" accused_then_keyed = "key1") as Ea by (vm_compute; reflexivity).
  destruct (rotation_and_covered_heights "key1" "key3" 0 (at_block 15) accused_then_keyed) as (w' & E & H1 & H2).
  - discriminate.
  - intros h. assert (map_Forall (λ (k : N * string * Z) (_ : AcceptedDowntimeWindow), k.1.2 ≠ "key3")
      (s_AcceptedDowntimeWindows accused_then_keyed)) as H by test.
    destruct (s_AcceptedDowntimeWindows accused_then_keyed !! (0%N, "key3", h)) as [x|] eqn:Ex; [|reflexivity].
    by destruct (H _ _ Ex).
  - exists w'. split; [exact E|]. split.
    + refine (H1 "ckey1" 9 _ _); [intros Eq _; discriminate Eq|]. rewrite Ea. exact Hcov.
    + apply H2; [test|test|test].
Defined.
