(* ===== verification/AnteWitnesses.v ===== *)
(** Witnesses of the admission theorems: the chain of [Scene] fallen into debt,
    on a node with a fee floor, with SDK decorators that let everything pass. *)
From S2P Require Import Prelude GoTime Types Externals ConsumerWorld Consumer Ante AnteProofs Demo Scene.
Import Demo.

#[local] Instance demo_ante : AnteExternals := {|
  IBCDenom base _ := ("ibc/" ++ base)%string;
  NewCoin_ok c := 0 <=? Amount c;
  IsAnyGTE a b := existsb (λ c, existsb (λ d, String.eqb (Denom c) (Denom d) && (Amount d <=? Amount c)) b) a;
|}.
Definition pass : Decorator := λ tx simulate next, next tx simulate.
Definition deduct (checker : Tx → CK (list Coin * Z)) : Decorator := λ tx simulate next c w,
  if simulate then next tx simulate c w
  else match checker tx c w with
       | (Ok _, w') => next tx simulate c w'
       | (Err e, w') => (Err e, w')
       | (Panic, w') => (Panic, w')
       end.
Definition the_sdk : SdkDecorators :=
  mkSdkDecorators pass pass pass pass pass pass deduct pass pass pass pass pass pass.
Definition able (_ : Tx) (_ : bool) (_ : Ctx) (_ : CWorld) : Prop := True.
#[local] Instance the_sdk_laws : SdkLaws the_sdk able.
Proof.
  split.
  - intros d tx simulate c w Hd. left. assert (d = pass) as ->; [|done].
    repeat (apply elem_of_cons in Hd as [->|Hd]; [done|]). by apply elem_of_nil in Hd.
  - intros checker tx simulate c w r E. unfold gate, able, hands_on, refuses. destruct simulate.
    + left. by split.
    + destruct r as [a|e|].
      * left. split; [done|]. intros next. unfold deduct. cbn. by rewrite E.
      * right. split; [by intros [H _]; specialize (H eq_refl)|]. exists (Err e). split; [done|].
        intros next. unfold deduct. cbn. by rewrite E.
      * right. split; [by intros [H _]; specialize (H eq_refl)|]. exists Panic. split; [done|].
        intros next. unfold deduct. cbn. by rewrite E.
Qed.
Lemma the_sdk_accepts tx simulate c w : sdk_accepts the_sdk able tx simulate c w.
Proof. split; [done|]. repeat constructor. Qed.

Definition photon_params : ConsumerParams :=
  mkConsumerParams Hour 100 (20 * Day) (3 * Hour) 8 (Some (scale / 2)) "alice" true.
Definition indebted : CWorld := upd_CConsumerInDebt (λ _, Some true) (upd_CParams (λ _, Some photon_params) consumer_chain).
Definition the_node : NodeCtx := mkNodeCtx true [("ibc/uphoton", Some scale)].
Definition relayer_tx : Tx := mkTx [MsgOf "/ibc.core.channel.v2.MsgRecvPacket"; MsgOf "/ibc.core.client.v1.MsgUpdateClient"] (Some ([], 200)).
Definition user_tx : Tx := mkTx [MsgOf "/cosmos.bank.v1beta1.MsgSend"] (Some ([mkCoin "ibc/uphoton" 200], 200)).

Definition handled (tx : Tx) (w : CWorld) : result () * CWorld :=
  NewAnteHandler the_node None the_sdk tx false (at_consumer 9) w.
Lemma user_is_refused : (handled user_tx indebted).1 ≠ Ok tt.
Proof. assert (is_ok (handled user_tx indebted).1 = false) as H by (vm_compute; reflexivity). intros E. by rewrite E in H. Qed.
Lemma user_is_served : (handled user_tx consumer_chain).1 = Ok tt.
Proof. vm_compute. reflexivity. Qed.

Lemma admission_policy_witness :
  ¬ policy the_node photon_params user_tx false (at_consumer 9) indebted ∧
  policy the_node consumer_params user_tx false (at_consumer 9) consumer_chain.
Proof.
  split.
  - destruct (admission_policy the_sdk able the_node photon_params user_tx false (at_consumer 9) indebted
      (handled user_tx indebted).1 (handled user_tx indebted).2 eq_refl (surjective_pairing _)) as [_ Hiff].
    intros H. apply user_is_refused, Hiff. split; [exact H|apply the_sdk_accepts].
  - destruct (admission_policy the_sdk able the_node consumer_params user_tx false (at_consumer 9) consumer_chain
      (handled user_tx consumer_chain).1 (handled user_tx consumer_chain).2 eq_refl (surjective_pairing _)) as [_ Hiff].
    apply Hiff, user_is_served.
Defined.

Lemma recovery_is_never_locked_out_witness :
  NewAnteHandler the_node None the_sdk relayer_tx false (at_consumer 9) indebted = (Ok tt, indebted).
Proof.
  apply (recovery_is_never_locked_out the_sdk able).
  - by eexists.
  - split; [done|]. intros msg Hm. unfold relayer_tx in Hm. cbn in Hm.
    apply elem_of_cons in Hm as [->|[->|[]%elem_of_nil]%elem_of_cons]; (split; [by left|by vm_compute]).
  - by eexists.
  - apply the_sdk_accepts.
Defined.
