(* ===== verification/GenesisWitnesses.v ===== *)
(** The theorems about genesis and restarts on the scene of [Scene]. *)
From S2P Require Import Prelude GoTime Types Externals World Keeper Queues ValSets Valset FeePool FeePoolProofs Invariants Fees.
From S2P Require Import ValsetProofs KeyAssignment Lifecycle Downtime ConsumerWorld Demo Msgs Genesis MsgServer Provider.
From S2P Require Import PhaseProofs GenesisProofs GenesisStart GenesisRoundTrip Restart SystemProofs Scene ProviderWitnesses.
From Stdlib Require Import DecimalString DecimalPos DecimalZ.
Import Demo.

(** *** The instance *)
#[export] Instance demo_genesis : GenesisExternals := {|
  Int_String z := NilZero.string_of_int (Z.to_int z);
  VerifyAddressFormat a := negb (String.eqb a "");
  bech32_decodes a := negb (String.eqb a "");
  client_states_valid gs := negb (String.eqb (cg_ChainId gs) "");
|}.
#[export] Instance demo_genesis_laws : GenesisLaws.
Proof.
  intros z. cbn. rewrite NilZero.isi.
  - cbn. by rewrite DecimalZ.of_to.
  - destruct z as [|p|p]; [done| |done]. cbn. intros [= E]. by apply (DecimalPos.Unsigned.to_uint_nonnil p).
  - destruct z as [|p|p]; [done|done|]. cbn. intros [= E]. by apply (DecimalPos.Unsigned.to_uint_nonnil p).
Qed.
Lemma demo_balances (b : Bank) a coin : coin ∈ GetAllBalances b a → 0 < Amount coin.
Proof. cbn. intros ([k n] & -> & [[_ Hn] _]%list_elem_of_filter)%list_elem_of_fmap. cbn in *. lia. Qed.

(** *** The funded chain can be exported *)
Lemma map_test {K V} `{Countable K} (f : K → V → bool) (m : gmap K V) :
  forallb (λ kv, f kv.1 kv.2) (map_to_list m) = true → ∀ k v, m !! k = Some v → f k v = true.
Proof. intros Hf k v E. apply (forall_test _ _ Hf (k, v)). by apply elem_of_map_to_list. Qed.
Lemma below_test {V} (n : N) (m : gmap N V) :
  forallb (λ kv, (kv.1 <? n)%N) (map_to_list m) = true → ∀ k, (n ≤ k)%N → m !! k = None.
Proof.
  intros Hf k Hk. destruct (m !! k) eqn:E; [|done]. pose proof (map_test (λ k _, (k <? n)%N) m Hf k _ E) as Hlt.
  apply N.ltb_lt in Hlt. lia.
Qed.

Definition the_vals : list ConsensusValidator :=
  [mkConsensusValidator "key1" 60 "key1" 0; mkConsensusValidator "key2" 40 "key2" 0].
Lemma funded_bonded : bonded funded the_vals.
Proof.
  exists [val1; val2]. split; [vm_compute; reflexivity|].
  constructor; [test|constructor; [test|constructor]].
Qed.
Lemma funded_phases : s_ConsumerPhases funded = {[0%N := CONSUMER_PHASE_LAUNCHED]}.
Proof. test. Qed.
Lemma funded_seq : s_ConsumerIdSeq funded = 1%N.
Proof. test. Qed.
Lemma infractions_test (o : option InfractionParameters) f :
  match o with
  | Some ip => InfractionParameters_Validate ip && ValidateInfractionParamsAgainst ip f
  | None => false
  end = true → ∃ ip, o = Some ip ∧ InfractionParameters_Validate ip = true ∧ ValidateInfractionParamsAgainst ip f = true.
Proof. destruct o as [ip|]; [|done]. intros [? ?]%andb_true_iff. by exists ip. Qed.

Lemma funded_clients : s_ConsumerClients funded = {[0%N := "07-tendermint-0"]}.
Proof. test. Qed.
Lemma not_blank (m : gmap N string) :
  forallb (λ kv, negb (String.eqb kv.2 "")) (map_to_list m) = true → ∀ id, m !! id ≠ Some "".
Proof. intros Hf id E. by apply (map_test (λ _ s, negb (String.eqb s "")) m Hf) in E. Qed.
Lemma lookup_singleton_Some_in {V} (m : gmap N V) (i : N) (v : V) (E : m = {[i := v]}) k x :
  m !! k = Some x → i = k ∧ v = x.
Proof. rewrite E. apply lookup_singleton_Some. Qed.
Lemma map_nil {K V} `{Countable K} (m : gmap K V) : length (map_to_list m) = 0%nat → m = ∅.
Proof. intros E. apply map_to_list_empty_iff. by apply nil_length_inv. Qed.

Lemma heights_test (chains : gmap N string) (params : gmap N ConsumerInitializationParameters) :
  forallb (λ kv, match chains !! kv.1 with
                 | Some chain => ValidateInitialHeight (InitialRevision kv.2) chain
                 | None => false
                 end) (map_to_list params) = true →
  ∀ id p, params !! id = Some p → ∃ chain, chains !! id = Some chain ∧ ValidateInitialHeight (InitialRevision p) chain = true.
Proof.
  intros Hf id p E%elem_of_map_to_list. apply (forall_test _ _ Hf) in E. cbn in E.
  destruct (chains !! id) as [chain|]; [by exists chain|done].
Qed.

Lemma named_test (m : gmap (N * string * string) Z) :
  forallb (λ kv, negb (String.eqb kv.1.2 "")) (map_to_list m) = true →
  ∀ id denom dep, is_Some (m !! (id, denom, dep)) → AccAddressFromBech32 (AccAddressString dep) = Some dep.
Proof.
  intros Hf id denom dep [n E%elem_of_map_to_list]. apply (forall_test _ _ Hf) in E. cbn in *.
  by destruct (String.eqb dep "").
Qed.

Lemma funded_exportable : exportable funded the_params the_vals.
Proof.
  split; rewrite ?funded_seq.
  - done.
  - intros id. rewrite funded_phases. split.
    + intros Hid. assert (id = 0%N) as -> by lia. rewrite lookup_singleton_eq. by eexists.
    + intros [p Hp%lookup_singleton_Some]. destruct Hp as [<- _]. lia.
  - intros id Hid. unfold unknown. split_and!; apply (below_test 1); try done; vm_compute; reflexivity.
  - intros id. split_and!; apply not_blank; vm_compute; reflexivity.
  - rewrite funded_clients. intros id id' cl [<- _]%lookup_singleton_Some [<- _]%lookup_singleton_Some. done.
  - intros id p E. right.
    revert id p E. apply heights_test. vm_compute. reflexivity.
  - assert (s_ConsumerAddrsToPrune funded = ∅) as -> by test. done.
  - exact funded_ledger_ok.
  - intros id phase coin [<- _]%(lookup_singleton_Some_in _ _ _ funded_phases) _ Hin.
    apply (forall_test (λ coin, bool_decide (is_Some (get_total 0 (Denom coin) funded)))) in Hin; [|vm_compute; reflexivity].
    by apply bool_decide_eq_true in Hin.
  - apply named_test. vm_compute. reflexivity.
  - assert (s_PendingDowntimeSlashes funded = ∅) as -> by (apply map_nil; vm_compute; reflexivity). done.
  - assert (s_WithheldFeeRecords funded = ∅) as -> by (apply map_nil; vm_compute; reflexivity). done.
  - assert (s_EpochDowntime funded = ∅) as -> by test. done.
  - vm_compute. reflexivity.
  - apply infractions_test. vm_compute. reflexivity.
  - exact funded_bonded.
Qed.

Lemma funded_launch_ok : launch_ok [] (view funded).
Proof. apply (steps_course genesis funded genesis_launch_ok history). Qed.
Definition restart : World := fresh (w_staking funded) (w_bank funded) (w_ibc funded).
Definition the_export : GenesisState := exported funded the_params.
Definition the_updates : list ValidatorUpdate := (λ v, mkUpdate (PublicKey v) (cv_Power v)) <$> the_vals.
Lemma export_valid : GenesisState_Validate the_export = true.
Proof. vm_compute. reflexivity. Qed.

Lemma the_keys : NoDup (PublicKey <$> the_vals).
Proof. test. Qed.

(** *** The theorems *)
Lemma restart_is_a_fixed_point_witness :
  ∃ w', ExportGenesis (at_block 4) funded = (Ok the_export, funded) ∧
    InitGenesis the_export (at_block 5) restart = (Ok the_updates, w') ∧
    get_total 0 "uphoton" w' = get_total 0 "uphoton" funded ∧ get_total 0 "uphoton" funded = Some 200 ∧
    ExportGenesis (at_block 6) w' = (Ok the_export, w').
Proof.
  destruct (restart_is_a_fixed_point (X := demo) demo_balances funded the_params the_vals (at_block 4) (at_block 5) (at_block 6)
    funded_exportable) as (gs & w' & E1 & E2 & Hrs & E3).
  assert (gs = the_export) as -> by exact (export_unique _ _ _ _ _ (ex_params _ _ _ funded_exportable) E1).
  exists w'. split_and!; [exact E1|exact E2| |test|exact E3].
  destruct (rs_pools _ _ Hrs) as (_ & _ & Et & _). exact (f_equal (lookup (0%N, "uphoton")) Et).
Defined.

Lemma genesis_starts_consistent_witness :
  ∃ w, InitGenesis the_export (at_block 5) restart = (Ok the_updates, w) ∧ ledger_ok w ∧ launch_ok [] (view w) ∧
    GetConsumerPhase 0 w = CONSUMER_PHASE_LAUNCHED ∧ ∃ total, get_total 0 "uphoton" w = Some total ∧ 0 < total.
Proof.
  destruct (genesis_starts_consistent (X := demo) demo_balances the_export the_vals (w_staking funded) (w_bank funded) (w_ibc funded)
    (at_block 5)) as (w & E & Hl & Ho & Hph & Hb).
  - exact export_valid.
  - exact (export_startable funded the_params the_vals funded_exportable funded_launch_ok).
  - assert (export_consumer funded 0 ∈ gs_ConsumerStates the_export) as Hin by (apply elem_of_states; exists 0%N; split; [done|test]).
    exists w. split_and!; [exact E|exact Hl|exact Ho|etrans; [exact (Hph _ Hin)|test]|].
    refine (Hb _ (mkCoin "uphoton" 200) Hin _ _); [by test|test].
Defined.

Lemma restart_resumes_the_schedule_witness :
  ∃ w', InitGenesis the_export (at_block 5) restart = (Ok the_updates, w') ∧
    GetEquivocationEvidenceMinHeight 0 w' = 1 ∧
    s_FeePoolAddressToConsumerId w' !! GetConsumerFeePoolAddress 0 = Some 0%N.
Proof.
  destruct (import_restored (X := demo) demo_balances funded the_params the_vals (at_block 5) funded_exportable) as (v & _ & E & _).
  destruct (restart_resumes_the_schedule (X := demo) demo_balances funded the_params the_vals (at_block 4) (at_block 5) the_export _ _
    funded_exportable (ExportGenesis_run _ _ _ (ex_params _ _ _ funded_exportable)) E) as (_ & _ & _ & Hh & Ha).
  eexists. split_and!; [exact E| |].
  - rewrite (Hh 0%N init_params); [done|test|vm_compute; reflexivity].
  - apply (Ha 0%N CONSUMER_PHASE_LAUNCHED); [test|done].
Defined.

Lemma first_block_after_a_restart_witness :
  ∃ w', InitGenesis the_export (at_block 5) restart = (Ok the_updates, w') ∧
    (ProviderValidatorUpdates (at_block 5) w').1 = Ok [] ∧
    ∀ w'', QueueVSCPackets (at_block 5) w' = (Ok tt, w'') →
      ∃ p, GetPendingVSCPackets 0 w'' = GetPendingVSCPackets 0 funded ++ [p] ∧ IsSnapshot p = true.
Proof.
  destruct (import_restored (X := demo) demo_balances funded the_params the_vals (at_block 5) funded_exportable) as (v & _ & E & _).
  destruct (first_block_after_a_restart (X := demo) demo_balances funded the_params the_vals (at_block 4) (at_block 5) (at_block 5)
    the_export _ _ funded_exportable (distinct_bonded funded ltac:(vm_compute; reflexivity)) the_keys
    (ExportGenesis_run _ _ _ (ex_params _ _ _ funded_exportable)) E) as (Hu & Hq).
  eexists. split_and!; [exact E|exact Hu|]. intros w'' Eq. destruct (Hq 0%N w'' Eq) as (p & Ep & Es & _); [test|exact (ex_intro _ p (conj Ep Es))].
Defined.

(** A consumer registered without a spawn time, and one launched before its client is found. *)
Definition register_msg : MsgCreateConsumer := mkMsgCreateConsumer "alice" "consumer-1" (mkMetadata "n" "d" "m") None.
Definition registered : World := commit (handle (CreateConsumer_ register_msg)) (at_block 1) genesis.
Lemma unconnected_export_fails_validation_witness :
  (∃ gs, ExportGenesis (at_block 1) registered = (Ok gs, registered) ∧ GenesisState_Validate gs = false) ∧
  (∃ gs, ExportGenesis (at_block 2) spawned = (Ok gs, spawned) ∧ GenesisState_Validate gs = false).
Proof.
  split.
  - apply (unconnected_export_fails_validation registered the_params (at_block 1) 0); [vm_compute; reflexivity|test|].
    left. split; [test|]. eexists. vm_compute. reflexivity.
  - apply (unconnected_export_fails_validation spawned the_params (at_block 2) 0); [vm_compute; reflexivity|test|].
    right. split; test.
Defined.

(** *** A chain id of another revision
    The owner changes only the chain id of a consumer that has not launched; its
    recorded initial height keeps the old revision, which the import of the
    export panics over. *)
Definition rechain_msg : MsgUpdateConsumer := mkMsgUpdateConsumer "alice" 0 "" None None "consumer-2" "".
Definition rechained : World := commit (handle (UpdateConsumer_ rechain_msg)) (at_block 2) created.
Example rechained_export_panics :
  succeeds (UpdateConsumer rechain_msg) (at_block 2) created = true ∧
  ∃ gs, ExportGenesis (at_block 3) rechained = (Ok gs, rechained) ∧
    (InitGenesis gs (at_block 4) (fresh (w_staking rechained) (w_bank rechained) (w_ibc rechained))).1 = Panic.
Proof.
  split; [vm_compute; reflexivity|]. exists (exported rechained the_params).
  split; [apply ExportGenesis_run; vm_compute; reflexivity|].
  match goal with |- ?m.1 = Panic => assert (match m.1 with Panic => true | _ => false end = true) as E
    by (vm_compute; reflexivity); destruct m as [[]]; [discriminate E|discriminate E|reflexivity] end.
Qed.

Lemma crisis_invariant_is_the_ledger_witness :
  FeePoolSharesConsistencyInvariant funded = false ∧ ledger_ok funded ∧
  0 < GetBalance (w_bank funded) (GetConsumerFeePoolAddress 0) "uphoton".
Proof.
  assert (FeePoolSharesConsistencyInvariant funded = false) as E by (vm_compute; reflexivity).
  split; [exact E|]. apply (crisis_invariant_is_the_ledger funded) in E as (Hl & Hb & _); [|apply funded_ledger_ok..].
  split; [exact Hl|]. apply (Hb 0%N "uphoton" 200). test.
Defined.

(** A pool that holds exactly one epoch's fee: the distribution drains it, its
    shares stay, and the invariant reports them. *)
Definition epoch_pool : World :=
  commit (handle (FundConsumerFeePool_ (mkMsgFund "alice" 0 (mkCoin "uphoton" 50)))) (at_block 4) connected.
Example drained_pool_breaks_the_invariant :
  FeePoolSharesConsistencyInvariant epoch_pool = false ∧
  succeeds DistributeConsumerFees (at_block 10) epoch_pool = true ∧
  FeePoolSharesConsistencyInvariant (exec DistributeConsumerFees (at_block 10) epoch_pool) = true.
Proof. split_and!; vm_compute; reflexivity. Qed.

(** The genesis a new provider chain starts from. *)
Example default_genesis_validates : GenesisState_Validate DefaultGenesisState = true.
Proof. vm_compute. reflexivity. Qed.
