(* ===== verification/ConsumerWitnesses.v ===== *)
(** The theorems about a consumer's life (its genesis, its blocks, its restart,
    and the launch it starts from) on the scene of [Scene]. *)
From S2P Require Import Prelude GoTime Types Externals World Keeper ValSets Valset ValsetProofs Lifecycle ConsumerWorld Demo.
From S2P Require Import Consumer ConsumerGenesis ConsumerDowntimeProofs ConsumerValset ConsumerRun ConsumerRestart ConsumerStart Protocol Launch Scene ProtocolWitnesses.
Import Demo.

#[export] Instance demo_key_laws : KeyLaws.
Proof. split; [by intros k k' a [= ->] [= ->]|by intros k u _]. Qed.
#[export] Instance demo_consumer_genesis : CGenesisExternals := {|
  c_ConsensusState := unit;
  ClientState_Validate cs := negb (String.eqb (cs_ChainId cs) "");
  ConsensusState_ValidateBasic _ := true;
|}.
#[export] Instance demo_consumer_laws : ConsumerLaws.
Proof. split; [intros s a; by eexists|by intros]. Qed.

Lemma find_one (cl : Client) id found : find_client [cl] id = Some found → found = cl ∧ id = cl_id cl.
Proof. unfold find_client. rewrite filter_cons. case_decide as E; [|done]. intros [= <-]. by split. Qed.

(** The consumer's IBC state: its client of the provider. *)
Lemma the_clients_ok : clients_ok [consumer_client].
Proof.
  split; [vm_compute; reflexivity|]. intros id cs E. cbn [c_GetClientState demo_consumer] in E.
  destruct (find_client [consumer_client] id) as [cl|] eqn:Ef; [|done]. apply find_one in Ef as [-> _]. by injection E as <-.
Qed.

Lemma consumer_chain_runs : running consumer_chain.
Proof.
  split.
  - by eexists.
  - exists consumer_params. split; [done|]. split; [split; [vm_compute; reflexivity|unfold in_int64, int64_min, int64_max; cbn; lia]|]. apply no_trackers.
  - exact consumer_chain_ok.
  - test.
  - intros id [= <-]. split; [done|]. by eexists.
  - done.
  - done.
  - intros k p. cbn. by rewrite lookup_empty.
  - done.
  - exact the_clients_ok.
Qed.

(** It sees a block that "key1" missed. *)
Definition one_missed : list VoteInfo := [("key1", BlockIDFlagAbsent); ("key2", BlockIDFlagCommit)].
Definition observed : CWorld := exec (BeginBlock one_missed) (at_consumer 6) consumer_chain.
Lemma missed_block_ok : block_ok (at_consumer 6) one_missed.
Proof. split; [unfold in_int64, int64_min, int64_max; cbn; lia|]. cbn. set_solver. Qed.
Lemma observed_step : cstep consumer_chain observed.
Proof. apply (cstep_begin one_missed (at_consumer 6)); [exact missed_block_ok|run_it]. Qed.
Lemma observed_runs : running observed.
Proof. exact (cstep_running _ _ observed_step consumer_chain_runs). Qed.

Lemma consumer_restart_is_a_fixed_point_witness :
  ∃ gs w', ExportGenesis (at_consumer 6) observed = (Ok gs, observed) ∧ Validate gs = true ∧
    InitGenesis gs (at_consumer 7) (blank [] (c_ibc observed)) = (Ok (MustGetCurrentValidatorsAsABCIUpdates observed), w') ∧
    effective_set w' = effective_set consumer_chain ∧ MissedBlockBitmaps observed ≠ ∅ ∧
    ExportGenesis (at_consumer 8) w' = (Ok gs, w').
Proof.
  destruct (consumer_restart_is_a_fixed_point (at_consumer 6) (at_consumer 7) (at_consumer 8) observed [] observed_runs)
    as (params & gs & w' & _ & E1 & Hv & E2 & _ & Hset & _ & E3 & _); [test|].
  exists gs, w'. split_and!; [exact E1|exact Hv|exact E2| |test|exact E3]. etrans; [exact Hset|test].
Defined.

Definition foreign_payload : Payload ValidatorSetChangePacketData := mkPayload "transfer" ConsumerAppID None.
Lemma consumer_never_halts_witness :
  (∃ w1 us w2, BeginBlock one_missed (at_consumer 6) observed = (Ok tt, w1) ∧ EndBlock (at_consumer 6) w1 = (Ok us, w2) ∧
    cc_set w2 ≠ ∅) ∧
  ∃ ok w1, OnRecvPacket "07-tendermint-7" foreign_payload (at_consumer 6) observed = (Ok ok, w1).
Proof.
  destruct (consumer_never_halts (at_consumer 6) one_missed consumer_chain observed consumer_chain_runs
    (rtc_once _ _ observed_step) missed_block_ok) as [(w1 & us & w2 & E1 & E2 & _ & _ & _ & Hne) [Hrecv _]].
  split; [|apply Hrecv].
  exists w1, us, w2. split_and!; [exact E1|exact E2|exact Hne].
Defined.

(** *** A launch, and the chain that starts from its genesis *)
Definition launching : World := exec (LaunchConsumer [val1; val2] 0) (at_block 2) created.
Definition launch_set : list ValidatorUpdate :=
  default [] (cg_InitialValSet <$> GetConsumerGenesis 0 launching).
Definition first_genesis : GenesisState :=
  NewInitialGenesisState (Some (cl_state consumer_client)) (Some tt) launch_set consumer_params.
Lemma first_genesis_valid : Validate first_genesis = true.
Proof. vm_compute. reflexivity. Qed.
Lemma sound_test (us : list ValidatorUpdate) : forallb (λ u, 0 <=? Power u) us = true → ∀ u, u ∈ us → sound_update u.
Proof. intros Hf u Hu. split; [|by eexists]. apply Z.leb_le. exact (forall_test _ _ Hf u Hu). Qed.
Lemma first_genesis_startable : startable first_genesis [consumer_client].
Proof.
  split.
  - apply sound_test. vm_compute. reflexivity.
  - test.
  - exact the_clients_ok.
  - by intros cs _ [= <-].
  - done.
  - intros e. cbn. set_solver.
  - unfold in_int64, int64_min, int64_max; cbn; lia.
  - done.
Qed.

Lemma consumer_genesis_starts_running_witness :
  ∃ w, InitGenesis first_genesis (at_consumer 1) (blank [] [consumer_client]) = (Ok launch_set, w) ∧
    effective_set w ≠ ∅ ∧ running w.
Proof.
  destruct (consumer_genesis_starts_running first_genesis [consumer_client] (at_consumer 1) [] first_genesis_valid first_genesis_startable)
    as (w & E & _ & Hset & Hrun).
  exists w. split; [exact E|]. split; [rewrite Hset; exact (st_set _ _ first_genesis_startable)|]. apply Hrun. reflexivity.
Defined.

Lemma created_unserved : unserved 0 "07-tendermint-0" created.
Proof. split; test. Qed.
Lemma launched_consumer_converges_witness :
  ∃ cw, InitGenesis first_genesis (at_consumer 1) (blank [] [consumer_client]) = (Ok launch_set, cw) ∧
    effective_set cw = live (GetConsumerValSet 0 launching) ∧ live (GetConsumerValSet 0 launching) ≠ ∅.
Proof.
  destruct (launched_consumer_converges (X := demo) 0 "07-tendermint-0" "07-tendermint-7" [val1; val2] (at_block 2) created launching)
    as (g & Eg & Hgo).
  - test.
  - apply stored_in_provider. vm_compute. reflexivity.
  - test.
  - exact created_unserved.
  - run_it.
  - assert (launch_set = cg_InitialValSet g) as Es by (unfold launch_set; rewrite Eg; reflexivity).
    destruct (Hgo first_genesis [consumer_client] (at_consumer 1) [] Es eq_refl first_genesis_valid first_genesis_startable)
      as (cw & E & Hset & _).
    exists cw. split; [rewrite Es; exact E|]. split; [exact Hset|test].
Defined.
