(* ===== verification/QueryWitnesses.v ===== *)
(** The theorems about what the modules answer, on the scene of [Scene]. *)
From S2P Require Import Prelude GoTime Types Externals World Keeper ValSets Valset FeePool FeePoolProofs KeyAssignment Lifecycle Demo.
From S2P Require Import Msgs MsgServer Provider SystemProofs ConsumerWorld Consumer GrpcQuery GrpcQueryProofs LivenessProofs ConsumerQuery Scene ProviderWitnesses.
Import Demo.

#[export] Instance demo_queries : QueryExternals := {|
  ConsAddressString s := s;
  ConsAddressFromBech32 s := if String.eqb s "" then None else Some s;
  GetClientConsensusState i id h := (λ cl, Z.to_N h.2) <$> find_client (ibc_clients i) id;
  CollectionFilteredPaginate V T entries page keep get :=
    (λ l, (l, None)) <$> mapM (λ kv : N * V, get kv.1 kv.2) (filter (λ kv, keep kv.1 kv.2 = true) entries);
|}.
Lemma amount_snoc cs c d : AmountOf (cs ++ [c]) d = AmountOf cs d + (if decide (Denom c = d) then Amount c else 0).
Proof. unfold AmountOf. rewrite sumZ_app. unfold sumZ. cbn. lia. Qed.
#[export] Instance demo_query_laws : QueryLaws.
Proof.
  split; cbn.
  - intros a Ha. by rewrite (proj2 (String.eqb_neq a "")).
  - done.
  - done.
  - intros a Ha. by rewrite (proj2 (String.eqb_neq a "")).
  - intros c Hc. unfold NewCoins. by rewrite (proj2 (Z.eqb_neq (Amount c) 0)) by lia.
  - intros cs c d. destruct (Z.eqb_spec (Amount c) 0) as [E|]; [rewrite E; by case_decide; rewrite Z.add_0_r|apply amount_snoc].
Qed.

(** Bob deposits too. *)
Definition bob_funds : MsgFundConsumerFeePool := mkMsgFund "bob" 0 (mkCoin "uphoton" 100).
Definition shared : World := commit (handle (FundConsumerFeePool_ bob_funds)) (at_block 5) funded.
Lemma shared_step : step funded shared.
Proof. apply (step_msg (at_block 5) (FundConsumerFeePool_ bob_funds)). vm_compute. reflexivity. Qed.
Lemma shared_ledger_ok : ledger_ok shared.
Proof. exact (steps_ledger _ _ (rtc_once _ _ shared_step) funded_ledger_ok). Qed.
Lemma shared_live : live 0 shared.
Proof. split; test. Qed.
Definition named_test (m : gmap (N * string * string) Z) : bool :=
  forallb (λ kv, negb (String.eqb kv.1.2 "")) (map_to_list m).
Lemma named_by_test id (w : World) : named_test (s_ConsumerFeePoolShares w) = true → named_depositors id w.
Proof.
  intros H denom a [s Hs]. unfold get_shares in Hs. apply elem_of_map_to_list in Hs. pose proof (forall_test _ _ H _ Hs) as E. cbn in E.
  by apply negb_true_iff, String.eqb_neq in E.
Qed.
Lemma shared_named : named_depositors 0 shared.
Proof. apply named_by_test. vm_compute. reflexivity. Qed.

Lemma and_first (P Q R : Prop) : Q → (P ↔ Q ∧ R) → (P ↔ R).
Proof. tauto. Qed.
Lemma claim_pages_list_every_claim_once_witness :
  ∃ claims, walk_claims 2 0 1 "" (at_block 6) shared = (Ok claims, shared) ∧ NoDup (dc_Depositor <$> claims) ∧
    (mkDepositorClaim "bob" [mkCoin "uphoton" 100] ∈ claims ↔
     ConsumerFeePoolClaim (Some (0%N, "bob")) (at_block 6) shared = (Ok [mkCoin "uphoton" 100], shared)).
Proof.
  assert (length (consumer_shares 0 shared) = 2)%nat as El by test.
  destruct (claim_pages_list_every_claim_once 0 1 (at_block 6) shared shared_live shared_named) as (claims & E & _ & Hnd & _ & Hin);
    [lia|rewrite El; lia|].
  rewrite El in E. exists claims. split; [exact E|]. split; [exact Hnd|].
  specialize (Hin "bob" "bob" [mkCoin "uphoton" 100] ltac:(test) ltac:(discriminate)). revert Hin. apply and_first. discriminate.
Defined.

Lemma shared_walk :
  ∃ claims, walk_claims (S (length (consumer_shares 0 shared))) 0 1 "" (at_block 6) shared = (Ok claims, shared) ∧
    claims = claim_entry <$> pool_claims 0 (at_block 6) shared.
Proof.
  assert (length (consumer_shares 0 shared) = 2)%nat as El by test.
  eexists. split; [|reflexivity]. apply walk_lists_all; [exact shared_live|exact (named_all _ _ shared_named)|lia|rewrite El; lia|rewrite El; lia].
Qed.
Lemma le_via (a b c : Z) : b = c → a ≤ b → a ≤ c.
Proof. by intros ->. Qed.
Lemma listed_claims_fit_the_pool_witness :
  ∃ claims, walk_claims 3 0 1 "" (at_block 6) shared = (Ok claims, shared) ∧
    0 < sumZ (λ dc, AmountOf (dc_Claim dc) "uphoton") claims ≤ 300.
Proof.
  assert (length (consumer_shares 0 shared) = 2)%nat as El by test.
  assert (pool_balance 0 "uphoton" shared = 300) as Ep by test.
  destruct shared_walk as (claims & E & Ec).
  destruct (listed_claims_fit_the_pool 0 1 (at_block 6) shared claims "uphoton" shared_ledger_ok shared_live shared_named)
    as [_ H]; [lia|rewrite El; lia|exact E|].
  rewrite El in E. exists claims. split; [exact E|]. split; [rewrite Ec; test|exact (le_via _ _ _ Ep H)].
Defined.

(** Validator 1 runs the consumer under a key of its own. *)
Definition addressed_test (m : gmap (N * string) PubKey) : bool :=
  forallb (λ kv, negb (String.eqb kv.1.2 "") && negb (String.eqb (default "a" (key_addr kv.2)) "")) (map_to_list m).
Lemma addressed_by_test id (w : World) : addressed_test (s_ValidatorConsumerPubKey w) = true → addressed id w.
Proof.
  intros H p k Hk. unfold GetValidatorConsumerPubKey in Hk. apply elem_of_map_to_list in Hk.
  pose proof (forall_test _ _ H _ Hk) as E. cbn [fst snd] in E. apply andb_true_iff in E as [Ep Ea].
  apply negb_true_iff, String.eqb_neq in Ep, Ea. split; [done|]. intros a Eka. by rewrite Eka in Ea.
Qed.
Lemma keyed_addressed : addressed 0 keyed.
Proof. apply addressed_by_test. vm_compute. reflexivity. Qed.
Lemma key_queries_agree_witness :
  ∃ pairs, QueryAllPairsValConsAddrByConsumer (Some 0%N) (at_block 6) keyed = (Ok pairs, keyed) ∧
    mkPair "key1" "ckey1" "ckey1" ∈ pairs ∧
    QueryValidatorProviderAddr (Some (0%N, "ckey1")) (at_block 6) keyed = (Ok "key1", keyed).
Proof.
  destruct (key_queries_agree 0 (at_block 6) keyed keyed_keys_ok keyed_addressed) as (pairs & E & _ & Hin & Hq).
  assert (GetValidatorConsumerPubKey 0 "key1" keyed = Some "ckey1") as Ek by test.
  destruct (Hin _ _ Ek) as (a & Ea & Hp). injection Ea as <-.
  exists pairs. split; [exact E|]. split; [exact Hp|]. exact (proj2 (proj2 (Hq _ Hp))).
Defined.

(** *** A consumer's history: two blocks of a chain that keeps one info *)
Definition short_params : ConsumerParams :=
  mkConsumerParams Hour 1 (20 * Day) (3 * Hour) 8 (cp_MinSignedPerWindow consumer_params) "alice" false.
Definition short_memory : CWorld :=
  upd_CParams (λ _, Some short_params) consumer_chain.
Definition block_2 : CWorld := exec TrackHistoricalInfo (at_consumer 1) short_memory.
Definition block_3 : CWorld := exec TrackHistoricalInfo (at_consumer 2) block_2.
(** Governance raises the number of entries before the third block. *)
Definition long_memory : CWorld := upd_CParams (λ _, Some consumer_params) block_3.
Definition block_4 : CWorld := exec TrackHistoricalInfo (at_consumer 3) long_memory.
Definition the_set : list VaasValidator := GetAllVaasValidator consumer_chain.
Lemma one_fits : in_int64 1 ∧ in_int64 2 ∧ in_int64 3 ∧ in_int64 100.
Proof. unfold in_int64, int64_min, int64_max. lia. Qed.
Lemma three_blocks : tracked 1 [(1, the_set); (1, the_set); (100, the_set)] block_4.
Proof.
  assert (tracked 1 [(1, the_set)] block_2) as H1.
  { apply (tracked_block 1 [] (at_consumer 1) short_memory short_params block_2 block_2);
      [by apply tracked_start|done|apply one_fits|reflexivity|done|apply one_fits|run_it|done]. }
  assert (tracked 1 [(1, the_set); (1, the_set)] long_memory) as H2.
  { apply (tracked_block 1 [(1, the_set)] (at_consumer 2) block_2 short_params block_3 long_memory);
      [done|done|apply one_fits|reflexivity|done|apply one_fits|run_it|done]. }
  apply (tracked_block 1 [(1, the_set); (1, the_set)] (at_consumer 3) long_memory consumer_params block_4 block_4);
    [done|done|apply one_fits|reflexivity|done|apply one_fits|run_it|done].
Qed.
(** The raise brings no dropped height back. *)
Lemma history_serves_the_last_heights_witness :
  GetHistoricalInfo 2 (at_consumer 4) block_4 = (Ok (NewHistoricalInfo 2 the_set), block_4) ∧
  GetHistoricalInfo 3 (at_consumer 4) block_4 = (Ok (NewHistoricalInfo 3 the_set), block_4) ∧
  GetHistoricalInfo 1 (at_consumer 4) block_4 = (Err (ErrOther "no historical info"), block_4).
Proof.
  destruct (history_serves_the_last_heights 1 _ (at_consumer 4) block_4 ltac:(lia) three_blocks) as (H1 & H2 & _).
  split_and!.
  - apply (H1 1%nat 1 the_set); [done|]. intros [|[|[|k]]] b [= <-]; cbn; lia.
  - apply (H1 2%nat 100 the_set); [done|]. intros [|[|[|k]]] b [= <-]; cbn; lia.
  - apply (H2 1). intros [_ Hk]. specialize (Hk 1%nat _ eq_refl). cbn in Hk. lia.
Defined.

(** *** A silent consumer *)
Definition late : Ctx := at_block 200.
Definition the_grace : Duration := match (LivenessGracePeriod late funded).1 with Ok g => g | _ => 0 end.
Lemma funded_grace : LivenessGracePeriod late funded = (Ok the_grace, funded).
Proof. apply ran_reading; [unfold LivenessGracePeriod, GetParams; pres|vm_compute; reflexivity]. Qed.
Definition in_range_test (c : Ctx) (w : World) : bool :=
  forallb (λ id, (int64_min <=? BlockTime c - last_ack c w id) && (BlockTime c - last_ack c w id <=? int64_max)) (GetAllLaunchedConsumerIds w).
Lemma in_range_by_test c w :
  in_range_test c w = true → ∀ id, id ∈ GetAllLaunchedConsumerIds w → in_int64 (BlockTime c - last_ack c w id).
Proof. intros H id Hid. pose proof (forall_test _ _ H id Hid) as E. cbn in E. unfold in_int64. lia. Qed.
Definition funded_ack : Time := default 0 (s_ConsumerLastAckTime funded !! 0%N).
Lemma late_enough : time_After (BlockTime late) (time_Add funded_ack the_grace) = true.
Proof. vm_compute. reflexivity. Qed.
Lemma swept_stopped c w unbonding id (b : bool) w' : b = true → LivenessProofs.swept c w unbonding id b w' → LivenessProofs.swept c w unbonding id true w'.
Proof. by intros ->. Qed.
Lemma liveness_query_foretells_the_sweep_witness :
  ∃ w', SweepUnresponsiveConsumers late funded = (Ok tt, w') ∧ GetConsumerPhase 0 funded = CONSUMER_PHASE_LAUNCHED ∧
    GetConsumerPhase 0 w' = CONSUMER_PHASE_STOPPED.
Proof.
  destruct (liveness_query_foretells_the_sweep late (at_block 5) funded the_grace (21 * Day)) as (w' & E & _ & _ & _ & H);
    [test|exact funded_grace|apply in_range_by_test; vm_compute; reflexivity|].
  exists w'. split; [exact E|]. split; [test|].
  destruct (H 0%N funded_ack) as (r & _ & _ & Eta & Hs); [test|test|]. rewrite Eta in Hs.
  exact (proj1 (swept_stopped _ _ _ _ _ _ late_enough Hs)).
Defined.
